(** * Sorteo: a prize draw over a fixed pool of prize tokens

    Shallow embedding of the three server variants of the repository:
    - [ServerPg]    : src/server.js          (PostgreSQL, prize tokens, transaction)
    - [ServerMysql] : src/unnamed/part_001   (MySQL, prize tokens, autocommit)
    - [ServerCount] : src/unnamed/part_002   (PostgreSQL, winners table only,
                                              count-then-insert)
    and of the schema of src/unnamed/part_000.

    A request handler is a program over two effects, [client.query(...)] and
    [Math.random()].  Between two [await]s a Node handler runs atomically, so
    a handler is a sequence of atomic store statements; concurrent requests
    are interleavings of these statements. *)

From Stdlib Require Import String List Bool Arith ZArith QArith Lia.
Import ListNotations.
Close Scope Q_scope.
Open Scope string_scope.
Open Scope nat_scope.
Open Scope list_scope.

(** ** JavaScript numbers, as far as the handlers use them *)

(** A JS number is a finite double (a rational) or one of the three special
    values.  [Number(x)] results are values of this type. *)
Inductive js_number : Type :=
| Finite (q : Q)
| NaN
| PosInf
| NegInf.

(** [Number.isFinite] *)
Definition isFinite (n : js_number) : bool :=
  match n with Finite _ => true | _ => false end.

Definition Qltb (x y : Q) : bool := negb (Qle_bool y x).

(** [r < rate] where [r] is the finite value returned by [Math.random()]:
    any comparison with NaN is false. *)
Definition js_lt (r : Q) (rate : js_number) : bool :=
  match rate with
  | Finite q => Qltb r q
  | PosInf => true
  | NaN | NegInf => false
  end.

(** [Math.random()] returns a value in [0, 1). *)
Definition in_unit_interval (r : Q) : bool := Qle_bool 0 r && Qltb r 1.

(** ** Requests and responses *)

(** The value of the [deviceId] field of a JSON body, as far as the handlers
    can tell values apart: they test whether it is falsy and whether it is a
    string, and they pass it to the database driver as the parameter of a
    statement on a text column. *)
Inductive id_value : Type :=
  | NoId                      (* the field is missing, or is null, false or 0 *)
  | StringId (s : string)     (* a string; the empty string is falsy *)
  | OtherId (text : string).  (* a truthy value that is not a string (a number,
                                 true, an object, an array); [text] is what the
                                 driver sends for it *)

(** The fields the handlers read from [req.body].
    - [deviceId_value]: the [deviceId] field.
    - [winRate]: [None] when the field is absent ([undefined]); otherwise
      [Some n] where [n] is what [Number(winRate)] evaluates to. *)
Record request : Type := {
  deviceId_value : id_value;
  winRate : option js_number
}.

(** The [deviceId] when [typeof deviceId === "string"]: [Some s] when the body
    carries a string [s], [None] when the field is missing or is not a
    string. *)
Definition deviceId (req : request) : option string :=
  match deviceId_value req with
  | StringId s => Some s
  | NoId | OtherId _ => None
  end.

(** [req.body || {}]: a request without a body is read as one without
    fields. *)
Definition no_fields : request := {| deviceId_value := NoId; winRate := None |}.

Definition body_or_empty (body : option request) : request :=
  match body with Some b => b | None => no_fields end.

(** [Number(winRate)]: [Number(undefined)] is NaN. *)
Definition Number_winRate (w : option js_number) : js_number :=
  match w with None => NaN | Some n => n end.

(** The JSON object sent with [res.status(status).json(...)]; a field that the
    object literal does not have is [None]. *)
Record response : Type := {
  status : nat;
  ok : bool;
  won : option bool;
  reason : option string;
  remaining : option Z;
  error : option string
}.

(** ** Handler programs *)

Section Prog.
Variables Stmt Res : Type.

  (** [Query s k]: [await client.query(s)], then [k] on the result.
      [Random k]: [Math.random()].  [Throw]: an exception is propagating. *)
Inductive prog (R : Type) : Type :=
  | Ret (r : R)
  | Throw
  | Query (s : Stmt) (k : Res -> prog R)
  | Random (k : Q -> prog R).

Arguments Ret {R} r.
Arguments Throw {R}.
Arguments Query {R} s k.
Arguments Random {R} k.

Fixpoint bind {A B : Type} (p : prog A) (f : A -> prog B) : prog B :=
    match p with
    | Ret a => f a
    | Throw => Throw
    | Query s k => Query s (fun res => bind (k res) f)
    | Random k => Random (fun r => bind (k r) f)
    end.

Definition query (s : Stmt) : prog Res := Query s (fun res => Ret res).
Definition random : prog Q := Random (fun r => Ret r).

  (** A request in flight: the rest of the [try] block and, while control is
      inside the [try], the [catch] block. *)
Record thread : Type := {
    body : prog response;
    handler : option (prog response)
  }.

  (** An exception inside [try] enters [catch]; one outside is not handled. *)
Definition throw (t : thread) : thread :=
    match handler t with
    | Some h => {| body := h; handler := None |}
    | None => {| body := Throw; handler := None |}
    end.

Definition reply (t : thread) : option response :=
    match body t with Ret r => Some r | _ => None end.

  (** *** The store interface *)

Variable Store : Type.

  (** What a statement issued on connection [c] does: it completes with a
      result, it is rejected by the store (an exception in the driver), or it
      has to wait for another transaction. *)
Inductive exec_result : Type :=
  | Done (res : Res) (s : Store)
  | Raised (s : Store)
  | Blocked.

Variable exec : nat -> Stmt -> Store -> exec_result.

  (** *** One request at a time *)

Inductive event : Type :=
  | EvQuery (s : Stmt) (completed : bool)
  | EvRandom (r : Q).

Inductive outcome (R : Type) : Type :=
  | Returned (r : R)
  | Threw
  | Waiting.

Arguments Returned {R} r.
Arguments Threw {R}.
Arguments Waiting {R}.

  (** [run c p r faults s]: run [p] on connection [c].  [r] is the value
      [Math.random()] returns; [faults] says, statement by statement, whether
      the store is unavailable (the statement fails without effect).  The
      result also gives the unused part of [faults], the store and the
      events in order. *)
Fixpoint run {R : Type} (c : nat) (p : prog R) (r : Q) (faults : list bool)
      (s : Store) : outcome R * (list bool * Store * list event) :=
    match p with
    | Ret a => (Returned a, (faults, s, []))
    | Throw => (Threw, (faults, s, []))
    | Random k =>
        let '(o, (fs, s', tr)) := run c (k r) r faults s in
        (o, (fs, s', EvRandom r :: tr))
    | Query q k =>
        if hd false faults then (Threw, (tl faults, s, [EvQuery q false]))
        else
          match exec c q s with
          | Done res s' =>
              let '(o, (fs, s'', tr)) := run c (k res) r (tl faults) s' in
              (o, (fs, s'', EvQuery q true :: tr))
          | Raised s' => (Threw, (tl faults, s', [EvQuery q false]))
          | Blocked => (Waiting, (tl faults, s, []))
          end
    end.

  (** What the handler sends: a response, or nothing when an exception
      escaped it or the request never finished. *)
Definition run_thread (c : nat) (t : thread) (r : Q) (faults : list bool)
      (s : Store) : option response * (Store * list event) :=
    match run c (body t) r faults s with
    | (Returned a, (_, s', tr)) => (Some a, (s', tr))
    | (Threw, (fs, s', tr)) =>
        match handler t with
        | Some h =>
            match run c h r fs s' with
            | (Returned a, (_, s'', tr')) => (Some a, (s'', tr ++ tr'))
            | (_, (_, s'', tr')) => (None, (s'', tr ++ tr'))
            end
        | None => (None, (s', tr))
        end
    | (Waiting, (_, s', tr)) => (None, (s', tr))
    end.

  (** *** Concurrent requests *)

  (** What happens at one step of thread [i]: its pending statement completes
      or fails, or its [Math.random()] returns [r]. *)
Inductive action : Type :=
  | Complete
  | Fail
  | Draw (r : Q).

Definition thread_step (c : nat) (a : action) (t : thread) (s : Store)
      : option (thread * Store) :=
    match body t, a with
    | Query q k, Complete =>
        match exec c q s with
        | Done res s' => Some ({| body := k res; handler := handler t |}, s')
        | Raised s' => Some (throw t, s')
        | Blocked => None
        end
    | Query q k, Fail => Some (throw t, s)
    | Random k, Draw r =>
        if in_unit_interval r
        then Some ({| body := k r; handler := handler t |}, s)
        else None
    | _, _ => None
    end.

Fixpoint set_nth {A : Type} (i : nat) (x : A) (l : list A) : list A :=
    match l, i with
    | [], _ => []
    | _ :: l', O => x :: l'
    | y :: l', S i' => y :: set_nth i' x l'
    end.

  (** A schedule lists which thread moves and how; thread [i] uses connection
      [i].  [None]: the schedule asks for a step that cannot happen. *)
Fixpoint sched_run (sch : list (nat * action)) (s : Store)
      (ths : list thread) : option (Store * list thread) :=
    match sch with
    | [] => Some (s, ths)
    | (i, a) :: sch' =>
        match nth_error ths i with
        | Some t =>
            match thread_step i a t s with
            | Some (t', s') => sched_run sch' s' (set_nth i t' ths)
            | None => None
            end
        | None => None
        end
    end.

Definition replies (ths : list thread) : list (option response) :=
    map reply ths.
End Prog.

Arguments bind {Stmt Res A B} p f.
Arguments query {Stmt Res} s.
Arguments random {Stmt Res}.
Arguments body {Stmt Res} t.
Arguments handler {Stmt Res} t.
Arguments Build_thread {Stmt Res} body handler.
Arguments throw {Stmt Res} t.
Arguments reply {Stmt Res} t.
Arguments run {Stmt Res Store} exec {R} c p r faults s.
Arguments run_thread {Stmt Res Store} exec c t r faults s.
Arguments thread_step {Stmt Res Store} exec c a t s.
Arguments set_nth {A} i x l.
Arguments sched_run {Stmt Res Store} exec sch s ths.
Arguments replies {Stmt Res} ths.
Arguments Ret {Stmt Res R} r.
Arguments Throw {Stmt Res R}.
Arguments Query {Stmt Res R} s k.
Arguments Random {Stmt Res R} k.
Arguments Done {Res Store} res s.
Arguments Raised {Res Store} s.
Arguments Blocked {Res Store}.
Arguments Returned {R} r.
Arguments Threw {R}.
Arguments Waiting {R}.
Arguments EvQuery {Stmt} s completed.
Arguments EvRandom {Stmt} r.

Notation "x <- p ;; k" := (bind p (fun x => k))
  (at level 61, p at next level, right associativity).
Notation "p ;;; k" := (bind p (fun _ => k))
  (at level 61, right associativity).

(** ** The store: tables [prize_tokens] and [winners] (src/unnamed/part_000) *)

Module Db.

  (** A row of [prize_tokens]: [id serial PRIMARY KEY], [claimed_by text NULL],
      [claimed_at timestamptz NULL]. *)
Record token : Type := {
    id : nat;
    claimed_by : option string;
    claimed_at : option nat
  }.

  (** A row of [winners]: [device_id text PRIMARY KEY], [created_at]. *)
Record winner : Type := {
    device_id : string;
    created_at : nat
  }.

  (** A stored token row: its committed version and, while an open
      transaction has updated it, the connection that holds the row lock with
      the version it wrote. *)
Record token_row : Type := {
    cur : token;
    upd : option (nat * token)
  }.

  (** A stored winners row; [ins = Some c] while the transaction of connection
      [c] that inserted it is still open. *)
Record winner_row : Type := {
    wrow : winner;
    ins : option nat
  }.

Record db : Type := {
    prize_tokens : list token_row;
    winners : list winner_row;
    in_tx : list nat;          (* connections with an open transaction *)
    clock : nat                (* now() *)
  }.

  (** The statements the two token servers send. *)
Inductive stmt : Type :=
  | SELECT_remaining
      (* SELECT COUNT( * ) AS remaining FROM prize_tokens WHERE claimed_by IS NULL *)
  | SELECT_winner (d : string)
      (* SELECT 1 FROM winners WHERE device_id = $1 LIMIT 1 *)
  | UPDATE_claim_skip_locked (d : string)
      (* WITH c AS (SELECT id FROM prize_tokens WHERE claimed_by IS NULL
                    FOR UPDATE SKIP LOCKED LIMIT 1)
         UPDATE prize_tokens p SET claimed_by = $1, claimed_at = now()
         FROM c WHERE p.id = c.id RETURNING p.id *)
  | UPDATE_claim_limit_1 (d : string)
      (* UPDATE prize_tokens SET claimed_by = ?, claimed_at = NOW()
         WHERE claimed_by IS NULL LIMIT 1 *)
  | INSERT_winner (d : string)
      (* INSERT INTO winners (device_id) VALUES ($1)
         ON CONFLICT (device_id) DO NOTHING     (server.js)
         INSERT IGNORE INTO winners (device_id) VALUES (?)   (part_001) *)
  | BEGIN
  | COMMIT
  | ROLLBACK.

  (** What the driver hands back: the rows (one integer column is all the
      handlers read) and the number of rows a write affected. *)
Record result : Type := {
    rows : list Z;
    affectedRows : nat
  }.

Definition no_rows : result := {| rows := []; affectedRows := 0 |}.

Definition is_null (x : option string) : bool :=
    match x with None => true | Some _ => false end.

  (** The version of a token row that connection [c] reads: its own
      uncommitted update, otherwise the committed row. *)
Definition seen (c : nat) (r : token_row) : token :=
    match upd r with
    | Some (c', t) => if Nat.eqb c' c then t else cur r
    | None => cur r
    end.

Definition locked_by_other (c : nat) (r : token_row) : bool :=
    match upd r with
    | Some (c', _) => negb (Nat.eqb c' c)
    | None => false
    end.

  (** A row [c] can claim: [claimed_by IS NULL] and not locked by another
      transaction. *)
Definition claimable (c : nat) (r : token_row) : bool :=
    is_null (claimed_by (seen c r)) && negb (locked_by_other c r).

Definition in_transaction (c : nat) (s : db) : bool :=
    existsb (Nat.eqb c) (in_tx s).

  (** [SET claimed_by = d, claimed_at = now()] on row [r], inside a
      transaction ([intx]) or autocommitted. *)
Definition claim_row (c : nat) (intx : bool) (d : string) (now : nat)
      (r : token_row) : token_row :=
    let t := {| id := id (cur r); claimed_by := Some d; claimed_at := Some now |} in
    if intx then {| cur := cur r; upd := Some (c, t) |}
    else {| cur := t; upd := None |}.

  (** Claim the first claimable row, if there is one; gives its id. *)
Fixpoint claim_first (c : nat) (intx : bool) (d : string) (now : nat)
      (l : list token_row) : option (nat * list token_row) :=
    match l with
    | [] => None
    | r :: l' =>
        if claimable c r then Some (id (cur r), claim_row c intx d now r :: l')
        else
          match claim_first c intx d now l' with
          | Some (i, l'') => Some (i, r :: l'')
          | None => None
          end
    end.

  (** [COUNT( * ) ... WHERE claimed_by IS NULL] as connection [c] reads it. *)
Definition count_free (c : nat) (l : list token_row) : nat :=
    length (filter (fun r => is_null (claimed_by (seen c r))) l).

  (** A winners row that connection [c] reads: committed, or its own. *)
Definition reads (c : nat) (w : winner_row) : bool :=
    match ins w with None => true | Some c' => Nat.eqb c' c end.

Definition has_device (d : string) (w : winner_row) : bool :=
    String.eqb (device_id (wrow w)) d.

Definition commit_token (c : nat) (r : token_row) : token_row :=
    match upd r with
    | Some (c', t) => if Nat.eqb c' c then {| cur := t; upd := None |} else r
    | None => r
    end.

Definition rollback_token (c : nat) (r : token_row) : token_row :=
    match upd r with
    | Some (c', _) => if Nat.eqb c' c then {| cur := cur r; upd := None |} else r
    | None => r
    end.

Definition commit_winner (c : nat) (w : winner_row) : winner_row :=
    if reads c w then {| wrow := wrow w; ins := None |} else w.

Definition own_insert (c : nat) (w : winner_row) : bool :=
    match ins w with Some c' => Nat.eqb c' c | None => false end.

Definition remove_conn (c : nat) (l : list nat) : list nat :=
    filter (fun c' => negb (Nat.eqb c c')) l.

Definition tick (s : db) (ts : list token_row) (ws : list winner_row)
      (tx : list nat) : db :=
    {| prize_tokens := ts; winners := ws; in_tx := tx; clock := S (clock s) |}.

Definition one_row (n : Z) : result := {| rows := [n]; affectedRows := 0 |}.

  (** The effect of one statement issued on connection [c].  Every statement
      is atomic.  No statement of the token servers is rejected by the store:
      the winners insert ignores a conflict. *)
Definition exec (c : nat) (q : stmt) (s : db) : exec_result result db :=
    let ts := prize_tokens s in
    let ws := winners s in
    let tx := in_tx s in
    match q with
    | SELECT_remaining =>
        Done (one_row (Z.of_nat (count_free c ts))) (tick s ts ws tx)
    | SELECT_winner d =>
        Done (if existsb (fun w => has_device d w && reads c w) ws
              then one_row 1 else no_rows)
             (tick s ts ws tx)
    | UPDATE_claim_skip_locked d =>
        match claim_first c (in_transaction c s) d (clock s) ts with
        | Some (i, ts') =>
            Done {| rows := [Z.of_nat i]; affectedRows := 1 |} (tick s ts' ws tx)
        | None => Done no_rows (tick s ts ws tx)
        end
    | UPDATE_claim_limit_1 d =>
        if existsb (locked_by_other c) ts then Blocked
        else
          match claim_first c (in_transaction c s) d (clock s) ts with
          | Some (_, ts') =>
              Done {| rows := []; affectedRows := 1 |} (tick s ts' ws tx)
          | None => Done no_rows (tick s ts ws tx)
          end
    | INSERT_winner d =>
        if existsb (fun w => has_device d w && reads c w) ws
        then Done no_rows (tick s ts ws tx)
        else if existsb (has_device d) ws then Blocked
        else
          Done {| rows := []; affectedRows := 1 |}
               (tick s ts
                  (ws ++ [{| wrow := {| device_id := d; created_at := clock s |};
                             ins := if in_transaction c s then Some c else None |}])
                  tx)
    | BEGIN =>
        Done no_rows (tick s ts ws (if in_transaction c s then tx else c :: tx))
    | COMMIT =>
        Done no_rows
             (tick s (map (commit_token c) ts) (map (commit_winner c) ws)
                   (remove_conn c tx))
    | ROLLBACK =>
        Done no_rows
             (tick s (map (rollback_token c) ts)
                   (filter (fun w => negb (own_insert c w)) ws)
                   (remove_conn c tx))
    end.

  (** The store after part_000 has run on an empty database with
      [generate_series(1,n)]: [n] free tokens, no winner. *)
Definition seeded (n : nat) : db :=
    {| prize_tokens :=
         map (fun i => {| cur := {| id := i; claimed_by := None; claimed_at := None |};
                          upd := None |}) (seq 1 n);
       winners := [];
       in_tx := [];
       clock := 0 |}.

  (** Committed state, which is what survives and what other connections
      read. *)
Definition committed_tokens (s : db) : list token :=
    map cur (prize_tokens s).

Definition is_committed (w : winner_row) : bool :=
    match ins w with None => true | Some _ => false end.

Definition committed_winners (s : db) : list winner :=
    map wrow (filter is_committed (winners s)).

  (** [remainingCount()]: the free tokens of the committed table. *)
Definition remainingCount (s : db) : nat :=
    length (filter (fun t => is_null (claimed_by t)) (committed_tokens s)).

  (** [hasWon(identity)]: a committed winners row for [d]. *)
Definition is_winner (d : string) (s : db) : bool :=
    existsb (fun w => has_device d w && is_committed w) (winners s).

  (** A free token: not claimed, and no open transaction is claiming it. *)
Definition free_row (r : token_row) : bool :=
    is_null (claimed_by (cur r))
    && match upd r with None => true | Some _ => false end.

Definition not_held_by (c : nat) (r : token_row) : bool :=
    match upd r with
    | Some (c', _) => negb (Nat.eqb c' c)
    | None => true
    end.

  (** Connection [c] has written nothing that is not committed. *)
Definition no_writes (c : nat) (s : db) : bool :=
    forallb (not_held_by c) (prize_tokens s)
    && forallb (fun w => negb (own_insert c w)) (winners s).

  (** Connection [c] has just been taken from the pool: no open transaction,
      nothing uncommitted. *)
Definition idle (c : nat) (s : db) : bool :=
    negb (in_transaction c s) && no_writes c s.

  (** The three tables of the store are the same (the clock may differ). *)
Definition same_tables (s s' : db) : Prop :=
    prize_tokens s' = prize_tokens s /\
    winners s' = winners s /\
    in_tx s' = in_tx s.

Arguments count_free : simpl never.
Arguments claim_first : simpl never.
Arguments remove_conn : simpl never.

  (** No transaction is open and every row is committed: the store between
      requests, and the store of part_001 at any time (it opens no
      transaction). *)
Definition settled (s : db) : bool :=
    match in_tx s with [] => true | _ => false end
    && forallb (fun r => match upd r with None => true | Some _ => false end)
               (prize_tokens s)
    && forallb is_committed (winners s).

End Db.

(** ** Configuration and responses shared by the servers *)

(** [process.env.DEFAULT_WIN_RATE]: [None] when the variable is unset or
    empty, otherwise [Some n] with [n] the value of [Number(text)]. *)
Record env : Type := {
  env_DEFAULT_WIN_RATE : option js_number
}.

(** [Number(process.env.DEFAULT_WIN_RATE || 0.15)] *)
Definition DEFAULT_WIN_RATE (e : env) : js_number :=
  match env_DEFAULT_WIN_RATE e with
  | Some n => n
  | None => Finite (15 # 100)
  end.

(** [Number.isFinite(Number(winRate)) ? Number(winRate) : DEFAULT_WIN_RATE] *)
Definition rate_of (e : env) (req : request) : js_number :=
  if isFinite (Number_winRate (winRate req))
  then Number_winRate (winRate req)
  else DEFAULT_WIN_RATE e.

(** [res.json({ ok: true, won, reason, remaining })] *)
Definition json_draw (w : bool) (why : option string) (left : Z) : response :=
  {| status := 200; ok := true; won := Some w; reason := why;
     remaining := Some left; error := None |}.

(** [res.status(st).json({ ok: false, error: msg })] *)
Definition json_error (st : nat) (msg : string) : response :=
  {| status := st; ok := false; won := None; reason := None;
     remaining := None; error := Some msg |}.

(** ** src/server.js *)

Module ServerPg.
Import Db.

Definition getRemainingPrizes : prog stmt result Z :=
    res <- query SELECT_remaining ;;
    Ret (hd 0%Z (rows res)).                     (* rows[0]?.remaining ?? 0 *)

Definition hasWonBefore (deviceId : string) : prog stmt result bool :=
    res <- query (SELECT_winner deviceId) ;;
    Ret (0 <? length (rows res)).                (* rows.length > 0 *)

Definition tryClaimPrize (deviceId : string) : prog stmt result bool :=
    res <- query (UPDATE_claim_skip_locked deviceId) ;;
    Ret (length (rows res) =? 1).                (* rows.length === 1 *)

  (** The [try] block of [app.post("/api/draw")]. *)
Definition draw_try (deviceId : string) (rate : js_number)
      : prog stmt result response :=
    already <- hasWonBefore deviceId ;;
    if already then
      remaining <- getRemainingPrizes ;;
      Ret (json_draw false (Some "already_winner") remaining)
    else
      r <- random ;;
      let luck := js_lt r rate in
      if negb luck then
        remaining <- getRemainingPrizes ;;
        Ret (json_draw false None remaining)
      else
        query BEGIN ;;;
        claimed <- tryClaimPrize deviceId ;;
        if negb claimed then
          query ROLLBACK ;;;
          Ret (json_draw false (Some "no_prizes_left") 0%Z)
        else
          query (INSERT_winner deviceId) ;;;
          query COMMIT ;;;
          remaining <- getRemainingPrizes ;;
          Ret (json_draw true None remaining).

  (** The [catch] block. *)
Definition draw_catch : prog stmt result response :=
    query ROLLBACK ;;;
    Ret (json_error 500 "internal_error").

  (** [app.post("/api/draw")] for a request whose [pool.connect()] resolves:
      the connection it resolves with is the one the thread is run on.
      Validation and rate come before the [try]. *)
Definition draw (e : env) (req : request) : thread stmt result :=
    match deviceId req with
    | Some d =>
        if String.eqb d "" then
          {| body := Ret (json_error 400 "deviceId requerido"); handler := None |}
        else
          {| body := draw_try d (rate_of e req); handler := Some draw_catch |}
    | None =>
        {| body := Ret (json_error 400 "deviceId requerido"); handler := None |}
    end.

  (** The whole handler, from the body as it arrives ([req.body || {}]) and
      with [await pool.connect()], which is outside the [try]: [conn] is the
      connection it resolves with, [None] when it rejects; the exception then
      escapes the handler, which sends nothing. *)
Definition post_draw (e : env) (body : option request) (conn : option nat)
      (r : Q) (faults : list bool) (s : db)
      : option response * (db * list (event stmt)) :=
    let req := body_or_empty body in
    match deviceId req with
    | Some d =>
        if String.eqb d "" then
          (Some (json_error 400 "deviceId requerido"), (s, []))
        else
          match conn with
          | Some c => run_thread exec c (draw e req) r faults s
          | None => (None, (s, []))
          end
    | None => (Some (json_error 400 "deviceId requerido"), (s, []))
    end.
End ServerPg.

(** ** src/unnamed/part_001 *)

Module ServerMysql.
Import Db.

Definition getRemainingPrizes : prog stmt result Z :=
    res <- query SELECT_remaining ;;
    Ret (hd 0%Z (rows res)).

Definition hasWonBefore (deviceId : string) : prog stmt result bool :=
    res <- query (SELECT_winner deviceId) ;;
    Ret (0 <? length (rows res)).

Definition tryClaimPrize (deviceId : string) : prog stmt result bool :=
    res <- query (UPDATE_claim_limit_1 deviceId) ;;
    Ret (affectedRows res =? 1).                 (* res.affectedRows === 1 *)

Definition draw_try (deviceId : string) (rate : js_number)
      : prog stmt result response :=
    already <- hasWonBefore deviceId ;;
    if already then
      remaining <- getRemainingPrizes ;;
      Ret (json_draw false (Some "already_winner") remaining)
    else
      r <- random ;;
      let luck := js_lt r rate in
      if negb luck then
        remaining <- getRemainingPrizes ;;
        Ret (json_draw false None remaining)
      else
        claimed <- tryClaimPrize deviceId ;;
        if negb claimed then
          Ret (json_draw false (Some "no_prizes_left") 0%Z)
        else
          query (INSERT_winner deviceId) ;;;
          remaining <- getRemainingPrizes ;;
          Ret (json_draw true None remaining).

Definition draw_catch : prog stmt result response :=
    Ret (json_error 500 "internal_error").

  (** [app.post("/api/draw")] for a request whose [pool.getConnection()]
      resolves: the connection it resolves with is the one the thread is run
      on. *)
Definition draw (e : env) (req : request) : thread stmt result :=
    match deviceId req with
    | Some d =>
        if String.eqb d "" then
          {| body := Ret (json_error 400 "deviceId requerido"); handler := None |}
        else
          {| body := draw_try d (rate_of e req); handler := Some draw_catch |}
    | None =>
        {| body := Ret (json_error 400 "deviceId requerido"); handler := None |}
    end.

  (** The whole handler, from the body as it arrives ([req.body || {}]) and
      with [await pool.getConnection()], which is outside the [try]: [conn]
      is the connection it resolves with, [None] when it rejects; the
      exception then escapes the handler, which sends nothing. *)
Definition post_draw (e : env) (body : option request) (conn : option nat)
      (r : Q) (faults : list bool) (s : db)
      : option response * (db * list (event stmt)) :=
    let req := body_or_empty body in
    match deviceId req with
    | Some d =>
        if String.eqb d "" then
          (Some (json_error 400 "deviceId requerido"), (s, []))
        else
          match conn with
          | Some c => run_thread exec c (draw e req) r faults s
          | None => (None, (s, []))
          end
    | None => (Some (json_error 400 "deviceId requerido"), (s, []))
    end.
End ServerMysql.

(** ** src/unnamed/part_002 *)

Module ServerCount.

  (** A row of the [winners] table this server creates: [id SERIAL],
      [device_id TEXT UNIQUE NOT NULL], [won BOOLEAN NOT NULL],
      [created_at]. *)
Record winner : Type := {
    id : nat;
    device_id : string;
    won_col : bool;
    created_at : nat
  }.

Record db : Type := {
    winners : list winner;
    next_id : nat;             (* the SERIAL sequence *)
    clock : nat
  }.

Inductive stmt : Type :=
  | SELECT_won (d : string)
      (* SELECT won FROM winners WHERE device_id = $1 *)
  | INSERT_winner (d : string) (w : bool)
      (* INSERT INTO winners(device_id, won) VALUES($1, $2) *)
  | SELECT_count_won.
      (* SELECT COUNT( * ) FROM winners WHERE won = true *)

  (** A result row: the [won] column of a winners row, or the [count]
      column. *)
Inductive row : Type :=
  | Won (b : bool)
  | Count (n : nat).

Record result : Type := { rows : list row }.

Definition has_device (d : string) (w : winner) : bool :=
    String.eqb (device_id w) d.

  (** Statements go through [pool.query]: each is its own transaction.  The
      insert has no conflict clause: a second row for a [device_id] violates
      the UNIQUE constraint and the statement is rejected. *)
Definition exec (c : nat) (q : stmt) (s : db) : exec_result result db :=
    match q with
    | SELECT_won d =>
        Done {| rows := map (fun w => Won (won_col w))
                            (filter (has_device d) (winners s)) |}
             {| winners := winners s; next_id := next_id s; clock := S (clock s) |}
    | SELECT_count_won =>
        Done {| rows := [Count (length (filter won_col (winners s)))] |}
             {| winners := winners s; next_id := next_id s; clock := S (clock s) |}
    | INSERT_winner d w =>
        if existsb (has_device d) (winners s)
        then Raised {| winners := winners s; next_id := S (next_id s);
                       clock := S (clock s) |}
        else Done {| rows := [] |}
                  {| winners := winners s ++
                                [{| id := next_id s; device_id := d; won_col := w;
                                    created_at := clock s |}];
                     next_id := S (next_id s); clock := S (clock s) |}
    end.

Definition MAX_PRIZES : Z := 10.

  (** [parseInt(result.rows[0].count, 10)] *)
Definition countWinners : prog stmt result Z :=
    res <- query SELECT_count_won ;;
    Ret (match rows res with Count n :: _ => Z.of_nat n | _ => 0%Z end).

  (** [prev.rows[0].won] *)
Definition first_won (res : result) : option bool :=
    match rows res with Won b :: _ => Some b | _ => None end.

Definition draw_try (deviceId : string) : prog stmt result response :=
    prev <- query (SELECT_won deviceId) ;;
    if 0 <? length (rows prev) then
      n <- countWinners ;;
      Ret {| status := 200; ok := true; won := first_won prev;
             remaining := Some (MAX_PRIZES - n)%Z;
             reason := Some "already_winner"; error := None |}
    else
      winnersCount <- countWinners ;;
      if (MAX_PRIZES <=? winnersCount)%Z then
        query (INSERT_winner deviceId false) ;;;
        Ret (json_draw false (Some "no_prizes_left") 0%Z)
      else
        r <- random ;;
        let winChance := js_lt r (Finite (3 # 10)) in
        let won := winChance in
        query (INSERT_winner deviceId won) ;;;
        n <- countWinners ;;
        Ret (json_draw won None (MAX_PRIZES - n)%Z).

Definition draw_catch : prog stmt result response :=
    Ret (json_error 200 "Error en servidor").

  (** The [deviceId] when it is truthy, as the statements get it: this
      handler tests [!deviceId] only, so a truthy value that is not a string
      goes to the statements as the driver sends it. *)
Definition truthy_id (req : request) : option string :=
    match deviceId_value req with
    | StringId d => if String.eqb d "" then None else Some d
    | OtherId d => Some d
    | NoId => None
    end.

  (** [app.post("/api/draw")] on a request that has a body. *)
Definition draw (req : request) : thread stmt result :=
    match truthy_id req with
    | Some d => {| body := draw_try d; handler := Some draw_catch |}
    | None =>
        {| body := Ret (json_error 200 "Falta deviceId"); handler := None |}
    end.

  (** The whole handler.  [const { deviceId } = req.body;] is outside the
      [try]: when the request has no body the destructuring throws, and the
      handler sends nothing. *)
Definition post_draw (body : option request) : thread stmt result :=
    match body with
    | Some req => draw req
    | None => {| body := Throw; handler := None |}
    end.

Definition empty : db := {| winners := []; next_id := 1; clock := 0 |}.

(** The outcome stored for [d]: the [won] column of its winners row. *)
Definition stored (d : string) (s : db) : option bool :=
  option_map won_col (find (has_device d) (winners s)).

(** What [countWinners()] counts. *)
Definition count_won (s : db) : nat := length (filter won_col (winners s)).

(** The request is one of device [d]: its statements have [d] as
    parameter. *)
Definition asks (d : string) (req : request) : bool :=
  match truthy_id req with Some d' => String.eqb d' d | None => false end.
End ServerCount.

(** ** Vocabulary of the properties *)

(** The request carries the non-empty string [d] as [deviceId]. *)
Definition valid (req : request) (d : string) : Prop :=
  deviceId req = Some d /\ String.eqb d "" = false.

(** A statement of the claim-and-register transaction of src/server.js. *)
Definition tx_stmt (q : Db.stmt) : bool :=
  match q with
  | Db.BEGIN | Db.UPDATE_claim_skip_locked _ | Db.INSERT_winner _
  | Db.COMMIT => true
  | _ => false
  end.

(** The event: a statement of the transaction failed. *)
Definition failed_tx_stmt (ev : event Db.stmt) : bool :=
  match ev with
  | EvQuery q false => tx_stmt q
  | _ => false
  end.

(** *** Requests served one after the other *)

Section Serve.
Variables Stmt Res Store : Type.
Variable exec : nat -> Stmt -> Store -> exec_result Res Store.
Variable server : request -> thread Stmt Res.

(** A request as it arrives: its body, the value its [Math.random()] call
    would return, and the availability of the store during it. *)
Record arrival : Type := {
  a_req : request;
  a_random : Q;
  a_faults : list bool
}.

Record served : Type := {
  s_req : request;
  s_reply : option response;
  s_trace : list (event Stmt)
}.

(** The [k]-th request runs to its end on connection [c + k] before the
    next one starts. *)
Fixpoint serve (c : nat) (arr : list arrival) (s : Store)
    : list served * Store :=
  match arr with
  | [] => ([], s)
  | a :: rest =>
      let '(rp, (s', tr)) :=
        run_thread exec c (server (a_req a)) (a_random a) (a_faults a) s in
      let '(out, s'') := serve (S c) rest s' in
      ({| s_req := a_req a; s_reply := rp; s_trace := tr |} :: out, s'')
  end.
End Serve.

Arguments serve {Stmt Res Store} exec server c arr s.
Arguments s_req {Stmt} s.
Arguments s_reply {Stmt} s.
Arguments s_trace {Stmt} s.
Arguments Build_served {Stmt} s_req s_reply s_trace.

Definition is_random {Stmt : Type} (ev : event Stmt) : bool :=
  match ev with EvRandom _ => true | _ => false end.

(** The reply says [won: true]. *)
Definition says_won (rp : option response) : bool :=
  match rp with
  | Some a => match won a with Some true => true | _ => false end
  | None => false
  end.

(** The reply is a draw result ([ok: true]) with [won: w]. *)
Definition draw_result (w : bool) (rp : option response) : bool :=
  match rp with
  | Some a => ok a && match won a with Some b => Bool.eqb b w | None => false end
  | None => false
  end.

(** The reply is a draw result ([ok: true]), not an error. *)
Definition is_ok (rp : option response) : bool :=
  match rp with Some a => ok a | None => false end.

(** The request is from device [d]. *)
Definition from (d : string) (req : request) : bool :=
  match deviceId req with Some d' => String.eqb d' d | None => false end.

(** *** Invariants of the token store *)

(** An uncommitted update sits on a committed-free row and is a claim of that
    same row. *)
Definition wf_row (r : Db.token_row) : bool :=
  match Db.upd r with
  | Some (_, t) =>
      Db.is_null (Db.claimed_by (Db.cur r))
      && negb (Db.is_null (Db.claimed_by t))
      && Nat.eqb (Db.id t) (Db.id (Db.cur r))
  | None => true
  end.

Definition wf (s : Db.db) : bool := forallb wf_row (Db.prize_tokens s).

(** Row [r] became [r']: the id is the same and, if the committed row was
    claimed, the committed row is exactly the same. *)
Definition row_kept (r r' : Db.token_row) : Prop :=
  Db.id (Db.cur r') = Db.id (Db.cur r) /\
  (Db.is_null (Db.claimed_by (Db.cur r)) = false -> Db.cur r' = Db.cur r).

(** From [s] to [s'] no token was created or destroyed and no committed
    claim was cleared or reassigned. *)
Definition claims_kept (s s' : Db.db) : Prop :=
  Forall2 row_kept (Db.prize_tokens s) (Db.prize_tokens s').

(** The winners rows (committed or not) of device [d]. *)
Definition records_of (d : string) (s : Db.db) : list Db.winner_row :=
  filter (Db.has_device d) (Db.winners s).

(** No two winners rows have the same [device_id]. *)
Definition unique_devices (s : Db.db) : Prop :=
  NoDup (map (fun w => Db.device_id (Db.wrow w)) (Db.winners s)).

(** Counting the elements of a list that satisfy a test. *)
Definition count {A : Type} (f : A -> bool) (l : list A) : nat :=
  length (filter f l).

(** The committed row is claimed. *)
Definition claimed_row (r : Db.token_row) : bool :=
  negb (Db.is_null (Db.claimed_by (Db.cur r))).

(** The tokens whose claim is committed, and the free ones. *)
Definition claimed_count (s : Db.db) : nat := count claimed_row (Db.prize_tokens s).
Definition avail (s : Db.db) : nat := count Db.free_row (Db.prize_tokens s).

(** The open transaction of connection [c] holds row [r]. *)
Definition held_by (c : nat) (r : Db.token_row) : bool :=
  match Db.upd r with Some (c', _) => Nat.eqb c' c | None => false end.

(** *** Sample inputs *)

Definition env0 : env := {| env_DEFAULT_WIN_RATE := None |}.

(** A request of device [d] without [winRate], and one with [winRate: q]. *)
Definition ask (d : string) : request :=
  {| deviceId_value := StringId d; winRate := None |}.

Definition ask_rate (d : string) (q : Q) : request :=
  {| deviceId_value := StringId d; winRate := Some (Finite q) |}.

(** The token store after ["d1"] has won the only token of a pool of one. *)
Definition pool1_d1_won : Db.db :=
  {| Db.prize_tokens :=
       [{| Db.cur := {| Db.id := 1; Db.claimed_by := Some "d1"; Db.claimed_at := Some 2 |};
           Db.upd := None |}];
     Db.winners :=
       [{| Db.wrow := {| Db.device_id := "d1"; Db.created_at := 3 |}; Db.ins := None |}];
     Db.in_tx := [];
     Db.clock := 6 |}.

(** The winners table of part_002 after ["d1"] has drawn, with outcome [w]. *)
Definition count_d1 (w : bool) : ServerCount.db :=
  {| ServerCount.winners :=
       [{| ServerCount.id := 1; ServerCount.device_id := "d1";
           ServerCount.won_col := w; ServerCount.created_at := 2 |}];
     ServerCount.next_id := 2;
     ServerCount.clock := 4 |}.

(** *** Where a request of a token server stands *)

(** The points of the handlers at which a request can stand between two
    steps: before each statement and before the random draw, after its reply
    ([PReplied], inside or after the [try]), or dead after an exception that
    nothing caught. *)
Inductive phase : Type :=
| PCheck        (* about to look the device up in winners *)
| PAlready      (* known winner: about to count the free tokens *)
| PGate         (* about to call Math.random() *)
| PLost         (* lost the gate: about to count the free tokens *)
| PBegin        (* about to BEGIN *)
| PClaim        (* about to claim a token *)
| PNoPrize      (* claim gave nothing: about to ROLLBACK *)
| PRegister     (* claimed: about to insert into winners *)
| PCommit       (* about to COMMIT *)
| PFinal        (* won: about to count the free tokens *)
| PCatch        (* in the catch block: about to ROLLBACK *)
| PReplied (a : response) (in_try : bool)
| PDead.

Module PgPhases.
Import Db ServerPg.

(** The rest of [draw_try] at each phase. *)
Definition rest (d : string) (rate : js_number) (ph : phase)
    : prog stmt result response :=
  match ph with
  | PCheck => draw_try d rate
  | PAlready =>
      remaining <- getRemainingPrizes ;;
      Ret (json_draw false (Some "already_winner") remaining)
  | PGate =>
      r <- random ;;
      let luck := js_lt r rate in
      if negb luck then
        remaining <- getRemainingPrizes ;;
        Ret (json_draw false None remaining)
      else
        query BEGIN ;;;
        claimed <- tryClaimPrize d ;;
        if negb claimed then
          query ROLLBACK ;;;
          Ret (json_draw false (Some "no_prizes_left") 0%Z)
        else
          query (INSERT_winner d) ;;;
          query COMMIT ;;;
          remaining <- getRemainingPrizes ;;
          Ret (json_draw true None remaining)
  | PLost =>
      remaining <- getRemainingPrizes ;;
      Ret (json_draw false None remaining)
  | PBegin =>
      query BEGIN ;;;
      claimed <- tryClaimPrize d ;;
      if negb claimed then
        query ROLLBACK ;;;
        Ret (json_draw false (Some "no_prizes_left") 0%Z)
      else
        query (INSERT_winner d) ;;;
        query COMMIT ;;;
        remaining <- getRemainingPrizes ;;
        Ret (json_draw true None remaining)
  | PClaim =>
      claimed <- tryClaimPrize d ;;
      if negb claimed then
        query ROLLBACK ;;;
        Ret (json_draw false (Some "no_prizes_left") 0%Z)
      else
        query (INSERT_winner d) ;;;
        query COMMIT ;;;
        remaining <- getRemainingPrizes ;;
        Ret (json_draw true None remaining)
  | PNoPrize =>
      query ROLLBACK ;;;
      Ret (json_draw false (Some "no_prizes_left") 0%Z)
  | PRegister =>
      query (INSERT_winner d) ;;;
      query COMMIT ;;;
      remaining <- getRemainingPrizes ;;
      Ret (json_draw true None remaining)
  | PCommit =>
      query COMMIT ;;;
      remaining <- getRemainingPrizes ;;
      Ret (json_draw true None remaining)
  | PFinal =>
      remaining <- getRemainingPrizes ;;
      Ret (json_draw true None remaining)
  | PCatch => draw_catch
  | PReplied a _ => Ret a
  | PDead => Throw
  end.

Definition in_try (ph : phase) : bool :=
  match ph with
  | PCatch | PDead | PReplied _ false => false
  | _ => true
  end.

(** The request of device [d] with rate [rate] standing at [ph]. *)
Definition at_phase (d : string) (rate : js_number) (ph : phase)
    : thread stmt result :=
  {| body := rest d rate ph;
     handler := if in_try ph then Some draw_catch else None |}.

(** The statement a request at [ph] is about to send. *)
Definition pending (d : string) (ph : phase) : option stmt :=
  match ph with
  | PCheck => Some (SELECT_winner d)
  | PAlready | PLost | PFinal => Some SELECT_remaining
  | PBegin => Some BEGIN
  | PClaim => Some (UPDATE_claim_skip_locked d)
  | PNoPrize | PCatch => Some ROLLBACK
  | PRegister => Some (INSERT_winner d)
  | PCommit => Some COMMIT
  | PGate | PReplied _ _ | PDead => None
  end.

(** Where the request stands once that statement has completed with [res]. *)
Definition after (ph : phase) (res : result) : phase :=
  match ph with
  | PCheck => if 0 <? length (rows res) then PAlready else PGate
  | PAlready =>
      PReplied (json_draw false (Some "already_winner") (hd 0%Z (rows res))) true
  | PLost => PReplied (json_draw false None (hd 0%Z (rows res))) true
  | PBegin => PClaim
  | PClaim => if length (rows res) =? 1 then PRegister else PNoPrize
  | PNoPrize => PReplied (json_draw false (Some "no_prizes_left") 0%Z) true
  | PRegister => PCommit
  | PCommit => PFinal
  | PFinal => PReplied (json_draw true None (hd 0%Z (rows res))) true
  | PCatch => PReplied (json_error 500 "internal_error") false
  | PGate | PReplied _ _ | PDead => ph
  end.

(** Where it stands once that statement has failed. *)
Definition failed (ph : phase) : phase :=
  if in_try ph then PCatch else PDead.

(** Where it stands once [Math.random()] has returned [r]. *)
Definition drawn (rate : js_number) (r : Q) : phase :=
  if js_lt r rate then PBegin else PLost.

(** One step of a request, on phases. *)
Definition next (c : nat) (d : string) (rate : js_number) (a : action)
    (ph : phase) (s : db) : option (phase * db) :=
  match a with
  | Complete =>
      match pending d ph with
      | Some q =>
          match exec c q s with
          | Done res s' => Some (after ph res, s')
          | Raised s' => Some (failed ph, s')
          | Blocked => None
          end
      | None => None
      end
  | Fail =>
      match pending d ph with
      | Some _ => Some (failed ph, s)
      | None => None
      end
  | Draw r =>
      match ph with
      | PGate => if in_unit_interval r then Some (drawn rate r, s) else None
      | _ => None
      end
  end.

(** The phase at which [draw e req] starts. *)
Definition start (req : request) : phase :=
  match deviceId req with
  | Some d =>
      if String.eqb d "" then PReplied (json_error 400 "deviceId requerido") false
      else PCheck
  | None => PReplied (json_error 400 "deviceId requerido") false
  end.

Definition device (req : request) : string :=
  match deviceId req with Some d => d | None => "" end.
End PgPhases.

Module MyPhases.
Import Db ServerMysql.

(** The rest of [draw_try] of part_001 at each phase; this server has no
    [PBegin], [PNoPrize], [PCommit] and [PCatch]. *)
Definition rest (d : string) (rate : js_number) (ph : phase)
    : prog stmt result response :=
  match ph with
  | PCheck => draw_try d rate
  | PAlready =>
      remaining <- getRemainingPrizes ;;
      Ret (json_draw false (Some "already_winner") remaining)
  | PGate =>
      r <- random ;;
      let luck := js_lt r rate in
      if negb luck then
        remaining <- getRemainingPrizes ;;
        Ret (json_draw false None remaining)
      else
        claimed <- tryClaimPrize d ;;
        if negb claimed then
          Ret (json_draw false (Some "no_prizes_left") 0%Z)
        else
          query (INSERT_winner d) ;;;
          remaining <- getRemainingPrizes ;;
          Ret (json_draw true None remaining)
  | PLost =>
      remaining <- getRemainingPrizes ;;
      Ret (json_draw false None remaining)
  | PClaim =>
      claimed <- tryClaimPrize d ;;
      if negb claimed then
        Ret (json_draw false (Some "no_prizes_left") 0%Z)
      else
        query (INSERT_winner d) ;;;
        remaining <- getRemainingPrizes ;;
        Ret (json_draw true None remaining)
  | PRegister =>
      query (INSERT_winner d) ;;;
      remaining <- getRemainingPrizes ;;
      Ret (json_draw true None remaining)
  | PFinal =>
      remaining <- getRemainingPrizes ;;
      Ret (json_draw true None remaining)
  | PReplied a _ => Ret a
  | PBegin | PNoPrize | PCommit | PCatch | PDead => Throw
  end.

Definition in_try (ph : phase) : bool :=
  match ph with
  | PBegin | PNoPrize | PCommit | PCatch | PDead | PReplied _ false => false
  | _ => true
  end.

Definition at_phase (d : string) (rate : js_number) (ph : phase)
    : thread stmt result :=
  {| body := rest d rate ph;
     handler := if in_try ph then Some draw_catch else None |}.

Definition pending (d : string) (ph : phase) : option stmt :=
  match ph with
  | PCheck => Some (SELECT_winner d)
  | PAlready | PLost | PFinal => Some SELECT_remaining
  | PClaim => Some (UPDATE_claim_limit_1 d)
  | PRegister => Some (INSERT_winner d)
  | _ => None
  end.

Definition after (ph : phase) (res : result) : phase :=
  match ph with
  | PCheck => if 0 <? length (rows res) then PAlready else PGate
  | PAlready =>
      PReplied (json_draw false (Some "already_winner") (hd 0%Z (rows res))) true
  | PLost => PReplied (json_draw false None (hd 0%Z (rows res))) true
  | PClaim =>
      if affectedRows res =? 1 then PRegister
      else PReplied (json_draw false (Some "no_prizes_left") 0%Z) true
  | PRegister => PFinal
  | PFinal => PReplied (json_draw true None (hd 0%Z (rows res))) true
  | _ => ph
  end.

(** The catch block sends nothing to the store: it replies at once. *)
Definition failed (ph : phase) : phase :=
  if in_try ph then PReplied (json_error 500 "internal_error") false else PDead.

Definition drawn (rate : js_number) (r : Q) : phase :=
  if js_lt r rate then PClaim else PLost.

Definition next (c : nat) (d : string) (rate : js_number) (a : action)
    (ph : phase) (s : db) : option (phase * db) :=
  match a with
  | Complete =>
      match pending d ph with
      | Some q =>
          match exec c q s with
          | Done res s' => Some (after ph res, s')
          | Raised s' => Some (failed ph, s')
          | Blocked => None
          end
      | None => None
      end
  | Fail =>
      match pending d ph with
      | Some _ => Some (failed ph, s)
      | None => None
      end
  | Draw r =>
      match ph with
      | PGate => if in_unit_interval r then Some (drawn rate r, s) else None
      | _ => None
      end
  end.
End MyPhases.

(** *** Requests in flight, as tickets *)

(** A request in flight: its device, its rate and where it stands. *)
Record ticket : Type := {
  t_dev : string;
  t_rate : js_number;
  t_at : phase
}.

Definition move (x : ticket) (ph : phase) : ticket :=
  {| t_dev := t_dev x; t_rate := t_rate x; t_at := ph |}.

Section Machine.
(** [next c d rate a ph s]: one step of a request, on phases. *)
Variable next :
  nat -> string -> js_number -> action -> phase -> Db.db -> option (phase * Db.db).

Fixpoint machine_run (sch : list (nat * action)) (s : Db.db) (xs : list ticket)
    : option (Db.db * list ticket) :=
  match sch with
  | [] => Some (s, xs)
  | (i, a) :: sch' =>
      match nth_error xs i with
      | Some x =>
          match next i (t_dev x) (t_rate x) a (t_at x) s with
          | Some (ph', s') => machine_run sch' s' (set_nth i (move x ph') xs)
          | None => None
          end
      | None => None
      end
  end.
End Machine.

Definition pg_thread (x : ticket) : thread Db.stmt Db.result :=
  PgPhases.at_phase (t_dev x) (t_rate x) (t_at x).

Definition pg_ticket (e : env) (req : request) : ticket :=
  {| t_dev := PgPhases.device req; t_rate := rate_of e req;
     t_at := PgPhases.start req |}.

(** The request has been told it won, or is about to be. *)
Definition secured (ph : phase) : bool :=
  match ph with
  | PFinal => true
  | PReplied a _ => match won a with Some true => true | _ => false end
  | _ => false
  end.

(** Phases of src/server.js inside the transaction, and those of them after
    a successful claim. *)
Definition in_txn (ph : phase) : bool :=
  match ph with PClaim | PNoPrize | PRegister | PCommit => true | _ => false end.

Definition holding (ph : phase) : bool :=
  match ph with PRegister | PCommit => true | _ => false end.

(** The invariant behind the pool cap on src/server.js: requests inside the
    transaction have it open, requests past their claim hold a row, and each
    secured win is a committed claim made since the start ([base] claims were
    committed before). *)
Definition pg_inv (base : nat) (s : Db.db) (xs : list ticket) : Prop :=
  wf s = true /\
  (forall i x, nth_error xs i = Some x -> in_txn (t_at x) = true ->
               Db.in_transaction i s = true) /\
  (forall i x, nth_error xs i = Some x -> holding (t_at x) = true ->
               existsb (held_by i) (Db.prize_tokens s) = true) /\
  base + count (fun x => secured (t_at x)) xs <= claimed_count s.

Definition my_thread (x : ticket) : thread Db.stmt Db.result :=
  MyPhases.at_phase (t_dev x) (t_rate x) (t_at x).

(** On part_001 the claim is committed at once: a request is secured from
    the successful claim on. *)
Definition secured_my (ph : phase) : bool :=
  match ph with PRegister => true | _ => secured ph end.

(** The invariant behind the pool cap on part_001: no transaction is ever
    open, and each secured win is a committed claim. *)
Definition my_inv (base : nat) (s : Db.db) (xs : list ticket) : Prop :=
  wf s = true /\
  Db.in_tx s = [] /\
  base + count (fun x => secured_my (t_at x)) xs <= claimed_count s.

(** *** A race without store failures *)

(** A rate that every value of [Math.random()] passes. *)
Definition sure (rate : js_number) : bool :=
  match rate with
  | Finite q => Qle_bool 1 q
  | PosInf => true
  | NaN | NegInf => false
  end.

(** The request found no token: it is about to say so, or has. *)
Definition lost (ph : phase) : bool :=
  match ph with
  | PNoPrize => true
  | PReplied a _ => negb (says_won (Some a))
  | _ => false
  end.

(** The request has inserted its winners row. *)
Definition registered (ph : phase) : bool :=
  match ph with PCommit => true | _ => secured ph end.

(** The committed row is claimed by [d]. *)
Definition claimed_for (d : string) (r : Db.token_row) : bool :=
  match Db.claimed_by (Db.cur r) with
  | Some d' => String.eqb d' d
  | None => false
  end.

(** The phases a request goes through when it is new, passes the gate and
    meets no failure; its reply is one of the two claim outcomes. *)
Definition racing (ph : phase) : Prop :=
  match ph with
  | PAlready | PLost | PCatch | PDead => False
  | PReplied a _ =>
      (exists z, a = json_draw true None z) \/
      a = json_draw false (Some "no_prizes_left") 0%Z
  | _ => True
  end.

Definition no_faults (sch : list (nat * action)) : bool :=
  forallb (fun ia => match snd ia with Fail => false | _ => true end) sch.

(** The tickets: distinct devices, sure rates. *)
Definition racers (xs : list ticket) : Prop :=
  NoDup (map t_dev xs) /\ Forall (fun x => sure (t_rate x) = true) xs.

(** The invariant of a race on src/server.js that starts with [n0] free
    tokens: the requests that hold or have secured a token, plus the free
    tokens, are [n0]; once a request has found nothing, nothing is free. *)
Definition pg_race_inv (n0 : nat) (s : Db.db) (xs : list ticket) : Prop :=
  racers xs /\
  wf s = true /\
  (forall i x, nth_error xs i = Some x -> racing (t_at x)) /\
  (forall i x, nth_error xs i = Some x -> in_txn (t_at x) = true ->
               Db.in_transaction i s = true) /\
  (forall r c t, In r (Db.prize_tokens s) -> Db.upd r = Some (c, t) ->
                 exists x, nth_error xs c = Some x /\ holding (t_at x) = true /\
                           Db.claimed_by t = Some (t_dev x)) /\
  (forall i x, nth_error xs i = Some x -> holding (t_at x) = true ->
               existsb (held_by i) (Db.prize_tokens s) = true) /\
  count (fun x => holding (t_at x) || secured (t_at x)) xs + avail s = n0 /\
  (existsb (fun x => lost (t_at x)) xs = true -> avail s = 0) /\
  (forall i x, nth_error xs i = Some x -> registered (t_at x) = false ->
               existsb (Db.has_device (t_dev x)) (Db.winners s) = false) /\
  (forall i x, nth_error xs i = Some x -> secured (t_at x) = true ->
               existsb (claimed_for (t_dev x)) (Db.prize_tokens s) = true).

(** The same for part_001, where a claim is committed at once. *)
Definition my_race_inv (n0 : nat) (s : Db.db) (xs : list ticket) : Prop :=
  racers xs /\
  wf s = true /\
  Db.in_tx s = [] /\
  (forall i x, nth_error xs i = Some x -> racing (t_at x)) /\
  count (fun x => secured_my (t_at x)) xs + avail s = n0 /\
  (existsb (fun x => lost (t_at x)) xs = true -> avail s = 0) /\
  (forall i x, nth_error xs i = Some x -> secured_my (t_at x) = false ->
               existsb (Db.has_device (t_dev x)) (Db.winners s) = false) /\
  (forall i x, nth_error xs i = Some x -> secured_my (t_at x) = true ->
               existsb (claimed_for (t_dev x)) (Db.prize_tokens s) = true).

(** Every request has been answered. *)
Definition all_replied {Stmt Res : Type} (ths : list (thread Stmt Res)) : bool :=
  forallb (fun t => match reply t with Some _ => true | None => false end) ths.

(** The request is a new, valid one whose rate is sure. *)
Definition racer (e : env) (s : Db.db) (req : request) : bool :=
  match deviceId req with
  | Some d =>
      negb (String.eqb d "") && sure (rate_of e req)
      && negb (existsb (Db.has_device d) (Db.winners s))
  | None => false
  end.

(** A program without a [throw] of its own: its only exceptions are failed
    statements. *)
Fixpoint no_throw {Stmt Res R : Type} (p : prog Stmt Res R) : Prop :=
  match p with
  | Ret _ => True
  | Throw => False
  | Query _ k => forall res, no_throw (k res)
  | Random k => forall r, no_throw (k r)
  end.

Definition plain {Stmt Res : Type} (t : thread Stmt Res) : Prop :=
  no_throw (body t) /\
  match handler t with Some h => no_throw h | None => True end.

(** The replies that say [won: true]. *)
Definition count_won (l : list (option response)) : nat := count says_won l.

(** Two requests racing for one token: both look the device up and draw,
    both BEGIN, the second claims first, the first finds nothing to claim. *)
Definition race_requests : list request := [ask_rate "d1" 1; ask_rate "d2" 1].

Definition race_schedule : list (nat * action) :=
  [(0, Complete); (1, Complete); (0, Draw (1 # 2)); (1, Draw (1 # 3));
   (0, Complete); (1, Complete); (1, Complete); (0, Complete);
   (1, Complete); (0, Complete); (1, Complete); (1, Complete)].


(** The schedule of the same race on part_001, which has no transaction. *)
Definition race_schedule_my : list (nat * action) :=
  [(0, Complete); (1, Complete); (0, Draw (1 # 2)); (1, Draw (1 # 3));
   (1, Complete); (0, Complete); (1, Complete); (1, Complete)].

(** Where a request whose statement failed stands: in its catch block, or
    dead if it had none. *)
Definition thrown {Stmt Res : Type} (h : option (prog Stmt Res response))
    : thread Stmt Res :=
  match h with
  | Some h' => {| body := h'; handler := None |}
  | None => {| body := Throw; handler := None |}
  end.

(** The outcome of a race for the last free token, from store [s0] to store
    [s'] with the requests [reqs] answered as [ths'] says: one request is
    told it won, every other one is told that no prize is left, the token is
    claimed for the device of the winner, no token is free and every claim
    committed before the race is still there. *)
Definition race_outcome (s0 : Db.db) (reqs : list request) (s' : Db.db)
    (ths' : list (thread Db.stmt Db.result)) : Prop :=
  count_won (replies ths') = 1 /\
  length (replies ths') = length reqs /\
  (forall i rp, nth_error (replies ths') i = Some rp -> says_won rp = false ->
                rp = Some (json_draw false (Some "no_prizes_left") 0%Z)) /\
  (forall i req rp,
     nth_error reqs i = Some req -> nth_error (replies ths') i = Some rp ->
     says_won rp = true ->
     existsb (claimed_for (PgPhases.device req)) (Db.prize_tokens s') = true) /\
  avail s' = 0 /\
  claims_kept s0 s'.

(** ** The CORS middleware: [cors] of src/server.js, [corsMiddleware] of
    src/unnamed/part_001 *)

Module Cors.

(** What the middleware reads of a request: [req.headers.origin] ([None]
    when the header is absent) and [req.method]. *)
Record http_request : Type := {
  origin : option string;
  method : string
}.

Definition ALLOWED_ORIGINS : list string :=
  ["http://127.0.0.1:5500"; "http://localhost:5500"; "http://localhost:3000"].

(** [Array.prototype.includes] on strings. *)
Definition includes (l : list string) (x : string) : bool :=
  existsb (String.eqb x) l.

(** How the middleware ends: [res.sendStatus(code)], or [next()]. *)
Inductive verdict : Type :=
| SendStatus (code : nat)
| Next.

(** The headers set with [res.setHeader], in order, and the verdict. *)
Definition cors (req : http_request) : list (string * string) * verdict :=
  let headers :=
    match origin req with
    | Some o =>
        if negb (String.eqb o "") && includes ALLOWED_ORIGINS o then
          [("Access-Control-Allow-Origin", o);
           ("Vary", "Origin");
           ("Access-Control-Allow-Methods", "GET,POST,OPTIONS");
           ("Access-Control-Allow-Headers", "Content-Type")]
        else []
    | None => []
    end in
  (headers,
   if String.eqb (method req) "OPTIONS" then SendStatus 204 else Next).

End Cors.

(** ** The schema script, src/unnamed/part_000 *)

Module Schema.
Import Db.

(** [INSERT INTO prize_tokens (claimed_by, claimed_at) SELECT NULL, NULL
    FROM generate_series(1,10) WHERE (SELECT COUNT( * ) FROM prize_tokens) = 0]:
    ten free rows when the table has no row, nothing otherwise.  [next] is
    the next value of the [id] sequence. *)
Definition seed_tokens (next : nat) (s : db) : db :=
  if length (prize_tokens s) =? 0 then
    {| prize_tokens :=
         map (fun i => {| cur := {| id := i; claimed_by := None; claimed_at := None |};
                          upd := None |}) (seq next 10);
       winners := winners s;
       in_tx := in_tx s;
       clock := clock s |}
  else s.

(** A database before the script has ever run has no table; [CREATE TABLE IF
    NOT EXISTS] creates the two tables empty and leaves existing ones
    alone.  The sequence of a new table starts at 1. *)
Definition create_tables (d : option (nat * db)) : nat * db :=
  match d with
  | Some (next, s) => (next, s)
  | None => (1, {| prize_tokens := []; winners := []; in_tx := []; clock := 0 |})
  end.

(** The whole script on a database [d]: [None] when it is new, [Some (next,
    s)] when the tables exist with content [s] and sequence value [next]. *)
Definition script (d : option (nat * db)) : nat * db :=
  let '(next, s) := create_tables d in
  (if length (prize_tokens s) =? 0 then next + 10 else next, seed_tokens next s).

End Schema.

(** ** [app.get("/api/state")] of src/server.js and of src/unnamed/part_001 *)

Module StateApi.
Import Db.

(** The statements of the state endpoint: those of the draw, and the count
    of the winners. *)
Inductive stmt : Type :=
| Token (q : Db.stmt)
| SELECT_total.
    (* SELECT COUNT( * ) AS total FROM winners *)

Definition exec (c : nat) (q : stmt) (s : db) : exec_result result db :=
  match q with
  | Token q' => Db.exec c q' s
  | SELECT_total =>
      Done (one_row (Z.of_nat (length (filter (reads c) (winners s)))))
           (tick s (prize_tokens s) (winners s) (in_tx s))
  end.

(** A helper of the draw, used by this endpoint. *)
Fixpoint lift {R : Type} (p : prog Db.stmt result R) : prog stmt result R :=
  match p with
  | Ret a => Ret a
  | Throw => Throw
  | Query q k => Query (Token q) (fun res => lift (k res))
  | Random k => Random (fun r => lift (k r))
  end.

(** The JSON object of the endpoint. *)
Record state_json : Type := {
  st_status : nat;
  st_ok : bool;
  st_max : option js_number;
  st_awarded : option Z;
  st_remaining : option Z;
  st_error : option string
}.

(** [Number(process.env.MAX_PRIZES || 10)], from the variable's value as a
    number ([None] when it is unset or empty). *)
Definition MAX_PRIZES (v : option js_number) : js_number :=
  match v with Some n => n | None => Finite 10 end.

(** The [try] block. *)
Definition state_try (max : js_number) : prog stmt result state_json :=
  remaining <- lift ServerPg.getRemainingPrizes ;;
  res <- query SELECT_total ;;
  let awarded := hd 0%Z (rows res) in            (* rows[0]?.total ?? 0 *)
  Ret {| st_status := 200; st_ok := true; st_max := Some max;
         st_awarded := Some awarded; st_remaining := Some remaining;
         st_error := None |}.

(** What the [catch] block sends. *)
Definition state_error : state_json :=
  {| st_status := 500; st_ok := false; st_max := None; st_awarded := None;
     st_remaining := None; st_error := Some "internal_error" |}.

(** The endpoint from the point where it has its connection [c]: the [try]
    and the [catch]; the reply, the store and the events. *)
Definition state (max : js_number) (c : nat) (faults : list bool) (s : db)
    : option state_json * (db * list (event stmt)) :=
  match run exec c (state_try max) 0%Q faults s with
  | (Returned a, (_, s', tr)) => (Some a, (s', tr))
  | (Threw, (_, s', tr)) => (Some state_error, (s', tr))
  | (Waiting, (_, s', tr)) => (None, (s', tr))
  end.

(** The whole handler of [app.get("/api/state")].  It starts with
    [await pool.connect()] ([pool.getConnection()] on part_001), outside the
    [try]: [conn] is the connection it resolves with, [None] when it
    rejects; the exception then escapes the handler, which sends nothing. *)
Definition get_state (max : js_number) (conn : option nat) (faults : list bool)
    (s : db) : option state_json * (db * list (event stmt)) :=
  match conn with
  | Some c => state max c faults s
  | None => (None, (s, []))
  end.

End StateApi.

(** ** Vocabulary of the further properties *)

(** [!deviceId || typeof deviceId !== "string"]: the field is missing, is not
    a string, or is the empty string. *)
Definition missing_device (req : request) : bool :=
  match deviceId req with
  | Some d => String.eqb d ""
  | None => true
  end.

Definition is_none {A : Type} (x : option A) : bool :=
  match x with None => true | Some _ => false end.

(** A draw result as the token servers send it, for a pool of [n] tokens:
    status 200, [ok: true], a [won] field, [remaining] between 0 and [n], no
    [error]; a [reason] only with [won: false], and it is ["already_winner"],
    or ["no_prizes_left"] with [remaining: 0]. *)
Definition well_formed_draw (n : nat) (a : response) : bool :=
  Nat.eqb (status a) 200 && ok a && is_none (error a) &&
  match won a, remaining a with
  | Some w, Some rest =>
      (0 <=? rest)%Z && (rest <=? Z.of_nat n)%Z &&
      match reason a with
      | None => true
      | Some t =>
          negb w &&
          (String.eqb t "already_winner"
           || (String.eqb t "no_prizes_left" && (rest =? 0)%Z))
      end
  | _, _ => false
  end.

(** What a token server may answer to [req], for a pool of [n] tokens. *)
Definition reply_contract (n : nat) (req : request) (a : response) : Prop :=
  if missing_device req then a = json_error 400 "deviceId requerido"
  else a = json_error 500 "internal_error" \/ well_formed_draw n a = true.

(** The same on a ticket, whose device is [""] when the field is missing. *)
Definition phase_contract (n : nat) (d : string) (ph : phase) : Prop :=
  match ph with
  | PReplied a _ =>
      if String.eqb d "" then a = json_error 400 "deviceId requerido"
      else a = json_error 500 "internal_error" \/ well_formed_draw n a = true
  | _ => String.eqb d "" = false
  end.

Definition contract_inv (n : nat) (s : Db.db) (xs : list ticket) : Prop :=
  wf s = true /\ length (Db.prize_tokens s) = n /\
  forall i x, nth_error xs i = Some x -> phase_contract n (t_dev x) (t_at x).

(** From [s] to [s'] nothing committed has changed. *)
Definition unchanged_committed (s s' : Db.db) : Prop :=
  Db.committed_tokens s' = Db.committed_tokens s /\
  Db.committed_winners s' = Db.committed_winners s.

(** From [s] to [s'] exactly this has been committed: one free token is now
    claimed by [d], and a winners row for [d] has been added. *)
Definition awarded_to (d : string) (s s' : Db.db) : Prop :=
  exists l1 t l2 now now',
    Db.prize_tokens s = l1 ++ t :: l2 /\ Db.free_row t = true /\
    Db.committed_tokens s' =
      map Db.cur l1
      ++ {| Db.id := Db.id (Db.cur t); Db.claimed_by := Some d;
            Db.claimed_at := Some now |} :: map Db.cur l2 /\
    Db.committed_winners s' =
      Db.committed_winners s ++ [{| Db.device_id := d; Db.created_at := now' |}].

(** From [s] to [s'] one free token has been claimed by [d] and committed,
    and no winners row has been added. *)
Definition claimed_only (d : string) (s s' : Db.db) : Prop :=
  exists l1 t l2 now,
    Db.prize_tokens s = l1 ++ t :: l2 /\ Db.free_row t = true /\
    Db.committed_tokens s' =
      map Db.cur l1
      ++ {| Db.id := Db.id (Db.cur t); Db.claimed_by := Some d;
            Db.claimed_at := Some now |} :: map Db.cur l2 /\
    Db.committed_winners s' = Db.committed_winners s.

(** Every connection from [c] on is as the pool hands it out: no open
    transaction, nothing uncommitted. *)
Definition fresh_from (c : nat) (s : Db.db) : Prop :=
  forall c', c <= c' -> Db.idle c' s = true.

(** No statement of the trace failed. *)
Definition no_failure {Stmt : Type} (tr : list (event Stmt)) : bool :=
  forallb (fun ev => match ev with EvQuery _ false => false | _ => true end) tr.

(** The replies to the requests of device [d] that say [won: true]. *)
Definition wins_of {Stmt : Type} (d : string) (out : list (served Stmt)) : nat :=
  count (fun x => from d (s_req x) && says_won (s_reply x)) out.

(** [res.json({ ok: true, max, awarded, remaining })] *)
Definition json_state (max : js_number) (awarded left : Z) : StateApi.state_json :=
  {| StateApi.st_status := 200; StateApi.st_ok := true;
     StateApi.st_max := Some max; StateApi.st_awarded := Some awarded;
     StateApi.st_remaining := Some left; StateApi.st_error := None |}.

(** The winners rows that connection [c] reads. *)
Definition visible_winners (c : nat) (s : Db.db) : nat :=
  length (filter (Db.reads c) (Db.winners s)).

(** A rate that no value of [Math.random()] passes. *)
Definition hopeless (rate : js_number) : bool :=
  match rate with
  | Finite q => Qle_bool q 0
  | NaN | NegInf => true
  | PosInf => false
  end.

(** Token [t] once it is claimed by [d] at time [now], committed. *)
Definition claimed_token (d : string) (now : nat) (t : Db.token_row) : Db.token_row :=
  {| Db.cur := {| Db.id := Db.id (Db.cur t); Db.claimed_by := Some d;
                  Db.claimed_at := Some now |};
     Db.upd := None |}.

(** The [remaining] field of a draw result lies between 0 and [n]. *)
Definition remaining_within (n : Z) (a : response) : Prop :=
  exists z, remaining a = Some z /\ (0 <= z <= n)%Z.

(** The winners table of part_002 only grows from [s] to [s']. *)
Definition appended (s s' : ServerCount.db) : Prop :=
  exists l, ServerCount.winners s' = ServerCount.winners s ++ l.

(** No two rows of the winners table of part_002 have the same
    [device_id]. *)
Definition one_row_per_device (s : ServerCount.db) : Prop :=
  NoDup (map ServerCount.device_id (ServerCount.winners s)).

(** Two requests of one device to part_002, and a schedule in which both
    look the device up before either inserts. *)
Definition twin_requests : list request := [ask "d1"; ask "d1"].

Definition twin_schedule : list (nat * action) :=
  [(0, Complete); (1, Complete); (0, Complete); (1, Complete);
   (0, Draw (1 # 10)); (1, Draw (1 # 10)); (0, Complete); (1, Complete);
   (0, Complete)].

(** Two requests to part_002 that both count the winners before either
    inserts its row. *)
Definition overshoot_schedule (r : Q) : list (nat * action) :=
  [(0, Complete); (1, Complete); (0, Complete); (1, Complete);
   (0, Draw r); (1, Draw r); (0, Complete); (1, Complete);
   (0, Complete); (1, Complete)].

(** The winners table of part_002 with nine winners, devices ["w1"] to
    ["w9"]. *)
Definition nine_winners : ServerCount.db :=
  {| ServerCount.winners :=
       map (fun i => {| ServerCount.id := i;
                        ServerCount.device_id :=
                          "w" ++ String (Ascii.ascii_of_nat (48 + i)) "";
                        ServerCount.won_col := true;
                        ServerCount.created_at := i |}) (seq 1 9);
     ServerCount.next_id := 10;
     ServerCount.clock := 10 |}.

(** The outcome of a race for the [n0] free tokens of store [s0]: as many
    requests are told they won as there are tokens or requests, whichever is
    less; every other one is told that no prize is left; the tokens they won
    are no longer free and every claim committed before is still there. *)
Definition pool_outcome (s0 : Db.db) (reqs : list request) (s' : Db.db)
    (ths' : list (thread Db.stmt Db.result)) : Prop :=
  count_won (replies ths') = Nat.min (length reqs) (avail s0) /\
  avail s' = avail s0 - Nat.min (length reqs) (avail s0) /\
  (forall i rp, nth_error (replies ths') i = Some rp -> says_won rp = false ->
                rp = Some (json_draw false (Some "no_prizes_left") 0%Z)) /\
  (forall i req rp,
     nth_error reqs i = Some req -> nth_error (replies ths') i = Some rp ->
     says_won rp = true ->
     existsb (claimed_for (PgPhases.device req)) (Db.prize_tokens s') = true) /\
  claims_kept s0 s'.

(** Three new devices racing for two tokens on src/server.js: all look the
    device up, draw and BEGIN; the second and the third claim a token each,
    the first finds none and rolls back; the other two insert their winners
    row, commit and count what remains. *)
Definition pool_requests : list request :=
  [ask_rate "d1" 1; ask_rate "d2" 1; ask_rate "d3" 1].

Definition pool_schedule : list (nat * action) :=
  [(0, Complete); (1, Complete); (2, Complete);
   (0, Draw (1 # 2)); (1, Draw (1 # 3)); (2, Draw (1 # 4));
   (0, Complete); (1, Complete); (2, Complete);
   (1, Complete); (2, Complete); (0, Complete);
   (1, Complete); (0, Complete); (2, Complete);
   (1, Complete); (2, Complete);
   (2, Complete); (1, Complete)].

(** A pool of one token while the request of ["d1"], on connection 1, is
    inside its transaction on src/server.js: it has claimed the token and
    not yet committed.  [claiming_schedule] is how the store gets there from
    the seeded one. *)
Definition pool1_d1_claiming : Db.db :=
  {| Db.prize_tokens :=
       [{| Db.cur := {| Db.id := 1; Db.claimed_by := None; Db.claimed_at := None |};
           Db.upd := Some (1, {| Db.id := 1; Db.claimed_by := Some "d1";
                                 Db.claimed_at := Some 2 |}) |}];
     Db.winners := [];
     Db.in_tx := [1];
     Db.clock := 3 |}.

Definition claiming_schedule : list (nat * action) :=
  [(1, Complete); (1, Draw (1 # 2)); (1, Complete); (1, Complete)].

(** The row of token [t] once [d] has claimed it at time [now]. *)
Definition claimed_token_of (d : string) (now : nat) (t : Db.token_row) : Db.token :=
  {| Db.id := Db.id (Db.cur t); Db.claimed_by := Some d; Db.claimed_at := Some now |}.

(** ** The draw of part_002, step by step *)

Module CountPhases.
Import ServerCount.

(** Where a request of part_002 stands: which statement it waits for, with
    what it has read so far. *)
Inductive phase : Type :=
| CSelect                      (* the look-up of the device *)
| CReplay (b : option bool)    (* a row was found, [prev.rows[0].won] is [b]:
                                  the count for the reply *)
| CCount                       (* no row was found: the count *)
| CCapped                      (* the cap is reached: the insert of a loss *)
| CGate                        (* [Math.random()] *)
| CInsert (w : bool)           (* the insert of the outcome [w] *)
| CLast (w : bool)             (* the count for the reply *)
| CSent (a : response)         (* the reply is sent *)
| CCaught.                     (* in the [catch] block *)

(** The rest of [draw_try] at each phase. *)
Definition rest (d : string) (ph : phase) : prog stmt result response :=
  match ph with
  | CSelect => draw_try d
  | CReplay b =>
      n <- countWinners ;;
      Ret {| status := 200; ok := true; won := b;
             remaining := Some (MAX_PRIZES - n)%Z;
             reason := Some "already_winner"; error := None |}
  | CCount =>
      winnersCount <- countWinners ;;
      if (MAX_PRIZES <=? winnersCount)%Z then
        query (INSERT_winner d false) ;;;
        Ret (json_draw false (Some "no_prizes_left") 0%Z)
      else
        r <- random ;;
        let won := js_lt r (Finite (3 # 10)) in
        query (INSERT_winner d won) ;;;
        n <- countWinners ;;
        Ret (json_draw won None (MAX_PRIZES - n)%Z)
  | CCapped =>
      query (INSERT_winner d false) ;;;
      Ret (json_draw false (Some "no_prizes_left") 0%Z)
  | CGate =>
      r <- random ;;
      let won := js_lt r (Finite (3 # 10)) in
      query (INSERT_winner d won) ;;;
      n <- countWinners ;;
      Ret (json_draw won None (MAX_PRIZES - n)%Z)
  | CInsert w =>
      query (INSERT_winner d w) ;;;
      n <- countWinners ;;
      Ret (json_draw w None (MAX_PRIZES - n)%Z)
  | CLast w =>
      n <- countWinners ;;
      Ret (json_draw w None (MAX_PRIZES - n)%Z)
  | CSent a => Ret a
  | CCaught => draw_catch
  end.

Definition at_phase (d : string) (ph : phase) : thread stmt result :=
  {| body := rest d ph;
     handler := match ph with CCaught => None | _ => Some draw_catch end |}.

(** What the request has read or written agrees with the table: the outcome
    it is about to send, or has sent, is the one stored for its device. *)
Definition agrees (d : string) (ph : phase) (s : db) : Prop :=
  match ph with
  | CReplay b => exists b0, b = Some b0 /\ stored d s = Some b0
  | CLast w => stored d s = Some w
  | CSent a => ok a = true -> exists b, won a = Some b /\ stored d s = Some b
  | _ => True
  end.

(** The state of a request of part_002 in flight: for a truthy [deviceId] it
    is at some phase and agrees with the table; otherwise it has been
    answered with the error. *)
Definition in_flight (req : request) (t : thread stmt result) (s : db) : Prop :=
  match truthy_id req with
  | Some d => exists ph, t = at_phase d ph /\ agrees d ph s
  | None => t = {| body := Ret (json_error 200 "Falta deviceId"); handler := None |}
  end.
End CountPhases.

(** The replies of part_002 to the requests [reqs] are draw results only
    with the outcome that table [s] stores for the device. *)
Definition replies_as_stored (reqs : list request) (s : ServerCount.db)
    (ths : list (thread ServerCount.stmt ServerCount.result)) : Prop :=
  forall i req a,
    nth_error reqs i = Some req ->
    nth_error (replies ths) i = Some (Some a) -> ok a = true ->
    exists d b,
      ServerCount.truthy_id req = Some d /\ won a = Some b /\
      ServerCount.stored d s = Some b.

(** The devices that part_002 told [won: true], one entry per such reply. *)
Definition told_winners (out : list (served ServerCount.stmt)) : list string :=
  flat_map (fun x =>
              if says_won (s_reply x)
              then match ServerCount.truthy_id (s_req x) with
                   | Some d => [d]
                   | None => []
                   end
              else []) out.

(** A request of ["d1"] to part_002 whose draw is a win, asked eleven
    times. *)
Definition eleven_times : list arrival :=
  repeat {| a_req := ask "d1"; a_random := 1 # 10; a_faults := [] |} 11.

(** Two requests of ["d1"] to part_002: the first draws a loss and its
    insert fails, the second draws a win. *)
Definition redraw : list arrival :=
  [{| a_req := ask "d1"; a_random := 1 # 2; a_faults := [false; false; true] |};
   {| a_req := ask "d1"; a_random := 1 # 10; a_faults := [] |}].
(** * Properties *)

(** ** The store, one statement at a time *)

Section DbFacts.
Import Db.

Lemma same_tables_refl (s : db) : same_tables s s.
Proof. repeat split. Qed.

Lemma same_tables_tick (s : db) :
    same_tables s (tick s (prize_tokens s) (winners s) (in_tx s)).
Proof. repeat split. Qed.

Lemma same_tables_trans (s1 s2 s3 : db) :
    same_tables s1 s2 -> same_tables s2 s3 -> same_tables s1 s3.
Proof.
    unfold same_tables. intros (A & B & C) (D & E & F).
    repeat split; congruence.
Qed.

Lemma idle_no_writes (c : nat) (s : db) :
    idle c s = true -> in_transaction c s = false /\ no_writes c s = true.
Proof.
    unfold idle. intros H. apply andb_true_iff in H as [H1 H2].
    apply negb_true_iff in H1. now split.
Qed.

Lemma not_held_seen (c : nat) (r : token_row) :
    not_held_by c r = true -> seen c r = cur r.
Proof.
    unfold not_held_by, seen. destruct (upd r) as [[c' t]|]; [|reflexivity].
    intros H. apply negb_true_iff in H. now rewrite H.
Qed.

Lemma not_held_claimable (c : nat) (r : token_row) :
    not_held_by c r = true -> claimable c r = free_row r.
Proof.
    intros H. unfold claimable, free_row. rewrite (not_held_seen _ _ H).
    unfold not_held_by, locked_by_other in *.
    destruct (upd r) as [[c' t]|]; [|reflexivity].
    rewrite H. reflexivity.
Qed.

Lemma count_free_not_held (c : nat) (l : list token_row) :
    forallb (not_held_by c) l = true ->
    count_free c l = length (filter (fun t => is_null (claimed_by t)) (map cur l)).
Proof.
    unfold count_free. induction l as [|r l IH]; simpl; intros H; [reflexivity|].
    apply andb_true_iff in H as [Hr Hl].
    rewrite (not_held_seen _ _ Hr).
    destruct (is_null (claimed_by (cur r))); simpl; now rewrite (IH Hl).
Qed.

  (** On a connection without uncommitted writes the count query reads
      [remainingCount()]. *)
Lemma no_writes_count_free (c : nat) (s : db) :
    no_writes c s = true -> count_free c (prize_tokens s) = remainingCount s.
Proof.
    unfold no_writes, remainingCount, committed_tokens. intros H.
    apply andb_true_iff in H as [H _]. now apply count_free_not_held.
Qed.

Lemma reads_not_own (c : nat) (w : winner_row) :
    own_insert c w = false -> reads c w = is_committed w.
Proof.
    unfold own_insert, reads, is_committed. destruct (ins w); congruence.
Qed.

  (** On such a connection [hasWon] reads the committed registry. *)
Lemma no_writes_knows (c : nat) (d : string) (s : db) :
    no_writes c s = true ->
    existsb (fun w => has_device d w && reads c w) (winners s) = is_winner d s.
Proof.
    unfold no_writes, is_winner. intros H.
    apply andb_true_iff in H as [_ H].
    induction (winners s) as [|w l IH]; simpl in *; [reflexivity|].
    apply andb_true_iff in H as [Hw Hl]. apply negb_true_iff in Hw.
    now rewrite (reads_not_own _ _ Hw), (IH Hl).
Qed.

  (** *** The atomic claim *)

Lemma claim_first_none (c : nat) (intx : bool) (d : string) (now : nat)
      (l : list token_row) :
    claim_first c intx d now l = None <-> existsb (claimable c) l = false.
Proof.
    induction l as [|r l IH]; unfold claim_first; fold claim_first; simpl.
    - tauto.
    - destruct (claimable c r); simpl.
      + split; discriminate.
      + destruct (claim_first c intx d now l) as [[i l']|].
        * split; [discriminate|]. intros H. apply IH in H. discriminate.
        * split; [intros _; now apply IH|reflexivity].
Qed.

Lemma claim_first_some (c : nat) (intx : bool) (d : string) (now : nat)
      (l : list token_row) (i : nat) (l' : list token_row) :
    claim_first c intx d now l = Some (i, l') ->
    exists l1 r l2,
      l = l1 ++ r :: l2 /\
      existsb (claimable c) l1 = false /\
      claimable c r = true /\
      i = id (cur r) /\
      l' = l1 ++ claim_row c intx d now r :: l2.
Proof.
    revert i l'.
    induction l as [|r l IH]; unfold claim_first; fold claim_first; intros i l' H.
    - discriminate.
    - destruct (claimable c r) eqn:Hr.
      + inversion H; subst. exists [], r, l. repeat split; assumption.
      + destruct (claim_first c intx d now l) as [[j l'']|]; [|discriminate].
        inversion H; subst.
        destruct (IH _ _ eq_refl) as (l1 & r0 & l2 & E1 & E2 & E3 & E4 & E5).
        exists (r :: l1), r0, l2. subst. simpl. rewrite Hr. repeat split; assumption.
Qed.

  (** *** Undoing a transaction *)

Lemma rollback_not_held (c : nat) (l : list token_row) :
    forallb (not_held_by c) l = true -> map (rollback_token c) l = l.
Proof.
    induction l as [|r l IH]; simpl; intros H; [reflexivity|].
    apply andb_true_iff in H as [Hr Hl]. rewrite (IH Hl). f_equal.
    unfold rollback_token, not_held_by in *.
    destruct (upd r) as [[c' t]|]; [|reflexivity].
    apply negb_true_iff in Hr. now rewrite Hr.
Qed.

Lemma commit_not_held (c : nat) (l : list token_row) :
    forallb (not_held_by c) l = true -> map (commit_token c) l = l.
Proof.
    induction l as [|r l IH]; simpl; intros H; [reflexivity|].
    apply andb_true_iff in H as [Hr Hl]. rewrite (IH Hl). f_equal.
    unfold commit_token, not_held_by in *.
    destruct (upd r) as [[c' t]|]; [|reflexivity].
    apply negb_true_iff in Hr. now rewrite Hr.
Qed.

Lemma free_row_upd (r : token_row) : free_row r = true -> upd r = None.
Proof.
    unfold free_row. intros H. apply andb_true_iff in H as [_ H].
    now destruct (upd r).
Qed.

Lemma rollback_claim_row (c : nat) (d : string) (now : nat) (r : token_row) :
    free_row r = true -> rollback_token c (claim_row c true d now r) = r.
Proof.
    intros H. pose proof (free_row_upd _ H) as U.
    unfold rollback_token, claim_row. simpl. rewrite Nat.eqb_refl.
    destruct r as [t u]. simpl in *. now subst.
Qed.

Lemma filter_own_insert_idle (c : nat) (l : list winner_row) :
    forallb (fun w => negb (own_insert c w)) l = true ->
    filter (fun w => negb (own_insert c w)) l = l.
Proof.
    induction l as [|w l IH]; simpl; intros H; [reflexivity|].
    apply andb_true_iff in H as [Hw Hl]. rewrite Hw, (IH Hl). reflexivity.
Qed.

Lemma commit_winner_not_own (c : nat) (l : list winner_row) :
    forallb (fun w => negb (own_insert c w)) l = true ->
    map (commit_winner c) l = l.
Proof.
    induction l as [|w l IH]; simpl; intros H; [reflexivity|].
    apply andb_true_iff in H as [Hw Hl]. rewrite (IH Hl). f_equal.
    apply negb_true_iff in Hw. unfold commit_winner.
    rewrite (reads_not_own _ _ Hw). unfold is_committed.
    destruct w as [w [c'|]]; reflexivity.
Qed.

Lemma settled_idle (c : nat) (s : db) : settled s = true -> idle c s = true.
Proof.
    unfold settled, idle, no_writes, in_transaction. intros H.
    apply andb_true_iff in H as [H Hw]. apply andb_true_iff in H as [Hx Ht].
    destruct (in_tx s); [|discriminate]. simpl.
    apply andb_true_iff. split.
    - clear Hw. induction (prize_tokens s) as [|r l IH]; simpl in *; [reflexivity|].
      apply andb_true_iff in Ht as [Hr Hl]. rewrite (IH Hl).
      unfold not_held_by. now destruct (upd r).
    - clear Ht. induction (winners s) as [|w l IH]; simpl in *; [reflexivity|].
      apply andb_true_iff in Hw as [Hr Hl]. rewrite (IH Hl).
      unfold own_insert, is_committed in *. now destruct (ins w).
Qed.

Lemma settled_unlocked (c : nat) (s : db) :
    settled s = true -> existsb (locked_by_other c) (prize_tokens s) = false.
Proof.
    unfold settled. intros H.
    apply andb_true_iff in H as [H _]. apply andb_true_iff in H as [_ Ht].
    induction (prize_tokens s) as [|r l IH]; simpl in *; [reflexivity|].
    apply andb_true_iff in Ht as [Hr Hl]. rewrite (IH Hl).
    unfold locked_by_other. now destruct (upd r).
Qed.

Lemma settled_is_winner (d : string) (s : db) :
    settled s = true -> is_winner d s = existsb (has_device d) (winners s).
Proof.
    unfold settled, is_winner. intros H. apply andb_true_iff in H as [_ Hw].
    induction (winners s) as [|w l IH]; simpl in *; [reflexivity|].
    apply andb_true_iff in Hw as [Hr Hl]. rewrite (IH Hl), Hr.
    now rewrite andb_true_r.
Qed.

Lemma remove_conn_absent (c : nat) (l : list nat) :
    existsb (Nat.eqb c) l = false -> remove_conn c l = l.
Proof.
    unfold remove_conn.
    induction l as [|x l IH]; simpl; intros H; [reflexivity|].
    apply orb_false_iff in H as [Hx Hl]. rewrite Hx, (IH Hl). reflexivity.
Qed.
End DbFacts.


(** ** One request on an idle connection: the early exits *)

Section EarlyExits.
Import Db.
Variables (e : env) (req : request) (d : string) (c : nat) (r : Q) (s : db).
Hypothesis Hvalid : valid req d.
Hypothesis Hidle : idle c s = true.

Lemma pg_already :
    is_winner d s = true ->
    exists s',
      run_thread exec c (ServerPg.draw e req) r [] s =
        (Some (json_draw false (Some "already_winner") (Z.of_nat (remainingCount s))),
         (s', [EvQuery (SELECT_winner d) true; EvQuery SELECT_remaining true]))
      /\ same_tables s s'.
Proof.
    destruct Hvalid as [Hd Hne]. destruct (idle_no_writes _ _ Hidle) as [_ Hnw].
    intros Hw. unfold ServerPg.draw. rewrite Hd, Hne.
    unfold run_thread. cbn.
    rewrite (no_writes_knows _ _ _ Hnw), Hw. cbn.
    rewrite (no_writes_count_free _ _ Hnw).
    eexists. split; [reflexivity|]. repeat split.
Qed.

Lemma my_already :
    is_winner d s = true ->
    exists s',
      run_thread exec c (ServerMysql.draw e req) r [] s =
        (Some (json_draw false (Some "already_winner") (Z.of_nat (remainingCount s))),
         (s', [EvQuery (SELECT_winner d) true; EvQuery SELECT_remaining true]))
      /\ same_tables s s'.
Proof.
    destruct Hvalid as [Hd Hne]. destruct (idle_no_writes _ _ Hidle) as [_ Hnw].
    intros Hw. unfold ServerMysql.draw. rewrite Hd, Hne.
    unfold run_thread. cbn.
    rewrite (no_writes_knows _ _ _ Hnw), Hw. cbn.
    rewrite (no_writes_count_free _ _ Hnw).
    eexists. split; [reflexivity|]. repeat split.
Qed.

Lemma pg_lost :
    is_winner d s = false -> js_lt r (rate_of e req) = false ->
    exists s',
      run_thread exec c (ServerPg.draw e req) r [] s =
        (Some (json_draw false None (Z.of_nat (remainingCount s))),
         (s', [EvQuery (SELECT_winner d) true; EvRandom r;
               EvQuery SELECT_remaining true]))
      /\ same_tables s s'.
Proof.
    destruct Hvalid as [Hd Hne]. destruct (idle_no_writes _ _ Hidle) as [_ Hnw].
    intros Hw Hl. unfold ServerPg.draw. rewrite Hd, Hne.
    unfold run_thread. cbn.
    rewrite (no_writes_knows _ _ _ Hnw), Hw. cbn. rewrite Hl. cbn.
    rewrite (no_writes_count_free _ _ Hnw).
    eexists. split; [reflexivity|]. repeat split.
Qed.

Lemma my_lost :
    is_winner d s = false -> js_lt r (rate_of e req) = false ->
    exists s',
      run_thread exec c (ServerMysql.draw e req) r [] s =
        (Some (json_draw false None (Z.of_nat (remainingCount s))),
         (s', [EvQuery (SELECT_winner d) true; EvRandom r;
               EvQuery SELECT_remaining true]))
      /\ same_tables s s'.
Proof.
    destruct Hvalid as [Hd Hne]. destruct (idle_no_writes _ _ Hidle) as [_ Hnw].
    intros Hw Hl. unfold ServerMysql.draw. rewrite Hd, Hne.
    unfold run_thread. cbn.
    rewrite (no_writes_knows _ _ _ Hnw), Hw. cbn. rewrite Hl. cbn.
    rewrite (no_writes_count_free _ _ Hnw).
    eexists. split; [reflexivity|]. repeat split.
Qed.
End EarlyExits.

(** ** One request on an idle connection: the claim *)

Section ClaimPath.
Import Db.

Lemma claim_first_cons (c : nat) (intx : bool) (d : string) (now : nat)
      (r : token_row) (l : list token_row) :
    claim_first c intx d now (r :: l) =
      if claimable c r then Some (id (cur r), claim_row c intx d now r :: l)
      else match claim_first c intx d now l with
           | Some (i, l') => Some (i, r :: l')
           | None => None
           end.
Proof. reflexivity. Qed.

Lemma claim_first_at (c : nat) (intx : bool) (d : string) (now : nat)
      (l1 l2 : list token_row) (r : token_row) :
    existsb (claimable c) l1 = false -> claimable c r = true ->
    claim_first c intx d now (l1 ++ r :: l2) =
      Some (id (cur r), l1 ++ claim_row c intx d now r :: l2).
Proof.
    intros H1 Hr. induction l1 as [|x l1 IH]; simpl app; rewrite claim_first_cons.
    - now rewrite Hr.
    - simpl in H1. apply orb_false_iff in H1 as [Hx Hl].
      rewrite Hx, (IH Hl). reflexivity.
Qed.

Lemma existsb_claimable_free (c : nat) (l : list token_row) :
    forallb (not_held_by c) l = true ->
    existsb (claimable c) l = existsb free_row l.
Proof.
    induction l as [|x l IH]; simpl; intros H; [reflexivity|].
    apply andb_true_iff in H as [Hx Hl].
    now rewrite (not_held_claimable _ _ Hx), (IH Hl).
Qed.

Lemma in_transaction_tick (c : nat) (s : db) ts ws tx :
    in_transaction c (tick s ts ws tx) = existsb (Nat.eqb c) tx.
Proof. reflexivity. Qed.

Variables (e : env) (req : request) (d : string) (c : nat) (r : Q) (s : db).
Hypothesis Hvalid : valid req d.
Hypothesis Hidle : idle c s = true.
Hypothesis Hnew : is_winner d s = false.
Hypothesis Hluck : js_lt r (rate_of e req) = true.

Lemma remove_conn_head (tx : list nat) :
    existsb (Nat.eqb c) tx = false -> remove_conn c (c :: tx) = tx.
Proof.
    intros H. unfold remove_conn. simpl. rewrite Nat.eqb_refl. simpl.
    now apply remove_conn_absent.
Qed.

Lemma pg_no_prizes :
    existsb free_row (prize_tokens s) = false ->
    exists s',
      run_thread exec c (ServerPg.draw e req) r [] s =
        (Some (json_draw false (Some "no_prizes_left") 0%Z),
         (s', [EvQuery (SELECT_winner d) true; EvRandom r; EvQuery BEGIN true;
               EvQuery (UPDATE_claim_skip_locked d) true; EvQuery ROLLBACK true]))
      /\ same_tables s s'.
Proof.
    destruct Hvalid as [Hd Hne]. destruct (idle_no_writes _ _ Hidle) as [Htx Hnw].
    intros Hfree. unfold ServerPg.draw. rewrite Hd, Hne.
    unfold in_transaction in Htx.
    pose proof Hnw as Hnw'. unfold no_writes in Hnw'.
    apply andb_true_iff in Hnw' as [Ht Hw].
    assert (Hc : claim_first c true d (S (S (clock s))) (prize_tokens s) = None).
    { apply claim_first_none. now rewrite existsb_claimable_free. }
    unfold run_thread. cbn.
    rewrite (no_writes_knows _ _ _ Hnw), Hnew. cbn. rewrite Hluck. cbn.
    rewrite Htx. cbn. rewrite Nat.eqb_refl. cbn. rewrite Hc. cbn.
    eexists. split; [reflexivity|].
    unfold same_tables. cbn.
    rewrite (rollback_not_held _ _ Ht), (filter_own_insert_idle _ _ Hw).
    rewrite (remove_conn_head _ Htx).
    repeat split.
Qed.

  (** The store after a successful claim and registration by [d]: the
      claimed row is committed with [d], a winners row for [d] is added. *)
Lemma pg_wins (l1 l2 : list token_row) (t : token_row) :
    prize_tokens s = l1 ++ t :: l2 ->
    existsb free_row l1 = false -> free_row t = true ->
    existsb (has_device d) (winners s) = false ->
    exists s',
      run_thread exec c (ServerPg.draw e req) r [] s =
        (Some (json_draw true None (Z.of_nat (remainingCount s'))),
         (s', [EvQuery (SELECT_winner d) true; EvRandom r; EvQuery BEGIN true;
               EvQuery (UPDATE_claim_skip_locked d) true;
               EvQuery (INSERT_winner d) true; EvQuery COMMIT true;
               EvQuery SELECT_remaining true]))
      /\ prize_tokens s' =
           l1 ++ {| cur := {| id := id (cur t); claimed_by := Some d;
                              claimed_at := Some (S (S (clock s))) |};
                    upd := None |} :: l2
      /\ winners s' =
           winners s ++ [{| wrow := {| device_id := d;
                                       created_at := S (S (S (clock s))) |};
                            ins := None |}]
      /\ in_tx s' = in_tx s.
Proof.
    destruct Hvalid as [Hd Hne]. destruct (idle_no_writes _ _ Hidle) as [Htx Hnw].
    intros Hts Hl1 Ht Hws. unfold ServerPg.draw. rewrite Hd, Hne.
    unfold in_transaction in Htx.
    pose proof Hnw as Hnw'. unfold no_writes in Hnw'.
    apply andb_true_iff in Hnw' as [Hnh Hw].
    rewrite Hts in Hnh. rewrite forallb_app in Hnh. simpl in Hnh.
    apply andb_true_iff in Hnh as [Hh1 Hh2]. apply andb_true_iff in Hh2 as [Hht Hh2].
    assert (Hc : claim_first c true d (S (S (clock s))) (prize_tokens s) =
                 Some (id (cur t), l1 ++ claim_row c true d (S (S (clock s))) t :: l2)).
    { rewrite Hts. apply claim_first_at.
      - now rewrite existsb_claimable_free.
      - now rewrite not_held_claimable. }
    unfold run_thread. cbn.
    rewrite (no_writes_knows _ _ _ Hnw), Hnew. cbn. rewrite Hluck. cbn.
    rewrite Htx. cbn. rewrite Nat.eqb_refl. cbn. rewrite Hc. cbn.
    rewrite (no_writes_knows _ _ _ Hnw), Hnew, Hws. cbn.
    rewrite Nat.eqb_refl. cbn.
    rewrite !map_app. cbn. rewrite Nat.eqb_refl.
    rewrite (commit_not_held _ _ Hh1), (commit_not_held _ _ Hh2).
    rewrite (commit_winner_not_own _ _ Hw), (remove_conn_head _ Htx).
    unfold commit_winner, reads. cbn. rewrite Nat.eqb_refl.
    eexists. split; [refine (f_equal2 pair _ eq_refl)|cbn; repeat split].
    do 3 f_equal.
    unfold remainingCount, committed_tokens. cbn.
    apply count_free_not_held.
    rewrite forallb_app. cbn. now rewrite Hh1, Hh2.
Qed.

Hypothesis Hsettled : settled s = true.

Lemma my_no_prizes :
    existsb free_row (prize_tokens s) = false ->
    exists s',
      run_thread exec c (ServerMysql.draw e req) r [] s =
        (Some (json_draw false (Some "no_prizes_left") 0%Z),
         (s', [EvQuery (SELECT_winner d) true; EvRandom r;
               EvQuery (UPDATE_claim_limit_1 d) true]))
      /\ same_tables s s'.
Proof.
    destruct Hvalid as [Hd Hne]. destruct (idle_no_writes _ _ Hidle) as [Htx Hnw].
    intros Hfree. unfold ServerMysql.draw. rewrite Hd, Hne.
    unfold in_transaction in Htx.
    pose proof Hnw as Hnw'. unfold no_writes in Hnw'.
    apply andb_true_iff in Hnw' as [Ht Hw].
    assert (Hc : claim_first c false d (S (clock s)) (prize_tokens s) = None).
    { apply claim_first_none. now rewrite existsb_claimable_free. }
    unfold run_thread. cbn.
    rewrite (no_writes_knows _ _ _ Hnw), Hnew. cbn. rewrite Hluck. cbn.
    rewrite (settled_unlocked _ _ Hsettled), Htx, Hc. cbn.
    eexists. split; [reflexivity|]. repeat split.
Qed.

Lemma my_wins (l1 l2 : list token_row) (t : token_row) :
    prize_tokens s = l1 ++ t :: l2 ->
    existsb free_row l1 = false -> free_row t = true ->
    exists s',
      run_thread exec c (ServerMysql.draw e req) r [] s =
        (Some (json_draw true None (Z.of_nat (remainingCount s'))),
         (s', [EvQuery (SELECT_winner d) true; EvRandom r;
               EvQuery (UPDATE_claim_limit_1 d) true;
               EvQuery (INSERT_winner d) true;
               EvQuery SELECT_remaining true]))
      /\ prize_tokens s' =
           l1 ++ {| cur := {| id := id (cur t); claimed_by := Some d;
                              claimed_at := Some (S (clock s)) |};
                    upd := None |} :: l2
      /\ winners s' =
           winners s ++ [{| wrow := {| device_id := d;
                                       created_at := S (S (clock s)) |};
                            ins := None |}]
      /\ in_tx s' = in_tx s.
Proof.
    destruct Hvalid as [Hd Hne]. destruct (idle_no_writes _ _ Hidle) as [Htx Hnw].
    intros Hts Hl1 Ht. unfold ServerMysql.draw. rewrite Hd, Hne.
    unfold in_transaction in Htx.
    pose proof Hnw as Hnw'. unfold no_writes in Hnw'.
    apply andb_true_iff in Hnw' as [Hnh Hw].
    rewrite Hts in Hnh. rewrite forallb_app in Hnh. simpl in Hnh.
    apply andb_true_iff in Hnh as [Hh1 Hh2]. apply andb_true_iff in Hh2 as [Hht Hh2].
    assert (Hc : claim_first c false d (S (clock s)) (prize_tokens s) =
                 Some (id (cur t), l1 ++ claim_row c false d (S (clock s)) t :: l2)).
    { rewrite Hts. apply claim_first_at.
      - now rewrite existsb_claimable_free.
      - now rewrite not_held_claimable. }
    pose proof Hnew as Hws. rewrite (settled_is_winner _ _ Hsettled) in Hws.
    unfold run_thread. cbn.
    rewrite (no_writes_knows _ _ _ Hnw), Hnew. cbn. rewrite Hluck. cbn.
    rewrite (settled_unlocked _ _ Hsettled), Htx, Hc. cbn.
    rewrite (no_writes_knows _ _ _ Hnw), Hnew, Hws. cbn. rewrite Htx.
    eexists. split; [refine (f_equal2 pair _ eq_refl)|cbn; repeat split].
    do 3 f_equal.
    unfold remainingCount, committed_tokens. cbn.
    apply count_free_not_held.
    rewrite forallb_app. cbn. now rewrite Hh1, Hh2.
Qed.
End ClaimPath.

(** ** A failing store: src/server.js rolls back *)

Section Faults.
Import Db.

Lemma rollback_claim_first (c : nat) (d : string) (now : nat)
    (l l' : list token_row) (i : nat) :
  forallb (not_held_by c) l = true ->
  claim_first c true d now l = Some (i, l') ->
  map (rollback_token c) l' = l.
Proof.
  intros Hnh H.
  destruct (claim_first_some _ _ _ _ _ _ _ H) as (l1 & r & l2 & E & _ & Hr & _ & E').
  subst. rewrite forallb_app in Hnh. simpl in Hnh.
  apply andb_true_iff in Hnh as [H1 H2]. apply andb_true_iff in H2 as [Hr' H2].
  rewrite map_app, map_cons.
  rewrite (rollback_not_held _ _ H1), (rollback_not_held _ _ H2).
  rewrite (not_held_claimable _ _ Hr') in Hr.
  now rewrite (rollback_claim_row _ _ _ _ Hr).
Qed.

Lemma cur_claim_first (c : nat) (d : string) (now : nat)
    (l l' : list token_row) (i : nat) :
  claim_first c true d now l = Some (i, l') -> map cur l' = map cur l.
Proof.
  intros H.
  destruct (claim_first_some _ _ _ _ _ _ _ H) as (l1 & r & l2 & E & _ & _ & _ & E').
  subst. now rewrite !map_app.
Qed.

Lemma filter_own_insert_pending (c : nat) (l : list winner_row) (w : winner) :
  forallb (fun x => negb (own_insert c x)) l = true ->
  filter (fun x => negb (own_insert c x)) (l ++ [{| wrow := w; ins := Some c |}]) = l.
Proof.
  intros H. rewrite filter_app. simpl. unfold own_insert at 2. simpl.
  rewrite Nat.eqb_refl. simpl. rewrite app_nil_r.
  now apply filter_own_insert_idle.
Qed.

Lemma committed_pending (c : nat) (l : list winner_row) (w : winner) :
  filter is_committed (l ++ [{| wrow := w; ins := Some c |}]) = filter is_committed l.
Proof. rewrite filter_app. simpl. now rewrite app_nil_r. Qed.

End Faults.

(** ** src/unnamed/part_002, one request *)

Section CountFacts.
Import ServerCount.
Local Arguments Z.sub : simpl never.
Local Arguments Z.leb : simpl never.

Lemma valid_string (req : request) (d : string) :
  valid req d -> deviceId_value req = StringId d.
Proof.
  unfold valid, deviceId. intros [H _].
  destruct (deviceId_value req); congruence.
Qed.

Lemma valid_truthy (req : request) (d : string) :
  valid req d -> truthy_id req = Some d.
Proof.
  intros Hv. unfold truthy_id. rewrite (valid_string _ _ Hv).
  destruct Hv as [_ ->]. reflexivity.
Qed.

Lemma find_filter {A : Type} (f : A -> bool) (l : list A) :
  find f l = hd_error (filter f l).
Proof.
  induction l as [|x l IH]; simpl; [reflexivity|].
  destruct (f x); [reflexivity|assumption].
Qed.

Lemma existsb_filter_nil {A : Type} (f : A -> bool) (l : list A) :
  filter f l = [] -> existsb f l = false.
Proof.
  induction l as [|x l IH]; simpl; [reflexivity|].
  destruct (f x); [discriminate|assumption].
Qed.

Lemma existsb_filter_cons {A : Type} (f : A -> bool) (l l' : list A) (x : A) :
  filter f l = x :: l' -> existsb f l = true.
Proof.
  intros H. apply existsb_exists. exists x.
  assert (Hin : In x (filter f l)) by (rewrite H; now left).
  now apply filter_In in Hin.
Qed.

Lemma stored_app (d : string) (ws : list winner) (w : winner) (b : bool) :
  option_map won_col (find (has_device d) ws) = Some b ->
  option_map won_col (find (has_device d) (ws ++ [w])) = Some b.
Proof.
  induction ws as [|x ws IH]; simpl; [discriminate|].
  destruct (has_device d x); [trivial|assumption].
Qed.

Lemma stored_new (d : string) (ws : list winner) (w : winner) :
  find (has_device d) ws = None -> has_device d w = true ->
  find (has_device d) (ws ++ [w]) = Some w.
Proof.
  induction ws as [|x ws IH]; simpl; intros H Hw.
  - now rewrite Hw.
  - destruct (has_device d x); [discriminate|now apply IH].
Qed.

Ltac reply_fin :=
  intros;
  repeat match goal with
         | H : Some _ = Some _ |- _ => inversion H; clear H; subst
         end;
  cbn in *; try discriminate; auto.

Ltac count_step :=
  cbn;
  match goal with
  | |- context [hd false ?x] => destruct (hd false x)
  | H : filter (has_device ?d) ?l = [] |- context [existsb (has_device ?d) ?l] =>
      rewrite (existsb_filter_nil _ _ H)
  | H : filter (has_device ?d) ?l = _ :: _ |- context [existsb (has_device ?d) ?l] =>
      rewrite (existsb_filter_cons _ _ H)
  | |- context [filter (has_device ?d) ?l] =>
      destruct (filter (has_device d) l) eqn:?
  | |- context [(MAX_PRIZES <=? ?x)%Z] => destruct (MAX_PRIZES <=? x)%Z eqn:?
  end.

(** Everything one request of a device [d] can do, whatever the store's
    availability. *)
Lemma count_draw_cases (req : request) (d : string) (c : nat) (r : Q)
    (faults : list bool) (s : db) :
  truthy_id req = Some d ->
  let '(rp, (s', tr)) := run_thread exec c (draw req) r faults s in
  match stored d s with
  | Some b =>
      winners s' = winners s /\
      existsb is_random tr = false /\
      (says_won rp = true -> b = true) /\
      forall a, rp = Some a -> ok a = true ->
                won a = Some b /\ reason a = Some "already_winner"
  | None =>
      (winners s' = winners s /\ is_ok rp = false /\ says_won rp = false) \/
      (exists w, winners s' = winners s ++ [w] /\ has_device d w = true /\
                 (existsb is_random tr = true -> won_col w = js_lt r (Finite (3 # 10))) /\
                 (says_won rp = true -> won_col w = true) /\
                 forall a, rp = Some a -> ok a = true -> won a = Some (won_col w))
  end.
Proof.
  intros Hd. unfold draw. rewrite Hd.
  unfold stored. rewrite find_filter.
  unfold run_thread.
  repeat count_step; cbn.
  all: try solve [left; repeat split; reflexivity].
  all: try solve [repeat split; reply_fin; destruct (won_col _); auto; discriminate].
  all: right; eexists; split; [reflexivity|]; unfold has_device; cbn;
       rewrite String.eqb_refl; repeat split; reply_fin;
       destruct (Qltb _ _); auto; discriminate.
Qed.

(** A request only ever appends to [winners]. *)
Lemma count_draw_appends (req : request) (c : nat) (r : Q)
    (faults : list bool) (s : db) :
  let '(rp, (s', tr)) := run_thread exec c (draw req) r faults s in
  winners s' = winners s \/
  exists w, winners s' = winners s ++ [w] /\ asks (device_id w) req = true.
Proof.
  unfold draw, asks. destruct (truthy_id req) as [d|]; [|now left].
  unfold run_thread.
  repeat count_step; cbn.
  all: try solve [left; reflexivity].
  all: right; eexists; split; [reflexivity|]; cbn; apply String.eqb_refl.
Qed.

Lemma asks_truthy (req : request) (d : string) :
  asks d req = true -> truthy_id req = Some d.
Proof.
  unfold asks. destruct (truthy_id req) as [d'|]; [|discriminate].
  intros H. apply String.eqb_eq in H. now subst.
Qed.

Lemma count_from_seen (req : request) (d : string) (c : nat) (r : Q)
    (faults : list bool) (s : db) (b : bool) :
  asks d req = true -> stored d s = Some b ->
  let '(rp, (s', tr)) := run_thread exec c (draw req) r faults s in
  winners s' = winners s /\ existsb is_random tr = false /\
  (says_won rp = true -> b = true) /\
  (draw_result false rp = true -> b = false).
Proof.
  intros Hf Hs. pose proof (asks_truthy _ _ Hf) as Hd.
  pose proof (count_draw_cases req d c r faults s Hd) as H.
  destruct (run_thread exec c (draw req) r faults s) as [rp [s' tr]].
  rewrite Hs in H. destruct H as (H1 & H2 & H3 & H4). repeat split; trivial.
  unfold draw_result. destruct rp as [a|]; [|discriminate].
  intros H. apply andb_true_iff in H as [Hok Hb].
  destruct (H4 a eq_refl Hok) as [Hw _]. rewrite Hw in Hb.
  destruct b; [discriminate|reflexivity].
Qed.

Lemma count_from_unseen (req : request) (d : string) (c : nat) (r : Q)
    (faults : list bool) (s : db) :
  asks d req = true -> stored d s = None ->
  let '(rp, (s', tr)) := run_thread exec c (draw req) r faults s in
  (winners s' = winners s /\ is_ok rp = false /\ says_won rp = false) \/
  (exists w, stored d s' = Some (won_col w) /\
             (says_won rp = true -> won_col w = true) /\
             (draw_result false rp = true -> won_col w = false)).
Proof.
  intros Hf Hs. pose proof (asks_truthy _ _ Hf) as Hd.
  pose proof (count_draw_cases req d c r faults s Hd) as H.
  destruct (run_thread exec c (draw req) r faults s) as [rp [s' tr]].
  rewrite Hs in H. destruct H as [H|[w (Hw & Hdev & _ & Hwon & Hrp)]]; [now left|].
  right. exists w. repeat split.
  - unfold stored in *. rewrite Hw.
    destruct (find (has_device d) (winners s)) eqn:Hfind; [discriminate|].
    now rewrite (stored_new _ _ _ Hfind Hdev).
  - assumption.
  - unfold draw_result. destruct rp as [a|]; [|discriminate].
    intros H. apply andb_true_iff in H as [Hok Hb].
    specialize (Hrp a eq_refl Hok). rewrite Hrp in Hb.
    destruct (won_col w); [discriminate|reflexivity].
Qed.

(** What is stored for a device stays stored, whoever asks next. *)
Lemma count_stored_stable (req : request) (d : string) (c : nat) (r : Q)
    (faults : list bool) (s : db) (b : bool) :
  stored d s = Some b ->
  let '(rp, (s', tr)) := run_thread exec c (draw req) r faults s in
  stored d s' = Some b.
Proof.
  intros Hs. pose proof (count_draw_appends req c r faults s) as H.
  destruct (run_thread exec c (draw req) r faults s) as [rp [s' tr]].
  unfold stored in *. destruct H as [H|[w [H _]]]; rewrite H; [assumption|].
  now apply stored_app.
Qed.
End CountFacts.

(** ** src/unnamed/part_002, requests one after the other *)

Section CountSequences.
Import ServerCount.

(** Once an outcome is stored for [d], no later request of [d] draws, and
    none is told it won unless the stored outcome is a win. *)
Lemma count_replay (arr : list arrival) (c : nat) (s : db) (d : string) (b : bool) :
  stored d s = Some b ->
  forall x, In x (fst (serve exec draw c arr s)) -> asks d (s_req x) = true ->
            existsb is_random (s_trace x) = false /\
            (says_won (s_reply x) = true -> b = true).
Proof.
  revert c s. induction arr as [|a arr IH]; intros c s Hs x Hin Hf.
  - destruct Hin.
  - simpl in Hin.
    pose proof (count_stored_stable (a_req a) d c (a_random a) (a_faults a) s b Hs) as Hst.
    pose proof (fun H => count_from_seen (a_req a) d c (a_random a) (a_faults a) s b H Hs) as Hfs.
    destruct (run_thread exec c (draw (a_req a)) (a_random a) (a_faults a) s)
      as [rp [s' tr]].
    specialize (IH (S c) s' Hst).
    destruct (serve exec draw (S c) arr s') as [out s''].
    simpl in *. destruct Hin as [<-|Hin].
    + simpl in *. destruct (Hfs Hf) as (_ & H1 & H2 & _). now split.
    + now apply IH.
Qed.

(** At most one completed request of [d] has drawn. *)
Lemma count_one_draw (arr : list arrival) (c : nat) (s : db) (d : string) :
  length (filter (fun x => asks d (s_req x) && existsb is_random (s_trace x)
                           && is_ok (s_reply x))
                 (fst (serve exec draw c arr s))) <= 1.
Proof.
  revert c s. induction arr as [|a arr IH]; intros c s; [simpl; lia|].
  simpl.
  pose proof (count_replay arr (S c)) as Hrep.
  pose proof (count_from_seen (a_req a) d c (a_random a) (a_faults a) s) as Hseen.
  pose proof (count_from_unseen (a_req a) d c (a_random a) (a_faults a) s) as Hunseen.
  destruct (run_thread exec c (draw (a_req a)) (a_random a) (a_faults a) s)
    as [rp [s' tr]].
  specialize (IH (S c) s'). specialize (Hrep s' d).
  destruct (serve exec draw (S c) arr s') as [out s''].
  simpl in *.
  destruct (asks d (a_req a)) eqn:Hf; simpl; [|assumption].
  destruct (existsb is_random tr) eqn:Hr; simpl; [|assumption].
  destruct (is_ok rp) eqn:Hok; simpl; [|assumption].
  destruct (stored d s) as [b|] eqn:Hs.
  - destruct (Hseen b eq_refl eq_refl) as (_ & H & _ & _). congruence.
  - destruct (Hunseen eq_refl eq_refl) as [(_ & H & _)|[w (Hw & _)]]; [congruence|].
    assert (Hnil : filter (fun x => asks d (s_req x) && existsb is_random (s_trace x)
                                    && is_ok (s_reply x)) out = []).
    { clear IH. induction out as [|y out IHo]; [reflexivity|].
      simpl. destruct (asks d (s_req y)) eqn:Hfy; simpl.
      - destruct (Hrep _ Hw y (or_introl eq_refl) Hfy) as [Hy _].
        rewrite Hy. simpl. apply IHo. intros b0 H0 x Hx. apply (Hrep b0 H0). now right.
      - apply IHo. intros b0 H0 x Hx. apply (Hrep b0 H0). now right. }
    rewrite Hnil. simpl. lia.
Qed.

(** A device that was told it lost is never told it won afterwards. *)
Lemma count_loss_is_final (arr : list arrival) (c : nat) (s : db) (d : string)
    (i j : nat) (x y : served stmt) :
  i < j ->
  nth_error (fst (serve exec draw c arr s)) i = Some x ->
  nth_error (fst (serve exec draw c arr s)) j = Some y ->
  asks d (s_req x) = true -> asks d (s_req y) = true ->
  draw_result false (s_reply x) = true ->
  says_won (s_reply y) = false.
Proof.
  revert c s i j. induction arr as [|a arr IH]; intros c s i j Hij Hx Hy Hfx Hfy Hl.
  - destruct i; discriminate.
  - simpl in Hx, Hy.
    pose proof (count_replay arr (S c)) as Hrep.
    pose proof (count_from_seen (a_req a) d c (a_random a) (a_faults a) s) as Hseen.
    pose proof (count_from_unseen (a_req a) d c (a_random a) (a_faults a) s) as Hunseen.
    destruct (run_thread exec c (draw (a_req a)) (a_random a) (a_faults a) s)
      as [rp [s' tr]].
    specialize (IH (S c) s'). specialize (Hrep s' d).
    destruct (serve exec draw (S c) arr s') as [out s''].
    simpl in *.
    destruct j as [|j]; [lia|]. simpl in Hy.
    destruct i as [|i].
    + simpl in Hx. inversion Hx; subst x; clear Hx. simpl in *.
      assert (Hy' : In y out) by (eapply nth_error_In; eassumption).
      destruct (says_won (s_reply y)) eqn:Hsy; [|reflexivity].
      destruct (stored d s) as [b|] eqn:Hs.
      * destruct (Hseen b Hfx eq_refl) as (Hw & _ & _ & Hb).
        specialize (Hb Hl). subst b.
        assert (Hs' : stored d s' = Some false).
        { unfold stored in *. now rewrite Hw. }
        destruct (Hrep _ Hs' y Hy' Hfy) as [_ H]. symmetry. now apply H.
      * destruct (Hunseen Hfx eq_refl) as [(_ & Hok & _)|[w (Hw & _ & Hb)]].
        -- unfold draw_result, is_ok in *. destruct rp as [a0|]; [|discriminate].
           rewrite Hok in Hl. discriminate.
        -- rewrite (Hb Hl) in Hw.
           destruct (Hrep _ Hw y Hy' Hfy) as [_ H]. symmetry. now apply H.
    + simpl in Hx. apply (IH i j); try assumption. lia.
Qed.
End CountSequences.

(** ** Invariants of the token store, statement by statement *)

Section DbInvariants.
Import Db.

Lemma row_kept_refl (r : token_row) : row_kept r r.
Proof. split; reflexivity. Qed.

Lemma claims_kept_refl (s : db) : claims_kept s s.
Proof.
  unfold claims_kept. induction (prize_tokens s); constructor; auto using row_kept_refl.
Qed.

Lemma row_kept_trans (r1 r2 r3 : token_row) :
  row_kept r1 r2 -> row_kept r2 r3 -> row_kept r1 r3.
Proof.
  intros [A B] [C D]. split; [congruence|].
  intros H. specialize (B H). rewrite B in *. rewrite (D H). reflexivity.
Qed.

Lemma Forall2_trans {A : Type} (R : A -> A -> Prop) :
  (forall x y z, R x y -> R y z -> R x z) ->
  forall l1 l2 l3, Forall2 R l1 l2 -> Forall2 R l2 l3 -> Forall2 R l1 l3.
Proof.
  intros HR l1 l2 l3 H. revert l3.
  induction H; intros l3 H3; inversion H3; subst; constructor; eauto.
Qed.

Lemma claims_kept_trans (s1 s2 s3 : db) :
  claims_kept s1 s2 -> claims_kept s2 s3 -> claims_kept s1 s3.
Proof. apply Forall2_trans, row_kept_trans. Qed.

Lemma Forall2_map_r {A : Type} (R : A -> A -> Prop) (f : A -> A) (l : list A) :
  (forall x, In x l -> R x (f x)) -> Forall2 R l (map f l).
Proof.
  induction l as [|x l IH]; simpl; intros H; constructor.
  - apply H. now left.
  - apply IH. intros y Hy. apply H. now right.
Qed.

Lemma wf_row_commit (c : nat) (r : token_row) :
  wf_row r = true -> wf_row (commit_token c r) = true /\ row_kept r (commit_token c r).
Proof.
  unfold wf_row, commit_token, row_kept.
  destruct (upd r) as [[c' t]|] eqn:U; [|rewrite U; auto].
  intros H. apply andb_true_iff in H as [H Hid]. apply andb_true_iff in H as [Hn Ht].
  apply Nat.eqb_eq in Hid.
  destruct (Nat.eqb c' c); simpl.
  - repeat split; [assumption|]. rewrite Hn. discriminate.
  - rewrite U, Hn, Ht, Hid, Nat.eqb_refl. auto.
Qed.

Lemma wf_row_rollback (c : nat) (r : token_row) :
  wf_row r = true -> wf_row (rollback_token c r) = true /\ row_kept r (rollback_token c r).
Proof.
  unfold wf_row, rollback_token, row_kept.
  destruct (upd r) as [[c' t]|] eqn:U; [|rewrite U; auto].
  intros H. destruct (Nat.eqb c' c); simpl; [auto|].
  rewrite U. auto.
Qed.

Lemma wf_row_claim (c : nat) (intx : bool) (d : string) (now : nat) (r : token_row) :
  wf_row r = true -> claimable c r = true ->
  wf_row (claim_row c intx d now r) = true /\ row_kept r (claim_row c intx d now r).
Proof.
  unfold wf_row, claimable, claim_row, row_kept, seen, locked_by_other.
  destruct (upd r) as [[c' t]|] eqn:U.
  - intros H Hc. apply andb_true_iff in H as [H Hid]. apply andb_true_iff in H as [Hn Ht].
    destruct (Nat.eqb c' c); simpl in Hc.
    + rewrite andb_true_r in Hc. rewrite Hc in Ht. discriminate.
    + rewrite andb_false_r in Hc. discriminate.
  - intros _ Hc. rewrite andb_true_r in Hc.
    destruct intx; simpl; rewrite ?Hc, ?Nat.eqb_refl; repeat split; try reflexivity;
      intros H; congruence.
Qed.

Lemma wf_claim_first (c : nat) (intx : bool) (d : string) (now : nat)
    (l l' : list token_row) (i : nat) :
  forallb wf_row l = true ->
  claim_first c intx d now l = Some (i, l') ->
  forallb wf_row l' = true /\ Forall2 row_kept l l'.
Proof.
  intros Hwf H.
  destruct (claim_first_some _ _ _ _ _ _ _ H) as (l1 & r & l2 & E & _ & Hr & _ & E').
  subst. rewrite forallb_app in *. simpl in *.
  apply andb_true_iff in Hwf as [H1 H2]. apply andb_true_iff in H2 as [Hr' H2].
  destruct (wf_row_claim c intx d now r Hr' Hr) as [A B].
  rewrite H1, A, H2. split; [reflexivity|].
  apply Forall2_app; [|constructor; [assumption|]].
  - clear. induction l1; constructor; auto using row_kept_refl.
  - clear. induction l2; constructor; auto using row_kept_refl.
Qed.

Lemma forallb_map_wf (f : token_row -> token_row) (l : list token_row) :
  (forall r, wf_row r = true -> wf_row (f r) = true /\ row_kept r (f r)) ->
  forallb wf_row l = true ->
  forallb wf_row (map f l) = true /\ Forall2 row_kept l (map f l).
Proof.
  intros Hf. induction l as [|r l IH]; simpl; intros H; [split; [reflexivity|constructor]|].
  apply andb_true_iff in H as [Hr Hl].
  destruct (Hf r Hr) as [A B]. destruct (IH Hl) as [C D].
  rewrite A, C. split; [reflexivity|now constructor].
Qed.

(** Every statement keeps the store well formed and keeps every claim. *)
Lemma exec_keeps_claims (c : nat) (q : stmt) (s s' : db) (res : result) :
  wf s = true -> exec c q s = Done res s' ->
  wf s' = true /\ claims_kept s s'.
Proof.
  unfold wf, claims_kept. intros Hwf H.
  destruct q; simpl in H.
  - inversion H; subst; simpl. split; [assumption|apply claims_kept_refl].
  - inversion H; subst; simpl. split; [assumption|apply claims_kept_refl].
  - destruct (claim_first c (in_transaction c s) d (clock s) (prize_tokens s))
      as [[i l']|] eqn:Hc; inversion H; subst; simpl.
    + eapply wf_claim_first; eassumption.
    + split; [assumption|apply claims_kept_refl].
  - destruct (existsb (locked_by_other c) (prize_tokens s)); [discriminate|].
    destruct (claim_first c (in_transaction c s) d (clock s) (prize_tokens s))
      as [[i l']|] eqn:Hc; inversion H; subst; simpl.
    + eapply wf_claim_first; eassumption.
    + split; [assumption|apply claims_kept_refl].
  - destruct (existsb _ (winners s)).
    + inversion H; subst; simpl. split; [assumption|apply claims_kept_refl].
    + destruct (existsb (has_device d) (winners s)); [discriminate|].
      inversion H; subst; simpl. split; [assumption|apply claims_kept_refl].
  - inversion H; subst; simpl. split; [assumption|apply claims_kept_refl].
  - inversion H; subst; simpl. apply forallb_map_wf; [apply wf_row_commit|assumption].
  - inversion H; subst; simpl. apply forallb_map_wf; [apply wf_row_rollback|assumption].
Qed.

(** No statement of the token servers is rejected by the store. *)
Lemma exec_never_raises (c : nat) (q : stmt) (s s' : db) :
  exec c q s <> Raised s'.
Proof.
  destruct q; simpl; try discriminate.
  - destruct (claim_first _ _ _ _ _) as [[? ?]|]; discriminate.
  - destruct (existsb _ _); [discriminate|].
    destruct (claim_first _ _ _ _ _) as [[? ?]|]; discriminate.
  - destruct (existsb _ _); [discriminate|].
    destruct (existsb _ _); discriminate.
Qed.
End DbInvariants.

(** ** Lifting a store invariant to requests *)

Section Lifting.
Variables Stmt Res Store : Type.
Variable exec : nat -> Stmt -> Store -> exec_result Res Store.
Variable I : Store -> Prop.
Variable R : Store -> Store -> Prop.
Hypothesis R_refl : forall s, R s s.
Hypothesis R_trans : forall s1 s2 s3, R s1 s2 -> R s2 s3 -> R s1 s3.
Hypothesis exec_done :
  forall c q s res s', I s -> exec c q s = Done res s' -> I s' /\ R s s'.
Hypothesis exec_raised :
  forall c q s s', I s -> exec c q s = Raised s' -> I s' /\ R s s'.

Lemma thread_step_keeps (c : nat) (a : action) (t t' : thread Stmt Res)
    (s s' : Store) :
  I s -> thread_step exec c a t s = Some (t', s') -> I s' /\ R s s'.
Proof.
  intros HI. unfold thread_step.
  destruct (body t) as [x| |q k|k]; try discriminate.
  - destruct a; try discriminate.
    + destruct (exec c q s) as [res s1|s1|] eqn:He; try discriminate.
      * intros [= _ <-]. eauto.
      * intros [= _ <-]. eauto.
    + intros [= _ <-]. auto.
  - destruct a; try discriminate.
    destruct (in_unit_interval r); [|discriminate].
    intros [= _ <-]. auto.
Qed.

Lemma sched_run_keeps (sch : list (nat * action)) (s s' : Store)
    (ths ths' : list (thread Stmt Res)) :
  I s -> sched_run exec sch s ths = Some (s', ths') -> I s' /\ R s s'.
Proof.
  revert s ths. induction sch as [|[i a] sch IH]; intros s ths HI; simpl.
  - intros [= <- _]. auto.
  - destruct (nth_error ths i) as [t|]; [|discriminate].
    destruct (thread_step exec i a t s) as [[t' s1]|] eqn:Hs; [|discriminate].
    intros H.
    assert (H1 : I s1 /\ R s s1) by (eapply thread_step_keeps; eassumption).
    destruct H1 as [HI1 HR1].
    destruct (IH _ _ HI1 H) as [HI2 HR2]. eauto.
Qed.

Lemma run_keeps {A : Type} (c : nat) (p : prog Stmt Res A) (r : Q)
    (faults : list bool) (s : Store) :
  I s ->
  let '(_, (_, s', _)) := run exec c p r faults s in I s' /\ R s s'.
Proof.
  revert faults s. induction p as [x| |q k IH|k IH]; intros faults s HI; simpl; auto.
  - destruct (hd false faults); [auto|].
    destruct (exec c q s) as [res s1|s1|] eqn:He; [| |auto].
    + destruct (exec_done _ _ _ _ _ HI He) as [HI1 HR1].
      specialize (IH res (tl faults) s1 HI1).
      destruct (run exec c (k res) r (tl faults) s1) as [o [[fs s2] tr]].
      destruct IH. eauto.
    + eapply exec_raised; eassumption.
  - specialize (IH r faults s HI).
    destruct (run exec c (k r) r faults s) as [o [[fs s2] tr]]. assumption.
Qed.

Lemma run_thread_keeps (c : nat) (t : thread Stmt Res) (r : Q)
    (faults : list bool) (s : Store) :
  I s ->
  let '(_, (s', _)) := run_thread exec c t r faults s in I s' /\ R s s'.
Proof.
  intros HI. unfold run_thread.
  pose proof (run_keeps c (body t) r faults s HI) as H1.
  destruct (run exec c (body t) r faults s) as [o [[fs s1] tr]].
  destruct H1 as [HI1 HR1].
  destruct o; auto.
  destruct (handler t) as [h|]; auto.
  pose proof (run_keeps c h r fs s1 HI1) as H2.
  destruct (run exec c h r fs s1) as [o2 [[fs2 s2] tr2]].
  destruct H2 as [HI2 HR2].
  destruct o2; eauto.
Qed.
End Lifting.

(** ** The winners registry, statement by statement *)

Section Registry.
Import Db.

Lemma NoDup_map_filter {A B : Type} (f : A -> B) (g : A -> bool) (l : list A) :
  NoDup (map f l) -> NoDup (map f (filter g l)).
Proof.
  induction l as [|x l IH]; simpl; intros H; [constructor|].
  inversion H as [|? ? Hx Hl]; subst.
  destruct (g x); simpl; [|auto].
  constructor; [|auto].
  intros Hin. apply Hx. apply in_map_iff in Hin as [y [Hy Hin]].
  apply filter_In in Hin as [Hin _]. apply in_map_iff. eauto.
Qed.

Lemma map_device_commit (c : nat) (l : list winner_row) :
  map (fun w => device_id (wrow w)) (map (commit_winner c) l) =
  map (fun w => device_id (wrow w)) l.
Proof.
  rewrite map_map. apply map_ext. intros w. unfold commit_winner.
  now destruct (reads c w).
Qed.

Lemma no_device_not_in (d : string) (l : list winner_row) :
  existsb (has_device d) l = false ->
  ~ In d (map (fun w => device_id (wrow w)) l).
Proof.
  intros H Hin. apply in_map_iff in Hin as [w [Hw Hin]].
  assert (existsb (has_device d) l = true); [|congruence].
  apply existsb_exists. exists w. split; [assumption|].
  unfold has_device. rewrite Hw. apply String.eqb_refl.
Qed.

Lemma exec_keeps_unique (c : nat) (q : stmt) (s s' : db) (res : result) :
  unique_devices s -> exec c q s = Done res s' -> unique_devices s'.
Proof.
  unfold unique_devices. intros Hu H.
  destruct q; simpl in H.
  - inversion H; subst; assumption.
  - inversion H; subst; assumption.
  - destruct (claim_first _ _ _ _ _) as [[? ?]|]; inversion H; subst; assumption.
  - destruct (existsb _ _); [discriminate|].
    destruct (claim_first _ _ _ _ _) as [[? ?]|]; inversion H; subst; assumption.
  - destruct (existsb _ (winners s)).
    + inversion H; subst; assumption.
    + destruct (existsb (has_device d) (winners s)) eqn:Hd; [discriminate|].
      inversion H; subst; simpl. rewrite map_app. simpl.
      apply NoDup_app; [assumption|repeat constructor; intros []|].
      intros x Hx [<-|[]]. revert Hx. now apply no_device_not_in.
  - inversion H; subst; assumption.
  - inversion H; subst; simpl. now rewrite map_device_commit.
  - inversion H; subst; simpl. now apply NoDup_map_filter.
Qed.

Lemma unique_at_most_one (d : string) (l : list winner_row) :
  NoDup (map (fun w => device_id (wrow w)) l) ->
  length (filter (has_device d) l) <= 1.
Proof.
  induction l as [|w l IH]; simpl; intros H; [lia|].
  inversion H as [|? ? Hw Hl]; subst.
  destruct (has_device d w) eqn:Hd; simpl; [|auto].
  assert (Hnil : filter (has_device d) l = []).
  { destruct (filter (has_device d) l) as [|y l'] eqn:Hf; [reflexivity|].
    exfalso. apply Hw.
    assert (Hy : In y (filter (has_device d) l)) by (rewrite Hf; now left).
    apply filter_In in Hy as [Hy Hdy].
    unfold has_device in *. apply String.eqb_eq in Hd, Hdy.
    apply in_map_iff. exists y. split; [congruence|assumption]. }
  rewrite Hnil. simpl. lia.
Qed.

(** After a completed [recordWin(d)] there is exactly one row for [d]. *)
Lemma insert_leaves_one (c : nat) (d : string) (s s' : db) (res : result) :
  unique_devices s -> exec c (INSERT_winner d) s = Done res s' ->
  length (records_of d s') = 1.
Proof.
  intros Hu H. pose proof (exec_keeps_unique _ _ _ _ _ Hu H) as Hu'.
  pose proof (unique_at_most_one d _ Hu') as Hle.
  unfold records_of in *. simpl in H.
  destruct (existsb (fun w => has_device d w && reads c w) (winners s)) eqn:Hv.
  - inversion H; subst; simpl in *.
    apply existsb_exists in Hv as [w [Hin Hw]]. apply andb_true_iff in Hw as [Hw _].
    assert (Hin' : In w (filter (has_device d) (winners s)))
      by (apply filter_In; now split).
    destruct (filter (has_device d) (winners s)); [destruct Hin'|simpl in *; lia].
  - destruct (existsb (has_device d) (winners s)) eqn:Hd; [discriminate|].
    inversion H; subst; simpl in *.
    rewrite filter_app in *. simpl in *. unfold has_device at 2 in Hle.
    unfold has_device at 2. simpl in *. rewrite String.eqb_refl in *.
    rewrite length_app in *. simpl in *. lia.
Qed.

(** A second [recordWin(d)] right after a completed one changes no table and
    inserts nothing, if it does not have to wait. *)
Lemma insert_twice (c1 c2 : nat) (d : string) (s s1 : db) (res1 : result) :
  exec c1 (INSERT_winner d) s = Done res1 s1 ->
  exec c2 (INSERT_winner d) s1 = Blocked \/
  exists s2, exec c2 (INSERT_winner d) s1 = Done no_rows s2 /\ same_tables s1 s2.
Proof.
  intros H.
  assert (Hd : existsb (has_device d) (winners s1) = true).
  { simpl in H.
    destruct (existsb (fun w => has_device d w && reads c1 w) (winners s)) eqn:Hv.
    - inversion H; subst; simpl.
      apply existsb_exists in Hv as [w [Hin Hw]]. apply andb_true_iff in Hw as [Hw _].
      apply existsb_exists. eauto.
    - destruct (existsb (has_device d) (winners s)); [discriminate|].
      inversion H; subst; simpl. rewrite existsb_app. simpl.
      unfold has_device at 2. simpl. rewrite String.eqb_refl.
      now rewrite orb_true_r. }
  simpl. destruct (existsb (fun w => has_device d w && reads c2 w) (winners s1)).
  - right. eexists. split; [reflexivity|]. repeat split.
  - rewrite Hd. now left.
Qed.

(** On the same connection the second insert never waits. *)
Lemma insert_twice_same (c : nat) (d : string) (s s1 : db) (res1 : result) :
  exec c (INSERT_winner d) s = Done res1 s1 ->
  exists s2, exec c (INSERT_winner d) s1 = Done no_rows s2 /\ same_tables s1 s2.
Proof.
  intros H.
  assert (Hd : existsb (fun w => has_device d w && reads c w) (winners s1) = true).
  { simpl in H.
    destruct (existsb (fun w => has_device d w && reads c w) (winners s)) eqn:Hv.
    - inversion H; subst; simpl. assumption.
    - destruct (existsb (has_device d) (winners s)); [discriminate|].
      inversion H; subst; simpl. rewrite existsb_app. simpl.
      unfold has_device at 2, reads at 2. simpl. rewrite String.eqb_refl.
      destruct (in_transaction c s); simpl; rewrite ?Nat.eqb_refl;
        now rewrite orb_true_r. }
  simpl. rewrite Hd. eexists. split; [reflexivity|]. repeat split.
Qed.
End Registry.

(** ** Exact replies of src/unnamed/part_002 *)

Section CountReplies.
Import ServerCount.
Local Arguments Z.sub : simpl never.
Local Arguments Z.leb : simpl never.

Variables (req : request) (d : string) (c : nat) (r : Q) (s : db).
Hypothesis Htruthy : truthy_id req = Some d.

Lemma stored_filter (b : bool) :
  stored d s = Some b ->
  exists w l, filter (has_device d) (winners s) = w :: l /\ won_col w = b.
Proof.
  unfold stored. rewrite find_filter.
  destruct (filter (has_device d) (winners s)) as [|w l]; simpl; [discriminate|].
  intros [= <-]. eauto.
Qed.

Lemma unseen_filter :
  stored d s = None -> filter (has_device d) (winners s) = [].
Proof.
  unfold stored. rewrite find_filter.
  destruct (filter (has_device d) (winners s)) as [|w l]; simpl; [reflexivity|discriminate].
Qed.

Lemma count_already (b : bool) :
  stored d s = Some b ->
  exists s',
    run_thread exec c (draw req) r [] s =
      (Some {| status := 200; ok := true; won := Some b;
               reason := Some "already_winner";
               remaining := Some (MAX_PRIZES - Z.of_nat (count_won s))%Z;
               error := None |},
       (s', [EvQuery (SELECT_won d) true; EvQuery SELECT_count_won true]))
    /\ winners s' = winners s.
Proof.
  intros Hs.
  destruct (stored_filter b Hs) as (w & l & Hf & Hw).
  unfold draw. rewrite Htruthy. unfold run_thread. cbn.
  rewrite Hf. cbn. rewrite Hw.
  eexists. split; [reflexivity|reflexivity].
Qed.

Lemma count_gate (winChance : bool) :
  stored d s = None ->
  (MAX_PRIZES <=? Z.of_nat (count_won s))%Z = false ->
  js_lt r (Finite (3 # 10)) = winChance ->
  exists s',
    run_thread exec c (draw req) r [] s =
      (Some (json_draw winChance None (MAX_PRIZES - Z.of_nat (count_won s'))%Z),
       (s', [EvQuery (SELECT_won d) true; EvQuery SELECT_count_won true;
             EvRandom r; EvQuery (INSERT_winner d winChance) true;
             EvQuery SELECT_count_won true]))
    /\ winners s' =
         winners s ++ [{| id := next_id s; device_id := d; won_col := winChance;
                          created_at := S (S (clock s)) |}].
Proof.
  intros Hs Hmax Hr.
  pose proof (unseen_filter Hs) as Hf.
  unfold draw. rewrite Htruthy. unfold run_thread. cbn.
  rewrite Hf. cbn. unfold count_won in Hmax. rewrite Hmax. cbn.
  rewrite (existsb_filter_nil _ _ Hf). cbn. cbn in Hr. rewrite Hr.
  eexists. split; [refine (f_equal2 pair _ eq_refl)|]; reflexivity.
Qed.

Lemma count_no_prizes :
  stored d s = None ->
  (MAX_PRIZES <=? Z.of_nat (count_won s))%Z = true ->
  exists s',
    run_thread exec c (draw req) r [] s =
      (Some (json_draw false (Some "no_prizes_left") 0%Z),
       (s', [EvQuery (SELECT_won d) true; EvQuery SELECT_count_won true;
             EvQuery (INSERT_winner d false) true]))
    /\ winners s' =
         winners s ++ [{| id := next_id s; device_id := d; won_col := false;
                          created_at := S (S (clock s)) |}].
Proof.
  intros Hs Hmax.
  pose proof (unseen_filter Hs) as Hf.
  unfold draw. rewrite Htruthy. unfold run_thread. cbn.
  rewrite Hf. cbn. unfold count_won in Hmax. rewrite Hmax. cbn.
  rewrite (existsb_filter_nil _ _ Hf). cbn.
  eexists. split; [reflexivity|reflexivity].
Qed.
End CountReplies.

(** ** The claim primitive on its own *)

Section Primitive.
Import Db.

Lemma existsb_split {A : Type} (f : A -> bool) (l : list A) :
  existsb f l = true ->
  exists l1 x l2, l = l1 ++ x :: l2 /\ existsb f l1 = false /\ f x = true.
Proof.
  induction l as [|y l IH]; simpl; [discriminate|].
  destruct (f y) eqn:Hy.
  - intros _. exists [], y, l. auto.
  - simpl. intros H. destruct (IH H) as (l1 & x & l2 & E & H1 & Hx).
    exists (y :: l1), x, l2. subst. simpl. rewrite Hy. auto.
Qed.

Lemma claim_statement (c : nat) (d : string) (s : db) :
  no_writes c s = true ->
  (existsb free_row (prize_tokens s) = false /\
   claim_first c (in_transaction c s) d (clock s) (prize_tokens s) = None) \/
  (exists l1 t l2,
     prize_tokens s = l1 ++ t :: l2 /\ existsb free_row l1 = false /\
     free_row t = true /\
     claim_first c (in_transaction c s) d (clock s) (prize_tokens s) =
       Some (id (cur t), l1 ++ claim_row c (in_transaction c s) d (clock s) t :: l2)).
Proof.
  intros Hnw. unfold no_writes in Hnw. apply andb_true_iff in Hnw as [Ht _].
  destruct (existsb free_row (prize_tokens s)) eqn:Hf.
  - right. destruct (existsb_split _ _ Hf) as (l1 & t & l2 & E & H1 & Hx).
    exists l1, t, l2. repeat split; try assumption.
    rewrite E in *. rewrite forallb_app in Ht. simpl in Ht.
    apply andb_true_iff in Ht as [Ha Hb]. apply andb_true_iff in Hb as [Hb _].
    apply claim_first_at.
    + now rewrite existsb_claimable_free.
    + now rewrite not_held_claimable.
  - left. split; [reflexivity|]. apply claim_first_none.
    now rewrite existsb_claimable_free.
Qed.

(** In src/unnamed/part_001 a failing winners insert leaves the claim in
    place. *)
Lemma my_insert_fault (e : env) (req : request) (d : string) (c : nat) (r : Q)
    (s : db) (l1 l2 : list token_row) (t : token_row) :
  valid req d -> settled s = true -> is_winner d s = false ->
  js_lt r (rate_of e req) = true ->
  prize_tokens s = l1 ++ t :: l2 ->
  existsb free_row l1 = false -> free_row t = true ->
  exists s',
    run_thread exec c (ServerMysql.draw e req) r [false; false; true] s =
      (Some (json_error 500 "internal_error"),
       (s', [EvQuery (SELECT_winner d) true; EvRandom r;
             EvQuery (UPDATE_claim_limit_1 d) true;
             EvQuery (INSERT_winner d) false]))
    /\ prize_tokens s' =
         l1 ++ {| cur := {| id := id (cur t); claimed_by := Some d;
                            claimed_at := Some (S (clock s)) |};
                  upd := None |} :: l2
    /\ winners s' = winners s.
Proof.
  intros [Hd Hne] Hs Hnew Hluck Hts Hl1 Ht.
  pose proof (settled_idle c s Hs) as Hi.
  destruct (idle_no_writes _ _ Hi) as [Htx Hnw].
  unfold in_transaction in Htx.
  pose proof Hnw as Hnw'. unfold no_writes in Hnw'.
  apply andb_true_iff in Hnw' as [Hnh Hw].
  rewrite Hts in Hnh. rewrite forallb_app in Hnh. simpl in Hnh.
  apply andb_true_iff in Hnh as [Hh1 Hh2]. apply andb_true_iff in Hh2 as [Hht Hh2].
  assert (Hc : claim_first c false d (S (clock s)) (prize_tokens s) =
               Some (id (cur t), l1 ++ claim_row c false d (S (clock s)) t :: l2)).
  { rewrite Hts. apply claim_first_at.
    - now rewrite existsb_claimable_free.
    - now rewrite not_held_claimable. }
  unfold ServerMysql.draw. rewrite Hd, Hne. unfold run_thread. cbn.
  rewrite (no_writes_knows _ _ _ Hnw), Hnew. cbn. rewrite Hluck. cbn.
  rewrite (settled_unlocked _ _ Hs), Htx, Hc. cbn.
  eexists. split; [reflexivity|]. cbn. auto.
Qed.
End Primitive.

(** ** The seeded store *)

Lemma wf_seeded (n : nat) : wf (Db.seeded n) = true.
Proof.
  unfold wf, Db.seeded. simpl. generalize (seq 1 n). intros l.
  induction l as [|i l IH]; simpl; auto.
Qed.

Lemma keeps_wf_done (c : nat) (q : Db.stmt) (s : Db.db) (res : Db.result) (s' : Db.db) :
  wf s = true -> Db.exec c q s = Done res s' -> wf s' = true /\ claims_kept s s'.
Proof. intros Hw H. eapply exec_keeps_claims; eassumption. Qed.

Lemma keeps_wf_raised (c : nat) (q : Db.stmt) (s s' : Db.db) :
  wf s = true -> Db.exec c q s = Raised s' -> wf s' = true /\ claims_kept s s'.
Proof. intros _ H. exfalso. eapply exec_never_raises; eassumption. Qed.

(** ** src/server.js as a machine on phases *)

Section PgMachine.
Import Db PgPhases.

Lemma pg_start (e : env) (req : request) :
  ServerPg.draw e req = at_phase (device req) (rate_of e req) (start req).
Proof.
  unfold ServerPg.draw, start, device.
  destruct (deviceId req) as [d|]; [|reflexivity].
  destruct (String.eqb d ""); reflexivity.
Qed.

(** The handler moves as [next] says. *)
Lemma pg_step (c : nat) (d : string) (rate : js_number) (a : action)
    (ph : phase) (s : db) :
  thread_step exec c a (at_phase d rate ph) s =
  match next c d rate a ph s with
  | Some (ph', s') => Some (at_phase d rate ph', s')
  | None => None
  end.
Proof.
  destruct ph, a; unfold next, thread_step, at_phase, pending; cbn -[exec];
    try reflexivity.
  all: try (destruct in_try0; reflexivity).
  all: try match goal with
           | |- context [exec ?c ?q ?s] => destruct (exec c q s) as [res s1|s1|]
           end; try reflexivity.
  all: try (destruct (in_unit_interval r); [|reflexivity]; unfold drawn;
            destruct (js_lt r rate); reflexivity).
  all: try (destruct (length (rows res)); reflexivity).
  all: try (destruct (length (rows res) =? 1); reflexivity).
Qed.
End PgMachine.

(** ** Lists: replacing one element *)

Section SetNth.
Context {A : Type}.

Lemma nth_error_set_nth_eq (i : nat) (x y : A) (l : list A) :
  nth_error l i = Some y -> nth_error (set_nth i x l) i = Some x.
Proof.
  revert i. induction l as [|z l IH]; intros [|i]; simpl; try discriminate; auto.
Qed.

Lemma nth_error_set_nth_neq (i j : nat) (x : A) (l : list A) :
  i <> j -> nth_error (set_nth i x l) j = nth_error l j.
Proof.
  revert i j. induction l as [|z l IH]; intros [|i] [|j] H; simpl; auto.
  - congruence.
Qed.

Lemma length_set_nth (i : nat) (x : A) (l : list A) :
  length (set_nth i x l) = length l.
Proof. revert i. induction l as [|z l IH]; intros [|i]; simpl; auto. Qed.

Lemma count_set_nth (f : A -> bool) (i : nat) (x y : A) (l : list A) :
  nth_error l i = Some y ->
  count f (set_nth i x l) + (if f y then 1 else 0) =
  count f l + (if f x then 1 else 0).
Proof.
  unfold count. revert i. induction l as [|z l IH]; intros [|i]; simpl; try discriminate.
  - intros [= ->]. destruct (f x), (f y); simpl; lia.
  - intros H. specialize (IH i H). destruct (f z); simpl; lia.
Qed.

Lemma map_set_nth {B : Type} (g : A -> B) (i : nat) (x : A) (l : list A) :
  map g (set_nth i x l) = set_nth i (g x) (map g l).
Proof. revert i. induction l as [|z l IH]; intros [|i]; simpl; congruence. Qed.

Lemma count_le_length (f : A -> bool) (l : list A) : count f l <= length l.
Proof. unfold count. apply filter_length_le. Qed.

Lemma count_app (f : A -> bool) (l1 l2 : list A) :
  count f (l1 ++ l2) = count f l1 + count f l2.
Proof. unfold count. now rewrite filter_app, length_app. Qed.

Lemma count_mono (f g : A -> bool) (l : list A) :
  (forall x, In x l -> f x = true -> g x = true) -> count f l <= count g l.
Proof.
  unfold count. induction l as [|x l IH]; simpl; intros H; [lia|].
  assert (IH' : length (filter f l) <= length (filter g l)).
  { apply IH. intros y Hy. apply H. now right. }
  destruct (f x) eqn:Hf.
  - rewrite (H x (or_introl eq_refl) Hf). simpl. lia.
  - destruct (g x); simpl; lia.
Qed.
End SetNth.

(** ** A machine on phases and its invariants *)

Section MachineFacts.
Variable next :
  nat -> string -> js_number -> action -> phase -> Db.db -> option (phase * Db.db).
Variable thread_of : ticket -> thread Db.stmt Db.result.
Hypothesis thread_of_step :
  forall c a x s,
    thread_step Db.exec c a (thread_of x) s =
    match next c (t_dev x) (t_rate x) a (t_at x) s with
    | Some (ph', s') => Some (thread_of (move x ph'), s')
    | None => None
    end.

(** The threads move as the tickets do. *)
Lemma machine_run_threads (sch : list (nat * action)) (s : Db.db) (xs : list ticket) :
  sched_run Db.exec sch s (map thread_of xs) =
  match machine_run next sch s xs with
  | Some (s', xs') => Some (s', map thread_of xs')
  | None => None
  end.
Proof.
  revert s xs. induction sch as [|[i a] sch IH]; intros s xs; simpl; [reflexivity|].
  rewrite nth_error_map. destruct (nth_error xs i) as [x|]; simpl; [|reflexivity].
  rewrite thread_of_step.
  destruct (next i (t_dev x) (t_rate x) a (t_at x) s) as [[ph' s']|]; [|reflexivity].
  rewrite <- map_set_nth. apply IH.
Qed.

Variable Inv : Db.db -> list ticket -> Prop.
Hypothesis Inv_step :
  forall i a x s xs ph' s',
    Inv s xs -> nth_error xs i = Some x ->
    next i (t_dev x) (t_rate x) a (t_at x) s = Some (ph', s') ->
    Inv s' (set_nth i (move x ph') xs).

Lemma machine_run_inv (sch : list (nat * action)) (s s' : Db.db)
    (xs xs' : list ticket) :
  Inv s xs -> machine_run next sch s xs = Some (s', xs') -> Inv s' xs'.
Proof.
  revert s xs. induction sch as [|[i a] sch IH]; intros s xs HI; simpl.
  - intros [= <- <-]. assumption.
  - destruct (nth_error xs i) as [x|] eqn:Hx; [|discriminate].
    destruct (next i (t_dev x) (t_rate x) a (t_at x) s) as [[ph' s1]|] eqn:Hn;
      [|discriminate].
    apply IH. eapply Inv_step; eassumption.
Qed.
End MachineFacts.

(** ** What a statement of one connection does to the others *)

Section ExecFacts.
Import Db.

Lemma in_tx_cases (c : nat) (q : stmt) (s s' : db) (res : result) :
  exec c q s = Done res s' ->
  in_tx s' = in_tx s \/ in_tx s' = c :: in_tx s \/ in_tx s' = remove_conn c (in_tx s).
Proof.
  intros H. destruct q; simpl in H.
  - inversion H; subst; auto.
  - inversion H; subst; auto.
  - destruct (claim_first _ _ _ _ _) as [[? ?]|]; inversion H; subst; auto.
  - destruct (existsb _ _); [discriminate|].
    destruct (claim_first _ _ _ _ _) as [[? ?]|]; inversion H; subst; auto.
  - destruct (existsb _ _); [inversion H; subst; auto|].
    destruct (existsb _ _); [discriminate|]. inversion H; subst; auto.
  - inversion H; subst; simpl. destruct (in_transaction c s); auto.
  - inversion H; subst; auto.
  - inversion H; subst; auto.
Qed.

Lemma remove_conn_other (c j : nat) (l : list nat) :
  c <> j -> existsb (Nat.eqb j) l = true ->
  existsb (Nat.eqb j) (remove_conn c l) = true.
Proof.
  intros Hne H. apply existsb_exists in H as [x [Hin Hx]].
  apply Nat.eqb_eq in Hx. subst x.
  apply existsb_exists. exists j. split; [|apply Nat.eqb_refl].
  unfold remove_conn. apply filter_In. split; [assumption|].
  apply negb_true_iff. now apply Nat.eqb_neq.
Qed.

(** A statement of [c] closes no transaction but its own. *)
Lemma exec_other_tx (c j : nat) (q : stmt) (s s' : db) (res : result) :
  c <> j -> exec c q s = Done res s' ->
  in_transaction j s = true -> in_transaction j s' = true.
Proof.
  intros Hne H Hj. unfold in_transaction in *.
  destruct (in_tx_cases _ _ _ _ _ H) as [E|[E|E]]; rewrite E.
  - assumption.
  - simpl. rewrite Hj. apply orb_true_r.
  - now apply remove_conn_other.
Qed.

Lemma held_other_commit (c j : nat) (r : token_row) :
  c <> j -> held_by j r = true -> commit_token c r = r.
Proof.
  unfold held_by, commit_token. destruct (upd r) as [[c' t]|]; [|discriminate].
  intros Hne H. apply Nat.eqb_eq in H. subst c'.
  destruct (Nat.eqb j c) eqn:E; [|reflexivity].
  apply Nat.eqb_eq in E. congruence.
Qed.

Lemma held_other_rollback (c j : nat) (r : token_row) :
  c <> j -> held_by j r = true -> rollback_token c r = r.
Proof.
  unfold held_by, rollback_token. destruct (upd r) as [[c' t]|]; [|discriminate].
  intros Hne H. apply Nat.eqb_eq in H. subst c'.
  destruct (Nat.eqb j c) eqn:E; [|reflexivity].
  apply Nat.eqb_eq in E. congruence.
Qed.

Lemma held_other_not_claimable (c j : nat) (r : token_row) :
  c <> j -> held_by j r = true -> claimable c r = false.
Proof.
  unfold held_by, claimable, locked_by_other.
  destruct (upd r) as [[c' t]|]; [|discriminate].
  intros Hne H. apply Nat.eqb_eq in H. subst c'.
  destruct (Nat.eqb j c) eqn:E.
  - apply Nat.eqb_eq in E. congruence.
  - simpl. apply andb_false_r.
Qed.

(** The rows a statement of [c] leaves alone: those held by another
    connection. *)
Lemma exec_other_rows (c j : nat) (q : stmt) (s s' : db) (res : result)
    (r : token_row) :
  c <> j -> exec c q s = Done res s' ->
  In r (prize_tokens s) -> held_by j r = true -> In r (prize_tokens s').
Proof.
  intros Hne H Hin Hj.
  assert (Hclaim : forall intx d now i l',
            claim_first c intx d now (prize_tokens s) = Some (i, l') -> In r l').
  { intros intx d now i l' Hc.
    destruct (claim_first_some _ _ _ _ _ _ _ Hc) as (l1 & t & l2 & E & _ & Ht & _ & E').
    subst l'. rewrite E in Hin. apply in_app_or in Hin as [Hin|[Hin|Hin]].
    - apply in_or_app. now left.
    - subst t. rewrite (held_other_not_claimable _ _ _ Hne Hj) in Ht. discriminate.
    - apply in_or_app. right. now right. }
  destruct q; simpl in H.
  - inversion H; subst; auto.
  - inversion H; subst; auto.
  - destruct (claim_first _ _ _ _ _) as [[? ?]|] eqn:Hc; inversion H; subst; simpl; eauto.
  - destruct (existsb _ _); [discriminate|].
    destruct (claim_first _ _ _ _ _) as [[? ?]|] eqn:Hc; inversion H; subst; simpl; eauto.
  - destruct (existsb _ _); [inversion H; subst; auto|].
    destruct (existsb _ _); [discriminate|]. inversion H; subst; auto.
  - inversion H; subst; auto.
  - inversion H; subst; simpl.
    rewrite <- (held_other_commit c j r Hne Hj). now apply in_map.
  - inversion H; subst; simpl.
    rewrite <- (held_other_rollback c j r Hne Hj). now apply in_map.
Qed.

Lemma exec_other_held (c j : nat) (q : stmt) (s s' : db) (res : result) :
  c <> j -> exec c q s = Done res s' ->
  existsb (held_by j) (prize_tokens s) = true ->
  existsb (held_by j) (prize_tokens s') = true.
Proof.
  intros Hne H Hj. apply existsb_exists in Hj as [r [Hin Hr]].
  apply existsb_exists. exists r. split; [|assumption].
  eapply exec_other_rows; eassumption.
Qed.

(** Committed claims only accumulate. *)
Lemma claims_kept_count (l l' : list token_row) :
  Forall2 row_kept l l' -> count claimed_row l <= count claimed_row l'.
Proof.
  unfold count. induction 1 as [|r r' l l' [_ Hr] Hl IH]; simpl; [lia|].
  destruct (claimed_row r) eqn:E1; destruct (claimed_row r') eqn:E2; simpl; try lia.
  exfalso. unfold claimed_row in *. apply negb_true_iff in E1.
  rewrite (Hr E1), E1 in E2. discriminate.
Qed.

Lemma exec_claimed_mono (c : nat) (q : stmt) (s s' : db) (res : result) :
  wf s = true -> exec c q s = Done res s' -> claimed_count s <= claimed_count s'.
Proof.
  intros Hw H. apply claims_kept_count.
  eapply exec_keeps_claims; eassumption.
Qed.

(** A commit turns each held row into a claimed one. *)
Lemma commit_gains (c : nat) (l : list token_row) :
  forallb wf_row l = true -> existsb (held_by c) l = true ->
  count claimed_row l + 1 <= count claimed_row (map (commit_token c) l).
Proof.
  unfold count. induction l as [|r l IH]; simpl; [discriminate|].
  intros Hw Hh. apply andb_true_iff in Hw as [Hr Hl].
  assert (Hmono : length (filter claimed_row l)
                  <= length (filter claimed_row (map (commit_token c) l))).
  { apply claims_kept_count.
    apply Forall2_map_r. intros x Hx. apply wf_row_commit.
    rewrite forallb_forall in Hl. now apply Hl. }
  destruct (held_by c r) eqn:Hc.
  - assert (E1 : claimed_row r = false /\ claimed_row (commit_token c r) = true).
    { unfold held_by in Hc. unfold wf_row in Hr. unfold claimed_row, commit_token.
      destruct (upd r) as [[c' t]|]; [|discriminate]. rewrite Hc.
      apply andb_true_iff in Hr as [Hr _]. apply andb_true_iff in Hr as [Hn Ht].
      rewrite Hn. simpl. now rewrite Ht. }
    destruct E1 as [E1 E2]. rewrite E1, E2. simpl. lia.
  - simpl in Hh. specialize (IH Hl Hh).
    destruct (wf_row_commit c r Hr) as [_ [_ Hk]].
    destruct (claimed_row r) eqn:E1; destruct (claimed_row (commit_token c r)) eqn:E2;
      simpl; try lia.
    exfalso. unfold claimed_row in E1, E2. apply negb_true_iff in E1.
    rewrite (Hk E1), E1 in E2. discriminate.
Qed.

Lemma claim_first_holds (c : nat) (d : string) (now : nat)
    (l l' : list token_row) (i : nat) :
  claim_first c true d now l = Some (i, l') -> existsb (held_by c) l' = true.
Proof.
  intros H.
  destruct (claim_first_some _ _ _ _ _ _ _ H) as (l1 & t & l2 & _ & _ & _ & _ & E).
  subst. rewrite existsb_app. simpl. unfold held_by at 2. simpl.
  rewrite Nat.eqb_refl. simpl. apply orb_true_r.
Qed.
End ExecFacts.

(** ** The pool cap on src/server.js *)

Section PgPoolCap.
Import Db PgPhases.

(** What one step of the request on connection [i] establishes. *)
Lemma pg_step_facts (i : nat) (d : string) (rate : js_number) (a : action)
    (ph ph' : phase) (s s' : db) :
  wf s = true ->
  (in_txn ph = true -> in_transaction i s = true) ->
  (holding ph = true -> existsb (held_by i) (prize_tokens s) = true) ->
  next i d rate a ph s = Some (ph', s') ->
  wf s' = true /\
  claimed_count s <= claimed_count s' /\
  (forall j, i <> j -> in_transaction j s = true -> in_transaction j s' = true) /\
  (forall j, i <> j -> existsb (held_by j) (prize_tokens s) = true ->
             existsb (held_by j) (prize_tokens s') = true) /\
  (in_txn ph' = true -> in_transaction i s' = true) /\
  (holding ph' = true -> existsb (held_by i) (prize_tokens s') = true) /\
  (secured ph' = true ->
   secured ph = true \/ claimed_count s + 1 <= claimed_count s').
Proof.
  intros W T H Hn. unfold next in Hn. destruct a.
  - destruct (pending d ph) as [q|] eqn:Hq; [|discriminate].
    destruct (exec i q s) as [res s1|s1|] eqn:He; [| |discriminate].
    2:{ exfalso. eapply exec_never_raises; eassumption. }
    inversion Hn; subst ph' s'; clear Hn.
    destruct (exec_keeps_claims _ _ _ _ _ W He) as [W1 K1].
    split; [assumption|].
    split; [now apply claims_kept_count|].
    split; [intros j Hj; eapply exec_other_tx; eassumption|].
    split; [intros j Hj; eapply exec_other_held; eassumption|].
    destruct ph; simpl in Hq; inversion Hq; subst q; clear Hq; simpl in He |- *.
    + destruct (0 <? length (rows res)); simpl; repeat split; discriminate.
    + repeat split; discriminate.
    + repeat split; discriminate.
    + inversion He; subst; simpl. repeat split; try discriminate.
      intros _. unfold in_transaction. simpl.
      destruct (existsb (Nat.eqb i) (in_tx s)) eqn:E; [assumption|].
      simpl. now rewrite Nat.eqb_refl.
    + specialize (T eq_refl).
      destruct (claim_first i (in_transaction i s) d (clock s) (prize_tokens s))
        as [[k l']|] eqn:Hc; inversion He; subst; simpl.
      * repeat split; try discriminate; [intros _; exact T|].
        intros _. rewrite T in Hc. eapply claim_first_holds; eassumption.
      * repeat split; try discriminate. intros _. exact T.
    + repeat split; discriminate.
    + specialize (T eq_refl). specialize (H eq_refl).
      assert (E : in_tx s1 = in_tx s /\ prize_tokens s1 = prize_tokens s).
      { destruct (existsb _ (winners s)); [inversion He; subst; auto|].
        destruct (existsb _ (winners s)); [discriminate|].
        inversion He; subst; auto. }
      destruct E as [E1 E2]. unfold in_transaction in *. rewrite E1, E2.
      repeat split; try discriminate; auto.
    + specialize (H eq_refl). inversion He; subst; simpl.
      repeat split; try discriminate. intros _. right.
      unfold claimed_count. simpl. now apply commit_gains.
    + repeat split; try discriminate. intros _. now left.
    + repeat split; discriminate.
  - destruct (pending d ph) as [q|] eqn:Hq; [|discriminate].
    inversion Hn; subst ph' s'; clear Hn.
    split; [assumption|]. split; [lia|]. split; [auto|]. split; [auto|].
    unfold failed. destruct (in_try ph); repeat split; discriminate.
  - destruct ph; try discriminate.
    destruct (in_unit_interval r); [|discriminate].
    inversion Hn; subst ph' s'; clear Hn.
    split; [assumption|]. split; [lia|]. split; [auto|]. split; [auto|].
    unfold drawn. destruct (js_lt r rate); repeat split; discriminate.
Qed.

Lemma pg_inv_step (base i : nat) (a : action) (x : ticket) (s : db)
    (xs : list ticket) (ph' : phase) (s' : db) :
  pg_inv base s xs -> nth_error xs i = Some x ->
  next i (t_dev x) (t_rate x) a (t_at x) s = Some (ph', s') ->
  pg_inv base s' (set_nth i (move x ph') xs).
Proof.
  intros (W & T & H & C) Hx Hn.
  destruct (pg_step_facts _ _ _ _ _ _ _ _ W (T i x Hx) (H i x Hx) Hn)
    as (W' & M & T' & H' & Ti & Hi & Si).
  split; [assumption|]. split; [|split].
  - intros j y Hy Hin. destruct (Nat.eq_dec i j) as [<-|Hne].
    + rewrite (nth_error_set_nth_eq _ _ _ _ Hx) in Hy. inversion Hy; subst y. auto.
    + rewrite (nth_error_set_nth_neq _ _ _ _ Hne) in Hy. eauto.
  - intros j y Hy Hin. destruct (Nat.eq_dec i j) as [<-|Hne].
    + rewrite (nth_error_set_nth_eq _ _ _ _ Hx) in Hy. inversion Hy; subst y. auto.
    + rewrite (nth_error_set_nth_neq _ _ _ _ Hne) in Hy. eauto.
  - pose proof (count_set_nth (fun y => secured (t_at y)) i (move x ph') x xs Hx) as E.
    simpl in E. destruct (secured ph') eqn:S1.
    + destruct (Si eq_refl) as [S0|G]; [rewrite S0 in E|]; destruct (secured (t_at x)); lia.
    + destruct (secured (t_at x)); lia.
Qed.
End PgPoolCap.

(** ** src/unnamed/part_001 as a machine on phases *)

Section MyMachine.
Import Db MyPhases.

Lemma my_start (e : env) (req : request) :
  ServerMysql.draw e req =
  at_phase (PgPhases.device req) (rate_of e req) (PgPhases.start req).
Proof.
  unfold ServerMysql.draw, PgPhases.start, PgPhases.device.
  destruct (deviceId req) as [d|]; [|reflexivity].
  destruct (String.eqb d ""); reflexivity.
Qed.

Lemma my_step (c : nat) (d : string) (rate : js_number) (a : action)
    (ph : phase) (s : db) :
  thread_step exec c a (at_phase d rate ph) s =
  match next c d rate a ph s with
  | Some (ph', s') => Some (at_phase d rate ph', s')
  | None => None
  end.
Proof.
  destruct ph, a; unfold next, thread_step, at_phase, pending; cbn -[exec];
    try reflexivity.
  all: try (destruct in_try0; reflexivity).
  all: try match goal with
           | |- context [exec ?c ?q ?s] => destruct (exec c q s) as [res s1|s1|]
           end; try reflexivity.
  all: try (destruct (in_unit_interval r); [|reflexivity]; unfold drawn;
            destruct (js_lt r rate); reflexivity).
  all: try (destruct (length (rows res)); reflexivity).
  all: try (destruct (affectedRows res =? 1); reflexivity).
Qed.

(** An autocommitted claim adds one committed claim. *)
Lemma claim_first_gains (c : nat) (d : string) (now : nat)
    (l l' : list token_row) (i : nat) :
  forallb wf_row l = true ->
  claim_first c false d now l = Some (i, l') ->
  count claimed_row l + 1 = count claimed_row l'.
Proof.
  intros Hw H.
  destruct (claim_first_some _ _ _ _ _ _ _ H) as (l1 & t & l2 & E & _ & Ht & _ & E').
  subst. rewrite !count_app. unfold count. simpl.
  rewrite forallb_app in Hw. simpl in Hw.
  apply andb_true_iff in Hw as [_ Hw]. apply andb_true_iff in Hw as [Hw _].
  assert (E : claimed_row t = false).
  { unfold wf_row in Hw. unfold claimable, seen, locked_by_other in Ht.
    unfold claimed_row. destruct (upd t) as [[c' u]|].
    - apply andb_true_iff in Hw as [Hw _]. apply andb_true_iff in Hw as [Hn _].
      now rewrite Hn.
    - rewrite andb_true_r in Ht. now rewrite Ht. }
  rewrite E. lia.
Qed.

Lemma my_step_facts (i : nat) (d : string) (rate : js_number) (a : action)
    (ph ph' : phase) (s s' : db) :
  wf s = true -> in_tx s = [] ->
  next i d rate a ph s = Some (ph', s') ->
  wf s' = true /\ in_tx s' = [] /\
  claimed_count s <= claimed_count s' /\
  (secured_my ph' = true ->
   secured_my ph = true \/ claimed_count s + 1 <= claimed_count s').
Proof.
  intros W X Hn. unfold next in Hn. destruct a.
  - destruct (pending d ph) as [q|] eqn:Hq; [|discriminate].
    destruct (exec i q s) as [res s1|s1|] eqn:He; [| |discriminate].
    2:{ exfalso. eapply exec_never_raises; eassumption. }
    inversion Hn; subst ph' s'; clear Hn.
    destruct (exec_keeps_claims _ _ _ _ _ W He) as [W1 K1].
    split; [assumption|].
    assert (X1 : in_tx s1 = []).
    { destruct ph; simpl in Hq; inversion Hq; subst q; simpl in He.
      - inversion He; subst; assumption.
      - inversion He; subst; assumption.
      - inversion He; subst; assumption.
      - destruct (existsb _ _); [discriminate|].
        destruct (claim_first _ _ _ _ _) as [[? ?]|]; inversion He; subst; assumption.
      - destruct (existsb _ (winners s)); [inversion He; subst; assumption|].
        destruct (existsb _ (winners s)); [discriminate|].
        inversion He; subst; assumption.
      - inversion He; subst; assumption. }
    split; [assumption|].
    split; [now apply claims_kept_count|].
    destruct ph; simpl in Hq; inversion Hq; subst q; clear Hq; simpl in He |- *.
    + destruct (0 <? length (rows res)); simpl; discriminate.
    + discriminate.
    + discriminate.
    + destruct (existsb _ _); [discriminate|].
      unfold in_transaction in He. rewrite X in He. simpl in He.
      destruct (claim_first i false d (clock s) (prize_tokens s))
        as [[k l']|] eqn:Hc; inversion He; subst; simpl; [|discriminate].
      intros _. right. unfold claimed_count. simpl.
      rewrite <- (claim_first_gains _ _ _ _ _ _ W Hc). lia.
    + intros _. now left.
    + intros _. now left.
  - destruct (pending d ph) as [q|] eqn:Hq; [|discriminate].
    inversion Hn; subst ph' s'; clear Hn.
    split; [assumption|]. split; [assumption|]. split; [lia|].
    unfold failed. destruct (in_try ph); discriminate.
  - destruct ph; try discriminate.
    destruct (in_unit_interval r); [|discriminate].
    inversion Hn; subst ph' s'; clear Hn.
    split; [assumption|]. split; [assumption|]. split; [lia|].
    unfold drawn. destruct (js_lt r rate); discriminate.
Qed.

Lemma my_inv_step (base i : nat) (a : action) (x : ticket) (s : db)
    (xs : list ticket) (ph' : phase) (s' : db) :
  my_inv base s xs -> nth_error xs i = Some x ->
  next i (t_dev x) (t_rate x) a (t_at x) s = Some (ph', s') ->
  my_inv base s' (set_nth i (move x ph') xs).
Proof.
  intros (W & X & C) Hx Hn.
  destruct (my_step_facts _ _ _ _ _ _ _ _ W X Hn) as (W' & X' & M & Si).
  split; [assumption|]. split; [assumption|].
  pose proof (count_set_nth (fun y => secured_my (t_at y)) i (move x ph') x xs Hx) as E.
  simpl in E. destruct (secured_my ph') eqn:S1.
  - destruct (Si eq_refl) as [S0|G]; [rewrite S0 in E|]; destruct (secured_my (t_at x)); lia.
  - destruct (secured_my (t_at x)); lia.
Qed.
End MyMachine.

(** ** From tickets back to replies *)

Section Replies.
Import Db.

Lemma pg_reply_secured (x : ticket) :
  says_won (reply (pg_thread x)) = true -> secured (t_at x) = true.
Proof.
  unfold pg_thread, PgPhases.at_phase, reply. destruct (t_at x); cbn; try discriminate.
  destruct (won a) as [[|]|]; auto.
Qed.

Lemma my_reply_secured (x : ticket) :
  says_won (reply (my_thread x)) = true -> secured_my (t_at x) = true.
Proof.
  unfold my_thread, MyPhases.at_phase, reply. destruct (t_at x); cbn; try discriminate.
  destruct (won a) as [[|]|]; auto.
Qed.

Lemma count_won_secured (f : phase -> bool) (th : ticket -> thread stmt result)
    (xs : list ticket) :
  (forall x, says_won (reply (th x)) = true -> f (t_at x) = true) ->
  count_won (replies (map th xs)) <= count (fun x => f (t_at x)) xs.
Proof.
  intros H. unfold count_won, replies, count.
  induction xs as [|x xs IH]; simpl; [lia|].
  destruct (says_won (reply (th x))) eqn:E.
  - rewrite (H x E). simpl. lia.
  - destruct (f (t_at x)); simpl; lia.
Qed.

Lemma start_not_secured (e : env) (reqs : list request) :
  count (fun x => secured_my (t_at x)) (map (pg_ticket e) reqs) = 0.
Proof.
  unfold count. induction reqs as [|req reqs IH]; simpl; [reflexivity|].
  unfold PgPhases.start. destruct (deviceId req) as [d|]; simpl; [|assumption].
  destruct (String.eqb d ""); simpl; assumption.
Qed.

Lemma secured_le (xs : list ticket) :
  count (fun x => secured (t_at x)) xs <= count (fun x => secured_my (t_at x)) xs.
Proof.
  apply count_mono. intros x _ H. unfold secured_my. rewrite H.
  now destruct (t_at x).
Qed.

Lemma start_phases (e : env) (reqs : list request) (i : nat) (x : ticket) :
  nth_error (map (pg_ticket e) reqs) i = Some x ->
  in_txn (t_at x) = false /\ holding (t_at x) = false.
Proof.
  rewrite nth_error_map. destruct (nth_error reqs i) as [req|]; [|discriminate].
  intros [= <-]. simpl. unfold PgPhases.start.
  destruct (deviceId req) as [d|]; [|auto].
  destruct (String.eqb d ""); auto.
Qed.

Lemma claimed_seeded (n : nat) : claimed_count (seeded n) = 0.
Proof.
  unfold claimed_count, count, seeded. simpl. generalize (seq 1 n). intros l.
  induction l; simpl; auto.
Qed.

Lemma length_seeded (n : nat) : length (prize_tokens (seeded n)) = n.
Proof. unfold seeded. simpl. now rewrite length_map, length_seq. Qed.

Lemma claims_kept_length (s s' : db) :
  claims_kept s s' -> length (prize_tokens s') = length (prize_tokens s).
Proof. intros H. symmetry. eapply Forall2_length. exact H. Qed.

(** From the seeded store, whatever the interleaving, the secured requests
    of src/server.js are at most as many as the tokens. *)
Lemma pg_cap (n : nat) (e : env) (reqs : list request)
    (sch : list (nat * action)) (s' : db) (ths' : list (thread stmt result)) :
  sched_run exec sch (seeded n) (map (ServerPg.draw e) reqs) = Some (s', ths') ->
  count_won (replies ths') <= n.
Proof.
  intros H.
  assert (Hk : wf s' = true /\ claims_kept (seeded n) s').
  { exact (sched_run_keeps _ _ _ exec (fun x => wf x = true) claims_kept
             claims_kept_refl claims_kept_trans keeps_wf_done keeps_wf_raised
             sch (seeded n) s' _ ths' (wf_seeded n) H). }
  assert (E : map (ServerPg.draw e) reqs = map pg_thread (map (pg_ticket e) reqs)).
  { rewrite map_map. apply map_ext. intros req. apply pg_start. }
  rewrite E in H.
  rewrite (machine_run_threads PgPhases.next pg_thread) in H.
  2:{ intros c a x s. apply pg_step. }
  destruct (machine_run PgPhases.next sch (seeded n) (map (pg_ticket e) reqs))
    as [[s1 xs']|] eqn:Hm; [|discriminate].
  inversion H; subst s1 ths'; clear H.
  assert (I0 : pg_inv 0 (seeded n) (map (pg_ticket e) reqs)).
  { split; [apply wf_seeded|]. split; [|split].
    - intros i x Hx Hin. destruct (start_phases e reqs i x Hx). congruence.
    - intros i x Hx Hin. destruct (start_phases e reqs i x Hx). congruence.
    - rewrite claimed_seeded.
      pose proof (secured_le (map (pg_ticket e) reqs)).
      rewrite start_not_secured in *. simpl. lia. }
  pose proof (machine_run_inv PgPhases.next (pg_inv 0) (pg_inv_step 0)
                sch (seeded n) s' _ xs' I0 Hm) as (_ & _ & _ & C).
  pose proof (count_won_secured secured pg_thread xs' pg_reply_secured).
  pose proof (count_le_length claimed_row (prize_tokens s')).
  rewrite (claims_kept_length _ _ (proj2 Hk)), length_seeded in *.
  unfold claimed_count in C. simpl in C. lia.
Qed.

(** The same on part_001. *)
Lemma my_cap (n : nat) (e : env) (reqs : list request)
    (sch : list (nat * action)) (s' : db) (ths' : list (thread stmt result)) :
  sched_run exec sch (seeded n) (map (ServerMysql.draw e) reqs) = Some (s', ths') ->
  count_won (replies ths') <= n.
Proof.
  intros H.
  assert (Hk : wf s' = true /\ claims_kept (seeded n) s').
  { exact (sched_run_keeps _ _ _ exec (fun x => wf x = true) claims_kept
             claims_kept_refl claims_kept_trans keeps_wf_done keeps_wf_raised
             sch (seeded n) s' _ ths' (wf_seeded n) H). }
  assert (E : map (ServerMysql.draw e) reqs = map my_thread (map (pg_ticket e) reqs)).
  { rewrite map_map. apply map_ext. intros req. apply my_start. }
  rewrite E in H.
  rewrite (machine_run_threads MyPhases.next my_thread) in H.
  2:{ intros c a x s. apply my_step. }
  destruct (machine_run MyPhases.next sch (seeded n) (map (pg_ticket e) reqs))
    as [[s1 xs']|] eqn:Hm; [|discriminate].
  inversion H; subst s1 ths'; clear H.
  assert (I0 : my_inv 0 (seeded n) (map (pg_ticket e) reqs)).
  { split; [apply wf_seeded|]. split; [reflexivity|].
    rewrite claimed_seeded, start_not_secured. simpl. lia. }
  pose proof (machine_run_inv MyPhases.next (my_inv 0) (my_inv_step 0)
                sch (seeded n) s' _ xs' I0 Hm) as (_ & _ & C).
  pose proof (count_won_secured secured_my my_thread xs' my_reply_secured).
  pose proof (count_le_length claimed_row (prize_tokens s')).
  rewrite (claims_kept_length _ _ (proj2 Hk)), length_seeded in *.
  unfold claimed_count in C. simpl in C. lia.
Qed.
End Replies.

(** ** Serving requests one after the other is one of the interleavings *)

Section Sequential.
Variables Stmt Res Store : Type.
Variable exec : nat -> Stmt -> Store -> exec_result Res Store.

Lemma set_nth_same {A : Type} (i : nat) (x : A) (l : list A) :
  nth_error l i = Some x -> set_nth i x l = l.
Proof.
  revert i. induction l as [|y l IH]; intros [|i]; simpl; try discriminate.
  - now intros [= ->].
  - intros H. now rewrite (IH i H).
Qed.

Lemma set_nth_twice {A : Type} (i : nat) (x y : A) (l : list A) :
  set_nth i y (set_nth i x l) = set_nth i y l.
Proof.
  revert i. induction l as [|z l IH]; intros [|i]; simpl; try reflexivity.
  now rewrite IH.
Qed.

Lemma set_nth_middle {A : Type} (x y : A) (l1 l2 : list A) :
  set_nth (length l1) y (l1 ++ x :: l2) = l1 ++ y :: l2.
Proof. induction l1 as [|z l1 IH]; simpl; [reflexivity|now rewrite IH]. Qed.

Lemma nth_error_middle {A : Type} (x : A) (l1 l2 : list A) :
  nth_error (l1 ++ x :: l2) (length l1) = Some x.
Proof. induction l1 as [|z l1 IH]; simpl; auto. Qed.

Lemma sched_run_app (sch1 sch2 : list (nat * action)) (s s1 : Store)
    (ths ths1 : list (thread Stmt Res)) :
  sched_run exec sch1 s ths = Some (s1, ths1) ->
  sched_run exec (sch1 ++ sch2) s ths = sched_run exec sch2 s1 ths1.
Proof.
  revert s ths. induction sch1 as [|[i a] sch1 IH]; intros s ths; simpl.
  - now intros [= -> ->].
  - destruct (nth_error ths i) as [t|]; [|discriminate].
    destruct (thread_step exec i a t s) as [[t' s']|]; [|discriminate].
    apply IH.
Qed.

Lemma run_as_schedule (p : prog Stmt Res response)
    (h : option (prog Stmt Res response)) (c : nat) (r : Q) (faults : list bool)
    (s : Store) (ths : list (thread Stmt Res)) :
  in_unit_interval r = true -> no_throw p ->
  nth_error ths c = Some {| body := p; handler := h |} ->
  exists sch t',
    sched_run exec sch s ths =
      Some (snd (fst (snd (run exec c p r faults s))), set_nth c t' ths) /\
    match fst (run exec c p r faults s) with
    | Returned a => t' = {| body := Ret a; handler := h |}
    | Threw => t' = thrown h
    | Waiting => reply t' = None
    end.
Proof.
  intros Hr. revert faults s ths.
  induction p as [a| |q k IH|k IH]; intros faults s ths Hp Hc; simpl.
  - exists [], {| body := Ret a; handler := h |}. simpl.
    now rewrite (set_nth_same _ _ _ Hc).
  - destruct Hp.
  - destruct (hd false faults).
    + exists [(c, Fail)], (thrown h). simpl. rewrite Hc. simpl. auto.
    + destruct (exec c q s) as [res s1|s1|] eqn:He.
      * specialize (IH res (tl faults) s1
                       (set_nth c {| body := k res; handler := h |} ths) (Hp res)
                       (nth_error_set_nth_eq _ _ _ _ Hc)).
        destruct IH as (sch & t' & Hs & Ho).
        destruct (run exec c (k res) r (tl faults) s1) as [o [[fs s2] tr]].
        simpl in *. exists ((c, Complete) :: sch), t'. simpl.
        rewrite Hc. unfold thread_step. simpl. rewrite He.
        rewrite Hs, set_nth_twice. auto.
      * exists [(c, Complete)], (thrown h). simpl. rewrite Hc.
        unfold thread_step. simpl. rewrite He. auto.
      * exists [], {| body := Query q k; handler := h |}. simpl.
        now rewrite (set_nth_same _ _ _ Hc).
  - specialize (IH r faults s (set_nth c {| body := k r; handler := h |} ths) (Hp r)
                   (nth_error_set_nth_eq _ _ _ _ Hc)).
    destruct IH as (sch & t' & Hs & Ho).
    destruct (run exec c (k r) r faults s) as [o [[fs s2] tr]].
    simpl in *. exists ((c, Draw r) :: sch), t'. simpl.
    rewrite Hc. unfold thread_step. simpl. rewrite Hr.
    rewrite Hs, set_nth_twice. auto.
Qed.

Lemma run_thread_as_schedule (t : thread Stmt Res) (c : nat) (r : Q)
    (faults : list bool) (s : Store) (ths : list (thread Stmt Res)) :
  in_unit_interval r = true -> plain t -> nth_error ths c = Some t ->
  exists sch t',
    sched_run exec sch s ths =
      Some (fst (snd (run_thread exec c t r faults s)), set_nth c t' ths) /\
    reply t' = fst (run_thread exec c t r faults s).
Proof.
  intros Hr [Hb Hh] Hc. destruct t as [p h]. simpl in *.
  destruct (run_as_schedule p h c r faults s ths Hr Hb Hc) as (sch & t' & Hs & Ho).
  unfold run_thread. simpl.
  destruct (run exec c p r faults s) as [o [[fs s1] tr]]. simpl in *.
  destruct o as [a| |].
  - exists sch, t'. subst t'. auto.
  - destruct h as [h'|].
    + subst t'. simpl in *.
      destruct (run_as_schedule h' None c r fs s1
                  (set_nth c {| body := h'; handler := None |} ths) Hr Hh
                  (nth_error_set_nth_eq _ _ _ _ Hc)) as (sch2 & t2 & Hs2 & Ho2).
      destruct (run exec c h' r fs s1) as [o2 [[fs2 s2] tr2]]. simpl in *.
      exists (sch ++ sch2), t2.
      rewrite (sched_run_app _ sch2 _ _ _ _ Hs), Hs2, set_nth_twice.
      destruct o2; subst; auto.
    + exists sch, t'. subst t'. auto.
  - exists sch, t'. auto.
Qed.

Variable server : request -> thread Stmt Res.
Hypothesis server_plain : forall req, plain (server req).

Lemma serve_as_schedule (arr : list arrival) (s : Store)
    (finished : list (thread Stmt Res)) :
  Forall (fun a => in_unit_interval (a_random a) = true) arr ->
  exists sch ended,
    sched_run exec sch s (finished ++ map server (map a_req arr)) =
      Some (snd (serve exec server (length finished) arr s), finished ++ ended) /\
    map reply ended = map s_reply (fst (serve exec server (length finished) arr s)).
Proof.
  revert s finished. induction arr as [|a arr IH]; intros s finished Hr.
  - exists [], []. simpl. auto.
  - inversion Hr as [|? ? Ha Hrest]; subst. simpl.
    destruct (run_thread_as_schedule (server (a_req a)) (length finished)
                (a_random a) (a_faults a) s
                (finished ++ server (a_req a) :: map server (map a_req arr))
                Ha (server_plain _) (nth_error_middle _ _ _))
      as (sch1 & t' & Hs1 & Ho1).
    destruct (run_thread exec (length finished) (server (a_req a)) (a_random a)
                         (a_faults a) s) as [rp [s1 tr]]. simpl in *.
    rewrite set_nth_middle in Hs1.
    specialize (IH s1 (finished ++ [t']) Hrest).
    rewrite length_app in IH. simpl in IH. rewrite Nat.add_1_r in IH.
    rewrite <- app_assoc in IH. simpl in IH.
    destruct IH as (sch2 & ended & Hs2 & Ho2).
    destruct (serve exec server (S (length finished)) arr s1) as [out s2].
    simpl in *. exists (sch1 ++ sch2), (t' :: ended).
    rewrite (sched_run_app _ sch2 _ _ _ _ Hs1), Hs2, <- app_assoc. simpl.
    rewrite Ho1, Ho2. auto.
Qed.
End Sequential.

Ltac no_throw_tac :=
  repeat (cbn; intros;
          try match goal with
              | |- context [if ?b then _ else _] => destruct b
              end);
  try exact I; auto.

Lemma pg_plain (e : env) (req : request) : plain (ServerPg.draw e req).
Proof.
  unfold plain, ServerPg.draw. destruct (deviceId req) as [d|]; [|split; exact I].
  destruct (String.eqb d ""); [split; exact I|].
  split; no_throw_tac.
Qed.

Lemma my_plain (e : env) (req : request) : plain (ServerMysql.draw e req).
Proof.
  unfold plain, ServerMysql.draw. destruct (deviceId req) as [d|]; [|split; exact I].
  destruct (String.eqb d ""); [split; exact I|].
  split; no_throw_tac.
Qed.

Lemma count_won_replies {Stmt Res : Type} (out : list (served Stmt))
    (ths : list (thread Stmt Res)) :
  map reply ths = map s_reply out ->
  count_won (replies ths) = count says_won (map s_reply out).
Proof. unfold count_won, replies. now intros ->. Qed.

(** ** Counting tokens through a race *)

Section RaceFacts.
Import Db.

Lemma sure_passes (r : Q) (rate : js_number) :
  in_unit_interval r = true -> sure rate = true -> js_lt r rate = true.
Proof.
  unfold in_unit_interval, sure, js_lt, Qltb.
  intros Hr Hs. apply andb_true_iff in Hr as [_ Hr].
  destruct rate as [q| | |]; try discriminate; [|reflexivity].
  apply negb_true_iff in Hr. apply negb_true_iff.
  destruct (Qle_bool q r) eqn:E; [|reflexivity].
  apply Qle_bool_iff in E, Hs.
  assert (H1 : (1 <= r)%Q) by (eapply Qle_trans; eassumption).
  apply Qle_bool_iff in H1. congruence.
Qed.

Lemma held_not_held (c : nat) (r : token_row) :
  not_held_by c r = negb (held_by c r).
Proof.
  unfold not_held_by, held_by. now destruct (upd r) as [[c' t]|].
Qed.

Lemma none_held (c : nat) (l : list token_row) :
  existsb (held_by c) l = false -> forallb (not_held_by c) l = true.
Proof.
  induction l as [|r l IH]; simpl; [reflexivity|].
  intros H. apply orb_false_iff in H as [Hr Hl].
  now rewrite held_not_held, Hr, (IH Hl).
Qed.

Lemma free_claimable (c : nat) (r : token_row) :
  free_row r = true -> claimable c r = true.
Proof.
  unfold free_row, claimable, seen, locked_by_other.
  destruct (upd r) as [[c' t]|]; [rewrite andb_false_r; discriminate|].
  now rewrite !andb_true_r.
Qed.

Lemma no_claimable_no_free (c : nat) (l : list token_row) :
  existsb (claimable c) l = false -> count free_row l = 0.
Proof.
  unfold count. induction l as [|r l IH]; simpl; [reflexivity|].
  intros H. apply orb_false_iff in H as [Hr Hl].
  destruct (free_row r) eqn:E; [|auto].
  rewrite (free_claimable c r E) in Hr. discriminate.
Qed.

Lemma free_row_commit (c : nat) (r : token_row) :
  wf_row r = true -> free_row (commit_token c r) = free_row r.
Proof.
  unfold wf_row, free_row, commit_token.
  destruct (upd r) as [[c' t]|] eqn:U; [|now rewrite U].
  intros H. apply andb_true_iff in H as [H _]. apply andb_true_iff in H as [_ Ht].
  destruct (Nat.eqb c' c); simpl.
  - apply negb_true_iff in Ht. rewrite Ht. now rewrite andb_false_r.
  - now rewrite U.
Qed.

Lemma avail_commit (c : nat) (l : list token_row) :
  forallb wf_row l = true ->
  count free_row (map (commit_token c) l) = count free_row l.
Proof.
  unfold count. induction l as [|r l IH]; simpl; [reflexivity|].
  intros H. apply andb_true_iff in H as [Hr Hl].
  rewrite (free_row_commit c r Hr). destruct (free_row r); simpl; now rewrite (IH Hl).
Qed.

(** A claim inside a transaction takes one free token out of the pool. *)
Lemma avail_claim (c : nat) (intx : bool) (d : string) (now : nat)
    (l1 l2 : list token_row) (t : token_row) :
  free_row t = true ->
  count free_row (l1 ++ claim_row c intx d now t :: l2) + 1 =
  count free_row (l1 ++ t :: l2).
Proof.
  intros Ht. rewrite !count_app. unfold count. simpl. rewrite Ht.
  assert (E : free_row (claim_row c intx d now t) = false).
  { unfold free_row, claim_row. destruct intx; simpl; [apply andb_false_r|reflexivity]. }
  rewrite E. simpl. lia.
Qed.

Lemma claimed_for_kept (d : string) (l l' : list token_row) :
  Forall2 row_kept l l' ->
  existsb (claimed_for d) l = true -> existsb (claimed_for d) l' = true.
Proof.
  induction 1 as [|r r' l l' [_ Hr] Hl IH]; simpl; [discriminate|].
  intros H. apply orb_true_iff in H as [H|H].
  - assert (E : cur r' = cur r).
    { apply Hr. unfold claimed_for in H. now destruct (claimed_by (cur r)). }
    unfold claimed_for in *. rewrite E, H. reflexivity.
  - rewrite (IH H). apply orb_true_r.
Qed.

Lemma commit_claims_for (c : nat) (d : string) (l : list token_row) :
  (forall r t, In r l -> upd r = Some (c, t) -> claimed_by t = Some d) ->
  existsb (held_by c) l = true ->
  existsb (claimed_for d) (map (commit_token c) l) = true.
Proof.
  intros Hd H. apply existsb_exists in H as [r [Hin Hr]].
  apply existsb_exists. exists (commit_token c r). split; [now apply in_map|].
  unfold held_by in Hr. unfold commit_token, claimed_for.
  destruct (upd r) as [[c' t]|] eqn:U; [|discriminate].
  rewrite Hr. simpl. apply Nat.eqb_eq in Hr. subst c'.
  rewrite (Hd r t Hin U). apply String.eqb_refl.
Qed.

Lemma in_commit_upd (c : nat) (l : list token_row) (r : token_row)
    (c' : nat) (t : token) :
  In r (map (commit_token c) l) -> upd r = Some (c', t) ->
  In r l /\ c' <> c.
Proof.
  intros Hin U. apply in_map_iff in Hin as [r0 [E Hin]].
  unfold commit_token in E. destruct (upd r0) as [[c0 t0]|] eqn:U0.
  - destruct (Nat.eqb c0 c) eqn:Ec.
    + subst r. discriminate.
    + subst r. rewrite U0 in U. inversion U; subst.
      split; [assumption|]. now apply Nat.eqb_neq.
  - subst r. congruence.
Qed.

Lemma no_device_app (d d' : string) (l : list winner_row) (now : nat)
    (o : option nat) :
  d <> d' -> existsb (has_device d) l = false ->
  existsb (has_device d)
    (l ++ [{| wrow := {| device_id := d'; created_at := now |}; ins := o |}]) = false.
Proof.
  intros Hne H. rewrite existsb_app, H. simpl. unfold has_device. simpl.
  rewrite orb_false_r. apply String.eqb_neq. congruence.
Qed.

Lemma no_device_commit (c : nat) (d : string) (l : list winner_row) :
  existsb (has_device d) (map (commit_winner c) l) = existsb (has_device d) l.
Proof.
  induction l as [|w l IH]; simpl; [reflexivity|].
  rewrite IH. f_equal. unfold commit_winner, has_device.
  now destruct (reads c w).
Qed.

Lemma no_device_filter (f : winner_row -> bool) (d : string) (l : list winner_row) :
  existsb (has_device d) l = false -> existsb (has_device d) (filter f l) = false.
Proof.
  induction l as [|w l IH]; simpl; [reflexivity|].
  intros H. apply orb_false_iff in H as [Hw Hl].
  destruct (f w); simpl; [now rewrite Hw, (IH Hl)|now apply IH].
Qed.

Lemma no_device_unknown (c : nat) (d : string) (l : list winner_row) :
  existsb (has_device d) l = false ->
  existsb (fun w => has_device d w && reads c w) l = false.
Proof.
  induction l as [|w l IH]; simpl; [reflexivity|].
  intros H. apply orb_false_iff in H as [Hw Hl].
  now rewrite Hw, (IH Hl).
Qed.
End RaceFacts.

(** ** One step of a race on src/server.js *)

Section PgRace.
Import Db PgPhases.

(** What one step without failure establishes, for a request that is new and
    whose rate is sure. *)
Lemma pg_race_facts (i : nat) (d : string) (rate : js_number) (a : action)
    (ph ph' : phase) (s s' : db) :
  match a with Fail => False | _ => True end ->
  sure rate = true ->
  wf s = true ->
  racing ph ->
  (in_txn ph = true -> in_transaction i s = true) ->
  (forall r t, In r (prize_tokens s) -> upd r = Some (i, t) ->
               holding ph = true /\ claimed_by t = Some d) ->
  (holding ph = true -> existsb (held_by i) (prize_tokens s) = true) ->
  (registered ph = false -> existsb (has_device d) (winners s) = false) ->
  (secured ph = true -> existsb (claimed_for d) (prize_tokens s) = true) ->
  next i d rate a ph s = Some (ph', s') ->
  racing ph' /\
  (in_txn ph' = true -> in_transaction i s' = true) /\
  (forall r c t, In r (prize_tokens s') -> upd r = Some (c, t) ->
                 (c <> i /\ In r (prize_tokens s)) \/
                 (c = i /\ holding ph' = true /\ claimed_by t = Some d)) /\
  (holding ph' = true -> existsb (held_by i) (prize_tokens s') = true) /\
  (if holding ph' || secured ph' then 1 else 0) + avail s' =
    (if holding ph || secured ph then 1 else 0) + avail s /\
  (lost ph' = true -> lost ph = true \/ avail s' = 0) /\
  (forall d', d' <> d -> existsb (has_device d') (winners s) = false ->
              existsb (has_device d') (winners s') = false) /\
  (registered ph' = false -> existsb (has_device d) (winners s') = false) /\
  (secured ph' = true -> existsb (claimed_for d) (prize_tokens s') = true).
Proof.
  intros Ha Hsure W G T Hrows Hheld Hreg Hsec Hn.
  assert (Hold : forall r c t, In r (prize_tokens s) -> upd r = Some (c, t) ->
                   holding ph = false -> c <> i /\ In r (prize_tokens s)).
  { intros r c t Hin U Hh. split; [|assumption]. intros ->.
    destruct (Hrows r t Hin U) as [Hh' _]. congruence. }
  unfold next in Hn. destruct a; [|destruct Ha|].
  - destruct (pending d ph) as [q|] eqn:Hq; [|discriminate].
    destruct (exec i q s) as [res s1|s1|] eqn:He; [| |discriminate].
    2:{ exfalso. eapply exec_never_raises; eassumption. }
    inversion Hn; subst ph' s'; clear Hn.
    destruct ph; simpl in Hq; inversion Hq; subst q; clear Hq; simpl in He;
      try (destruct G; fail).
    + (* PCheck *)
      specialize (Hreg eq_refl).
      rewrite (no_device_unknown i d _ Hreg) in He.
      inversion He; subst; simpl.
      repeat split; try discriminate; auto.
      intros r c t Hin U. left. eapply Hold; eauto.
    + (* PBegin *)
      inversion He; subst; simpl.
      repeat split; try discriminate; auto.
      * intros _. unfold in_transaction. simpl.
        destruct (existsb (Nat.eqb i) (in_tx s)) eqn:E; [assumption|].
        simpl. now rewrite Nat.eqb_refl.
      * intros r c t Hin U. left. eapply Hold; eauto.
    + (* PClaim *)
      specialize (T eq_refl). rewrite T in He.
      destruct (claim_first i true d (clock s) (prize_tokens s))
        as [[k l']|] eqn:Hc; inversion He; subst; simpl.
      * destruct (claim_first_some _ _ _ _ _ _ _ Hc)
          as (l1 & t0 & l2 & E & _ & Ht & _ & E').
        assert (Hfree : free_row t0 = true).
        { unfold claimable, seen, locked_by_other in Ht. unfold free_row.
          destruct (upd t0) as [[c u]|] eqn:U; [|now rewrite andb_true_r in *].
          exfalso. destruct (Nat.eqb c i) eqn:Ec.
          - apply Nat.eqb_eq in Ec. subst c.
            assert (Hin : In t0 (prize_tokens s)).
            { rewrite E. apply in_or_app. right. now left. }
            destruct (Hrows t0 u Hin U). discriminate.
          - simpl in Ht. rewrite andb_false_r in Ht. discriminate. }
        repeat split; try discriminate; auto.
        -- intros r c t Hin U. subst l'. apply in_app_or in Hin as [Hin|[Hin|Hin]].
           ++ left. eapply Hold; eauto. rewrite E. apply in_or_app. now left.
           ++ subst r. unfold claim_row in U. simpl in U. inversion U; subst.
              right. auto.
           ++ left. eapply Hold; eauto. rewrite E. apply in_or_app. right. now right.
        -- intros _. eapply claim_first_holds; eassumption.
        -- unfold avail. simpl. subst l'. rewrite E.
           pose proof (avail_claim i true d (clock s) l1 l2 t0 Hfree). lia.
      * assert (Hz : avail s = 0).
        { unfold avail. apply (no_claimable_no_free i).
          now apply claim_first_none in Hc. }
        unfold avail in *. simpl.
        repeat split; try discriminate; auto.
        intros r c t Hin U. left. eapply Hold; eauto.
    + (* PNoPrize *)
      inversion He; subst; simpl.
      assert (Hnone : existsb (held_by i) (prize_tokens s) = false).
      { destruct (existsb (held_by i) (prize_tokens s)) eqn:E; [|reflexivity].
        apply existsb_exists in E as [r [Hin Hr]]. unfold held_by in Hr.
        destruct (upd r) as [[c u]|] eqn:U; [|discriminate].
        apply Nat.eqb_eq in Hr. subst c.
        destruct (Hrows r u Hin U). discriminate. }
      unfold avail. simpl. rewrite (rollback_not_held i _ (none_held i _ Hnone)).
      repeat split; try discriminate; auto.
      * intros r c t Hin U. left. eapply Hold; eauto.
      * intros d' _ Hd'. now apply no_device_filter.
      * intros _. apply no_device_filter. now apply Hreg.
    + (* PRegister *)
      specialize (T eq_refl). specialize (Hreg eq_refl). specialize (Hheld eq_refl).
      rewrite (no_device_unknown i d _ Hreg), Hreg in He.
      inversion He; subst; simpl. unfold avail. simpl.
      repeat split; try discriminate; auto.
      * intros r c t Hin U. destruct (Nat.eq_dec c i) as [->|Hne].
        -- right. destruct (Hrows r t Hin U). auto.
        -- left. auto.
      * intros d' Hne Hd'. apply no_device_app; auto.
    + (* PCommit *)
      specialize (Hheld eq_refl).
      inversion He; subst; simpl. unfold avail. simpl.
      repeat split; try discriminate; auto.
      * intros r c t Hin U. left.
        destruct (in_commit_upd _ _ _ _ _ Hin U). auto.
      * rewrite avail_commit; [reflexivity|exact W].
      * intros d' _ Hd'. now rewrite no_device_commit.
      * intros _. apply commit_claims_for; [|assumption].
        intros r t Hin U. now destruct (Hrows r t Hin U).
    + (* PFinal *)
      inversion He; subst; simpl.
      repeat split; try discriminate; auto.
      * left. eexists. reflexivity.
      * intros r c t Hin U. left. eapply Hold; eauto.
  - destruct ph; try discriminate.
    destruct (in_unit_interval r) eqn:Hr; [|discriminate].
    inversion Hn; subst ph' s'; clear Hn.
    unfold drawn. rewrite (sure_passes r rate Hr Hsure). simpl.
    repeat split; try discriminate; auto.
    intros r0 c t Hin U. left. eapply Hold; eauto.
Qed.
End PgRace.

Section RestrictedRuns.
Variable next :
  nat -> string -> js_number -> action -> phase -> Db.db -> option (phase * Db.db).
Variable Inv : Db.db -> list ticket -> Prop.
Hypothesis Inv_step :
  forall i a x s xs ph' s',
    match a with Fail => False | _ => True end ->
    Inv s xs -> nth_error xs i = Some x ->
    next i (t_dev x) (t_rate x) a (t_at x) s = Some (ph', s') ->
    Inv s' (set_nth i (move x ph') xs).

Lemma machine_run_inv_no_faults (sch : list (nat * action)) (s s' : Db.db)
    (xs xs' : list ticket) :
  no_faults sch = true ->
  Inv s xs -> machine_run next sch s xs = Some (s', xs') -> Inv s' xs'.
Proof.
  revert s xs. induction sch as [|[i a] sch IH]; intros s xs Hf HI; simpl.
  - intros [= <- <-]. assumption.
  - simpl in Hf. apply andb_true_iff in Hf as [Ha Hf].
    destruct (nth_error xs i) as [x|] eqn:Hx; [|discriminate].
    destruct (next i (t_dev x) (t_rate x) a (t_at x) s) as [[ph' s1]|] eqn:Hn;
      [|discriminate].
    apply IH; [assumption|]. eapply Inv_step; try eassumption.
    destruct a; try exact I. discriminate.
Qed.
End RestrictedRuns.

Section TicketLists.

Lemma map_dev_set_nth (i : nat) (x : ticket) (ph : phase) (xs : list ticket) :
  nth_error xs i = Some x ->
  map t_dev (set_nth i (move x ph) xs) = map t_dev xs /\
  map t_rate (set_nth i (move x ph) xs) = map t_rate xs.
Proof.
  revert i. induction xs as [|y xs IH]; intros [|i]; simpl; try discriminate.
  - intros [= ->]. auto.
  - intros H. destruct (IH i H) as [E1 E2]. now rewrite E1, E2.
Qed.

Lemma racers_set_nth (i : nat) (x : ticket) (ph : phase) (xs : list ticket) :
  nth_error xs i = Some x -> racers xs -> racers (set_nth i (move x ph) xs).
Proof.
  intros Hx [Hd Hs]. destruct (map_dev_set_nth i x ph xs Hx) as [E1 E2].
  split; [now rewrite E1|].
  apply Forall_forall. intros y Hy.
  apply In_nth_error in Hy as [j Hj].
  destruct (Nat.eq_dec i j) as [<-|Hne].
  - rewrite (nth_error_set_nth_eq _ _ _ _ Hx) in Hj. inversion Hj; subst y. simpl.
    rewrite Forall_forall in Hs. apply Hs. eapply nth_error_In; eassumption.
  - rewrite (nth_error_set_nth_neq _ _ _ _ Hne) in Hj.
    rewrite Forall_forall in Hs. apply Hs. eapply nth_error_In; eassumption.
Qed.

Lemma racers_distinct (xs : list ticket) (i j : nat) (x y : ticket) :
  racers xs -> nth_error xs i = Some x -> nth_error xs j = Some y ->
  i <> j -> t_dev x <> t_dev y.
Proof.
  intros [Hd _] Hx Hy Hne E.
  apply Hne. apply (proj1 (NoDup_nth_error (map t_dev xs)) Hd).
  - rewrite length_map. apply nth_error_Some. congruence.
  - rewrite !nth_error_map, Hx, Hy. simpl. congruence.
Qed.

Lemma racers_sure (xs : list ticket) (i : nat) (x : ticket) :
  racers xs -> nth_error xs i = Some x -> sure (t_rate x) = true.
Proof.
  intros [_ Hs] Hx. rewrite Forall_forall in Hs. apply Hs.
  eapply nth_error_In; eassumption.
Qed.

Lemma existsb_set_nth (f : ticket -> bool) (i : nat) (x y : ticket)
    (xs : list ticket) :
  nth_error xs i = Some x ->
  existsb f (set_nth i y xs) = true ->
  f y = true \/ existsb f xs = true.
Proof.
  revert i. induction xs as [|z xs IH]; intros [|i]; simpl; try discriminate.
  - intros [= ->] H. apply orb_true_iff in H as [H|H]; auto.
    right. rewrite H. apply orb_true_r.
  - intros Hx H. apply orb_true_iff in H as [H|H].
    + right. now rewrite H.
    + destruct (IH i Hx H) as [E|E]; auto. right. rewrite E. apply orb_true_r.
Qed.

Lemma existsb_nth (f : ticket -> bool) (i : nat) (x : ticket) (xs : list ticket) :
  nth_error xs i = Some x -> f x = true -> existsb f xs = true.
Proof.
  intros Hx Hf. apply existsb_exists. exists x. split; [|assumption].
  eapply nth_error_In; eassumption.
Qed.
End TicketLists.

Section PgRaceStep.
Import Db PgPhases.

Lemma pg_step_avail (i : nat) (d : string) (rate : js_number) (a : action)
    (ph ph' : phase) (s s' : db) :
  wf s = true -> next i d rate a ph s = Some (ph', s') ->
  wf s' = true /\ claims_kept s s' /\
  (forall j, i <> j -> in_transaction j s = true -> in_transaction j s' = true) /\
  (forall j, i <> j -> existsb (held_by j) (prize_tokens s) = true ->
             existsb (held_by j) (prize_tokens s') = true).
Proof.
  intros W Hn. unfold next in Hn. destruct a.
  - destruct (pending d ph) as [q|]; [|discriminate].
    destruct (exec i q s) as [res s1|s1|] eqn:He; [| |discriminate].
    2:{ exfalso. eapply exec_never_raises; eassumption. }
    inversion Hn; subst ph' s'; clear Hn.
    destruct (exec_keeps_claims _ _ _ _ _ W He) as [W1 K1].
    repeat split; try assumption.
    + intros j Hj. eapply exec_other_tx; eassumption.
    + intros j Hj. eapply exec_other_held; eassumption.
  - destruct (pending d ph); [|discriminate]. inversion Hn; subst.
    repeat split; auto using claims_kept_refl.
  - destruct ph; try discriminate. destruct (in_unit_interval r); [|discriminate].
    inversion Hn; subst. repeat split; auto using claims_kept_refl.
Qed.

Lemma pg_step_stays (i : nat) (d : string) (rate : js_number) (a : action)
    (ph ph' : phase) (s s' : db) :
  match a with Fail => False | _ => True end ->
  wf s = true -> next i d rate a ph s = Some (ph', s') ->
  holding ph || secured ph = true -> holding ph' || secured ph' = true.
Proof.
  intros Ha W Hn Hh. unfold next in Hn. destruct a; [|destruct Ha|].
  - destruct (pending d ph) as [q|] eqn:Hq; [|discriminate].
    destruct (exec i q s) as [res s1|s1|] eqn:He; [| |discriminate].
    2:{ exfalso. eapply exec_never_raises; eassumption. }
    inversion Hn; subst ph' s'.
    destruct ph; simpl in Hh; try discriminate; reflexivity.
  - destruct ph; try discriminate.
Qed.

Lemma pg_race_step (n0 i : nat) (a : action) (x : ticket) (s : db)
    (xs : list ticket) (ph' : phase) (s' : db) :
  match a with Fail => False | _ => True end ->
  pg_race_inv n0 s xs -> nth_error xs i = Some x ->
  next i (t_dev x) (t_rate x) a (t_at x) s = Some (ph', s') ->
  pg_race_inv n0 s' (set_nth i (move x ph') xs).
Proof.
  intros Ha (Hrc & W & G & T & H1 & H & A & L & R & S) Hx Hn.
  assert (Hrows : forall r t, In r (prize_tokens s) -> upd r = Some (i, t) ->
                    holding (t_at x) = true /\ claimed_by t = Some (t_dev x)).
  { intros r t Hin U. destruct (H1 r i t Hin U) as (x0 & Hx0 & Hh & Hc).
    rewrite Hx in Hx0. inversion Hx0; subst x0. auto. }
  destruct (pg_race_facts i (t_dev x) (t_rate x) a (t_at x) ph' s s' Ha
              (racers_sure xs i x Hrc Hx) W (G i x Hx) (T i x Hx) Hrows
              (H i x Hx) (R i x Hx) (S i x Hx) Hn)
    as (G' & T' & F4 & F5 & F6 & F7 & F8 & F9 & F10).
  destruct (pg_step_avail _ _ _ _ _ _ _ _ W Hn) as (W' & K & To & Ho).
  assert (Hown : nth_error (set_nth i (move x ph') xs) i = Some (move x ph'))
    by (eapply nth_error_set_nth_eq; eassumption).
  assert (Hoth : forall j, i <> j ->
                   nth_error (set_nth i (move x ph') xs) j = nth_error xs j)
    by (intros j Hj; now apply nth_error_set_nth_neq).
  split; [now apply racers_set_nth|]. split; [assumption|].
  split; [|split; [|split; [|split; [|split; [|split; [|split]]]]]].
  - intros j y Hy. destruct (Nat.eq_dec i j) as [<-|Hne].
    + rewrite Hown in Hy. inversion Hy; subst y. assumption.
    + rewrite (Hoth j Hne) in Hy. eauto.
  - intros j y Hy Hin. destruct (Nat.eq_dec i j) as [<-|Hne].
    + rewrite Hown in Hy. inversion Hy; subst y. auto.
    + rewrite (Hoth j Hne) in Hy. eauto.
  - intros r c t Hin U. destruct (F4 r c t Hin U) as [[Hc Hold]|(-> & Hh & Hc)].
    + destruct (H1 r c t Hold U) as (x0 & Hx0 & Hh & Hcl).
      exists x0. rewrite Hoth by congruence. auto.
    + exists (move x ph'). auto.
  - intros j y Hy Hin. destruct (Nat.eq_dec i j) as [<-|Hne].
    + rewrite Hown in Hy. inversion Hy; subst y. auto.
    + rewrite (Hoth j Hne) in Hy. eauto.
  - pose proof (count_set_nth (fun y => holding (t_at y) || secured (t_at y))
                  i (move x ph') x xs Hx) as E.
    simpl in E. lia.
  - intros Hl.
    assert (Hle : avail s' <= avail s).
    { pose proof (pg_step_stays _ _ _ _ _ _ _ _ Ha W Hn) as St.
      destruct (holding (t_at x) || secured (t_at x));
        [rewrite (St eq_refl) in F6; lia|].
      destruct (holding ph' || secured ph'); lia. }
    destruct (existsb_set_nth _ _ _ _ _ Hx Hl) as [Hl'|Hl'].
    + simpl in Hl'. destruct (F7 Hl') as [Hl0|Hz]; [|assumption].
      assert (avail s = 0) by (apply L; eapply existsb_nth; eassumption). lia.
    + assert (avail s = 0) by (now apply L). lia.
  - intros j y Hy Hreg. destruct (Nat.eq_dec i j) as [<-|Hne].
    + rewrite Hown in Hy. inversion Hy; subst y. auto.
    + rewrite (Hoth j Hne) in Hy. apply F8.
      * intros E. eapply (racers_distinct xs i j x y); eauto.
      * eauto.
  - intros j y Hy Hsec. destruct (Nat.eq_dec i j) as [<-|Hne].
    + rewrite Hown in Hy. inversion Hy; subst y. auto.
    + rewrite (Hoth j Hne) in Hy. eapply claimed_for_kept; [exact K|]. eauto.
Qed.
End PgRaceStep.

Section MyRace.
Import Db MyPhases.

Lemma claimable_free (c : nat) (r : token_row) :
  wf_row r = true -> claimable c r = true -> free_row r = true.
Proof.
  unfold wf_row, claimable, seen, locked_by_other, free_row.
  destruct (upd r) as [[c' u]|]; [|now rewrite !andb_true_r].
  intros Hw Hc. exfalso.
  apply andb_true_iff in Hw as [Hw _]. apply andb_true_iff in Hw as [_ Hu].
  destruct (Nat.eqb c' c); simpl in Hc.
  - apply andb_true_iff in Hc as [Hc _]. rewrite Hc in Hu. discriminate.
  - rewrite andb_false_r in Hc. discriminate.
Qed.

Lemma claim_row_claims (c : nat) (d : string) (now : nat)
    (l1 l2 : list token_row) (t : token_row) :
  existsb (claimed_for d) (l1 ++ claim_row c false d now t :: l2) = true.
Proof.
  rewrite existsb_app. simpl. unfold claimed_for at 2. simpl.
  rewrite String.eqb_refl. simpl. apply orb_true_r.
Qed.

Lemma my_race_facts (i : nat) (d : string) (rate : js_number) (a : action)
    (ph ph' : phase) (s s' : db) :
  match a with Fail => False | _ => True end ->
  sure rate = true ->
  wf s = true -> in_tx s = [] ->
  racing ph ->
  (secured_my ph = false -> existsb (has_device d) (winners s) = false) ->
  (secured_my ph = true -> existsb (claimed_for d) (prize_tokens s) = true) ->
  next i d rate a ph s = Some (ph', s') ->
  racing ph' /\
  (if secured_my ph' then 1 else 0) + avail s' =
    (if secured_my ph then 1 else 0) + avail s /\
  (secured_my ph = true -> secured_my ph' = true) /\
  (lost ph' = true -> lost ph = true \/ avail s' = 0) /\
  (forall d', d' <> d -> existsb (has_device d') (winners s) = false ->
              existsb (has_device d') (winners s') = false) /\
  (secured_my ph' = false -> existsb (has_device d) (winners s') = false) /\
  (secured_my ph' = true -> existsb (claimed_for d) (prize_tokens s') = true).
Proof.
  intros Ha Hsure W X G Hreg Hsec Hn.
  assert (Hno : in_transaction i s = false)
    by (unfold in_transaction; now rewrite X).
  unfold next in Hn. destruct a; [|destruct Ha|].
  - destruct (pending d ph) as [q|] eqn:Hq; [|discriminate].
    destruct (exec i q s) as [res s1|s1|] eqn:He; [| |discriminate].
    2:{ exfalso. eapply exec_never_raises; eassumption. }
    inversion Hn; subst ph' s'; clear Hn.
    destruct ph; simpl in Hq; inversion Hq; subst q; clear Hq; simpl in He;
      try (destruct G; fail).
    + (* PCheck *)
      specialize (Hreg eq_refl).
      rewrite (no_device_unknown i d _ Hreg) in He.
      inversion He; subst; simpl.
      repeat split; try discriminate; auto.
    + (* PClaim *)
      destruct (existsb (locked_by_other i) (prize_tokens s)); [discriminate|].
      rewrite Hno in He.
      destruct (claim_first i false d (clock s) (prize_tokens s))
        as [[k l']|] eqn:Hc; inversion He; subst; simpl.
      * destruct (claim_first_some _ _ _ _ _ _ _ Hc)
          as (l1 & t0 & l2 & E & _ & Ht & _ & E').
        assert (Hfree : free_row t0 = true).
        { apply (claimable_free i); [|assumption].
          unfold wf in W. rewrite E, forallb_app in W. simpl in W.
          apply andb_true_iff in W as [_ W]. now apply andb_true_iff in W as [W _]. }
        repeat split; try discriminate; auto.
        -- unfold avail. simpl. subst l'. rewrite E.
           pose proof (avail_claim i false d (clock s) l1 l2 t0 Hfree). lia.
        -- intros _. subst l'. apply claim_row_claims.
      * assert (Hz : avail s = 0).
        { unfold avail. apply (no_claimable_no_free i).
          now apply claim_first_none in Hc. }
        unfold avail in *. simpl.
        repeat split; try discriminate; auto.
    + (* PRegister *)
      specialize (Hsec eq_refl).
      destruct (existsb (fun w => has_device d w && reads i w) (winners s)).
      * inversion He; subst; simpl. repeat split; try discriminate; auto.
      * destruct (existsb (has_device d) (winners s)); [discriminate|].
        inversion He; subst; simpl. unfold avail. simpl.
        repeat split; try discriminate; auto.
        intros d' Hne Hd'. apply no_device_app; auto.
    + (* PFinal *)
      inversion He; subst; simpl.
      repeat split; try discriminate; auto.
      left. eexists. reflexivity.
  - destruct ph; try discriminate.
    destruct (in_unit_interval r) eqn:Hr; [|discriminate].
    inversion Hn; subst ph' s'; clear Hn.
    unfold drawn. rewrite (sure_passes r rate Hr Hsure). simpl.
    repeat split; try discriminate; auto.
Qed.

Lemma my_race_step (n0 i : nat) (a : action) (x : ticket) (s : db)
    (xs : list ticket) (ph' : phase) (s' : db) :
  match a with Fail => False | _ => True end ->
  my_race_inv n0 s xs -> nth_error xs i = Some x ->
  next i (t_dev x) (t_rate x) a (t_at x) s = Some (ph', s') ->
  my_race_inv n0 s' (set_nth i (move x ph') xs).
Proof.
  intros Ha (Hrc & W & X & G & A & L & R & S) Hx Hn.
  destruct (my_race_facts i (t_dev x) (t_rate x) a (t_at x) ph' s s' Ha
              (racers_sure xs i x Hrc Hx) W X (G i x Hx) (R i x Hx) (S i x Hx) Hn)
    as (G' & F2 & F3 & F4 & F5 & F6 & F7).
  destruct (my_step_facts _ _ _ _ _ _ _ _ W X Hn) as (W' & X' & _ & _).
  assert (K : claims_kept s s').
  { unfold next in Hn. destruct a; [|destruct Ha|].
    - destruct (pending (t_dev x) (t_at x)) as [q|]; [|discriminate].
      destruct (exec i q s) as [res s1|s1|] eqn:He; [| |discriminate].
      2:{ exfalso. eapply exec_never_raises; eassumption. }
      inversion Hn; subst. eapply exec_keeps_claims; eassumption.
    - destruct (t_at x); try discriminate.
      destruct (in_unit_interval r); [|discriminate].
      inversion Hn; subst. apply claims_kept_refl. }
  assert (Hown : nth_error (set_nth i (move x ph') xs) i = Some (move x ph'))
    by (eapply nth_error_set_nth_eq; eassumption).
  assert (Hoth : forall j, i <> j ->
                   nth_error (set_nth i (move x ph') xs) j = nth_error xs j)
    by (intros j Hj; now apply nth_error_set_nth_neq).
  split; [now apply racers_set_nth|]. split; [assumption|]. split; [assumption|].
  split; [|split; [|split; [|split]]].
  - intros j y Hy. destruct (Nat.eq_dec i j) as [<-|Hne].
    + rewrite Hown in Hy. inversion Hy; subst y. assumption.
    + rewrite (Hoth j Hne) in Hy. eauto.
  - pose proof (count_set_nth (fun y => secured_my (t_at y))
                  i (move x ph') x xs Hx) as E.
    simpl in E. lia.
  - intros Hl.
    assert (Hle : avail s' <= avail s).
    { destruct (secured_my (t_at x)); [rewrite (F3 eq_refl) in F2; lia|].
      destruct (secured_my ph'); lia. }
    destruct (existsb_set_nth _ _ _ _ _ Hx Hl) as [Hl'|Hl'].
    + simpl in Hl'. destruct (F4 Hl') as [Hl0|Hz]; [|assumption].
      assert (avail s = 0) by (apply L; eapply existsb_nth; eassumption). lia.
    + assert (avail s = 0) by (now apply L). lia.
  - intros j y Hy Hreg. destruct (Nat.eq_dec i j) as [<-|Hne].
    + rewrite Hown in Hy. inversion Hy; subst y. auto.
    + rewrite (Hoth j Hne) in Hy. apply F5.
      * intros E. eapply (racers_distinct xs i j x y); eauto.
      * eauto.
  - intros j y Hy Hsec. destruct (Nat.eq_dec i j) as [<-|Hne].
    + rewrite Hown in Hy. inversion Hy; subst y. auto.
    + rewrite (Hoth j Hne) in Hy. eapply claimed_for_kept; [exact K|]. eauto.
Qed.
End MyRace.

(** ** The end of a race *)

Section RaceEnd.
Import Db.

Lemma settled_wf (s : db) : settled s = true -> wf s = true.
Proof.
  unfold settled, wf. intros H.
  apply andb_true_iff in H as [H _]. apply andb_true_iff in H as [_ Ht].
  induction (prize_tokens s) as [|r l IH]; simpl in *; [reflexivity|].
  apply andb_true_iff in Ht as [Hr Hl]. rewrite (IH Hl), andb_true_r.
  unfold wf_row. now destruct (upd r).
Qed.

Lemma settled_no_upd (s : db) (r : token_row) :
  settled s = true -> In r (prize_tokens s) -> upd r = None.
Proof.
  unfold settled. intros H Hin.
  apply andb_true_iff in H as [H _]. apply andb_true_iff in H as [_ Ht].
  rewrite forallb_forall in Ht. specialize (Ht r Hin).
  now destruct (upd r).
Qed.

Lemma settled_no_tx (s : db) : settled s = true -> in_tx s = [].
Proof.
  unfold settled. intros H.
  apply andb_true_iff in H as [H _]. apply andb_true_iff in H as [H _].
  now destruct (in_tx s).
Qed.

Lemma racer_ticket (e : env) (s0 : db) (req : request) :
  racer e s0 req = true ->
  t_at (pg_ticket e req) = PCheck /\
  sure (t_rate (pg_ticket e req)) = true /\
  existsb (has_device (t_dev (pg_ticket e req))) (winners s0) = false.
Proof.
  unfold racer, pg_ticket, PgPhases.start, PgPhases.device. simpl.
  destruct (deviceId req) as [d|]; [|discriminate].
  intros H. apply andb_true_iff in H as [H Hw]. apply andb_true_iff in H as [Hd Hs].
  destruct (String.eqb d ""); [discriminate|].
  repeat split; [assumption|]. now destruct (existsb (has_device d) (winners s0)).
Qed.

Lemma race_tickets (e : env) (s0 : db) (reqs : list request) (i : nat) (x : ticket) :
  forallb (racer e s0) reqs = true ->
  nth_error (map (pg_ticket e) reqs) i = Some x ->
  t_at x = PCheck /\ sure (t_rate x) = true /\
  existsb (has_device (t_dev x)) (winners s0) = false.
Proof.
  intros H. rewrite nth_error_map.
  destruct (nth_error reqs i) as [req|] eqn:Hi; [|discriminate].
  intros [= <-]. apply racer_ticket.
  rewrite forallb_forall in H. apply H. eapply nth_error_In; eassumption.
Qed.

Lemma count_none {A : Type} (f : A -> bool) (l : list A) :
  (forall x, In x l -> f x = false) -> count f l = 0 /\ existsb f l = false.
Proof.
  unfold count. induction l as [|x l IH]; simpl; intros H; [auto|].
  rewrite (H x (or_introl eq_refl)). simpl. apply IH.
  intros y Hy. apply H. now right.
Qed.

Lemma start_racers (e : env) (s0 : db) (reqs : list request) :
  NoDup (map PgPhases.device reqs) -> forallb (racer e s0) reqs = true ->
  racers (map (pg_ticket e) reqs).
Proof.
  intros Hd Hr. split.
  - rewrite map_map. exact Hd.
  - apply Forall_forall. intros x Hx. apply In_nth_error in Hx as [i Hi].
    now destruct (race_tickets e s0 reqs i x Hr Hi) as (_ & Hs & _).
Qed.

Lemma pg_race_start (e : env) (s0 : db) (reqs : list request) :
  settled s0 = true ->
  NoDup (map PgPhases.device reqs) -> forallb (racer e s0) reqs = true ->
  pg_race_inv (avail s0) s0 (map (pg_ticket e) reqs).
Proof.
  intros Hs Hd Hr.
  assert (Hat : forall x, In x (map (pg_ticket e) reqs) -> t_at x = PCheck).
  { intros x Hx. apply In_nth_error in Hx as [i Hi].
    now destruct (race_tickets e s0 reqs i x Hr Hi). }
  split; [now apply (start_racers e s0)|]. split; [now apply settled_wf|].
  split; [|split; [|split; [|split; [|split; [|split; [|split]]]]]].
  - intros i x Hi. destruct (race_tickets e s0 reqs i x Hr Hi) as (-> & _). exact I.
  - intros i x Hi. destruct (race_tickets e s0 reqs i x Hr Hi) as (-> & _).
    discriminate.
  - intros r c t Hin U. rewrite (settled_no_upd s0 r Hs Hin) in U. discriminate.
  - intros i x Hi. destruct (race_tickets e s0 reqs i x Hr Hi) as (-> & _).
    discriminate.
  - destruct (count_none (fun x => holding (t_at x) || secured (t_at x))
                (map (pg_ticket e) reqs)) as [-> _]; [|reflexivity].
    intros x Hx. now rewrite (Hat x Hx).
  - destruct (count_none (fun x => lost (t_at x)) (map (pg_ticket e) reqs))
      as [_ ->]; [|discriminate].
    intros x Hx. now rewrite (Hat x Hx).
  - intros i x Hi _. now destruct (race_tickets e s0 reqs i x Hr Hi) as (_ & _ & H).
  - intros i x Hi. destruct (race_tickets e s0 reqs i x Hr Hi) as (-> & _).
    discriminate.
Qed.

Lemma my_race_start (e : env) (s0 : db) (reqs : list request) :
  settled s0 = true ->
  NoDup (map PgPhases.device reqs) -> forallb (racer e s0) reqs = true ->
  my_race_inv (avail s0) s0 (map (pg_ticket e) reqs).
Proof.
  intros Hs Hd Hr.
  assert (Hat : forall x, In x (map (pg_ticket e) reqs) -> t_at x = PCheck).
  { intros x Hx. apply In_nth_error in Hx as [i Hi].
    now destruct (race_tickets e s0 reqs i x Hr Hi). }
  split; [now apply (start_racers e s0)|]. split; [now apply settled_wf|].
  split; [now apply settled_no_tx|].
  split; [|split; [|split; [|split]]].
  - intros i x Hi. destruct (race_tickets e s0 reqs i x Hr Hi) as (-> & _). exact I.
  - destruct (count_none (fun x => secured_my (t_at x))
                (map (pg_ticket e) reqs)) as [-> _]; [|reflexivity].
    intros x Hx. now rewrite (Hat x Hx).
  - destruct (count_none (fun x => lost (t_at x)) (map (pg_ticket e) reqs))
      as [_ ->]; [|discriminate].
    intros x Hx. now rewrite (Hat x Hx).
  - intros i x Hi _. now destruct (race_tickets e s0 reqs i x Hr Hi) as (_ & _ & H).
  - intros i x Hi. destruct (race_tickets e s0 reqs i x Hr Hi) as (-> & _).
    discriminate.
Qed.

Lemma pg_replied (x : ticket) (a : response) :
  reply (pg_thread x) = Some a -> exists b, t_at x = PReplied a b.
Proof.
  unfold pg_thread, PgPhases.at_phase, reply.
  destruct (t_at x); cbn; try discriminate.
  intros [= ->]. eexists. reflexivity.
Qed.

Lemma my_replied (x : ticket) (a : response) :
  reply (my_thread x) = Some a -> exists b, t_at x = PReplied a b.
Proof.
  unfold my_thread, MyPhases.at_phase, reply.
  destruct (t_at x); cbn; try discriminate.
  intros [= ->]. eexists. reflexivity.
Qed.

Lemma count_ext_in {A : Type} (f g : A -> bool) (l : list A) :
  (forall x, In x l -> f x = g x) -> count f l = count g l.
Proof.
  unfold count. induction l as [|x l IH]; simpl; intros H; [reflexivity|].
  rewrite (H x (or_introl eq_refl)).
  assert (E : length (filter f l) = length (filter g l)).
  { apply IH. intros y Hy. apply H. now right. }
  destruct (g x); simpl; now rewrite E.
Qed.

Lemma secured_or_lost (xs : list ticket) :
  (forall x, In x xs -> exists a b, t_at x = PReplied a b) ->
  count (fun x => secured (t_at x)) xs + count (fun x => lost (t_at x)) xs =
  length xs.
Proof.
  unfold count. induction xs as [|x xs IH]; simpl; intros H; [reflexivity|].
  assert (E : length (filter (fun x => secured (t_at x)) xs)
              + length (filter (fun x => lost (t_at x)) xs) = length xs).
  { apply IH. intros y Hy. apply H. now right. }
  destruct (H x (or_introl eq_refl)) as (a & b & ->). simpl.
  destruct (won a) as [[|]|]; simpl; lia.
Qed.

Lemma last_token (f : phase -> bool) (xs : list ticket) (av : nat) :
  (forall x, In x xs -> exists a b, t_at x = PReplied a b) ->
  (forall a b, f (PReplied a b) = secured (PReplied a b)) ->
  count (fun x => f (t_at x)) xs + av = 1 ->
  (existsb (fun x => lost (t_at x)) xs = true -> av = 0) ->
  1 < length xs ->
  count (fun x => secured (t_at x)) xs = 1 /\ av = 0.
Proof.
  intros Hrep Hf A L Hk.
  rewrite (count_ext_in (fun x => f (t_at x)) (fun x => secured (t_at x))) in A.
  2:{ intros x Hx. destruct (Hrep x Hx) as (a & b & ->). apply Hf. }
  pose proof (secured_or_lost xs Hrep) as E.
  destruct (existsb (fun x => lost (t_at x)) xs) eqn:El.
  - specialize (L eq_refl). lia.
  - exfalso.
    destruct (count_none (fun x => lost (t_at x)) xs) as [Z _]; [|lia].
    intros x Hx. destruct (lost (t_at x)) eqn:Ex; [|reflexivity].
    rewrite <- El. symmetry. apply existsb_exists. exists x. auto.
Qed.

Section Outcome.
Variable th : ticket -> thread stmt result.
Hypothesis th_replied :
  forall x a, reply (th x) = Some a -> exists b, t_at x = PReplied a b.

Lemma replied_all (xs : list ticket) :
  all_replied (map th xs) = true ->
  forall x, In x xs -> exists a b, t_at x = PReplied a b /\ reply (th x) = Some a.
Proof.
  unfold all_replied. rewrite forallb_forall. intros H x Hx.
  specialize (H (th x) (in_map th xs x Hx)).
  destruct (reply (th x)) as [a|] eqn:E; [|discriminate].
  destruct (th_replied x a E) as [b Hb]. eauto.
Qed.

Lemma count_won_replied (xs : list ticket) :
  all_replied (map th xs) = true ->
  count_won (replies (map th xs)) = count (fun x => secured (t_at x)) xs.
Proof.
  intros H. pose proof (replied_all xs H) as Hr. clear H.
  unfold count_won, replies, count.
  induction xs as [|x xs IH]; simpl; [reflexivity|].
  assert (E : length (filter says_won (map reply (map th xs))) =
              length (filter (fun x => secured (t_at x)) xs)).
  { apply IH. intros y Hy. apply Hr. now right. }
  destruct (Hr x (or_introl eq_refl)) as (a & b & -> & ->). simpl.
  destruct (won a) as [[|]|]; simpl; now rewrite E.
Qed.

Lemma race_result (s0 s' : db) (reqs : list request) (xs : list ticket) :
  all_replied (map th xs) = true ->
  map t_dev xs = map PgPhases.device reqs ->
  (forall i x, nth_error xs i = Some x -> racing (t_at x)) ->
  count (fun x => secured (t_at x)) xs = 1 ->
  avail s' = 0 -> claims_kept s0 s' ->
  (forall i x, nth_error xs i = Some x -> secured (t_at x) = true ->
               existsb (claimed_for (t_dev x)) (prize_tokens s') = true) ->
  race_outcome s0 reqs s' (map th xs).
Proof.
  intros Hall Hdev G Hone Hav K S.
  pose proof (replied_all xs Hall) as Hr.
  split; [now rewrite count_won_replied|].
  split.
  { unfold replies. rewrite !length_map.
    rewrite <- (length_map t_dev xs), Hdev. apply length_map. }
  split; [|split; [|split; assumption]].
  - intros i rp Hi Hw. unfold replies in Hi. rewrite !nth_error_map in Hi.
    destruct (nth_error xs i) as [x|] eqn:Hx; [|discriminate].
    simpl in Hi. inversion Hi; subst rp; clear Hi.
    destruct (Hr x (nth_error_In _ _ Hx)) as (a & b & Hat & Ha).
    rewrite Ha in *. specialize (G i x Hx). rewrite Hat in G. simpl in G.
    destruct G as [[z ->]| ->]; [discriminate|reflexivity].
  - intros i req rp Hq Hi Hw. unfold replies in Hi. rewrite !nth_error_map in Hi.
    destruct (nth_error xs i) as [x|] eqn:Hx; [|discriminate].
    simpl in Hi. inversion Hi; subst rp; clear Hi.
    destruct (Hr x (nth_error_In _ _ Hx)) as (a & b & Hat & Ha).
    assert (Ed : t_dev x = PgPhases.device req).
    { assert (E : nth_error (map t_dev xs) i = nth_error (map PgPhases.device reqs) i)
        by now rewrite Hdev.
      rewrite !nth_error_map, Hx, Hq in E. simpl in E. congruence. }
    rewrite <- Ed. apply (S i x Hx). rewrite Hat. simpl.
    rewrite Ha in Hw. exact Hw.
Qed.
End Outcome.

Lemma machine_run_devices
    (next : nat -> string -> js_number -> action -> phase -> db -> option (phase * db))
    (sch : list (nat * action)) (s s' : db) (xs xs' : list ticket) :
  machine_run next sch s xs = Some (s', xs') -> map t_dev xs' = map t_dev xs.
Proof.
  intros H.
  apply (machine_run_inv next (fun _ ys => map t_dev ys = map t_dev xs)) in H;
    [assumption| |reflexivity].
  intros i a x s1 ys ph' s2 E Hx _.
  now rewrite (proj1 (map_dev_set_nth i x ph' ys Hx)).
Qed.

Lemma pg_race (e : env) (s0 : db) (reqs : list request)
    (sch : list (nat * action)) (s' : db) (ths' : list (thread stmt result)) :
  settled s0 = true -> avail s0 = 1 -> 1 < length reqs ->
  NoDup (map PgPhases.device reqs) -> forallb (racer e s0) reqs = true ->
  no_faults sch = true ->
  sched_run exec sch s0 (map (ServerPg.draw e) reqs) = Some (s', ths') ->
  all_replied ths' = true ->
  race_outcome s0 reqs s' ths'.
Proof.
  intros Hs Hav Hk Hd Hr Hf H Hall.
  assert (Hkept : wf s' = true /\ claims_kept s0 s').
  { exact (sched_run_keeps _ _ _ exec (fun x => wf x = true) claims_kept
             claims_kept_refl claims_kept_trans keeps_wf_done keeps_wf_raised
             sch s0 s' _ ths' (settled_wf s0 Hs) H). }
  assert (E : map (ServerPg.draw e) reqs = map pg_thread (map (pg_ticket e) reqs)).
  { rewrite map_map. apply map_ext. intros req. apply pg_start. }
  rewrite E in H.
  rewrite (machine_run_threads PgPhases.next pg_thread) in H.
  2:{ intros c a x s. apply pg_step. }
  destruct (machine_run PgPhases.next sch s0 (map (pg_ticket e) reqs))
    as [[s1 xs']|] eqn:Hm; [|discriminate].
  inversion H; subst s1 ths'; clear H.
  pose proof (machine_run_devices _ _ _ _ _ _ Hm) as Hdev.
  rewrite map_map in Hdev. simpl in Hdev.
  pose proof (pg_race_start e s0 reqs Hs Hd Hr) as I0. rewrite Hav in I0.
  apply (machine_run_inv_no_faults PgPhases.next (pg_race_inv 1)
           (fun i a x s xs ph' s2 Ha => pg_race_step 1 i a x s xs ph' s2 Ha)
           sch s0 s' _ xs' Hf I0) in Hm.
  destruct Hm as (_ & _ & G & _ & _ & _ & A & L & _ & S).
  assert (Hlen : length xs' = length reqs).
  { rewrite <- (length_map t_dev xs'), Hdev. apply length_map. }
  destruct (last_token (fun ph => holding ph || secured ph) xs' (avail s'))
    as [Hone Hz]; try assumption.
  - intros x Hx. destruct (replied_all pg_thread pg_replied xs' Hall x Hx)
      as (a & b & Hat & _). eauto.
  - reflexivity.
  - lia.
  - apply (race_result pg_thread pg_replied); try assumption. apply Hkept.
Qed.

Lemma my_race (e : env) (s0 : db) (reqs : list request)
    (sch : list (nat * action)) (s' : db) (ths' : list (thread stmt result)) :
  settled s0 = true -> avail s0 = 1 -> 1 < length reqs ->
  NoDup (map PgPhases.device reqs) -> forallb (racer e s0) reqs = true ->
  no_faults sch = true ->
  sched_run exec sch s0 (map (ServerMysql.draw e) reqs) = Some (s', ths') ->
  all_replied ths' = true ->
  race_outcome s0 reqs s' ths'.
Proof.
  intros Hs Hav Hk Hd Hr Hf H Hall.
  assert (Hkept : wf s' = true /\ claims_kept s0 s').
  { exact (sched_run_keeps _ _ _ exec (fun x => wf x = true) claims_kept
             claims_kept_refl claims_kept_trans keeps_wf_done keeps_wf_raised
             sch s0 s' _ ths' (settled_wf s0 Hs) H). }
  assert (E : map (ServerMysql.draw e) reqs = map my_thread (map (pg_ticket e) reqs)).
  { rewrite map_map. apply map_ext. intros req. apply my_start. }
  rewrite E in H.
  rewrite (machine_run_threads MyPhases.next my_thread) in H.
  2:{ intros c a x s. apply my_step. }
  destruct (machine_run MyPhases.next sch s0 (map (pg_ticket e) reqs))
    as [[s1 xs']|] eqn:Hm; [|discriminate].
  inversion H; subst s1 ths'; clear H.
  pose proof (machine_run_devices _ _ _ _ _ _ Hm) as Hdev.
  rewrite map_map in Hdev. simpl in Hdev.
  pose proof (my_race_start e s0 reqs Hs Hd Hr) as I0. rewrite Hav in I0.
  apply (machine_run_inv_no_faults MyPhases.next (my_race_inv 1)
           (fun i a x s xs ph' s2 Ha => my_race_step 1 i a x s xs ph' s2 Ha)
           sch s0 s' _ xs' Hf I0) in Hm.
  destruct Hm as (_ & _ & _ & G & A & L & _ & S).
  assert (Hlen : length xs' = length reqs).
  { rewrite <- (length_map t_dev xs'), Hdev. apply length_map. }
  destruct (last_token secured_my xs' (avail s'))
    as [Hone Hz]; try assumption.
  - intros x Hx. destruct (replied_all my_thread my_replied xs' Hall x Hx)
      as (a & b & Hat & _). eauto.
  - reflexivity.
  - lia.
  - apply (race_result my_thread my_replied); try assumption.
    + apply Hkept.
    + intros i x Hx Hsec. apply (S i x Hx). unfold secured_my. rewrite Hsec.
      now destruct (t_at x).
Qed.
End RaceEnd.

(** ** Scenario A of the specification, on both token servers *)

Example scenario_A_pg :
  map s_reply
      (fst (serve Db.exec (ServerPg.draw env0) 0
              [{| a_req := ask_rate "d1" 1; a_random := (1 # 2)%Q; a_faults := [] |};
               {| a_req := ask_rate "d1" 1; a_random := (1 # 2)%Q; a_faults := [] |};
               {| a_req := ask_rate "d2" 1; a_random := (1 # 2)%Q; a_faults := [] |}]
              (Db.seeded 1))) =
  [Some (json_draw true None 0%Z);
   Some (json_draw false (Some "already_winner") 0%Z);
   Some (json_draw false (Some "no_prizes_left") 0%Z)].
Proof. vm_compute. reflexivity. Qed.

Example scenario_A_mysql :
  map s_reply
      (fst (serve Db.exec (ServerMysql.draw env0) 0
              [{| a_req := ask_rate "d1" 1; a_random := (1 # 2)%Q; a_faults := [] |};
               {| a_req := ask_rate "d1" 1; a_random := (1 # 2)%Q; a_faults := [] |};
               {| a_req := ask_rate "d2" 1; a_random := (1 # 2)%Q; a_faults := [] |}]
              (Db.seeded 1))) =
  [Some (json_draw true None 0%Z);
   Some (json_draw false (Some "already_winner") 0%Z);
   Some (json_draw false (Some "no_prizes_left") 0%Z)].
Proof. vm_compute. reflexivity. Qed.

(** * Further properties of the code *)

(** ** The CORS middleware *)

Section CorsFacts.
Import Cors.

Lemma includes_In (l : list string) (x : string) :
  includes l x = true <-> In x l.
Proof.
  unfold includes. rewrite existsb_exists. split.
  - intros (y & Hy & E). apply String.eqb_eq in E. now subst.
  - intros H. exists x. split; [assumption|apply String.eqb_refl].
Qed.

Lemma allowed_nonempty (o : string) : In o ALLOWED_ORIGINS -> String.eqb o "" = false.
Proof.
  simpl. intros [<-|[<-|[<-|[]]]]; reflexivity.
Qed.
End CorsFacts.

(** X1.  The CORS middleware of src/server.js and part_001 answers a request
    whose [Origin] is one of the three allowed origins with exactly four
    headers, [Access-Control-Allow-Origin] echoing that origin; a request
    with any other origin, or without one, gets no header at all, so the
    allowed origin is never a wildcard and never an origin outside the list.
    Independently of the origin, an [OPTIONS] request is answered 204 and
    goes no further; every other method is passed on. *)
Theorem X1_cors (req : Cors.http_request) :
  (forall o, Cors.origin req = Some o -> In o Cors.ALLOWED_ORIGINS ->
     fst (Cors.cors req) =
       [("Access-Control-Allow-Origin", o); ("Vary", "Origin");
        ("Access-Control-Allow-Methods", "GET,POST,OPTIONS");
        ("Access-Control-Allow-Headers", "Content-Type")]) /\
  ((forall o, Cors.origin req = Some o -> ~ In o Cors.ALLOWED_ORIGINS) ->
     fst (Cors.cors req) = []) /\
  (forall v, In ("Access-Control-Allow-Origin", v) (fst (Cors.cors req)) ->
     Cors.origin req = Some v /\ In v Cors.ALLOWED_ORIGINS) /\
  (Cors.method req = "OPTIONS" -> snd (Cors.cors req) = Cors.SendStatus 204) /\
  (Cors.method req <> "OPTIONS" -> snd (Cors.cors req) = Cors.Next).
Proof.
  unfold Cors.cors. cbn [fst snd]. repeat split.
  - intros o -> Hin. rewrite (allowed_nonempty o Hin).
    rewrite (proj2 (includes_In _ o) Hin). reflexivity.
  - intros H. destruct (Cors.origin req) as [o|]; [|reflexivity].
    destruct (Cors.includes Cors.ALLOWED_ORIGINS o) eqn:E.
    + apply includes_In in E. now destruct (H o eq_refl).
    + now rewrite andb_false_r.
  - destruct (Cors.origin req) as [o|]; [|contradiction].
    destruct (negb (String.eqb o "") && Cors.includes Cors.ALLOWED_ORIGINS o);
      [|contradiction].
    simpl in H. destruct H as [H|[H|[H|[H|[]]]]]; inversion H. reflexivity.
  - destruct (Cors.origin req) as [o|]; [|contradiction].
    destruct (negb (String.eqb o "") && Cors.includes Cors.ALLOWED_ORIGINS o) eqn:E;
      [|contradiction].
    apply andb_true_iff in E as [_ E]. apply includes_In in E.
    simpl in H. destruct H as [H|[H|[H|[H|[]]]]]; inversion H. now subst.
  - intros ->. reflexivity.
  - intros H. destruct (String.eqb (Cors.method req) "OPTIONS") eqn:E; [|reflexivity].
    apply String.eqb_eq in E. contradiction.
Qed.

Lemma X1_witness :
  fst (Cors.cors {| Cors.origin := Some "http://localhost:5500";
                    Cors.method := "POST" |}) =
    [("Access-Control-Allow-Origin", "http://localhost:5500"); ("Vary", "Origin");
     ("Access-Control-Allow-Methods", "GET,POST,OPTIONS");
     ("Access-Control-Allow-Headers", "Content-Type")] /\
  fst (Cors.cors {| Cors.origin := Some "http://evil.example";
                    Cors.method := "OPTIONS" |}) = [] /\
  snd (Cors.cors {| Cors.origin := Some "http://evil.example";
                    Cors.method := "OPTIONS" |}) = Cors.SendStatus 204.
Proof.
  split; [|split].
  - apply (proj1 (X1_cors {| Cors.origin := Some "http://localhost:5500";
                             Cors.method := "POST" |}) _ eq_refl).
    simpl. auto.
  - apply (proj1 (proj2 (X1_cors {| Cors.origin := Some "http://evil.example";
                                    Cors.method := "OPTIONS" |}))).
    intros o [= <-]. simpl. intros [H|[H|[H|[]]]]; discriminate.
  - apply (proj1 (proj2 (proj2 (proj2
             (X1_cors {| Cors.origin := Some "http://evil.example";
                         Cors.method := "OPTIONS" |}))))).
    reflexivity.
Defined.

(** ** The schema script *)

(** X2.  The schema script of part_000, run on a new database, leaves ten
    free tokens with ids 1 to 10 and no winner.  Run again, at any later
    time, it changes nothing; in particular it never adds tokens to a pool
    that has any row, used up or not, and it never touches the winners. *)
Theorem X2_schema_script :
  Schema.script None = (11, Db.seeded 10) /\
  (forall d, Schema.script (Some (Schema.script d)) = Schema.script d) /\
  (forall next s, Db.prize_tokens s <> [] ->
     Schema.script (Some (next, s)) = (next, s)) /\
  (forall next s, Db.winners (snd (Schema.script (Some (next, s)))) = Db.winners s).
Proof.
  assert (H : forall next s, Db.prize_tokens s <> [] ->
                Schema.script (Some (next, s)) = (next, s)).
  { intros next s Hne. unfold Schema.script, Schema.seed_tokens. simpl.
    destruct (Db.prize_tokens s); [congruence|reflexivity]. }
  split; [reflexivity|]. split; [|split; [exact H|]].
  - intros d. destruct (Schema.script d) as [next s] eqn:E.
    apply H. intros Hnil.
    unfold Schema.script, Schema.seed_tokens in E.
    destruct (Schema.create_tables d) as [next0 s0].
    destruct (Db.prize_tokens s0) eqn:E0; simpl in E; inversion E; subst.
    + simpl in Hnil. discriminate.
    + congruence.
  - intros next s. unfold Schema.script, Schema.seed_tokens. simpl.
    destruct (length (Db.prize_tokens s) =? 0); reflexivity.
Qed.

Lemma X2_witness :
  Schema.script (Some (2, pool1_d1_won)) = (2, pool1_d1_won).
Proof.
  apply (proj1 (proj2 (proj2 X2_schema_script)) 2 pool1_d1_won).
  discriminate.
Defined.

(** ** Input validation *)

(** X3.  Input validation.  The token servers (src/server.js, part_001)
    answer a draw request that has no body, or whose [deviceId] is missing,
    empty or not a string, with status 400 and error ["deviceId requerido"],
    at once: before the handler asks for a connection, so whether or not one
    can be had, without statement or random number, the store exactly as it
    was.  part_002 tests only whether the [deviceId] is falsy: a missing or
    empty one is answered status 200 with [ok: false] and error
    ["Falta deviceId"], nothing executed; a truthy one that is not a string,
    which the token servers reject, is drawn for like a string; and a request
    without body makes the handler throw before its [try], so that it sends
    nothing. *)
Theorem X3_missing_device (e : env) (body : option request)
    (conn : option nat) (c : nat) (r : Q) (faults : list bool) :
  (missing_device (body_or_empty body) = true ->
   forall s : Db.db,
     ServerPg.post_draw e body conn r faults s =
       (Some (json_error 400 "deviceId requerido"), (s, [])) /\
     ServerMysql.post_draw e body conn r faults s =
       (Some (json_error 400 "deviceId requerido"), (s, []))) /\
  (forall (req : request) (s : ServerCount.db),
     body = Some req -> ServerCount.truthy_id req = None ->
     run_thread ServerCount.exec c (ServerCount.post_draw body) r faults s =
       (Some (json_error 200 "Falta deviceId"), (s, []))) /\
  (forall (req : request) (text : string),
     body = Some req -> deviceId_value req = OtherId text ->
     missing_device req = true /\
     ServerCount.post_draw body =
       {| body := ServerCount.draw_try text;
          handler := Some ServerCount.draw_catch |}) /\
  (body = None ->
   forall s : ServerCount.db,
     run_thread ServerCount.exec c (ServerCount.post_draw body) r faults s =
       (None, (s, []))).
Proof.
  split; [|split; [|split]].
  - unfold missing_device, ServerPg.post_draw, ServerMysql.post_draw.
    intros H s. destruct (deviceId (body_or_empty body)) as [d|];
      [rewrite H|]; split; reflexivity.
  - intros req s -> H. unfold ServerCount.post_draw, ServerCount.draw.
    now rewrite H.
  - intros req text -> H. unfold missing_device, deviceId, ServerCount.post_draw,
      ServerCount.draw, ServerCount.truthy_id.
    rewrite H. split; reflexivity.
  - intros -> s. reflexivity.
Qed.

Lemma X3_witness :
  ServerPg.post_draw env0 (Some {| deviceId_value := OtherId "123"; winRate := None |})
                     None (1 # 2)%Q [true] (Db.seeded 1) =
    (Some (json_error 400 "deviceId requerido"), (Db.seeded 1, [])) /\
  run_thread ServerCount.exec 0
             (ServerCount.post_draw (Some {| deviceId_value := StringId ""; winRate := None |}))
             (1 # 2)%Q [true] ServerCount.empty =
    (Some (json_error 200 "Falta deviceId"), (ServerCount.empty, [])) /\
  ServerCount.post_draw (Some {| deviceId_value := OtherId "123"; winRate := None |}) =
    {| body := ServerCount.draw_try "123"; handler := Some ServerCount.draw_catch |} /\
  run_thread ServerCount.exec 0 (ServerCount.post_draw None) (1 # 2)%Q []
             ServerCount.empty = (None, (ServerCount.empty, [])).
Proof.
  split; [|split; [|split]].
  - exact (proj1 (proj1 (X3_missing_device env0
                           (Some {| deviceId_value := OtherId "123"; winRate := None |})
                           None 0 (1 # 2)%Q [true]) eq_refl (Db.seeded 1))).
  - exact (proj1 (proj2 (X3_missing_device env0
                           (Some {| deviceId_value := StringId ""; winRate := None |})
                           None 0 (1 # 2)%Q [true])) _ ServerCount.empty eq_refl eq_refl).
  - exact (proj2 (proj1 (proj2 (proj2 (X3_missing_device env0
                           (Some {| deviceId_value := OtherId "123"; winRate := None |})
                           None 0 (1 # 2)%Q []))) _ "123" eq_refl eq_refl)).
  - exact (proj2 (proj2 (proj2 (X3_missing_device env0 None None 0 (1 # 2)%Q [])))
                 eq_refl ServerCount.empty).
Defined.

(** ** What the token servers answer *)

Section Contract.
Import Db.

Lemma remaining_bounds (c : nat) (s s' : db) (res : result) :
  exec c SELECT_remaining s = Done res s' ->
  (0 <= hd 0 (rows res) <= Z.of_nat (length (prize_tokens s)))%Z.
Proof.
  simpl. intros [= <- _]. simpl. split; [lia|].
  apply inj_le. unfold count_free. apply filter_length_le.
Qed.

Lemma well_formed_plain (n : nat) (w : bool) (z : Z) :
  (0 <= z <= Z.of_nat n)%Z -> well_formed_draw n (json_draw w None z) = true.
Proof.
  intros [H0 H1]. unfold well_formed_draw. simpl.
  apply Z.leb_le in H0, H1. now rewrite H0, H1.
Qed.

Lemma well_formed_already (n : nat) (z : Z) :
  (0 <= z <= Z.of_nat n)%Z ->
  well_formed_draw n (json_draw false (Some "already_winner") z) = true.
Proof.
  intros [H0 H1]. unfold well_formed_draw. simpl.
  apply Z.leb_le in H0, H1. now rewrite H0, H1.
Qed.

Lemma well_formed_no_prizes (n : nat) :
  well_formed_draw n (json_draw false (Some "no_prizes_left") 0%Z) = true.
Proof.
  unfold well_formed_draw. simpl.
  assert (H : (0 <=? Z.of_nat n)%Z = true) by (apply Z.leb_le; lia).
  now rewrite H.
Qed.

Lemma contract_set_nth (n i : nat) (x : ticket) (ph' : phase) (s s' : db)
    (xs : list ticket) :
  contract_inv n s xs -> nth_error xs i = Some x ->
  wf s' = true -> length (prize_tokens s') = n ->
  phase_contract n (t_dev x) ph' ->
  contract_inv n s' (set_nth i (move x ph') xs).
Proof.
  intros (_ & _ & H) Hx W L P. split; [assumption|]. split; [assumption|].
  intros j y Hy. destruct (Nat.eq_dec i j) as [<-|Hne].
  - rewrite (nth_error_set_nth_eq _ _ _ _ Hx) in Hy. inversion Hy; subst y. exact P.
  - rewrite (nth_error_set_nth_neq _ _ _ _ Hne) in Hy. eauto.
Qed.

Lemma pg_contract_step (n i : nat) (a : action) (x : ticket) (s : db)
    (xs : list ticket) (ph' : phase) (s' : db) :
  contract_inv n s xs -> nth_error xs i = Some x ->
  PgPhases.next i (t_dev x) (t_rate x) a (t_at x) s = Some (ph', s') ->
  contract_inv n s' (set_nth i (move x ph') xs).
Proof.
  intros Inv Hx Hn. pose proof Inv as (W & L & H).
  specialize (H i x Hx). unfold PgPhases.next in Hn. destruct a.
  - destruct (PgPhases.pending (t_dev x) (t_at x)) as [q|] eqn:Hq; [|discriminate].
    destruct (exec i q s) as [res s1|s1|] eqn:He; [| |discriminate].
    2:{ exfalso. eapply exec_never_raises; eassumption. }
    inversion Hn; subst ph' s'; clear Hn.
    destruct (exec_keeps_claims _ _ _ _ _ W He) as [W1 K1].
    apply (contract_set_nth n i x _ s); try assumption.
    { now rewrite (claims_kept_length _ _ K1). }
    destruct (t_at x); simpl in Hq; inversion Hq; subst q; clear Hq;
      simpl in H; simpl; rewrite ?H; auto.
    + destruct (0 <? length (rows res)); exact H.
    + right. apply well_formed_already. rewrite <- L.
      eapply remaining_bounds; eassumption.
    + right. apply well_formed_plain. rewrite <- L.
      eapply remaining_bounds; eassumption.
    + destruct (length (rows res) =? 1); exact H.
    + right. apply well_formed_no_prizes.
    + right. apply well_formed_plain. rewrite <- L.
      eapply remaining_bounds; eassumption.
  - destruct (PgPhases.pending (t_dev x) (t_at x)) as [q|] eqn:Hq; [|discriminate].
    inversion Hn; subst ph' s'; clear Hn.
    apply (contract_set_nth n i x _ s); try assumption.
    destruct (t_at x); simpl in Hq; try discriminate; simpl in *; auto.
  - destruct (t_at x); try discriminate.
    destruct (in_unit_interval r); [|discriminate].
    inversion Hn; subst ph' s'; clear Hn.
    apply (contract_set_nth n i x _ s); try assumption.
    unfold PgPhases.drawn. destruct (js_lt r (t_rate x)); exact H.
Qed.

Lemma my_contract_step (n i : nat) (a : action) (x : ticket) (s : db)
    (xs : list ticket) (ph' : phase) (s' : db) :
  contract_inv n s xs -> nth_error xs i = Some x ->
  MyPhases.next i (t_dev x) (t_rate x) a (t_at x) s = Some (ph', s') ->
  contract_inv n s' (set_nth i (move x ph') xs).
Proof.
  intros Inv Hx Hn. pose proof Inv as (W & L & H).
  specialize (H i x Hx). unfold MyPhases.next in Hn. destruct a.
  - destruct (MyPhases.pending (t_dev x) (t_at x)) as [q|] eqn:Hq; [|discriminate].
    destruct (exec i q s) as [res s1|s1|] eqn:He; [| |discriminate].
    2:{ exfalso. eapply exec_never_raises; eassumption. }
    inversion Hn; subst ph' s'; clear Hn.
    destruct (exec_keeps_claims _ _ _ _ _ W He) as [W1 K1].
    apply (contract_set_nth n i x _ s); try assumption.
    { now rewrite (claims_kept_length _ _ K1). }
    destruct (t_at x); simpl in Hq; inversion Hq; subst q; clear Hq;
      simpl in H; simpl; rewrite ?H; auto.
    + destruct (0 <? length (rows res)); exact H.
    + right. apply well_formed_already. rewrite <- L.
      eapply remaining_bounds; eassumption.
    + right. apply well_formed_plain. rewrite <- L.
      eapply remaining_bounds; eassumption.
    + destruct (affectedRows res =? 1); simpl; rewrite ?H; auto.
      right. apply well_formed_no_prizes.
    + right. apply well_formed_plain. rewrite <- L.
      eapply remaining_bounds; eassumption.
  - destruct (MyPhases.pending (t_dev x) (t_at x)) as [q|] eqn:Hq; [|discriminate].
    inversion Hn; subst ph' s'; clear Hn.
    apply (contract_set_nth n i x _ s); try assumption.
    destruct (t_at x); simpl in Hq; try discriminate; simpl in *; rewrite ?H; auto.
  - destruct (t_at x); try discriminate.
    destruct (in_unit_interval r); [|discriminate].
    inversion Hn; subst ph' s'; clear Hn.
    apply (contract_set_nth n i x _ s); try assumption.
    unfold MyPhases.drawn. destruct (js_lt r (t_rate x)); exact H.
Qed.

Lemma contract_start (e : env) (s0 : db) (reqs : list request) :
  wf s0 = true ->
  contract_inv (length (prize_tokens s0)) s0 (map (pg_ticket e) reqs).
Proof.
  intros W. split; [assumption|]. split; [reflexivity|].
  intros i x. rewrite nth_error_map.
  destruct (nth_error reqs i) as [req|]; [|discriminate].
  intros [= <-]. simpl. unfold PgPhases.start, PgPhases.device.
  destruct (deviceId req) as [d|]; [|reflexivity].
  destruct (String.eqb d "") eqn:E; simpl; rewrite ?E; reflexivity.
Qed.

Lemma missing_device_eq (req : request) :
  missing_device req = String.eqb (PgPhases.device req) "".
Proof.
  unfold missing_device, PgPhases.device. now destruct (deviceId req).
Qed.

Lemma contract_end (n : nat) (s' : db) (xs : list ticket) (reqs : list request)
    (th : ticket -> thread stmt result) (i : nat) (req : request) (a : response) :
  (forall x a, reply (th x) = Some a -> exists b, t_at x = PReplied a b) ->
  contract_inv n s' xs -> map t_dev xs = map PgPhases.device reqs ->
  nth_error reqs i = Some req ->
  nth_error (replies (map th xs)) i = Some (Some a) ->
  reply_contract n req a.
Proof.
  intros Hth (_ & _ & H) Hdev Hq Hi.
  unfold replies in Hi. rewrite !nth_error_map in Hi.
  destruct (nth_error xs i) as [x|] eqn:Hx; [|discriminate].
  simpl in Hi. inversion Hi as [Ha]; clear Hi.
  destruct (Hth x a Ha) as [b Hat].
  specialize (H i x Hx). rewrite Hat in H. simpl in H.
  assert (Ed : t_dev x = PgPhases.device req).
  { assert (E : nth_error (map t_dev xs) i = nth_error (map PgPhases.device reqs) i)
      by now rewrite Hdev.
    rewrite !nth_error_map, Hx, Hq in E. simpl in E. congruence. }
  unfold reply_contract. rewrite missing_device_eq, <- Ed. exact H.
Qed.

Lemma pg_contract (e : env) (s0 : db) (reqs : list request)
    (sch : list (nat * action)) (s' : db) (ths' : list (thread stmt result))
    (i : nat) (req : request) (a : response) :
  wf s0 = true ->
  sched_run exec sch s0 (map (ServerPg.draw e) reqs) = Some (s', ths') ->
  nth_error reqs i = Some req -> nth_error (replies ths') i = Some (Some a) ->
  reply_contract (length (prize_tokens s0)) req a.
Proof.
  intros W H Hq Hi.
  assert (E : map (ServerPg.draw e) reqs = map pg_thread (map (pg_ticket e) reqs)).
  { rewrite map_map. apply map_ext. intros r. apply pg_start. }
  rewrite E in H.
  rewrite (machine_run_threads PgPhases.next pg_thread) in H.
  2:{ intros c b x s. apply pg_step. }
  destruct (machine_run PgPhases.next sch s0 (map (pg_ticket e) reqs))
    as [[s1 xs']|] eqn:Hm; [|discriminate].
  inversion H; subst s1 ths'; clear H.
  pose proof (machine_run_devices _ _ _ _ _ _ Hm) as Hdev.
  rewrite map_map in Hdev. simpl in Hdev.
  apply (machine_run_inv PgPhases.next (contract_inv (length (prize_tokens s0)))
           (fun i a x s xs ph' s2 => pg_contract_step _ i a x s xs ph' s2)
           sch s0 s' _ xs' (contract_start e s0 reqs W)) in Hm.
  eapply (contract_end _ s' xs' reqs pg_thread); eauto using pg_replied.
Qed.

Lemma my_contract (e : env) (s0 : db) (reqs : list request)
    (sch : list (nat * action)) (s' : db) (ths' : list (thread stmt result))
    (i : nat) (req : request) (a : response) :
  wf s0 = true ->
  sched_run exec sch s0 (map (ServerMysql.draw e) reqs) = Some (s', ths') ->
  nth_error reqs i = Some req -> nth_error (replies ths') i = Some (Some a) ->
  reply_contract (length (prize_tokens s0)) req a.
Proof.
  intros W H Hq Hi.
  assert (E : map (ServerMysql.draw e) reqs = map my_thread (map (pg_ticket e) reqs)).
  { rewrite map_map. apply map_ext. intros r. apply my_start. }
  rewrite E in H.
  rewrite (machine_run_threads MyPhases.next my_thread) in H.
  2:{ intros c b x s. apply my_step. }
  destruct (machine_run MyPhases.next sch s0 (map (pg_ticket e) reqs))
    as [[s1 xs']|] eqn:Hm; [|discriminate].
  inversion H; subst s1 ths'; clear H.
  pose proof (machine_run_devices _ _ _ _ _ _ Hm) as Hdev.
  rewrite map_map in Hdev. simpl in Hdev.
  apply (machine_run_inv MyPhases.next (contract_inv (length (prize_tokens s0)))
           (fun i a x s xs ph' s2 => my_contract_step _ i a x s xs ph' s2)
           sch s0 s' _ xs' (contract_start e s0 reqs W)) in Hm.
  eapply (contract_end _ s' xs' reqs my_thread); eauto using my_replied.
Qed.
End Contract.

(** X4.  What the token servers (src/server.js, part_001) can answer to a
    draw request, whatever the interleaving of the requests and whatever
    fails: to a request without [deviceId], status 400 with
    ["deviceId requerido"], and nothing else; to any other request, either
    status 500 with ["internal_error"], or a well-formed draw result:
    status 200, [ok: true], a [won] field, [remaining] between 0 and the
    number of tokens, a [reason] only with [won: false], which is
    ["already_winner"] or ["no_prizes_left"], the latter always with
    [remaining: 0]. *)
Theorem X4_reply_contract (e : env) (s0 : Db.db) (reqs : list request)
    (sch : list (nat * action)) (s' : Db.db)
    (ths' : list (thread Db.stmt Db.result))
    (i : nat) (req : request) (a : response) :
  wf s0 = true ->
  nth_error reqs i = Some req -> nth_error (replies ths') i = Some (Some a) ->
  (sched_run Db.exec sch s0 (map (ServerPg.draw e) reqs) = Some (s', ths') ->
   reply_contract (length (Db.prize_tokens s0)) req a) /\
  (sched_run Db.exec sch s0 (map (ServerMysql.draw e) reqs) = Some (s', ths') ->
   reply_contract (length (Db.prize_tokens s0)) req a).
Proof.
  intros W Hq Hi. split; intros H.
  - eapply pg_contract; eassumption.
  - eapply my_contract; eassumption.
Qed.

Lemma X4_witness :
  match sched_run Db.exec race_schedule (Db.seeded 1)
                  (map (ServerPg.draw env0) race_requests) with
  | Some (s', ths') =>
      nth_error (replies ths') 1 = Some (Some (json_draw true None 0%Z)) /\
      reply_contract 1 (ask_rate "d2" 1) (json_draw true None 0%Z)
  | None => False
  end.
Proof.
  destruct (sched_run Db.exec race_schedule (Db.seeded 1)
                      (map (ServerPg.draw env0) race_requests))
    as [[s' ths']|] eqn:E.
  - assert (Hi : nth_error (replies ths') 1 = Some (Some (json_draw true None 0%Z)))
      by (vm_compute in E; inversion E; reflexivity).
    split; [exact Hi|].
    exact (proj1 (X4_reply_contract env0 (Db.seeded 1) race_requests race_schedule
                    s' ths' 1 (ask_rate "d2" 1) (json_draw true None 0%Z)
                    eq_refl eq_refl Hi) E).
  - vm_compute in E. discriminate.
Defined.

(** ** One request of a token server, whatever fails *)

Ltac path_step :=
  cbn;
  match goal with
  | |- context [existsb (Nat.eqb ?c) (Db.in_tx ?s)] =>
      match goal with H : existsb (Nat.eqb c) (Db.in_tx s) = _ |- _ => rewrite H end
  | |- context [existsb (Db.locked_by_other ?c) (Db.prize_tokens ?s)] =>
      match goal with
      | H : existsb (Db.locked_by_other c) (Db.prize_tokens s) = _ |- _ => rewrite H
      end
  | |- context [Nat.eqb ?c ?c] => rewrite Nat.eqb_refl
  | |- context [hd false ?x] => destruct (hd false x)
  | |- context [existsb ?f (Db.winners ?s)] =>
      match goal with
      | H : existsb f (Db.winners s) = _ |- _ => rewrite H
      | _ => destruct (existsb f (Db.winners s)) eqn:?
      end
  | |- context [js_lt ?a ?b] => destruct (js_lt a b)
  | |- context [Db.claim_first ?a ?b ?c ?d ?e] =>
      destruct (Db.claim_first a b c d e) as [[? ?]|] eqn:?
  end.

Section Requests.
Import Db.
Variables (e : env) (req : request) (d : string) (c : nat) (r : Q) (s : db).
Hypothesis Hvalid : valid req d.
Hypothesis Hidle : idle c s = true.

Lemma committed_claim_first (now : nat) (l' : list token_row) (i : nat) :
  forallb (not_held_by c) (prize_tokens s) = true ->
  claim_first c true d now (prize_tokens s) = Some (i, l') ->
  exists l1 t l2,
    prize_tokens s = l1 ++ t :: l2 /\ free_row t = true /\
    map cur (map (commit_token c) l') =
      map cur l1 ++ {| id := id (cur t); claimed_by := Some d;
                       claimed_at := Some now |} :: map cur l2.
Proof.
  intros Hnh H.
  destruct (claim_first_some _ _ _ _ _ _ _ H) as (l1 & t & l2 & E & _ & Ht & _ & E').
  exists l1, t, l2. rewrite E in Hnh. rewrite forallb_app in Hnh. simpl in Hnh.
  apply andb_true_iff in Hnh as [H1 H2]. apply andb_true_iff in H2 as [Hr' H2].
  rewrite (not_held_claimable _ _ Hr') in Ht.
  split; [assumption|]. split; [assumption|].
  subst l'. rewrite map_app, map_cons.
  rewrite (commit_not_held _ _ H1), (commit_not_held _ _ H2).
  rewrite map_app, map_cons. unfold claim_row, commit_token. simpl.
  now rewrite Nat.eqb_refl.
Qed.

Lemma claimed_claim_first (now : nat) (l' : list token_row) (i : nat) :
  forallb (not_held_by c) (prize_tokens s) = true ->
  claim_first c false d now (prize_tokens s) = Some (i, l') ->
  forallb (not_held_by c) l' = true /\
  forallb (fun r => match upd r with None => true | Some _ => false end) l' =
  forallb (fun r => match upd r with None => true | Some _ => false end)
          (prize_tokens s) /\
  exists l1 t l2,
    prize_tokens s = l1 ++ t :: l2 /\ free_row t = true /\
    map cur l' =
      map cur l1 ++ {| id := id (cur t); claimed_by := Some d;
                       claimed_at := Some now |} :: map cur l2.
Proof.
  intros Hnh H.
  destruct (claim_first_some _ _ _ _ _ _ _ H) as (l1 & t & l2 & E & _ & Ht & _ & E').
  rewrite E in *. rewrite forallb_app in Hnh. simpl in Hnh.
  apply andb_true_iff in Hnh as [H1 H2]. apply andb_true_iff in H2 as [Hr' H2].
  rewrite (not_held_claimable _ _ Hr') in Ht.
  subst l'. rewrite !forallb_app. simpl. rewrite H1, H2.
  rewrite (free_row_upd _ Ht). split; [reflexivity|]. split; [reflexivity|].
  exists l1, t, l2. split; [reflexivity|]. split; [assumption|].
  now rewrite map_app.
Qed.

Lemma cur_rollback (l : list token_row) :
  map cur (map (rollback_token c) l) = map cur l.
Proof.
  rewrite map_map. apply map_ext. intros x. unfold rollback_token.
  destruct (upd x) as [[c' t]|]; [|reflexivity]. now destruct (Nat.eqb c' c).
Qed.

Lemma committed_not_own (l : list winner_row) :
  filter is_committed (filter (fun w => negb (own_insert c w)) l) =
  filter is_committed l.
Proof.
  induction l as [|w l IH]; simpl; [reflexivity|].
  unfold own_insert at 1, is_committed at 2. destruct (ins w) as [c'|] eqn:E; simpl.
  - destruct (Nat.eqb c' c); simpl; [assumption|].
    unfold is_committed at 1. now rewrite E.
  - unfold is_committed at 1. rewrite E. now rewrite IH.
Qed.

Lemma commit_pending (l : list winner_row) (w : winner) :
  forallb (fun x => negb (own_insert c x)) l = true ->
  map (commit_winner c) (l ++ [{| wrow := w; ins := Some c |}]) =
  l ++ [{| wrow := w; ins := None |}].
Proof.
  intros H. rewrite map_app, (commit_winner_not_own _ _ H). simpl.
  unfold commit_winner, reads. simpl. now rewrite Nat.eqb_refl.
Qed.

Lemma committed_new (l : list winner_row) (w : winner) :
  map wrow (filter is_committed (l ++ [{| wrow := w; ins := None |}])) =
  map wrow (filter is_committed l) ++ [w].
Proof. rewrite filter_app, map_app. reflexivity. Qed.

Lemma remove_conn_gone (l : list nat) : existsb (Nat.eqb c) (remove_conn c l) = false.
Proof.
  unfold remove_conn. induction l as [|x l IH]; simpl; [reflexivity|].
  destruct (Nat.eqb c x) eqn:E; simpl; [assumption|]. now rewrite E.
Qed.

Lemma commit_releases (l : list token_row) :
  forallb (not_held_by c) (map (commit_token c) l) = true.
Proof.
  induction l as [|x l IH]; simpl; [reflexivity|]. rewrite IH, andb_true_r.
  unfold commit_token, not_held_by. destruct (upd x) as [[c' t]|] eqn:E; simpl.
  - destruct (Nat.eqb c' c) eqn:Ec; simpl; [reflexivity|]. now rewrite E, Ec.
  - now rewrite E.
Qed.

Lemma rollback_releases (l : list token_row) :
  forallb (not_held_by c) (map (rollback_token c) l) = true.
Proof.
  induction l as [|x l IH]; simpl; [reflexivity|]. rewrite IH, andb_true_r.
  unfold rollback_token, not_held_by. destruct (upd x) as [[c' t]|] eqn:E; simpl.
  - destruct (Nat.eqb c' c) eqn:Ec; simpl; [reflexivity|]. now rewrite E, Ec.
  - now rewrite E.
Qed.

Lemma commit_publishes (l : list winner_row) :
  forallb (fun w => negb (own_insert c w)) (map (commit_winner c) l) = true.
Proof.
  induction l as [|x l IH]; simpl; [reflexivity|]. rewrite IH, andb_true_r.
  unfold commit_winner, reads, own_insert. destruct (ins x) as [c'|] eqn:E; simpl.
  - destruct (Nat.eqb c' c) eqn:Ec; simpl; [reflexivity|]. now rewrite E, Ec.
  - reflexivity.
Qed.

Lemma rollback_withdraws (l : list winner_row) :
  forallb (fun w => negb (own_insert c w))
          (filter (fun w => negb (own_insert c w)) l) = true.
Proof.
  apply forallb_forall. intros x Hx. now apply filter_In in Hx.
Qed.

(** What a request of src/server.js can have committed when it ends. *)
Lemma pg_request_effect (faults : list bool) :
  let '(resp, (s', tr)) := run_thread exec c (ServerPg.draw e req) r faults s in
  (unchanged_committed s s' /\ says_won resp = false) \/
  (is_winner d s = false /\ awarded_to d s s').
Proof.
  destruct Hvalid as [Hd Hne]. destruct (idle_no_writes _ _ Hidle) as [Htx Hnw].
  unfold ServerPg.draw. rewrite Hd, Hne.
  unfold in_transaction in Htx.
  pose proof Hnw as Hnw'. unfold no_writes in Hnw'.
  apply andb_true_iff in Hnw' as [Ht Hw].
  unfold run_thread.
  repeat path_step; cbn.
  all: pose proof (no_writes_knows c d s Hnw) as Hk.
  all: unfold unchanged_committed, committed_tokens, committed_winners; cbn.
  all: rewrite ?Htx; cbn; rewrite ?Nat.eqb_refl; cbn.
  all: try match goal with
           | H : claim_first _ _ _ _ _ = Some _ |- _ =>
               rewrite ?(rollback_claim_first _ _ _ _ _ _ Ht H),
                       ?(cur_claim_first _ _ _ _ _ _ H)
           end.
  all: rewrite ?(filter_own_insert_pending _ _ _ Hw), ?committed_pending,
         ?(filter_own_insert_idle _ _ Hw), ?(rollback_not_held _ _ Ht),
         ?(remove_conn_head _ _ Htx), ?(remove_conn_absent _ _ Htx).
  all: try (left; repeat split; reflexivity).
  all: right; rewrite <- Hk; split; [assumption|].
  all: match goal with
       | H : claim_first _ _ _ _ _ = Some _ |- _ =>
           destruct (committed_claim_first _ _ _ Ht H) as (l1 & t & l2 & E & Hf & Ec)
       end.
  all: exists l1, t, l2; do 2 eexists.
  all: split; [exact E|]; split; [exact Hf|].
  all: unfold committed_tokens, committed_winners; cbn.
  all: rewrite ?cur_rollback, ?committed_not_own, ?(commit_pending _ _ Hw),
         ?committed_new.
  all: split; [exact Ec|reflexivity].
Qed.

(** How a request of src/server.js ends: if it is answered, its connection is
    clean; it is left unanswered when the [ROLLBACK] of the catch block
    fails and, unless it had to wait for another transaction, only then. *)
Lemma pg_request_ends (faults : list bool) :
  let '(resp, (s', tr)) := run_thread exec c (ServerPg.draw e req) r faults s in
  (resp <> None -> idle c s' = true) /\
  (existsb (has_device d) (winners s) = is_winner d s ->
   resp = None -> last tr (EvRandom 0%Q) = EvQuery ROLLBACK false) /\
  (last tr (EvRandom 0%Q) = EvQuery ROLLBACK false -> resp = None).
Proof.
  destruct Hvalid as [Hd Hne]. destruct (idle_no_writes _ _ Hidle) as [Htx Hnw].
  unfold ServerPg.draw. rewrite Hd, Hne.
  unfold in_transaction in Htx.
  pose proof Hnw as Hnw'. unfold no_writes in Hnw'.
  apply andb_true_iff in Hnw' as [Ht Hw].
  unfold run_thread.
  repeat path_step; cbn.
  all: pose proof (no_writes_knows c d s Hnw) as Hk.
  all: repeat split; try congruence; try discriminate.
  all: intros _.
  all: unfold idle, in_transaction, no_writes; cbn.
  all: rewrite ?remove_conn_gone, ?commit_releases, ?rollback_releases,
         ?commit_publishes, ?rollback_withdraws, ?Htx, ?Ht, ?Hw; reflexivity.
Qed.

(** What a request of part_001 can have committed when it ends; it is always
    answered. *)
Lemma my_request_effect (faults : list bool) :
  settled s = true ->
  let '(resp, (s', tr)) := run_thread exec c (ServerMysql.draw e req) r faults s in
  settled s' = true /\ resp <> None /\
  ((unchanged_committed s s' /\ says_won resp = false) \/
   (is_winner d s = false /\ awarded_to d s s') \/
   (claimed_only d s s' /\ resp = Some (json_error 500 "internal_error") /\
    In (EvQuery (INSERT_winner d) false) tr)).
Proof.
  intros Hs.
  destruct Hvalid as [Hd Hne]. destruct (idle_no_writes _ _ Hidle) as [Htx Hnw].
  unfold ServerMysql.draw. rewrite Hd, Hne.
  pose proof (settled_unlocked c s Hs) as Hun.
  unfold in_transaction in Htx.
  pose proof Hnw as Hnw'. unfold no_writes in Hnw'.
  apply andb_true_iff in Hnw' as [Ht Hw].
  pose proof Hs as Hs'. unfold settled in Hs'.
  apply andb_true_iff in Hs' as [Hs' Hsw]. apply andb_true_iff in Hs' as [Hsx Hst].
  unfold run_thread.
  repeat path_step; cbn.
  all: pose proof (no_writes_knows c d s Hnw) as Hk;
       pose proof (settled_is_winner d s Hs) as Hk'.
  all: try congruence.
  all: try match goal with
       | H : claim_first _ _ _ _ _ = Some _ |- _ =>
           destruct (claimed_claim_first _ _ _ Ht H)
             as (Hl & Hu & l1 & t & l2 & E & Hf & Ec)
       end.
  all: split;
       [unfold settled; cbn; rewrite ?forallb_app; cbn;
        rewrite ?Hu, ?Hsx, ?Hst, ?Hsw; reflexivity|].
  all: split; [discriminate|].
  all: try (left; split; [split; reflexivity|reflexivity]).
  all: try (right; left; split; [congruence|];
            exists l1, t, l2; do 2 eexists; split; [exact E|]; split; [exact Hf|];
            unfold committed_tokens, committed_winners; cbn;
            rewrite ?committed_new; split; [exact Ec|reflexivity]).
  all: right; right; split;
       [exists l1, t, l2; eexists; split; [exact E|]; split; [exact Hf|];
        unfold committed_tokens, committed_winners; cbn; split; [exact Ec|reflexivity]
       |split; [reflexivity|cbn; auto 10]].
Qed.
End Requests.

(** ** Connections do not disturb one another *)

Section OtherConnections.
Import Db.
Variables c c' : nat.
Hypothesis Hne : c <> c'.

Lemma claim_row_other (intx : bool) (d : string) (now : nat) (r : token_row) :
  not_held_by c' (claim_row c intx d now r) = true.
Proof.
  unfold claim_row, not_held_by. destruct intx; simpl; [|reflexivity].
  apply negb_true_iff. now apply Nat.eqb_neq.
Qed.

Lemma claim_first_other (intx : bool) (d : string) (now : nat)
    (l l' : list token_row) (i : nat) :
  forallb (not_held_by c') l = true ->
  claim_first c intx d now l = Some (i, l') ->
  forallb (not_held_by c') l' = true.
Proof.
  intros H Hc.
  destruct (claim_first_some _ _ _ _ _ _ _ Hc) as (l1 & t & l2 & E & _ & _ & _ & E').
  subst. rewrite forallb_app in *. simpl in *.
  apply andb_true_iff in H as [H1 H2]. apply andb_true_iff in H2 as [_ H2].
  now rewrite H1, H2, claim_row_other.
Qed.

Lemma commit_other (l : list token_row) :
  forallb (not_held_by c') l = true ->
  forallb (not_held_by c') (map (commit_token c) l) = true.
Proof.
  induction l as [|x l IH]; simpl; [reflexivity|]. intros H.
  apply andb_true_iff in H as [Hx Hl]. rewrite (IH Hl), andb_true_r.
  unfold commit_token. destruct (upd x) as [[c0 t]|] eqn:E; [|assumption].
  destruct (Nat.eqb c0 c); [reflexivity|assumption].
Qed.

Lemma rollback_other (l : list token_row) :
  forallb (not_held_by c') l = true ->
  forallb (not_held_by c') (map (rollback_token c) l) = true.
Proof.
  induction l as [|x l IH]; simpl; [reflexivity|]. intros H.
  apply andb_true_iff in H as [Hx Hl]. rewrite (IH Hl), andb_true_r.
  unfold rollback_token. destruct (upd x) as [[c0 t]|] eqn:E; [|assumption].
  destruct (Nat.eqb c0 c); [reflexivity|assumption].
Qed.

Lemma commit_winner_other (l : list winner_row) :
  forallb (fun w => negb (own_insert c' w)) l = true ->
  forallb (fun w => negb (own_insert c' w)) (map (commit_winner c) l) = true.
Proof.
  induction l as [|x l IH]; simpl; [reflexivity|]. intros H.
  apply andb_true_iff in H as [Hx Hl]. rewrite (IH Hl), andb_true_r.
  unfold commit_winner. destruct (reads c x); [reflexivity|assumption].
Qed.

Lemma withdraw_other (l : list winner_row) :
  forallb (fun w => negb (own_insert c' w)) l = true ->
  forallb (fun w => negb (own_insert c' w))
          (filter (fun w => negb (own_insert c w)) l) = true.
Proof.
  intros H. apply forallb_forall. intros x Hx. apply filter_In in Hx as [Hx _].
  rewrite forallb_forall in H. now apply H.
Qed.

Lemma remove_conn_absent_other (l : list nat) :
  existsb (Nat.eqb c') l = false -> existsb (Nat.eqb c') (remove_conn c l) = false.
Proof.
  unfold remove_conn. induction l as [|x l IH]; simpl; [reflexivity|].
  intros H. apply orb_false_iff in H as [Hx Hl].
  destruct (Nat.eqb c x); simpl; [now apply IH|]. now rewrite Hx, IH.
Qed.

(** A statement of connection [c] leaves every other connection idle. *)
Lemma exec_other_idle (q : stmt) (s s' : db) (res : result) :
  exec c q s = Done res s' -> idle c' s = true -> idle c' s' = true.
Proof.
  intros H Hi. destruct (idle_no_writes _ _ Hi) as [Htx Hnw].
  unfold no_writes in Hnw. apply andb_true_iff in Hnw as [Ht Hw].
  unfold in_transaction in Htx.
  assert (Ec : Nat.eqb c' c = false) by (apply Nat.eqb_neq; congruence).
  unfold idle, no_writes, in_transaction.
  destruct q; simpl in H.
  - inversion H; subst; simpl. now rewrite Htx, Ht, Hw.
  - inversion H; subst; simpl. now rewrite Htx, Ht, Hw.
  - destruct (claim_first _ _ _ _ _) as [[i l']|] eqn:Hc; inversion H; subst; simpl.
    + now rewrite Htx, (claim_first_other _ _ _ _ _ _ Ht Hc), Hw.
    + now rewrite Htx, Ht, Hw.
  - destruct (existsb _ _); [discriminate|].
    destruct (claim_first _ _ _ _ _) as [[i l']|] eqn:Hc; inversion H; subst; simpl.
    + now rewrite Htx, (claim_first_other _ _ _ _ _ _ Ht Hc), Hw.
    + now rewrite Htx, Ht, Hw.
  - destruct (existsb _ _).
    + inversion H; subst; simpl. now rewrite Htx, Ht, Hw.
    + destruct (existsb _ _); [discriminate|].
      inversion H; subst; simpl. rewrite Htx, Ht, forallb_app, Hw. simpl.
      unfold own_insert. simpl.
      destruct (in_transaction c s); simpl; [|reflexivity].
      assert (Ec' : Nat.eqb c c' = false) by (now apply Nat.eqb_neq).
      now rewrite Ec'.
  - inversion H; subst; simpl. rewrite Ht, Hw.
    destruct (in_transaction c s); simpl; rewrite ?Ec, Htx; reflexivity.
  - inversion H; subst; simpl.
    now rewrite (remove_conn_absent_other _ Htx), (commit_other _ Ht),
      (commit_winner_other _ Hw).
  - inversion H; subst; simpl.
    now rewrite (remove_conn_absent_other _ Htx), (rollback_other _ Ht),
      (withdraw_other _ Hw).
Qed.

Lemma run_other_idle {R : Type} (p : prog stmt result R) (r : Q)
    (faults : list bool) (s : db) :
  idle c' s = true ->
  idle c' (snd (fst (snd (run exec c p r faults s)))) = true.
Proof.
  revert faults s. induction p as [a| |q k IH|k IH]; intros faults s Hi; simpl;
    try assumption.
  - destruct (hd false faults); [assumption|].
    destruct (exec c q s) as [res s1|s1|] eqn:He; simpl; try assumption.
    + specialize (IH res (tl faults) s1 (exec_other_idle _ _ _ _ He Hi)).
      destruct (run exec c (k res) r (tl faults) s1) as [o [[fs s2] tr]]. exact IH.
    + exfalso. eapply exec_never_raises; eassumption.
  - specialize (IH r faults s Hi).
    destruct (run exec c (k r) r faults s) as [o [[fs s2] tr]]. exact IH.
Qed.

Lemma run_thread_other_idle (t : thread stmt result) (r : Q)
    (faults : list bool) (s : db) :
  idle c' s = true ->
  idle c' (fst (snd (run_thread exec c t r faults s))) = true.
Proof.
  intros Hi. unfold run_thread.
  pose proof (run_other_idle (body t) r faults s Hi) as H1.
  destruct (run exec c (body t) r faults s) as [o [[fs s1] tr]]. simpl in H1.
  destruct o; simpl; try assumption.
  destruct (handler t) as [h|]; simpl; [|assumption].
  pose proof (run_other_idle h r fs s1 H1) as H2.
  destruct (run exec c h r fs s1) as [o2 [[fs2 s2] tr2]]. simpl in H2.
  destruct o2; simpl; assumption.
Qed.
End OtherConnections.

(** ** Requests served one after the other by a token server *)

Section CommittedFacts.
Import Db.

Lemma is_winner_committed (d : string) (s : db) :
  is_winner d s =
  existsb (fun w => String.eqb (device_id w) d) (committed_winners s).
Proof.
  unfold is_winner, committed_winners.
  induction (winners s) as [|w l IH]; simpl; [reflexivity|].
  destruct (is_committed w); simpl.
  - unfold has_device at 1. now rewrite IH, andb_true_r.
  - now rewrite andb_false_r.
Qed.

Lemma claimed_count_committed (s : db) :
  claimed_count s =
  count (fun t => negb (is_null (claimed_by t))) (committed_tokens s).
Proof.
  unfold claimed_count, committed_tokens, count, claimed_row.
  induction (prize_tokens s) as [|r l IH]; simpl; [reflexivity|].
  destruct (is_null (claimed_by (cur r))); simpl; now rewrite IH.
Qed.

Lemma remaining_committed (s : db) :
  remainingCount s + claimed_count s = length (committed_tokens s).
Proof.
  rewrite claimed_count_committed. unfold remainingCount, count.
  induction (committed_tokens s) as [|t l IH]; simpl; [reflexivity|].
  destruct (is_null (claimed_by t)); simpl; lia.
Qed.

Lemma unchanged_facts (s s' : db) :
  unchanged_committed s s' ->
  claimed_count s' = claimed_count s /\
  length (committed_winners s') = length (committed_winners s) /\
  length (committed_tokens s') = length (committed_tokens s) /\
  forall d, is_winner d s' = is_winner d s.
Proof.
  intros [Ht Hw]. rewrite !claimed_count_committed, Ht, Hw.
  repeat split. intros d. now rewrite !is_winner_committed, Hw.
Qed.

Lemma claim_counts (d : string) (now : nat) (l1 l2 : list token_row) (t : token_row) :
  free_row t = true ->
  count (fun x => negb (is_null (claimed_by x)))
        (map cur l1 ++ {| id := id (cur t); claimed_by := Some d;
                          claimed_at := Some now |} :: map cur l2) =
  S (count (fun x => negb (is_null (claimed_by x))) (map cur (l1 ++ t :: l2))) /\
  length (map cur l1 ++ {| id := id (cur t); claimed_by := Some d;
                           claimed_at := Some now |} :: map cur l2) =
  length (map cur (l1 ++ t :: l2)).
Proof.
  intros Hf. unfold free_row in Hf. apply andb_true_iff in Hf as [Hf _].
  rewrite map_app, !count_app, !length_app. unfold count. simpl. rewrite Hf. simpl.
  split; lia.
Qed.

Lemma awarded_facts (d : string) (s s' : db) :
  awarded_to d s s' ->
  claimed_count s' = S (claimed_count s) /\
  length (committed_winners s') = S (length (committed_winners s)) /\
  length (committed_tokens s') = length (committed_tokens s) /\
  is_winner d s' = true /\
  forall d', is_winner d' s = true -> is_winner d' s' = true.
Proof.
  intros (l1 & t & l2 & now & now' & E & Hf & Ht & Hw).
  assert (Ect : committed_tokens s = map cur (l1 ++ t :: l2))
    by (unfold committed_tokens; now rewrite E).
  rewrite !claimed_count_committed, Ht, Hw, Ect.
  destruct (claim_counts d now l1 l2 t Hf) as [H1 H2].
  rewrite H1, H2, length_app. simpl.
  split; [reflexivity|]. split; [lia|]. split; [reflexivity|].
  split.
  - rewrite is_winner_committed, Hw, existsb_app. simpl.
    rewrite String.eqb_refl. simpl. apply orb_true_r.
  - intros d' H. rewrite is_winner_committed in *. rewrite Hw, existsb_app, H.
    reflexivity.
Qed.

Lemma claimed_only_facts (d : string) (s s' : db) :
  claimed_only d s s' ->
  claimed_count s' = S (claimed_count s) /\
  length (committed_winners s') = length (committed_winners s) /\
  length (committed_tokens s') = length (committed_tokens s) /\
  forall d', is_winner d' s' = is_winner d' s.
Proof.
  intros (l1 & t & l2 & now & E & Hf & Ht & Hw).
  assert (Ect : committed_tokens s = map cur (l1 ++ t :: l2))
    by (unfold committed_tokens; now rewrite E).
  rewrite !claimed_count_committed, Ht, Hw, Ect.
  destruct (claim_counts d now l1 l2 t Hf) as [H1 H2].
  rewrite H1, H2. repeat split.
  intros d'. now rewrite !is_winner_committed, Hw.
Qed.
End CommittedFacts.

Section TokenSequences.
Import Db.
Variable server : request -> thread stmt result.

(** [Good c s]: the store is fit for a request to start on connection [c];
    [lax]: the server can commit a claim without its winners row. *)
Variable Good : nat -> db -> Prop.
Variable lax : Prop.
Hypothesis Good_next :
  forall c req r faults s,
    Good c s -> Good (S c) (fst (snd (run_thread exec c (server req) r faults s))).
Hypothesis served_effect :
  forall c req r faults s,
    Good c s ->
    let '(resp, (s', tr)) := run_thread exec c (server req) r faults s in
    (unchanged_committed s s' /\ says_won resp = false) \/
    (exists d, valid req d /\ is_winner d s = false /\ awarded_to d s s') \/
    (exists d, claimed_only d s s' /\ says_won resp = false /\
               no_failure tr = false /\ lax).

Lemma valid_from (req : request) (d d' : string) :
  valid req d -> from d' req = true -> d' = d.
Proof.
  intros [Hd _]. unfold from. rewrite Hd. intros H.
  apply String.eqb_eq in H. now subst.
Qed.

(** A device that is a winner is never told it won. *)
Lemma no_second_win (d : string) (arr : list arrival) (c : nat) (s : db) :
  Good c s -> is_winner d s = true ->
  wins_of d (fst (serve exec server c arr s)) = 0.
Proof.
  revert c s. induction arr as [|a arr IH]; intros c s Hg Hw; [reflexivity|].
  simpl.
  pose proof (Good_next c (a_req a) (a_random a) (a_faults a) s Hg) as Hg'.
  pose proof (served_effect c (a_req a) (a_random a) (a_faults a) s Hg) as He.
  destruct (run_thread exec c (server (a_req a)) (a_random a) (a_faults a) s)
    as [rp [s' tr]]. simpl in Hg'.
  specialize (IH (S c) s' Hg').
  destruct (serve exec server (S c) arr s') as [out s'']. simpl in *.
  unfold wins_of, count in *. simpl.
  destruct He as [[Hu Hs]|[(d0 & Hv & Hn & Ha)|(d0 & Hc & Hs & _ & _)]].
  - rewrite Hs, andb_false_r. apply IH.
    destruct (unchanged_facts _ _ Hu) as (_ & _ & _ & H). now rewrite H.
  - destruct (from d (a_req a)) eqn:Hf.
    + rewrite (valid_from _ _ _ Hv Hf) in Hw. congruence.
    + simpl. apply IH. now apply (awarded_facts _ _ _ Ha).
  - rewrite Hs, andb_false_r. apply IH.
    destruct (claimed_only_facts _ _ _ Hc) as (_ & _ & _ & H). now rewrite H.
Qed.

(** A device is told at most once that it won. *)
Lemma one_win (d : string) (arr : list arrival) (c : nat) (s : db) :
  Good c s -> wins_of d (fst (serve exec server c arr s)) <= 1.
Proof.
  revert c s. induction arr as [|a arr IH]; intros c s Hg; [simpl; auto|].
  simpl.
  pose proof (Good_next c (a_req a) (a_random a) (a_faults a) s Hg) as Hg'.
  pose proof (served_effect c (a_req a) (a_random a) (a_faults a) s Hg) as He.
  pose proof (no_second_win d arr (S c)) as Hno.
  destruct (run_thread exec c (server (a_req a)) (a_random a) (a_faults a) s)
    as [rp [s' tr]]. simpl in Hg'.
  specialize (IH (S c) s' Hg'). specialize (Hno s' Hg').
  destruct (serve exec server (S c) arr s') as [out s'']. simpl in *.
  unfold wins_of, count in *. simpl.
  destruct He as [[Hu Hs]|[(d0 & Hv & Hn & Ha)|(d0 & Hc & Hs & _ & _)]].
  - rewrite Hs, andb_false_r. exact IH.
  - destruct (from d (a_req a)) eqn:Hf; simpl; [|exact IH].
    rewrite (valid_from _ _ _ Hv Hf) in *.
    destruct (says_won rp); simpl; [|exact IH].
    rewrite Hno; [auto|]. exact (proj1 (proj2 (proj2 (proj2 (awarded_facts _ _ _ Ha))))).
  - rewrite Hs, andb_false_r. exact IH.
Qed.

(** The winners never outnumber the claimed tokens, and the pool keeps its
    size. *)
Lemma registry_behind (arr : list arrival) (c : nat) (s : db) :
  Good c s ->
  length (committed_winners s) <= claimed_count s ->
  let s' := snd (serve exec server c arr s) in
  Good (c + length arr) s' /\
  length (committed_winners s') <= claimed_count s' /\
  length (committed_tokens s') = length (committed_tokens s).
Proof.
  revert c s. induction arr as [|a arr IH]; intros c s Hg Hle; simpl.
  - rewrite Nat.add_0_r. auto.
  - pose proof (Good_next c (a_req a) (a_random a) (a_faults a) s Hg) as Hg'.
    pose proof (served_effect c (a_req a) (a_random a) (a_faults a) s Hg) as He.
    destruct (run_thread exec c (server (a_req a)) (a_random a) (a_faults a) s)
      as [rp [s' tr]]. simpl in Hg'.
    specialize (IH (S c) s' Hg').
    destruct (serve exec server (S c) arr s') as [out s'']. simpl in *.
    rewrite Nat.add_succ_r.
    assert (H : length (committed_winners s') <= claimed_count s' /\
                length (committed_tokens s') = length (committed_tokens s)).
    { destruct He as [[Hu Hs]|[(d0 & Hv & Hn & Ha)|(d0 & Hc & Hs & _ & _)]].
      - destruct (unchanged_facts _ _ Hu) as (A & B & C & _). lia.
      - destruct (awarded_facts _ _ _ Ha) as (A & B & C & _). lia.
      - destruct (claimed_only_facts _ _ _ Hc) as (A & B & C & _). lia. }
    destruct H as [H1 H2]. destruct (IH H1) as (I1 & I2 & I3).
    split; [assumption|]. split; [assumption|]. congruence.
Qed.

(** They are as many as the claimed tokens as long as no request claims a
    token and then fails to register. *)
Lemma registry_in_step (arr : list arrival) (c : nat) (s : db) :
  Good c s ->
  length (committed_winners s) = claimed_count s ->
  forallb (fun x => no_failure (s_trace x)) (fst (serve exec server c arr s)) = true ->
  length (committed_winners (snd (serve exec server c arr s))) =
  claimed_count (snd (serve exec server c arr s)).
Proof.
  revert c s. induction arr as [|a arr IH]; intros c s Hg Heq; simpl; [auto|].
  pose proof (Good_next c (a_req a) (a_random a) (a_faults a) s Hg) as Hg'.
  pose proof (served_effect c (a_req a) (a_random a) (a_faults a) s Hg) as He.
  destruct (run_thread exec c (server (a_req a)) (a_random a) (a_faults a) s)
    as [rp [s' tr]]. simpl in Hg'.
  specialize (IH (S c) s' Hg').
  destruct (serve exec server (S c) arr s') as [out s'']. simpl in *.
  intros Hnf. apply andb_true_iff in Hnf as [Hn1 Hn2].
  apply IH; [|assumption].
  destruct He as [[Hu Hs]|[(d0 & Hv & Hn & Ha)|(d0 & Hc & Hs & Hfail & _)]].
  - destruct (unchanged_facts _ _ Hu) as (A & B & _). lia.
  - destruct (awarded_facts _ _ _ Ha) as (A & B & _). lia.
  - congruence.
Qed.

(** A server that commits the claim and the winners row together keeps them
    in step whatever fails. *)
Lemma registry_strict (arr : list arrival) (c : nat) (s : db) :
  ~ lax -> Good c s ->
  length (committed_winners s) = claimed_count s ->
  length (committed_winners (snd (serve exec server c arr s))) =
  claimed_count (snd (serve exec server c arr s)).
Proof.
  intros Hlax. revert c s.
  induction arr as [|a arr IH]; intros c s Hg Heq; simpl; [auto|].
  pose proof (Good_next c (a_req a) (a_random a) (a_faults a) s Hg) as Hg'.
  pose proof (served_effect c (a_req a) (a_random a) (a_faults a) s Hg) as He.
  destruct (run_thread exec c (server (a_req a)) (a_random a) (a_faults a) s)
    as [rp [s' tr]]. simpl in Hg'.
  specialize (IH (S c) s' Hg').
  destruct (serve exec server (S c) arr s') as [out s'']. simpl in *.
  apply IH.
  destruct He as [[Hu Hs]|[(d0 & Hv & Hn & Ha)|(d0 & _ & _ & _ & Hl)]].
  - destruct (unchanged_facts _ _ Hu) as (A & B & _). lia.
  - destruct (awarded_facts _ _ _ Ha) as (A & B & _). lia.
  - contradiction.
Qed.
End TokenSequences.

Section TokenServers.
Import Db.

Lemma settled_fresh (c : nat) (s : db) : settled s = true -> fresh_from c s.
Proof. intros H c' _. now apply settled_idle. Qed.

Lemma pg_fresh_next (e : env) (c : nat) (req : request) (r : Q)
    (faults : list bool) (s : db) :
  fresh_from c s ->
  fresh_from (S c) (fst (snd (run_thread exec c (ServerPg.draw e req) r faults s))).
Proof.
  intros H c' Hc. apply run_thread_other_idle; [lia|]. apply H. lia.
Qed.

Lemma unchanged_refl (s : db) : unchanged_committed s s.
Proof. split; reflexivity. Qed.

Lemma valid_or_missing (req : request) :
  (exists d, valid req d) \/ missing_device req = true.
Proof.
  unfold valid, missing_device. destruct (deviceId req) as [d|]; [|now right].
  destruct (String.eqb d "") eqn:E; [now right|]. left. now exists d.
Qed.

Lemma pg_served (e : env) (c : nat) (req : request) (r : Q)
    (faults : list bool) (s : db) :
  fresh_from c s ->
  let '(resp, (s', tr)) := run_thread exec c (ServerPg.draw e req) r faults s in
  (unchanged_committed s s' /\ says_won resp = false) \/
  (exists d, valid req d /\ is_winner d s = false /\ awarded_to d s s') \/
  (exists d, claimed_only d s s' /\ says_won resp = false /\
             no_failure tr = false /\ False).
Proof.
  intros Hf. destruct (valid_or_missing req) as [[d Hv]|Hm].
  - pose proof (pg_request_effect e req d c r s Hv (Hf c (le_n c)) faults) as H.
    destruct (run_thread exec c (ServerPg.draw e req) r faults s) as [rp [s' tr]].
    destruct H as [H|H]; [now left|]. right. left. now exists d.
  - unfold missing_device in Hm. unfold ServerPg.draw.
    destruct (deviceId req) as [d|]; [rewrite Hm|]; simpl;
      left; split; auto using unchanged_refl.
Qed.

Lemma my_settled_next (e : env) (c : nat) (req : request) (r : Q)
    (faults : list bool) (s : db) :
  settled s = true ->
  settled (fst (snd (run_thread exec c (ServerMysql.draw e req) r faults s))) = true.
Proof.
  intros Hs. destruct (valid_or_missing req) as [[d Hv]|Hm].
  - pose proof (my_request_effect e req d c r s Hv (settled_idle c s Hs) faults Hs) as H.
    destruct (run_thread exec c (ServerMysql.draw e req) r faults s) as [rp [s' tr]].
    simpl. apply H.
  - unfold missing_device in Hm. unfold ServerMysql.draw.
    destruct (deviceId req) as [d|]; [rewrite Hm|]; simpl; assumption.
Qed.

Lemma failed_insert (d : string) (tr : list (event stmt)) :
  In (EvQuery (INSERT_winner d) false) tr -> no_failure tr = false.
Proof.
  intros H. unfold no_failure.
  destruct (forallb _ tr) eqn:E; [|reflexivity].
  rewrite forallb_forall in E. now specialize (E _ H).
Qed.

Lemma my_served (e : env) (c : nat) (req : request) (r : Q)
    (faults : list bool) (s : db) :
  settled s = true ->
  let '(resp, (s', tr)) := run_thread exec c (ServerMysql.draw e req) r faults s in
  (unchanged_committed s s' /\ says_won resp = false) \/
  (exists d, valid req d /\ is_winner d s = false /\ awarded_to d s s') \/
  (exists d, claimed_only d s s' /\ says_won resp = false /\
             no_failure tr = false /\ True).
Proof.
  intros Hs. destruct (valid_or_missing req) as [[d Hv]|Hm].
  - pose proof (my_request_effect e req d c r s Hv (settled_idle c s Hs) faults Hs) as H.
    destruct (run_thread exec c (ServerMysql.draw e req) r faults s) as [rp [s' tr]].
    destruct H as (_ & _ & [H|[H|(H1 & H2 & H3)]]); [now left| |].
    + right. left. now exists d.
    + right. right. exists d. rewrite H2. repeat split; try assumption.
      eapply failed_insert; eassumption.
  - unfold missing_device in Hm. unfold ServerMysql.draw.
    destruct (deviceId req) as [d|]; [rewrite Hm|]; simpl;
      left; split; auto using unchanged_refl.
Qed.
End TokenServers.

(** X5.  On src/server.js and on part_001, when requests are served one
    after the other from a store at rest, a device is told at most once that
    it won, whatever the other requests are and whatever fails; a device that
    already has a committed winners row is never told so. *)
Theorem X5_one_win_per_device (e : env) (d : string) (arr : list arrival)
    (s0 : Db.db) :
  Db.settled s0 = true ->
  wins_of d (fst (serve Db.exec (ServerPg.draw e) 0 arr s0)) <= 1 /\
  wins_of d (fst (serve Db.exec (ServerMysql.draw e) 0 arr s0)) <= 1 /\
  (Db.is_winner d s0 = true ->
   wins_of d (fst (serve Db.exec (ServerPg.draw e) 0 arr s0)) = 0 /\
   wins_of d (fst (serve Db.exec (ServerMysql.draw e) 0 arr s0)) = 0).
Proof.
  intros Hs. split; [|split; [|intros Hw; split]].
  - apply (one_win (ServerPg.draw e) fresh_from False (pg_fresh_next e) (pg_served e)).
    now apply settled_fresh.
  - apply (one_win (ServerMysql.draw e) (fun _ s => Db.settled s = true) True
             (my_settled_next e) (my_served e)).
    assumption.
  - apply (no_second_win (ServerPg.draw e) fresh_from False (pg_fresh_next e)
             (pg_served e)); [now apply settled_fresh|assumption].
  - apply (no_second_win (ServerMysql.draw e) (fun _ s => Db.settled s = true) True
             (my_settled_next e) (my_served e)); assumption.
Qed.

Lemma X5_witness :
  wins_of "d1"
    (fst (serve Db.exec (ServerPg.draw env0) 0
            [{| a_req := ask_rate "d1" 1; a_random := (1 # 2)%Q; a_faults := [] |};
             {| a_req := ask_rate "d1" 1; a_random := (1 # 2)%Q; a_faults := [] |}]
            (Db.seeded 2))) <= 1.
Proof.
  exact (proj1 (X5_one_win_per_device env0 "d1"
                  [{| a_req := ask_rate "d1" 1; a_random := (1 # 2)%Q; a_faults := [] |};
                   {| a_req := ask_rate "d1" 1; a_random := (1 # 2)%Q; a_faults := [] |}]
                  (Db.seeded 2) eq_refl)).
Defined.

(** ** The state endpoint *)

Section StateFacts.
Import Db.

Lemma state_cases (max : js_number) (c : nat) (faults : list bool) (s : db) :
  exists a s' tr,
    StateApi.state max c faults s = (Some a, (s', tr)) /\
    same_tables s s' /\
    (a = StateApi.state_error \/
     a = json_state max (Z.of_nat (visible_winners c s))
                    (Z.of_nat (count_free c (prize_tokens s)))).
Proof.
  unfold StateApi.state, StateApi.state_try. cbn.
  destruct (hd false faults); cbn.
  - do 3 eexists. split; [reflexivity|]. split; [repeat split|now left].
  - destruct (hd false (tl faults)); cbn.
    + do 3 eexists. split; [reflexivity|]. split; [repeat split|now left].
    + do 3 eexists. split; [reflexivity|]. split; [repeat split|now right].
Qed.

Lemma state_reads (max : js_number) (c : nat) (s : db) :
  exists s',
    StateApi.state max c [] s =
      (Some (json_state max (Z.of_nat (visible_winners c s))
                        (Z.of_nat (count_free c (prize_tokens s)))),
       (s', [EvQuery (StateApi.Token SELECT_remaining) true;
             EvQuery StateApi.SELECT_total true])) /\
    same_tables s s'.
Proof.
  unfold StateApi.state, StateApi.state_try. cbn.
  eexists. split; [reflexivity|]. repeat split.
Qed.

Lemma visible_committed (c : nat) (s : db) :
  no_writes c s = true -> visible_winners c s = length (committed_winners s).
Proof.
  unfold no_writes, visible_winners, committed_winners. intros H.
  apply andb_true_iff in H as [_ H]. rewrite length_map.
  induction (winners s) as [|w l IH]; simpl in *; [reflexivity|].
  apply andb_true_iff in H as [Hw Hl]. apply negb_true_iff in Hw.
  rewrite (reads_not_own _ _ Hw). destruct (is_committed w); simpl; now rewrite IH.
Qed.
End StateFacts.

(** X6.  The state endpoint of src/server.js and of part_001 only reads:
    whatever fails, the three tables are as before.  When [pool.connect()]
    rejects, the handler executes nothing and sends nothing, the call being
    outside its [try].  When it has its connection the handler always sends
    a reply: status 500 with ["internal_error"] when one of its two
    statements failed; otherwise [ok: true] with the configured [max],
    [awarded] the number of winners rows its connection reads and
    [remaining] the number of free tokens it reads — on a connection fresh
    from the pool, the committed winners and the committed free tokens. *)
Theorem X6_state_reads (max : js_number) (s : Db.db) :
  (forall faults,
     StateApi.get_state max None faults s = (None, (s, []))) /\
  (forall c faults,
     exists a s' tr,
       StateApi.get_state max (Some c) faults s = (Some a, (s', tr)) /\
       Db.same_tables s s' /\
       (a = StateApi.state_error \/
        a = json_state max (Z.of_nat (visible_winners c s))
                       (Z.of_nat (Db.count_free c (Db.prize_tokens s))))) /\
  (forall c,
   exists s',
     StateApi.get_state max (Some c) [] s =
       (Some (json_state max (Z.of_nat (visible_winners c s))
                         (Z.of_nat (Db.count_free c (Db.prize_tokens s)))),
        (s', [EvQuery (StateApi.Token Db.SELECT_remaining) true;
              EvQuery StateApi.SELECT_total true])) /\
     Db.same_tables s s') /\
  (forall c,
   Db.idle c s = true ->
   visible_winners c s = length (Db.committed_winners s) /\
   Db.count_free c (Db.prize_tokens s) = Db.remainingCount s).
Proof.
  split; [|split; [|split]].
  - reflexivity.
  - intros c faults. apply state_cases.
  - intros c. apply state_reads.
  - intros c Hi. destruct (idle_no_writes _ _ Hi) as [_ Hnw].
    split; [now apply visible_committed|now apply no_writes_count_free].
Qed.

Lemma X6_witness :
  visible_winners 3 pool1_d1_won = 1 /\
  Db.count_free 3 (Db.prize_tokens pool1_d1_won) = 0.
Proof.
  destruct (proj2 (proj2 (proj2 (X6_state_reads (Finite 10) pool1_d1_won))) 3 eq_refl)
    as [H1 H2].
  split; [exact H1|exact H2].
Defined.

(** ** The winners and the claimed tokens *)

Section InStep.
Import Db.

Lemma state_sum (max : js_number) (c : nat) (s : db) :
  idle c s = true ->
  exists s' tr awarded left,
    StateApi.state max c [] s = (Some (json_state max awarded left), (s', tr)) /\
    awarded = Z.of_nat (length (committed_winners s)) /\
    (left + Z.of_nat (claimed_count s) = Z.of_nat (length (prize_tokens s)))%Z.
Proof.
  intros Hi. destruct (idle_no_writes _ _ Hi) as [_ Hnw].
  destruct (state_reads max c s) as (s' & E & _).
  do 4 eexists. split; [exact E|].
  rewrite (visible_committed _ _ Hnw), (no_writes_count_free _ _ Hnw).
  split; [reflexivity|].
  pose proof (remaining_committed s) as H.
  assert (L : length (committed_tokens s) = length (prize_tokens s))
    by (unfold committed_tokens; apply length_map).
  lia.
Qed.

Lemma pg_in_step (e : env) (arr : list arrival) (s0 : db) :
  settled s0 = true ->
  length (committed_winners s0) = claimed_count s0 ->
  let s' := snd (serve exec (ServerPg.draw e) 0 arr s0) in
  idle (length arr) s' = true /\
  length (committed_winners s') = claimed_count s' /\
  length (prize_tokens s') = length (prize_tokens s0).
Proof.
  intros Hs Heq s'.
  destruct (registry_behind (ServerPg.draw e) fresh_from False (pg_fresh_next e)
              (pg_served e) arr 0 s0 (settled_fresh 0 s0 Hs))
    as (Hg & _ & Hl); [lia|].
  fold s' in Hg, Hl. split; [apply Hg; simpl; lia|]. split.
  - apply (registry_strict (ServerPg.draw e) fresh_from False (pg_fresh_next e)
             (pg_served e)); [tauto|now apply settled_fresh|assumption].
  - unfold committed_tokens in Hl. now rewrite !length_map in Hl.
Qed.

Lemma my_in_step (e : env) (arr : list arrival) (s0 : db) :
  settled s0 = true ->
  length (committed_winners s0) = claimed_count s0 ->
  let s' := snd (serve exec (ServerMysql.draw e) 0 arr s0) in
  settled s' = true /\
  length (committed_winners s') <= claimed_count s' /\
  length (prize_tokens s') = length (prize_tokens s0) /\
  (forallb (fun x => no_failure (s_trace x))
           (fst (serve exec (ServerMysql.draw e) 0 arr s0)) = true ->
   length (committed_winners s') = claimed_count s').
Proof.
  intros Hs Heq s'.
  destruct (registry_behind (ServerMysql.draw e) (fun _ s => settled s = true) True
              (my_settled_next e) (my_served e) arr 0 s0 Hs)
    as (Hg & Hle & Hl); [lia|].
  fold s' in Hg, Hle, Hl. split; [assumption|]. split; [assumption|]. split.
  - unfold committed_tokens in Hl. now rewrite !length_map in Hl.
  - intros Hnf.
    apply (registry_in_step (ServerMysql.draw e) (fun _ s => settled s = true) True
             (my_settled_next e) (my_served e)); assumption.
Qed.
End InStep.

(** X7.  On src/server.js the winners and the claimed tokens stay in step:
    from a store at rest in which the committed winners are as many as the
    claimed tokens (such as the seeded one), after any requests served one
    after the other and whatever fails, they are still as many; so the state
    endpoint, asked next, reports [awarded] and [remaining] that add up to
    the number of tokens. *)
Theorem X7_registry_in_step (e : env) (arr : list arrival) (s0 : Db.db)
    (max : js_number) :
  Db.settled s0 = true ->
  length (Db.committed_winners s0) = claimed_count s0 ->
  length (Db.committed_winners (snd (serve Db.exec (ServerPg.draw e) 0 arr s0))) =
  claimed_count (snd (serve Db.exec (ServerPg.draw e) 0 arr s0)) /\
  exists s' tr awarded left,
    StateApi.state max (length arr) []
                   (snd (serve Db.exec (ServerPg.draw e) 0 arr s0)) =
      (Some (json_state max awarded left), (s', tr)) /\
    (awarded + left = Z.of_nat (length (Db.prize_tokens s0)))%Z.
Proof.
  intros Hs Heq. destruct (pg_in_step e arr s0 Hs Heq) as (Hi & He & Hl).
  split; [exact He|].
  destruct (state_sum max (length arr) _ Hi) as (s' & tr & a & b & E & Ha & Hb).
  exists s', tr, a, b. split; [exact E|]. rewrite Ha, He, <- Hl. lia.
Qed.

Lemma X7_witness :
  exists s' tr awarded left,
    StateApi.state (Finite 10) 2 []
      (snd (serve Db.exec (ServerPg.draw env0) 0
              [{| a_req := ask_rate "d1" 1; a_random := (1 # 2)%Q;
                  a_faults := [false; false; false; true] |};
               {| a_req := ask_rate "d2" 1; a_random := (1 # 2)%Q; a_faults := [] |}]
              (Db.seeded 3))) =
      (Some (json_state (Finite 10) awarded left), (s', tr)) /\
    (awarded + left = 3)%Z.
Proof.
  exact (proj2 (X7_registry_in_step env0
                  [{| a_req := ask_rate "d1" 1; a_random := (1 # 2)%Q;
                      a_faults := [false; false; false; true] |};
                   {| a_req := ask_rate "d2" 1; a_random := (1 # 2)%Q; a_faults := [] |}]
                  (Db.seeded 3) (Finite 10) eq_refl eq_refl)).
Defined.

(** X8.  On part_001 the winners never outnumber the claimed tokens: from a
    store at rest in which they are as many, after any requests served one
    after the other and whatever fails, the store is at rest, the pool has
    its size and the committed winners are at most as many as the claimed
    tokens; they are as many when no statement failed. *)
Theorem X8_registry_behind (e : env) (arr : list arrival) (s0 : Db.db) :
  Db.settled s0 = true ->
  length (Db.committed_winners s0) = claimed_count s0 ->
  Db.settled (snd (serve Db.exec (ServerMysql.draw e) 0 arr s0)) = true /\
  length (Db.committed_winners (snd (serve Db.exec (ServerMysql.draw e) 0 arr s0)))
    <= claimed_count (snd (serve Db.exec (ServerMysql.draw e) 0 arr s0)) /\
  length (Db.prize_tokens (snd (serve Db.exec (ServerMysql.draw e) 0 arr s0))) =
    length (Db.prize_tokens s0) /\
  (forallb (fun x => no_failure (s_trace x))
           (fst (serve Db.exec (ServerMysql.draw e) 0 arr s0)) = true ->
   length (Db.committed_winners (snd (serve Db.exec (ServerMysql.draw e) 0 arr s0))) =
   claimed_count (snd (serve Db.exec (ServerMysql.draw e) 0 arr s0))).
Proof.
  intros Hs Heq. exact (my_in_step e arr s0 Hs Heq).
Qed.

Lemma X8_witness :
  length (Db.committed_winners
            (snd (serve Db.exec (ServerMysql.draw env0) 0
                    [{| a_req := ask_rate "d1" 1; a_random := (1 # 2)%Q;
                        a_faults := [false; false; true] |}]
                    (Db.seeded 2))))
  <= claimed_count
       (snd (serve Db.exec (ServerMysql.draw env0) 0
               [{| a_req := ask_rate "d1" 1; a_random := (1 # 2)%Q;
                   a_faults := [false; false; true] |}]
               (Db.seeded 2))).
Proof.
  exact (proj1 (proj2 (X8_registry_behind env0
                  [{| a_req := ask_rate "d1" 1; a_random := (1 # 2)%Q;
                      a_faults := [false; false; true] |}]
                  (Db.seeded 2) eq_refl eq_refl))).
Defined.

(** ** How a request ends *)

(** X9.  How a valid draw request ends.  On src/server.js and on part_001,
    when [pool.connect()] ([pool.getConnection()]) rejects, the handler
    executes nothing and sends nothing, the call being outside its [try].
    With its connection, a handler of src/server.js that sends a reply, of
    any status, leaves the connection as it took it: no transaction open,
    nothing uncommitted; it sends no reply when the [ROLLBACK] of its catch
    block fails, the exception escaping the handler, and on a store at rest
    only then.  With its connection, a handler of part_001, whose catch
    block executes nothing, always sends a reply, and leaves the store at
    rest. *)
Theorem X9_request_ends (e : env) (req : request) (d : string) (c : nat) (r : Q)
    (faults : list bool) (s : Db.db) :
  valid req d -> Db.idle c s = true ->
  ServerPg.post_draw e (Some req) None r faults s = (None, (s, [])) /\
  ServerMysql.post_draw e (Some req) None r faults s = (None, (s, [])) /\
  (let '(resp, (s', tr)) := ServerPg.post_draw e (Some req) (Some c) r faults s in
   (resp <> None -> Db.idle c s' = true) /\
   (last tr (EvRandom 0%Q) = EvQuery Db.ROLLBACK false -> resp = None) /\
   (Db.settled s = true -> resp = None ->
    last tr (EvRandom 0%Q) = EvQuery Db.ROLLBACK false)) /\
  (Db.settled s = true ->
   let '(resp, (s', tr)) := ServerMysql.post_draw e (Some req) (Some c) r faults s in
   resp <> None /\ Db.settled s' = true).
Proof.
  intros Hv Hi.
  assert (Epg : forall conn,
             ServerPg.post_draw e (Some req) conn r faults s =
             match conn with
             | Some c' => run_thread Db.exec c' (ServerPg.draw e req) r faults s
             | None => (None, (s, []))
             end).
  { intros conn. unfold ServerPg.post_draw. simpl.
    destruct Hv as [-> ->]. reflexivity. }
  assert (Emy : forall conn,
             ServerMysql.post_draw e (Some req) conn r faults s =
             match conn with
             | Some c' => run_thread Db.exec c' (ServerMysql.draw e req) r faults s
             | None => (None, (s, []))
             end).
  { intros conn. unfold ServerMysql.post_draw. simpl.
    destruct Hv as [-> ->]. reflexivity. }
  rewrite !Epg, !Emy.
  split; [reflexivity|]. split; [reflexivity|]. split.
  - pose proof (pg_request_ends e req d c r s Hv Hi faults) as H.
    destruct (run_thread Db.exec c (ServerPg.draw e req) r faults s) as [rp [s' tr]].
    destruct H as (H1 & H2 & H3). split; [assumption|]. split; [assumption|].
    intros Hs. apply H2. symmetry. now apply settled_is_winner.
  - intros Hs.
    pose proof (my_request_effect e req d c r s Hv Hi faults Hs) as H.
    destruct (run_thread Db.exec c (ServerMysql.draw e req) r faults s) as [rp [s' tr]].
    tauto.
Qed.

Lemma X9_witness :
  fst (ServerPg.post_draw env0 (Some (ask "d1")) (Some 0) (1 # 2)%Q [true; true]
                          (Db.seeded 1)) = None /\
  fst (ServerPg.post_draw env0 (Some (ask "d1")) None (1 # 2)%Q [] (Db.seeded 1)) = None.
Proof.
  pose proof (X9_request_ends env0 (ask "d1") "d1" 0 (1 # 2)%Q [true; true]
                (Db.seeded 1) (conj eq_refl eq_refl) eq_refl) as H.
  destruct H as (_ & _ & H & _).
  split; [|reflexivity].
  destruct (ServerPg.post_draw env0 (Some (ask "d1")) (Some 0) (1 # 2)%Q
                               [true; true] (Db.seeded 1)) as [rp [s' tr]] eqn:E.
  simpl. apply (proj1 (proj2 H)).
  vm_compute in E. inversion E. reflexivity.
Defined.

(** ** The winning draw *)

Section Winning.
Import Db.

Lemma remaining_claim (d : string) (now : nat) (l1 l2 : list token_row)
    (t : token_row) (s s' : db) :
  prize_tokens s = l1 ++ t :: l2 -> free_row t = true ->
  prize_tokens s' =
    l1 ++ {| cur := {| id := id (cur t); claimed_by := Some d;
                       claimed_at := Some now |}; upd := None |} :: l2 ->
  remainingCount s' + 1 = remainingCount s.
Proof.
  intros E Hf E'. unfold remainingCount, committed_tokens. rewrite E, E'.
  unfold free_row in Hf. apply andb_true_iff in Hf as [Hf _].
  rewrite !map_app, !filter_app, !length_app. simpl. rewrite Hf. simpl. lia.
Qed.

Lemma hopeless_fails (r : Q) (rate : js_number) :
  in_unit_interval r = true -> hopeless rate = true -> js_lt r rate = false.
Proof.
  unfold in_unit_interval, hopeless, js_lt, Qltb.
  intros Hr Hs. apply andb_true_iff in Hr as [Hr _].
  destruct rate as [q| | |]; try discriminate; try reflexivity.
  apply negb_false_iff. apply Qle_bool_iff.
  apply Qle_bool_iff in Hr, Hs. eapply Qle_trans; eassumption.
Qed.
End Winning.

(** X10.  The winning draw.  A new device that passes the gate on a store
    with a free token wins on src/server.js and on part_001: the first free
    token is claimed for it, a winners row is added, both are committed, and
    the answer is [won: true] with the number of free tokens that are left,
    one less than before. *)
Theorem X10_winning_draw (e : env) (req : request) (d : string) (c : nat) (r : Q)
    (s : Db.db) (l1 l2 : list Db.token_row) (t : Db.token_row) :
  valid req d -> Db.settled s = true -> Db.is_winner d s = false ->
  js_lt r (rate_of e req) = true ->
  Db.prize_tokens s = l1 ++ t :: l2 ->
  existsb Db.free_row l1 = false -> Db.free_row t = true ->
  (exists s',
     run_thread Db.exec c (ServerPg.draw e req) r [] s =
       (Some (json_draw true None (Z.of_nat (Db.remainingCount s'))),
        (s', [EvQuery (Db.SELECT_winner d) true; EvRandom r; EvQuery Db.BEGIN true;
              EvQuery (Db.UPDATE_claim_skip_locked d) true;
              EvQuery (Db.INSERT_winner d) true; EvQuery Db.COMMIT true;
              EvQuery Db.SELECT_remaining true])) /\
     Db.prize_tokens s' =
       l1 ++ {| Db.cur := {| Db.id := Db.id (Db.cur t); Db.claimed_by := Some d;
                             Db.claimed_at := Some (S (S (Db.clock s))) |};
                Db.upd := None |} :: l2 /\
     Db.winners s' =
       Db.winners s ++ [{| Db.wrow := {| Db.device_id := d;
                                         Db.created_at := S (S (S (Db.clock s))) |};
                           Db.ins := None |}] /\
     Db.settled s' = true /\
     Db.remainingCount s' + 1 = Db.remainingCount s) /\
  (exists s',
     run_thread Db.exec c (ServerMysql.draw e req) r [] s =
       (Some (json_draw true None (Z.of_nat (Db.remainingCount s'))),
        (s', [EvQuery (Db.SELECT_winner d) true; EvRandom r;
              EvQuery (Db.UPDATE_claim_limit_1 d) true;
              EvQuery (Db.INSERT_winner d) true;
              EvQuery Db.SELECT_remaining true])) /\
     Db.prize_tokens s' =
       l1 ++ {| Db.cur := {| Db.id := Db.id (Db.cur t); Db.claimed_by := Some d;
                             Db.claimed_at := Some (S (Db.clock s)) |};
                Db.upd := None |} :: l2 /\
     Db.winners s' =
       Db.winners s ++ [{| Db.wrow := {| Db.device_id := d;
                                         Db.created_at := S (S (Db.clock s)) |};
                           Db.ins := None |}] /\
     Db.settled s' = true /\
     Db.remainingCount s' + 1 = Db.remainingCount s).
Proof.
  intros Hv Hs Hn Hl E H1 Ht.
  pose proof (settled_idle c s Hs) as Hi.
  assert (Hw : existsb (Db.has_device d) (Db.winners s) = false)
    by (now rewrite <- (settled_is_winner d s Hs)).
  pose proof Hs as Hs'. unfold Db.settled in Hs'.
  apply andb_true_iff in Hs' as [Hs' Hsw]. apply andb_true_iff in Hs' as [Hsx Hst].
  rewrite E, forallb_app in Hst. simpl in Hst.
  apply andb_true_iff in Hst as [Hst1 Hst2]. apply andb_true_iff in Hst2 as [_ Hst2].
  split.
  - destruct (pg_wins e req d c r s Hv Hi Hn Hl l1 l2 t E H1 Ht Hw)
      as (s' & Er & Et & Ew & Ex).
    exists s'. split; [exact Er|]. split; [exact Et|]. split; [exact Ew|]. split.
    + unfold Db.settled. rewrite Ex, Et, Ew, !forallb_app. simpl.
      now rewrite Hsx, Hst1, Hst2, Hsw.
    + eapply remaining_claim; eassumption.
  - destruct (my_wins e req d c r s Hv Hi Hn Hl Hs l1 l2 t E H1 Ht)
      as (s' & Er & Et & Ew & Ex).
    exists s'. split; [exact Er|]. split; [exact Et|]. split; [exact Ew|]. split.
    + unfold Db.settled. rewrite Ex, Et, Ew, !forallb_app. simpl.
      now rewrite Hsx, Hst1, Hst2, Hsw.
    + eapply remaining_claim; eassumption.
Qed.

Lemma X10_witness :
  exists s',
    run_thread Db.exec 0 (ServerPg.draw env0 (ask_rate "d1" 1)) (1 # 2)%Q []
               (Db.seeded 2) =
      (Some (json_draw true None (Z.of_nat (Db.remainingCount s'))),
       (s', [EvQuery (Db.SELECT_winner "d1") true; EvRandom (1 # 2)%Q;
             EvQuery Db.BEGIN true;
             EvQuery (Db.UPDATE_claim_skip_locked "d1") true;
             EvQuery (Db.INSERT_winner "d1") true; EvQuery Db.COMMIT true;
             EvQuery Db.SELECT_remaining true])) /\
    Db.remainingCount s' + 1 = 2.
Proof.
  destruct (proj1 (X10_winning_draw env0 (ask_rate "d1" 1) "d1" 0 (1 # 2)%Q
                     (Db.seeded 2) []
                     [{| Db.cur := {| Db.id := 2; Db.claimed_by := None;
                                      Db.claimed_at := None |}; Db.upd := None |}]
                     {| Db.cur := {| Db.id := 1; Db.claimed_by := None;
                                     Db.claimed_at := None |}; Db.upd := None |}
                     (conj eq_refl eq_refl) eq_refl eq_refl eq_refl eq_refl
                     eq_refl eq_refl))
    as (s' & E & _ & _ & _ & R).
  exists s'. split; [exact E|exact R].
Defined.

(** X11.  The rate is used as it comes, without clamping.  For a new device
    on a store at rest, whatever [Math.random()] returns: with a rate of 0
    or less (or a default that is not a number) the request always loses
    the gate and is answered [won: false] with the free tokens, none
    touched; with a rate of 1 or more it always passes the gate, and wins
    whenever a token is free. *)
Theorem X11_rate_extremes (e : env) (req : request) (d : string) (c : nat) (r : Q)
    (s : Db.db) :
  valid req d -> Db.settled s = true -> Db.is_winner d s = false ->
  in_unit_interval r = true ->
  (hopeless (rate_of e req) = true ->
   fst (run_thread Db.exec c (ServerPg.draw e req) r [] s) =
     Some (json_draw false None (Z.of_nat (Db.remainingCount s))) /\
   fst (run_thread Db.exec c (ServerMysql.draw e req) r [] s) =
     Some (json_draw false None (Z.of_nat (Db.remainingCount s)))) /\
  (sure (rate_of e req) = true ->
   existsb Db.free_row (Db.prize_tokens s) = true ->
   says_won (fst (run_thread Db.exec c (ServerPg.draw e req) r [] s)) = true /\
   says_won (fst (run_thread Db.exec c (ServerMysql.draw e req) r [] s)) = true).
Proof.
  intros Hv Hs Hn Hr. pose proof (settled_idle c s Hs) as Hi. split.
  - intros Hh. pose proof (hopeless_fails r _ Hr Hh) as Hl.
    destruct (pg_lost e req d c r s Hv Hi Hn Hl) as (s1 & E1 & _).
    destruct (my_lost e req d c r s Hv Hi Hn Hl) as (s2 & E2 & _).
    now rewrite E1, E2.
  - intros Hsure Hfree. pose proof (sure_passes r _ Hr Hsure) as Hl.
    destruct (existsb_split _ _ Hfree) as (l1 & t & l2 & E & H1 & Ht).
    assert (Hw : existsb (Db.has_device d) (Db.winners s) = false)
      by (now rewrite <- (settled_is_winner d s Hs)).
    destruct (pg_wins e req d c r s Hv Hi Hn Hl l1 l2 t E H1 Ht Hw) as (s1 & E1 & _).
    destruct (my_wins e req d c r s Hv Hi Hn Hl Hs l1 l2 t E H1 Ht) as (s2 & E2 & _).
    now rewrite E1, E2.
Qed.

Lemma X11_witness :
  fst (run_thread Db.exec 0 (ServerPg.draw env0 (ask_rate "d1" 0)) 0%Q []
                  (Db.seeded 2)) =
    Some (json_draw false None 2%Z) /\
  says_won (fst (run_thread Db.exec 0 (ServerPg.draw env0 (ask_rate "d1" 1))
                            (99 # 100)%Q [] (Db.seeded 2))) = true.
Proof.
  split.
  - exact (proj1 (proj1 (X11_rate_extremes env0 (ask_rate "d1" 0) "d1" 0 0%Q
                            (Db.seeded 2) (conj eq_refl eq_refl) eq_refl eq_refl
                            eq_refl) eq_refl)).
  - exact (proj1 (proj2 (X11_rate_extremes env0 (ask_rate "d1" 1) "d1" 0 (99 # 100)%Q
                            (Db.seeded 2) (conj eq_refl eq_refl) eq_refl eq_refl
                            eq_refl) eq_refl eq_refl)).
Defined.

(** ** A win that is not reported *)

Section Unreported.
Import Db.
Variables (e : env) (req : request) (d : string) (c : nat) (r : Q) (s : db).
Hypothesis Hvalid : valid req d.
Hypothesis Hs : settled s = true.
Hypothesis Hnew : is_winner d s = false.
Hypothesis Hluck : js_lt r (rate_of e req) = true.

Lemma pg_unreported (l1 l2 : list token_row) (t : token_row) :
  prize_tokens s = l1 ++ t :: l2 ->
  existsb free_row l1 = false -> free_row t = true ->
  exists s',
    run_thread exec c (ServerPg.draw e req) r
               [false; false; false; false; false; true] s =
      (Some (json_error 500 "internal_error"),
       (s', [EvQuery (SELECT_winner d) true; EvRandom r; EvQuery BEGIN true;
             EvQuery (UPDATE_claim_skip_locked d) true;
             EvQuery (INSERT_winner d) true; EvQuery COMMIT true;
             EvQuery SELECT_remaining false; EvQuery ROLLBACK true]))
    /\ prize_tokens s' =
         l1 ++ {| cur := {| id := id (cur t); claimed_by := Some d;
                            claimed_at := Some (S (S (clock s))) |};
                  upd := None |} :: l2
    /\ winners s' =
         winners s ++ [{| wrow := {| device_id := d;
                                     created_at := S (S (S (clock s))) |};
                          ins := None |}]
    /\ in_tx s' = in_tx s.
Proof.
  pose proof (settled_idle c s Hs) as Hidle.
  destruct Hvalid as [Hd Hne]. destruct (idle_no_writes _ _ Hidle) as [Htx Hnw].
  intros Hts Hl1 Ht. unfold ServerPg.draw. rewrite Hd, Hne.
  unfold in_transaction in Htx.
  pose proof Hnw as Hnw'. unfold no_writes in Hnw'.
  apply andb_true_iff in Hnw' as [Hnh Hw].
  pose proof Hnh as Hnh0.
  rewrite Hts in Hnh. rewrite forallb_app in Hnh. simpl in Hnh.
  apply andb_true_iff in Hnh as [Hh1 Hh2]. apply andb_true_iff in Hh2 as [Hht Hh2].
  assert (Hc : claim_first c true d (S (S (clock s))) (prize_tokens s) =
               Some (id (cur t), l1 ++ claim_row c true d (S (S (clock s))) t :: l2)).
  { rewrite Hts. apply claim_first_at.
    - now rewrite existsb_claimable_free.
    - now rewrite not_held_claimable. }
  pose proof Hnew as Hws. rewrite (settled_is_winner _ _ Hs) in Hws.
  unfold run_thread. cbn.
  rewrite (no_writes_knows _ _ _ Hnw), Hnew. cbn. rewrite Hluck. cbn.
  rewrite Htx. cbn. rewrite Nat.eqb_refl. cbn. rewrite Hc. cbn.
  rewrite (no_writes_knows _ _ _ Hnw), Hnew, Hws. cbn.
  rewrite Nat.eqb_refl. cbn.
  rewrite !map_app. cbn. rewrite Nat.eqb_refl.
  rewrite (commit_not_held _ _ Hh1), (commit_not_held _ _ Hh2).
  rewrite (commit_winner_not_own _ _ Hw), (remove_conn_head _ _ Htx).
  unfold commit_winner, reads. cbn. rewrite Nat.eqb_refl.
  rewrite ?map_app. cbn.
  rewrite ?(rollback_not_held _ _ Hh1), ?(rollback_not_held _ _ Hh2).
  rewrite ?filter_app. cbn. rewrite ?(filter_own_insert_idle _ _ Hw).
  rewrite ?(remove_conn_absent _ _ Htx).
  eexists. split; [reflexivity|]. cbn. repeat split.
Qed.

Lemma my_unreported (l1 l2 : list token_row) (t : token_row) :
  prize_tokens s = l1 ++ t :: l2 ->
  existsb free_row l1 = false -> free_row t = true ->
  exists s',
    run_thread exec c (ServerMysql.draw e req) r [false; false; false; true] s =
      (Some (json_error 500 "internal_error"),
       (s', [EvQuery (SELECT_winner d) true; EvRandom r;
             EvQuery (UPDATE_claim_limit_1 d) true;
             EvQuery (INSERT_winner d) true;
             EvQuery SELECT_remaining false]))
    /\ prize_tokens s' =
         l1 ++ {| cur := {| id := id (cur t); claimed_by := Some d;
                            claimed_at := Some (S (clock s)) |};
                  upd := None |} :: l2
    /\ winners s' =
         winners s ++ [{| wrow := {| device_id := d;
                                     created_at := S (S (clock s)) |};
                          ins := None |}]
    /\ in_tx s' = in_tx s.
Proof.
  pose proof (settled_idle c s Hs) as Hidle.
  destruct Hvalid as [Hd Hne]. destruct (idle_no_writes _ _ Hidle) as [Htx Hnw].
  intros Hts Hl1 Ht. unfold ServerMysql.draw. rewrite Hd, Hne.
  unfold in_transaction in Htx.
  pose proof Hnw as Hnw'. unfold no_writes in Hnw'.
  apply andb_true_iff in Hnw' as [Hnh Hw].
  rewrite Hts in Hnh. rewrite forallb_app in Hnh. simpl in Hnh.
  apply andb_true_iff in Hnh as [Hh1 Hh2]. apply andb_true_iff in Hh2 as [Hht Hh2].
  assert (Hc : claim_first c false d (S (clock s)) (prize_tokens s) =
               Some (id (cur t), l1 ++ claim_row c false d (S (clock s)) t :: l2)).
  { rewrite Hts. apply claim_first_at.
    - now rewrite existsb_claimable_free.
    - now rewrite not_held_claimable. }
  pose proof Hnew as Hws. rewrite (settled_is_winner _ _ Hs) in Hws.
  unfold run_thread. cbn.
  rewrite (no_writes_knows _ _ _ Hnw), Hnew. cbn. rewrite Hluck. cbn.
  rewrite (settled_unlocked _ _ Hs), Htx, Hc. cbn.
  rewrite (no_writes_knows _ _ _ Hnw), Hnew, Hws. cbn. rewrite Htx.
  eexists. split; [reflexivity|]. cbn. repeat split.
Qed.

Lemma is_winner_added (s' : db) (now : nat) :
  winners s' = winners s ++ [{| wrow := {| device_id := d; created_at := now |};
                                ins := None |}] ->
  is_winner d s' = true.
Proof.
  intros E. unfold is_winner. rewrite E, existsb_app. simpl.
  unfold has_device. simpl. rewrite String.eqb_refl. simpl. apply orb_true_r.
Qed.
End Unreported.

(** X12.  A win that is not reported.  On src/server.js and on part_001 the
    free tokens are counted once more after the prize is committed; when
    that last statement fails, the request is answered status 500 with
    ["internal_error"] although the token is claimed for the device and its
    winners row is committed (the [ROLLBACK] of the catch block of
    src/server.js undoes nothing, the transaction being over).  The device's
    next request is answered ["already_winner"]. *)
Theorem X12_unreported_win (e : env) (req : request) (d : string) (c : nat) (r : Q)
    (s : Db.db) :
  valid req d -> Db.settled s = true -> Db.is_winner d s = false ->
  js_lt r (rate_of e req) = true ->
  existsb Db.free_row (Db.prize_tokens s) = true ->
  (exists s',
     run_thread Db.exec c (ServerPg.draw e req) r
                [false; false; false; false; false; true] s =
       (Some (json_error 500 "internal_error"),
        (s', [EvQuery (Db.SELECT_winner d) true; EvRandom r; EvQuery Db.BEGIN true;
              EvQuery (Db.UPDATE_claim_skip_locked d) true;
              EvQuery (Db.INSERT_winner d) true; EvQuery Db.COMMIT true;
              EvQuery Db.SELECT_remaining false; EvQuery Db.ROLLBACK true])) /\
     Db.is_winner d s' = true /\
     Db.remainingCount s' + 1 = Db.remainingCount s /\
     forall c' r',
       fst (run_thread Db.exec c' (ServerPg.draw e req) r' [] s') =
       Some (json_draw false (Some "already_winner")
                       (Z.of_nat (Db.remainingCount s')))) /\
  (exists s',
     run_thread Db.exec c (ServerMysql.draw e req) r [false; false; false; true] s =
       (Some (json_error 500 "internal_error"),
        (s', [EvQuery (Db.SELECT_winner d) true; EvRandom r;
              EvQuery (Db.UPDATE_claim_limit_1 d) true;
              EvQuery (Db.INSERT_winner d) true;
              EvQuery Db.SELECT_remaining false])) /\
     Db.is_winner d s' = true /\
     Db.remainingCount s' + 1 = Db.remainingCount s /\
     forall c' r',
       fst (run_thread Db.exec c' (ServerMysql.draw e req) r' [] s') =
       Some (json_draw false (Some "already_winner")
                       (Z.of_nat (Db.remainingCount s')))).
Proof.
  intros Hv Hs Hn Hl Hfree.
  destruct (existsb_split _ _ Hfree) as (l1 & t & l2 & E & H1 & Ht).
  pose proof Hs as Hs'. unfold Db.settled in Hs'.
  apply andb_true_iff in Hs' as [Hs' Hsw]. apply andb_true_iff in Hs' as [Hsx Hst].
  rewrite E, forallb_app in Hst. simpl in Hst.
  apply andb_true_iff in Hst as [Hst1 Hst2]. apply andb_true_iff in Hst2 as [_ Hst2].
  split.
  - destruct (pg_unreported e req d c r s Hv Hs Hn Hl l1 l2 t E H1 Ht)
      as (s' & Er & Et & Ew & Ex).
    assert (Hs1 : Db.settled s' = true).
    { unfold Db.settled. rewrite Ex, Et, Ew, !forallb_app. simpl.
      now rewrite Hsx, Hst1, Hst2, Hsw. }
    pose proof (is_winner_added d s s' _ Ew) as Hw.
    exists s'. split; [exact Er|]. split; [exact Hw|]. split.
    + eapply remaining_claim; eassumption.
    + intros c' r'.
      destruct (pg_already e req d c' r' s' Hv (settled_idle c' s' Hs1) Hw)
        as (s2 & E2 & _).
      now rewrite E2.
  - destruct (my_unreported e req d c r s Hv Hs Hn Hl l1 l2 t E H1 Ht)
      as (s' & Er & Et & Ew & Ex).
    assert (Hs1 : Db.settled s' = true).
    { unfold Db.settled. rewrite Ex, Et, Ew, !forallb_app. simpl.
      now rewrite Hsx, Hst1, Hst2, Hsw. }
    pose proof (is_winner_added d s s' _ Ew) as Hw.
    exists s'. split; [exact Er|]. split; [exact Hw|]. split.
    + eapply remaining_claim; eassumption.
    + intros c' r'.
      destruct (my_already e req d c' r' s' Hv (settled_idle c' s' Hs1) Hw)
        as (s2 & E2 & _).
      now rewrite E2.
Qed.

Lemma X12_witness :
  exists s',
    fst (run_thread Db.exec 0 (ServerPg.draw env0 (ask_rate "d1" 1)) (1 # 2)%Q
                    [false; false; false; false; false; true] (Db.seeded 1)) =
      Some (json_error 500 "internal_error") /\
    snd (run_thread Db.exec 0 (ServerPg.draw env0 (ask_rate "d1" 1)) (1 # 2)%Q
                    [false; false; false; false; false; true] (Db.seeded 1)) =
      (s', [EvQuery (Db.SELECT_winner "d1") true; EvRandom (1 # 2)%Q;
            EvQuery Db.BEGIN true;
            EvQuery (Db.UPDATE_claim_skip_locked "d1") true;
            EvQuery (Db.INSERT_winner "d1") true; EvQuery Db.COMMIT true;
            EvQuery Db.SELECT_remaining false; EvQuery Db.ROLLBACK true]) /\
    Db.is_winner "d1" s' = true.
Proof.
  destruct (proj1 (X12_unreported_win env0 (ask_rate "d1" 1) "d1" 0 (1 # 2)%Q
                     (Db.seeded 1) (conj eq_refl eq_refl) eq_refl eq_refl eq_refl
                     eq_refl))
    as (s' & E & W & _).
  exists s'. rewrite E. split; [reflexivity|]. split; [reflexivity|exact W].
Defined.

(** ** Two requests of one device at the same time *)

Section FromTheGate.
Import Db.
Variables (d : string) (rate : js_number) (c : nat) (r : Q) (s : db).
Variables (l1 l2 : list token_row) (t : token_row).
Hypothesis Hidle : idle c s = true.
Hypothesis Hluck : js_lt r rate = true.
Hypothesis Hts : prize_tokens s = l1 ++ t :: l2.
Hypothesis Hl1 : existsb free_row l1 = false.
Hypothesis Ht : free_row t = true.

Lemma pg_gate_wins :
  existsb (has_device d) (winners s) = false ->
  exists s' tr now now',
    run exec c (PgPhases.rest d rate PGate) r [] s =
      (Returned (json_draw true None (Z.of_nat (remainingCount s'))), ([], s', tr)) /\
    prize_tokens s' = l1 ++ claimed_token d now t :: l2 /\
    winners s' = winners s ++ [{| wrow := {| device_id := d; created_at := now' |};
                                  ins := None |}] /\
    in_tx s' = in_tx s.
Proof.
  destruct (idle_no_writes _ _ Hidle) as [Htx' Hnw]. intros Hws.
  pose proof Htx' as Htx. unfold in_transaction in Htx.
  pose proof Hnw as Hnw'. unfold no_writes in Hnw'.
  apply andb_true_iff in Hnw' as [Hnh Hw].
  rewrite Hts in Hnh. rewrite forallb_app in Hnh. simpl in Hnh.
  apply andb_true_iff in Hnh as [Hh1 Hh2]. apply andb_true_iff in Hh2 as [Hht Hh2].
  assert (Hc : claim_first c true d (S (clock s)) (prize_tokens s) =
               Some (id (cur t), l1 ++ claim_row c true d (S (clock s)) t :: l2)).
  { rewrite Hts. apply claim_first_at.
    - now rewrite existsb_claimable_free.
    - now rewrite not_held_claimable. }
  cbn. rewrite Hluck. cbn.
  rewrite ?Htx', ?Htx. cbn. rewrite ?Htx', ?Htx, ?Nat.eqb_refl. cbn.
  rewrite ?Htx', ?Htx, ?Nat.eqb_refl. cbn. rewrite Hc. cbn.
  rewrite (no_device_unknown c d _ Hws), Hws. cbn.
  rewrite Nat.eqb_refl. cbn.
  rewrite !map_app. cbn. rewrite Nat.eqb_refl.
  rewrite (commit_not_held _ _ Hh1), (commit_not_held _ _ Hh2).
  rewrite (commit_winner_not_own _ _ Hw), (remove_conn_head _ _ Htx).
  unfold commit_winner, reads. cbn. rewrite Nat.eqb_refl.
  do 4 eexists. split; [refine (f_equal2 pair _ eq_refl)|cbn; repeat split].
  do 3 f_equal.
  unfold remainingCount, committed_tokens. cbn.
  apply count_free_not_held.
  rewrite forallb_app. cbn. now rewrite Hh1, Hh2.
Qed.

Lemma pg_gate_wins_again :
  existsb (fun w => has_device d w && reads c w) (winners s) = true ->
  exists s' tr now,
    run exec c (PgPhases.rest d rate PGate) r [] s =
      (Returned (json_draw true None (Z.of_nat (remainingCount s'))), ([], s', tr)) /\
    prize_tokens s' = l1 ++ claimed_token d now t :: l2 /\
    winners s' = winners s /\
    in_tx s' = in_tx s.
Proof.
  destruct (idle_no_writes _ _ Hidle) as [Htx' Hnw]. intros Hws.
  pose proof Htx' as Htx. unfold in_transaction in Htx.
  pose proof Hnw as Hnw'. unfold no_writes in Hnw'.
  apply andb_true_iff in Hnw' as [Hnh Hw].
  rewrite Hts in Hnh. rewrite forallb_app in Hnh. simpl in Hnh.
  apply andb_true_iff in Hnh as [Hh1 Hh2]. apply andb_true_iff in Hh2 as [Hht Hh2].
  assert (Hc : claim_first c true d (S (clock s)) (prize_tokens s) =
               Some (id (cur t), l1 ++ claim_row c true d (S (clock s)) t :: l2)).
  { rewrite Hts. apply claim_first_at.
    - now rewrite existsb_claimable_free.
    - now rewrite not_held_claimable. }
  cbn. rewrite Hluck. cbn.
  rewrite ?Htx', ?Htx. cbn. rewrite ?Htx', ?Htx, ?Nat.eqb_refl. cbn.
  rewrite ?Htx', ?Htx, ?Nat.eqb_refl. cbn. rewrite Hc. cbn.
  rewrite Hws. cbn.
  rewrite !map_app. cbn. rewrite Nat.eqb_refl.
  rewrite (commit_not_held _ _ Hh1), (commit_not_held _ _ Hh2).
  rewrite (commit_winner_not_own _ _ Hw), (remove_conn_head _ _ Htx).
  do 3 eexists. split; [refine (f_equal2 pair _ eq_refl)|cbn; repeat split].
  do 3 f_equal.
  unfold remainingCount, committed_tokens. cbn.
  apply count_free_not_held.
  rewrite forallb_app. cbn. now rewrite Hh1, Hh2.
Qed.

Hypothesis Hs : settled s = true.

Lemma my_gate_wins :
  existsb (has_device d) (winners s) = false ->
  exists s' tr now now',
    run exec c (MyPhases.rest d rate PGate) r [] s =
      (Returned (json_draw true None (Z.of_nat (remainingCount s'))), ([], s', tr)) /\
    prize_tokens s' = l1 ++ claimed_token d now t :: l2 /\
    winners s' = winners s ++ [{| wrow := {| device_id := d; created_at := now' |};
                                  ins := None |}] /\
    in_tx s' = in_tx s.
Proof.
  destruct (idle_no_writes _ _ Hidle) as [Htx' Hnw]. intros Hws.
  pose proof Htx' as Htx. unfold in_transaction in Htx.
  pose proof Hnw as Hnw'. unfold no_writes in Hnw'.
  apply andb_true_iff in Hnw' as [Hnh Hw].
  rewrite Hts in Hnh. rewrite forallb_app in Hnh. simpl in Hnh.
  apply andb_true_iff in Hnh as [Hh1 Hh2]. apply andb_true_iff in Hh2 as [Hht Hh2].
  assert (Hc : claim_first c false d (clock s) (prize_tokens s) =
               Some (id (cur t), l1 ++ claim_row c false d (clock s) t :: l2)).
  { rewrite Hts. apply claim_first_at.
    - now rewrite existsb_claimable_free.
    - now rewrite not_held_claimable. }
  cbn. rewrite Hluck. cbn.
  rewrite (settled_unlocked _ _ Hs), ?Htx', ?Htx, Hc. cbn.
  rewrite (no_device_unknown c d _ Hws), Hws. cbn. rewrite ?Htx', ?Htx.
  do 4 eexists. split; [refine (f_equal2 pair _ eq_refl)|cbn; repeat split].
  do 3 f_equal.
  unfold remainingCount, committed_tokens. cbn.
  apply count_free_not_held.
  rewrite forallb_app. cbn. now rewrite Hh1, Hh2.
Qed.

Lemma my_gate_wins_again :
  existsb (fun w => has_device d w && reads c w) (winners s) = true ->
  exists s' tr now,
    run exec c (MyPhases.rest d rate PGate) r [] s =
      (Returned (json_draw true None (Z.of_nat (remainingCount s'))), ([], s', tr)) /\
    prize_tokens s' = l1 ++ claimed_token d now t :: l2 /\
    winners s' = winners s /\
    in_tx s' = in_tx s.
Proof.
  destruct (idle_no_writes _ _ Hidle) as [Htx' Hnw]. intros Hws.
  pose proof Htx' as Htx. unfold in_transaction in Htx.
  pose proof Hnw as Hnw'. unfold no_writes in Hnw'.
  apply andb_true_iff in Hnw' as [Hnh Hw].
  rewrite Hts in Hnh. rewrite forallb_app in Hnh. simpl in Hnh.
  apply andb_true_iff in Hnh as [Hh1 Hh2]. apply andb_true_iff in Hh2 as [Hht Hh2].
  assert (Hc : claim_first c false d (clock s) (prize_tokens s) =
               Some (id (cur t), l1 ++ claim_row c false d (clock s) t :: l2)).
  { rewrite Hts. apply claim_first_at.
    - now rewrite existsb_claimable_free.
    - now rewrite not_held_claimable. }
  cbn. rewrite Hluck. cbn.
  rewrite (settled_unlocked _ _ Hs), ?Htx', ?Htx, Hc. cbn.
  rewrite Hws. cbn.
  do 3 eexists. split; [refine (f_equal2 pair _ eq_refl)|cbn; repeat split].
  do 3 f_equal.
  unfold remainingCount, committed_tokens. cbn.
  apply count_free_not_held.
  rewrite forallb_app. cbn. now rewrite Hh1, Hh2.
Qed.
End FromTheGate.

Section SameDevice.
Import Db.
Variables (d : string) (r : Q).
Variable th_check : thread stmt result.
Variable p : prog stmt result response.
Variable h : option (prog stmt result response).
Hypothesis Hr : in_unit_interval r = true.
Hypothesis Hp : no_throw p.
Hypothesis step_check :
  forall c s,
    idle c s = true -> is_winner d s = false ->
    thread_step exec c Complete th_check s =
      Some ({| body := p; handler := h |},
            tick s (prize_tokens s) (winners s) (in_tx s)).
Hypothesis wins :
  forall c s l1 l2 t,
    settled s = true -> prize_tokens s = l1 ++ t :: l2 ->
    existsb free_row l1 = false -> free_row t = true ->
    existsb (has_device d) (winners s) = false ->
    exists s' tr now now',
      run exec c p r [] s =
        (Returned (json_draw true None (Z.of_nat (remainingCount s'))),
         ([], s', tr)) /\
      prize_tokens s' = l1 ++ claimed_token d now t :: l2 /\
      winners s' = winners s ++ [{| wrow := {| device_id := d; created_at := now' |};
                                    ins := None |}] /\
      in_tx s' = in_tx s.
Hypothesis wins_again :
  forall c s l1 l2 t,
    settled s = true -> prize_tokens s = l1 ++ t :: l2 ->
    existsb free_row l1 = false -> free_row t = true ->
    existsb (fun w => has_device d w && reads c w) (winners s) = true ->
    exists s' tr now,
      run exec c p r [] s =
        (Returned (json_draw true None (Z.of_nat (remainingCount s'))),
         ([], s', tr)) /\
      prize_tokens s' = l1 ++ claimed_token d now t :: l2 /\
      winners s' = winners s /\
      in_tx s' = in_tx s.

Lemma settled_tick (s : db) :
  settled (tick s (prize_tokens s) (winners s) (in_tx s)) = settled s.
Proof. reflexivity. Qed.

Lemma two_free (l : list token_row) :
  2 <= count free_row l ->
  exists l1 t m1 t' m2,
    l = l1 ++ t :: m1 ++ t' :: m2 /\
    existsb free_row l1 = false /\ free_row t = true /\
    existsb free_row m1 = false /\ free_row t' = true.
Proof.
  intros H.
  assert (H1 : existsb free_row l = true).
  { destruct (existsb free_row l) eqn:E; [reflexivity|].
    destruct (count_none free_row l) as [Z _]; [|lia].
    intros x Hx. destruct (free_row x) eqn:Ex; [|reflexivity].
    rewrite <- E. symmetry. apply existsb_exists. eauto. }
  destruct (existsb_split _ _ H1) as (l1 & t & l2 & E & Hl1 & Ht).
  assert (Hz : count free_row l1 = 0).
  { apply count_none. intros x Hx. destruct (free_row x) eqn:Ex; [|reflexivity].
    rewrite <- Hl1. symmetry. apply existsb_exists. eauto. }
  assert (H2 : existsb free_row l2 = true).
  { destruct (existsb free_row l2) eqn:E2; [reflexivity|].
    destruct (count_none free_row l2) as [Z _].
    - intros x Hx. destruct (free_row x) eqn:Ex; [|reflexivity].
      rewrite <- E2. symmetry. apply existsb_exists. eauto.
    - rewrite E, count_app in H. unfold count in *. simpl in H. rewrite Ht in H.
      simpl in H. lia. }
  destruct (existsb_split _ _ H2) as (m1 & t' & m2 & E' & Hm1 & Ht').
  exists l1, t, m1, t', m2. subst. auto.
Qed.

Lemma settled_after (s s' : db) (l1 l2 : list token_row) (t : token_row)
    (now : nat) (ws : list winner_row) :
  settled s = true -> prize_tokens s = l1 ++ t :: l2 ->
  prize_tokens s' = l1 ++ claimed_token d now t :: l2 ->
  winners s' = winners s ++ ws -> forallb is_committed ws = true ->
  in_tx s' = in_tx s ->
  settled s' = true.
Proof.
  unfold settled. intros Hs E E' Ew Hc Ex.
  apply andb_true_iff in Hs as [Hs Hsw]. apply andb_true_iff in Hs as [Hsx Hst].
  rewrite E, forallb_app in Hst. simpl in Hst.
  apply andb_true_iff in Hst as [Hst1 Hst2]. apply andb_true_iff in Hst2 as [_ Hst2].
  rewrite Ex, E', Ew, !forallb_app. simpl. now rewrite Hsx, Hst1, Hst2, Hsw, Hc.
Qed.

Lemma claimed_twice (l1 m1 m2 : list token_row) (t t' : token_row) (n1 n2 : nat) :
  free_row t = true -> free_row t' = true ->
  count claimed_row (l1 ++ claimed_token d n1 t :: m1 ++ claimed_token d n2 t' :: m2) =
  count claimed_row (l1 ++ t :: m1 ++ t' :: m2) + 2.
Proof.
  intros Ht Ht'.
  assert (C : forall x l, count claimed_row (x :: l) =
                          (if claimed_row x then 1 else 0) + count claimed_row l).
  { intros x l. unfold count. simpl. now destruct (claimed_row x). }
  assert (F : forall x, free_row x = true -> claimed_row x = false).
  { intros x Hx. unfold free_row in Hx. apply andb_true_iff in Hx as [Hx _].
    unfold claimed_row. now rewrite Hx. }
  rewrite !count_app, !C, !count_app, !C, (F t Ht), (F t' Ht').
  assert (T : forall n x, claimed_row (claimed_token d n x) = true) by reflexivity.
  rewrite !T. lia.
Qed.

Lemma both_win (s : db) :
  settled s = true -> is_winner d s = false -> 2 <= avail s ->
  exists sch s' ths',
    sched_run exec sch s [th_check; th_check] = Some (s', ths') /\
    all_replied ths' = true /\
    count_won (replies ths') = 2 /\
    claimed_count s' = claimed_count s + 2 /\
    settled s' = true /\
    length (winners s') = length (winners s) + 1.
Proof.
  intros Hs Hn Hav.
  destruct (two_free _ Hav) as (l1 & t & m1 & t' & m2 & E & Hl1 & Ht & Hm1 & Ht').
  pose proof (step_check 0 s (settled_idle 0 s Hs) Hn) as C0.
  remember (tick s (prize_tokens s) (winners s) (in_tx s)) as s1 eqn:Es1.
  assert (Hs1 : settled s1 = true) by (subst s1; exact Hs).
  assert (Hn1 : is_winner d s1 = false) by (subst s1; exact Hn).
  pose proof (step_check 1 s1 (settled_idle 1 s1 Hs1) Hn1) as C1.
  remember (tick s1 (prize_tokens s1) (winners s1) (in_tx s1)) as s2 eqn:Es2.
  assert (Hs2 : settled s2 = true) by (subst s2; exact Hs1).
  assert (E2 : prize_tokens s2 = l1 ++ t :: m1 ++ t' :: m2)
    by (subst s2 s1; exact E).
  assert (Ec2 : claimed_count s2 = claimed_count s) by (subst s2 s1; reflexivity).
  assert (Ew2 : winners s2 = winners s) by (subst s2 s1; reflexivity).
  set (g := {| body := p; handler := h |}) in *.
  assert (Hws : existsb (has_device d) (winners s2) = false).
  { rewrite Ew2. now rewrite <- (settled_is_winner d s Hs). }
  (* the first request goes from the gate to its answer *)
  destruct (wins 0 s2 l1 (m1 ++ t' :: m2) t Hs2 E2 Hl1 Ht Hws)
    as (s3 & tr3 & n1 & n1' & R3 & T3 & W3 & X3).
  destruct (run_as_schedule _ _ _ exec p h 0 r [] s2 [g; g] Hr Hp eq_refl)
    as (sch0 & t0 & S0 & F0).
  rewrite R3 in S0, F0. simpl in S0, F0.
  assert (Hs3 : settled s3 = true).
  { eapply (settled_after s2 s3); try eassumption. reflexivity. }
  (* then the second one *)
  assert (E3 : prize_tokens s3 = (l1 ++ claimed_token d n1 t :: m1) ++ t' :: m2).
  { rewrite T3, <- app_assoc. reflexivity. }
  assert (Hp3 : existsb free_row (l1 ++ claimed_token d n1 t :: m1) = false).
  { rewrite existsb_app. simpl. now rewrite Hl1, Hm1. }
  assert (Hv3 : existsb (fun w => has_device d w && reads 1 w) (winners s3) = true).
  { rewrite W3, existsb_app. simpl. unfold has_device. simpl.
    rewrite String.eqb_refl. simpl. apply orb_true_r. }
  destruct (wins_again 1 s3 _ m2 t' Hs3 E3 Hp3 Ht' Hv3)
    as (s4 & tr4 & n2 & R4 & T4 & W4 & X4).
  destruct (run_as_schedule _ _ _ exec p h 1 r [] s3 [t0; g] Hr Hp eq_refl)
    as (sch1 & t1 & S1 & F1).
  rewrite R4 in S1, F1. simpl in S1, F1.
  exists ((0, Complete) :: (1, Complete) :: sch0 ++ sch1), s4, [t0; t1].
  split.
  { simpl. rewrite C0. simpl. rewrite C1. simpl.
    rewrite (sched_run_app _ _ _ exec sch0 sch1 _ _ _ _ S0).
    exact S1. }
  subst t0 t1. split; [reflexivity|]. split; [reflexivity|]. split; [|split].
  - unfold claimed_count. rewrite T4, <- app_assoc. simpl.
    rewrite (claimed_twice l1 m1 m2 t t' n1 n2 Ht Ht'). now rewrite E.
  - eapply (settled_after s3 s4 _ m2 t' n2 []); try eassumption.
    + now rewrite app_nil_r.
    + reflexivity.
  - rewrite W4, W3, length_app, Ew2. reflexivity.
Qed.
End SameDevice.

Section SameDeviceServers.
Import Db.
Variables (e : env) (req : request) (d : string).
Hypothesis Hvalid : valid req d.

Lemma pg_check_step (c : nat) (s : db) :
  idle c s = true -> is_winner d s = false ->
  thread_step exec c Complete (ServerPg.draw e req) s =
    Some ({| body := PgPhases.rest d (rate_of e req) PGate;
             handler := Some ServerPg.draw_catch |},
          tick s (prize_tokens s) (winners s) (in_tx s)).
Proof.
  intros Hi Hn. destruct Hvalid as [Hd Hne].
  destruct (idle_no_writes _ _ Hi) as [_ Hnw].
  unfold ServerPg.draw. rewrite Hd, Hne. unfold thread_step. cbn.
  rewrite (no_writes_knows _ _ _ Hnw), Hn. reflexivity.
Qed.

Lemma my_check_step (c : nat) (s : db) :
  idle c s = true -> is_winner d s = false ->
  thread_step exec c Complete (ServerMysql.draw e req) s =
    Some ({| body := MyPhases.rest d (rate_of e req) PGate;
             handler := Some ServerMysql.draw_catch |},
          tick s (prize_tokens s) (winners s) (in_tx s)).
Proof.
  intros Hi Hn. destruct Hvalid as [Hd Hne].
  destruct (idle_no_writes _ _ Hi) as [_ Hnw].
  unfold ServerMysql.draw. rewrite Hd, Hne. unfold thread_step. cbn.
  rewrite (no_writes_knows _ _ _ Hnw), Hn. reflexivity.
Qed.

Lemma pg_gate_plain (rate : js_number) : no_throw (PgPhases.rest d rate PGate).
Proof. no_throw_tac. Qed.

Lemma my_gate_plain (rate : js_number) : no_throw (MyPhases.rest d rate PGate).
Proof. no_throw_tac. Qed.
End SameDeviceServers.

(** X13.  Two requests of one device at the same time can both win.  On
    src/server.js and on part_001 the check for a previous win and the claim
    are separate statements: when two requests of a new device both pass the
    check before either registers, and both pass the gate, each claims a
    token of its own and each is answered [won: true].  Two tokens are then
    claimed for the device, while the winners table gets one row only, the
    second insert being ignored. *)
Theorem X13_same_device_race (e : env) (req : request) (d : string) (r : Q)
    (s : Db.db) :
  valid req d -> Db.settled s = true -> Db.is_winner d s = false ->
  2 <= avail s ->
  in_unit_interval r = true -> js_lt r (rate_of e req) = true ->
  (exists sch s' ths',
     sched_run Db.exec sch s [ServerPg.draw e req; ServerPg.draw e req] =
       Some (s', ths') /\
     all_replied ths' = true /\
     count_won (replies ths') = 2 /\
     claimed_count s' = claimed_count s + 2 /\
     Db.settled s' = true /\
     length (Db.winners s') = length (Db.winners s) + 1) /\
  (exists sch s' ths',
     sched_run Db.exec sch s [ServerMysql.draw e req; ServerMysql.draw e req] =
       Some (s', ths') /\
     all_replied ths' = true /\
     count_won (replies ths') = 2 /\
     claimed_count s' = claimed_count s + 2 /\
     Db.settled s' = true /\
     length (Db.winners s') = length (Db.winners s) + 1).
Proof.
  intros Hv Hs Hn Hav Hr Hl. split.
  - apply (both_win d r (ServerPg.draw e req)
             (PgPhases.rest d (rate_of e req) PGate) (Some ServerPg.draw_catch)
             Hr (pg_gate_plain d _) (pg_check_step e req d Hv)); try assumption.
    + intros c s0 l1 l2 t Hs0 E H1 Ht Hw.
      exact (pg_gate_wins d _ c r s0 l1 l2 t (settled_idle c s0 Hs0) Hl E H1 Ht Hw).
    + intros c s0 l1 l2 t Hs0 E H1 Ht Hw.
      exact (pg_gate_wins_again d _ c r s0 l1 l2 t (settled_idle c s0 Hs0) Hl
               E H1 Ht Hw).
  - apply (both_win d r (ServerMysql.draw e req)
             (MyPhases.rest d (rate_of e req) PGate) (Some ServerMysql.draw_catch)
             Hr (my_gate_plain d _) (my_check_step e req d Hv)); try assumption.
    + intros c s0 l1 l2 t Hs0 E H1 Ht Hw.
      exact (my_gate_wins d _ c r s0 l1 l2 t (settled_idle c s0 Hs0) Hl E H1 Ht
               Hs0 Hw).
    + intros c s0 l1 l2 t Hs0 E H1 Ht Hw.
      exact (my_gate_wins_again d _ c r s0 l1 l2 t (settled_idle c s0 Hs0) Hl
               E H1 Ht Hs0 Hw).
Qed.

Lemma X13_witness :
  exists sch s' ths',
    sched_run Db.exec sch (Db.seeded 2)
              [ServerPg.draw env0 (ask_rate "d1" 1);
               ServerPg.draw env0 (ask_rate "d1" 1)] = Some (s', ths') /\
    count_won (replies ths') = 2 /\
    claimed_count s' = 2 /\
    length (Db.winners s') = 1.
Proof.
  destruct (proj1 (X13_same_device_race env0 (ask_rate "d1" 1) "d1" (1 # 2)%Q
                     (Db.seeded 2) (conj eq_refl eq_refl) eq_refl eq_refl
                     (le_n 2) eq_refl eq_refl))
    as (sch & s' & ths' & E & _ & W & C & _ & L).
  exists sch, s', ths'. split; [exact E|]. split; [exact W|]. split; [exact C|exact L].
Defined.

(** ** part_002: the winners table and the cap *)

Ltac count_path :=
  cbn;
  match goal with
  | |- context [hd false ?x] => destruct (hd false x)
  | H : filter (ServerCount.has_device ?d) ?l = []
    |- context [existsb (ServerCount.has_device ?d) ?l] =>
      rewrite (existsb_filter_nil _ _ H)
  | H : filter (ServerCount.has_device ?d) ?l = _ :: _
    |- context [existsb (ServerCount.has_device ?d) ?l] =>
      rewrite (existsb_filter_cons _ _ H)
  | |- context [filter (ServerCount.has_device ?d) ?l] =>
      destruct (filter (ServerCount.has_device d) l) eqn:?
  | |- context [(ServerCount.MAX_PRIZES <=? ?x)%Z] =>
      destruct (ServerCount.MAX_PRIZES <=? x)%Z eqn:?
  end.

Section CountTable.
Import ServerCount.
Local Arguments Z.sub : simpl never.
Local Arguments Z.leb : simpl never.
Local Arguments Z.of_nat : simpl never.

Lemma appended_refl (s : db) : appended s s.
Proof. exists []. now rewrite app_nil_r. Qed.

Lemma appended_trans (s1 s2 s3 : db) :
  appended s1 s2 -> appended s2 s3 -> appended s1 s3.
Proof.
  intros [l1 E1] [l2 E2]. exists (l1 ++ l2). now rewrite E2, E1, app_assoc.
Qed.

Lemma no_device_fresh (d : string) (l : list winner) :
  existsb (has_device d) l = false -> ~ In d (map device_id l).
Proof.
  intros H Hin. apply in_map_iff in Hin as (w & Hw & Hin).
  assert (E : existsb (has_device d) l = true).
  { apply existsb_exists. exists w. split; [assumption|].
    unfold has_device. rewrite Hw. apply String.eqb_refl. }
  congruence.
Qed.

Lemma appended_same (s s' : db) : winners s' = winners s -> appended s s'.
Proof. intros E. exists []. now rewrite app_nil_r. Qed.

Lemma count_exec_done (c : nat) (q : stmt) (s : db) (res : result) (s' : db) :
  one_row_per_device s -> exec c q s = Done res s' ->
  one_row_per_device s' /\ appended s s'.
Proof.
  unfold one_row_per_device. intros Hu H. destruct q; simpl in H.
  - inversion H; subst; simpl. split; [assumption|now apply appended_same].
  - destruct (existsb (has_device d) (winners s)) eqn:E; [discriminate|].
    inversion H; subst; simpl. split.
    + rewrite map_app. simpl.
      apply NoDup_app; [assumption|repeat constructor; intros []|].
      intros x Hx [<-|[]]. revert Hx. now apply no_device_fresh.
    + eexists. reflexivity.
  - inversion H; subst; simpl. split; [assumption|now apply appended_same].
Qed.

Lemma count_exec_raised (c : nat) (q : stmt) (s s' : db) :
  one_row_per_device s -> exec c q s = Raised s' ->
  one_row_per_device s' /\ appended s s'.
Proof.
  unfold one_row_per_device. intros Hu H. destruct q; simpl in H; try discriminate.
  destruct (existsb (has_device d) (winners s)); [|discriminate].
  inversion H; subst; simpl. split; [assumption|now apply appended_same].
Qed.
End CountTable.

Section CountStored.
Import ServerCount.

Lemma stored_appended (d : string) (s s' : db) (b : bool) :
  appended s s' -> stored d s = Some b -> stored d s' = Some b.
Proof.
  intros [l E]. unfold stored. rewrite E. clear E.
  induction (winners s) as [|x ws IH]; simpl; [discriminate|].
  destruct (has_device d x); [trivial|assumption].
Qed.
End CountStored.

(** X14.  The winners table of part_002 under any interleaving of any
    requests, whatever fails: it only grows, no two rows ever have the same
    [device_id] (the second insert of a device is rejected), and the outcome
    stored for a device never changes. *)
Theorem X14_one_row_per_device (s : ServerCount.db) (sch : list (nat * action))
    (ths ths' : list (thread ServerCount.stmt ServerCount.result))
    (s' : ServerCount.db) :
  one_row_per_device s ->
  sched_run ServerCount.exec sch s ths = Some (s', ths') ->
  one_row_per_device s' /\ appended s s' /\
  forall d b, ServerCount.stored d s = Some b -> ServerCount.stored d s' = Some b.
Proof.
  intros Hu H.
  destruct (sched_run_keeps _ _ _ ServerCount.exec one_row_per_device appended
              appended_refl appended_trans count_exec_done count_exec_raised
              sch s s' ths ths' Hu H) as [H1 H2].
  split; [assumption|]. split; [assumption|].
  intros d b. now apply stored_appended.
Qed.

Lemma X14_witness :
  match sched_run ServerCount.exec twin_schedule ServerCount.empty
                  (map ServerCount.draw twin_requests) with
  | Some (s', ths') =>
      length (ServerCount.winners s') = 1 /\
      replies ths' = [Some (json_draw true None 9%Z);
                      Some (json_error 200 "Error en servidor")] /\
      one_row_per_device s'
  | None => False
  end.
Proof.
  destruct (sched_run ServerCount.exec twin_schedule ServerCount.empty
                      (map ServerCount.draw twin_requests))
    as [[s' ths']|] eqn:E.
  - split; [vm_compute in E; inversion E; reflexivity|].
    split; [vm_compute in E; inversion E; reflexivity|].
    exact (proj1 (X14_one_row_per_device ServerCount.empty twin_schedule _ ths' s'
                    (NoDup_nil _) E)).
  - vm_compute in E. discriminate.
Defined.

Section CountCap.
Import ServerCount.
Local Arguments Z.sub : simpl never.
Local Arguments Z.leb : simpl never.
Local Arguments Z.of_nat : simpl never.

(** What a request of part_002 does to the count of winners, and the
    [remaining] it reports. *)
Lemma count_request (req : request) (d : string) (c : nat) (r : Q)
    (faults : list bool) (s : db) :
  truthy_id req = Some d ->
  let '(rp, (s', tr)) := run_thread exec c (draw req) r faults s in
  (count_won s' = count_won s \/
   (count_won s' = S (count_won s) /\ (Z.of_nat (count_won s) < MAX_PRIZES)%Z)) /\
  (forall a, rp = Some a -> ok a = true ->
     exists z, remaining a = Some z /\
               (z = (MAX_PRIZES - Z.of_nat (count_won s'))%Z \/
                (z = 0%Z /\ (MAX_PRIZES <= Z.of_nat (count_won s'))%Z))).
Proof.
  intros Hd. unfold draw. rewrite Hd.
  unfold run_thread.
  repeat count_path; cbn.
  all: unfold count_won; cbn.
  all: rewrite ?filter_app, ?length_app; cbn.
  all: repeat match goal with
              | H : (_ <=? _)%Z = true |- _ => apply Z.leb_le in H
              | H : (_ <=? _)%Z = false |- _ => apply Z.leb_gt in H
              end.
  all: split.
  all: try (left; reflexivity).
  all: try (intros a Ha Hok; inversion Ha; subst; cbn in Hok; discriminate).
  all: try (intros a Ha Hok; inversion Ha; subst; eexists; split; [reflexivity|]).
  all: try (destruct (Qltb _ _); cbn).
  all: rewrite ?Nat.add_0_r.
  all: try (left; reflexivity).
  all: try (right; split; [reflexivity|assumption]).
  all: try (right; split; [lia|assumption]).
Qed.

Lemma count_served (req : request) (c : nat) (r : Q) (faults : list bool) (s : db) :
  (Z.of_nat (count_won s) <= MAX_PRIZES)%Z ->
  let '(rp, (s', tr)) := run_thread exec c (draw req) r faults s in
  (Z.of_nat (count_won s') <= MAX_PRIZES)%Z /\
  forall a, rp = Some a -> ok a = true -> remaining_within MAX_PRIZES a.
Proof.
  intros Hle. destruct (truthy_id req) as [d|] eqn:Hm.
  - pose proof (count_request req d c r faults s Hm) as H.
    destruct (run_thread exec c (draw req) r faults s) as [rp [s' tr]].
    destruct H as [Hc Hr].
    assert (Hle' : (Z.of_nat (count_won s') <= MAX_PRIZES)%Z)
      by (destruct Hc as [->|[-> Hlt]]; lia).
    split; [assumption|].
    intros a Ha Hok. destruct (Hr a Ha Hok) as (z & Ez & Hz).
    exists z. split; [exact Ez|].
    destruct Hz as [->|[-> _]]; unfold MAX_PRIZES in *; lia.
  - unfold draw. rewrite Hm. simpl.
    split; [assumption|]. intros a Ha Hok; inversion Ha; subst; discriminate.
Qed.

Lemma count_cap (arr : list arrival) (c : nat) (s : db) :
  (Z.of_nat (count_won s) <= MAX_PRIZES)%Z ->
  (Z.of_nat (count_won (snd (serve exec draw c arr s))) <= MAX_PRIZES)%Z /\
  forall x a, In x (fst (serve exec draw c arr s)) -> s_reply x = Some a ->
              ok a = true -> remaining_within MAX_PRIZES a.
Proof.
  revert c s. induction arr as [|a0 arr IH]; intros c s Hle; simpl.
  - split; [assumption|]. intros x a [].
  - pose proof (count_served (a_req a0) c (a_random a0) (a_faults a0) s Hle) as H.
    destruct (run_thread exec c (draw (a_req a0)) (a_random a0) (a_faults a0) s)
      as [rp [s' tr]].
    destruct H as [Hle' Hr]. specialize (IH (S c) s' Hle').
    destruct (serve exec draw (S c) arr s') as [out s'']. simpl in *.
    destruct IH as [I1 I2]. split; [assumption|].
    intros x a [<-|Hin] Ha Hok; [now apply Hr|eapply I2; eassumption].
Qed.
End CountCap.

(** X15.  part_002 served one request after the other keeps its cap: when
    the winners counted are at most [MAX_PRIZES] (10), as on the empty
    table, they still are after any requests and whatever fails, and every
    draw result reports a [remaining] between 0 and 10. *)
Theorem X15_count_cap (arr : list arrival) (c : nat) (s : ServerCount.db) :
  (Z.of_nat (ServerCount.count_won s) <= ServerCount.MAX_PRIZES)%Z ->
  (Z.of_nat (ServerCount.count_won
               (snd (serve ServerCount.exec ServerCount.draw c arr s)))
   <= ServerCount.MAX_PRIZES)%Z /\
  forall x a,
    In x (fst (serve ServerCount.exec ServerCount.draw c arr s)) ->
    s_reply x = Some a -> ok a = true ->
    remaining_within ServerCount.MAX_PRIZES a.
Proof. apply count_cap. Qed.

Lemma X15_witness :
  (Z.of_nat (ServerCount.count_won
               (snd (serve ServerCount.exec ServerCount.draw 0
                       [{| a_req := ask "d1"; a_random := (1 # 10)%Q; a_faults := [] |};
                        {| a_req := ask "d2"; a_random := (1 # 10)%Q; a_faults := [] |}]
                       ServerCount.empty)))
   <= ServerCount.MAX_PRIZES)%Z.
Proof.
  apply (proj1 (X15_count_cap
                  [{| a_req := ask "d1"; a_random := (1 # 10)%Q; a_faults := [] |};
                   {| a_req := ask "d2"; a_random := (1 # 10)%Q; a_faults := [] |}]
                  0 ServerCount.empty ltac:(vm_compute; discriminate))).
Defined.

Section Overshoot.
Import ServerCount.
Local Arguments Z.sub : simpl never.
Local Arguments Z.leb : simpl never.
Local Arguments Z.of_nat : simpl never.

Lemma stored_none_filter (d : string) (s : db) :
  stored d s = None -> filter (has_device d) (winners s) = [].
Proof.
  unfold stored. rewrite find_filter.
  destruct (filter (has_device d) (winners s)); [reflexivity|discriminate].
Qed.

Lemma overshoot (req1 req2 : request) (d1 d2 : string) (r : Q) (s : db) :
  valid req1 d1 -> valid req2 d2 -> d1 <> d2 ->
  stored d1 s = None -> stored d2 s = None ->
  Z.of_nat (count_won s) = (MAX_PRIZES - 1)%Z ->
  in_unit_interval r = true -> js_lt r (Finite (3 # 10)) = true ->
  exists s',
    sched_run exec (overshoot_schedule r) s [draw req1; draw req2] =
      Some (s', [{| body := Ret (json_draw true None (-1)%Z);
                    handler := Some draw_catch |};
                 {| body := Ret (json_draw true None (-1)%Z);
                    handler := Some draw_catch |}]) /\
    Z.of_nat (count_won s') = (MAX_PRIZES + 1)%Z.
Proof.
  intros [Hd1 Hn1] [Hd2 Hn2] Hne H1 H2 Hc Hr Hl.
  pose proof (stored_none_filter _ _ H1) as F1.
  pose proof (stored_none_filter _ _ H2) as F2.
  pose proof (existsb_filter_nil _ _ F1) as E1.
  pose proof (existsb_filter_nil _ _ F2) as E2.
  unfold draw, overshoot_schedule.
  rewrite (valid_truthy _ _ (conj Hd1 Hn1)), (valid_truthy _ _ (conj Hd2 Hn2)).
  unfold count_won in Hc.
  assert (Hlt : (MAX_PRIZES <=? Z.of_nat (length (filter won_col (winners s))))%Z
                = false).
  { apply Z.leb_gt. unfold MAX_PRIZES in *. lia. }
  cbn. rewrite F1. cbn. rewrite F2. cbn. rewrite Hlt. cbn. rewrite Hr. cbn.
  unfold js_lt in Hl. rewrite Hl. cbn. rewrite E1. cbn.
  assert (E12 : String.eqb d1 d2 = false) by (now apply String.eqb_neq).
  rewrite existsb_app, E2. cbn. unfold has_device. cbn. rewrite E12. cbn.
  rewrite !filter_app, !length_app. cbn.
  assert (Z2 : (MAX_PRIZES - Z.of_nat (length (filter won_col (winners s)) + 1 + 1))%Z
               = (-1)%Z)
    by (unfold MAX_PRIZES in *; lia).
  rewrite Z2.
  eexists. split; [reflexivity|].
  unfold count_won. cbn. rewrite !filter_app, !length_app. cbn.
  unfold MAX_PRIZES in *. lia.
Qed.
End Overshoot.

(** X16.  The cap of part_002 does not hold for requests at the same time.
    The count of the winners and the insert are separate statements: with
    nine winners stored, two new devices whose requests both count before
    either inserts, and both draw below 0.3, are both recorded and answered
    as winners, which makes eleven, one more than [MAX_PRIZES]; both are
    told [remaining: -1]. *)
Theorem X16_count_overshoot (req1 req2 : request) (d1 d2 : string) (r : Q)
    (s : ServerCount.db) :
  valid req1 d1 -> valid req2 d2 -> d1 <> d2 ->
  ServerCount.stored d1 s = None -> ServerCount.stored d2 s = None ->
  Z.of_nat (ServerCount.count_won s) = (ServerCount.MAX_PRIZES - 1)%Z ->
  in_unit_interval r = true -> js_lt r (Finite (3 # 10)%Q) = true ->
  exists s' ths',
    sched_run ServerCount.exec (overshoot_schedule r) s
              [ServerCount.draw req1; ServerCount.draw req2] = Some (s', ths') /\
    replies ths' = [Some (json_draw true None (-1)%Z);
                    Some (json_draw true None (-1)%Z)] /\
    Z.of_nat (ServerCount.count_won s') = (ServerCount.MAX_PRIZES + 1)%Z.
Proof.
  intros Hv1 Hv2 Hne H1 H2 Hc Hr Hl.
  destruct (overshoot req1 req2 d1 d2 r s Hv1 Hv2 Hne H1 H2 Hc Hr Hl)
    as (s' & E & C).
  do 2 eexists. split; [exact E|]. split; [reflexivity|exact C].
Qed.

Lemma X16_witness :
  exists s' ths',
    sched_run ServerCount.exec (overshoot_schedule (1 # 10)%Q) nine_winners
              [ServerCount.draw (ask "d1"); ServerCount.draw (ask "d2")] =
      Some (s', ths') /\
    replies ths' = [Some (json_draw true None (-1)%Z);
                    Some (json_draw true None (-1)%Z)] /\
    Z.of_nat (ServerCount.count_won s') = 11%Z.
Proof.
  apply (X16_count_overshoot (ask "d1") (ask "d2") "d1" "d2" (1 # 10)%Q nine_winners
           (conj eq_refl eq_refl) (conj eq_refl eq_refl)).
  - discriminate.
  - reflexivity.
  - reflexivity.
  - reflexivity.
  - reflexivity.
  - reflexivity.
Defined.

(** ** A race for several tokens *)

Section PoolRace.
Import Db.

Lemma pool_drained (f : phase -> bool) (xs : list ticket) (av n0 : nat) :
  (forall x, In x xs -> exists a b, t_at x = PReplied a b) ->
  (forall a b, f (PReplied a b) = secured (PReplied a b)) ->
  count (fun x => f (t_at x)) xs + av = n0 ->
  (existsb (fun x => lost (t_at x)) xs = true -> av = 0) ->
  count (fun x => secured (t_at x)) xs = Nat.min (length xs) n0 /\
  av = n0 - Nat.min (length xs) n0.
Proof.
  intros Hrep Hf A L.
  rewrite (count_ext_in (fun x => f (t_at x)) (fun x => secured (t_at x))) in A.
  2:{ intros x Hx. destruct (Hrep x Hx) as (a & b & ->). apply Hf. }
  pose proof (secured_or_lost xs Hrep) as E.
  destruct (existsb (fun x => lost (t_at x)) xs) eqn:El.
  - specialize (L eq_refl). lia.
  - destruct (count_none (fun x => lost (t_at x)) xs) as [Z _]; [|lia].
    intros x Hx. destruct (lost (t_at x)) eqn:Ex; [|reflexivity].
    rewrite <- El. symmetry. apply existsb_exists. exists x. auto.
Qed.

Section Outcome.
Variable th : ticket -> thread stmt result.
Hypothesis th_replied :
  forall x a, reply (th x) = Some a -> exists b, t_at x = PReplied a b.

Lemma pool_result (s0 s' : db) (reqs : list request) (xs : list ticket) :
  all_replied (map th xs) = true ->
  map t_dev xs = map PgPhases.device reqs ->
  (forall i x, nth_error xs i = Some x -> racing (t_at x)) ->
  count (fun x => secured (t_at x)) xs = Nat.min (length xs) (avail s0) ->
  avail s' = avail s0 - Nat.min (length xs) (avail s0) ->
  claims_kept s0 s' ->
  (forall i x, nth_error xs i = Some x -> secured (t_at x) = true ->
               existsb (claimed_for (t_dev x)) (prize_tokens s') = true) ->
  pool_outcome s0 reqs s' (map th xs).
Proof.
  intros Hall Hdev G Hone Hav K S.
  pose proof (replied_all th th_replied xs Hall) as Hr.
  assert (Hlen : length xs = length reqs).
  { rewrite <- (length_map t_dev xs), Hdev. apply length_map. }
  split; [rewrite (count_won_replied th th_replied xs Hall); now rewrite <- Hlen|].
  split; [now rewrite <- Hlen|].
  split; [|split; [|assumption]].
  - intros i rp Hi Hw. unfold replies in Hi. rewrite !nth_error_map in Hi.
    destruct (nth_error xs i) as [x|] eqn:Hx; [|discriminate].
    simpl in Hi. inversion Hi; subst rp; clear Hi.
    destruct (Hr x (nth_error_In _ _ Hx)) as (a & b & Hat & Ha).
    rewrite Ha in *. specialize (G i x Hx). rewrite Hat in G. simpl in G.
    destruct G as [[z ->]| ->]; [discriminate|reflexivity].
  - intros i req rp Hq Hi Hw. unfold replies in Hi. rewrite !nth_error_map in Hi.
    destruct (nth_error xs i) as [x|] eqn:Hx; [|discriminate].
    simpl in Hi. inversion Hi; subst rp; clear Hi.
    destruct (Hr x (nth_error_In _ _ Hx)) as (a & b & Hat & Ha).
    assert (Ed : t_dev x = PgPhases.device req).
    { assert (E : nth_error (map t_dev xs) i = nth_error (map PgPhases.device reqs) i)
        by now rewrite Hdev.
      rewrite !nth_error_map, Hx, Hq in E. simpl in E. congruence. }
    rewrite <- Ed. apply (S i x Hx). rewrite Hat. simpl.
    rewrite Ha in Hw. exact Hw.
Qed.
End Outcome.

Lemma pg_pool_race (e : env) (s0 : db) (reqs : list request)
    (sch : list (nat * action)) (s' : db) (ths' : list (thread stmt result)) :
  settled s0 = true ->
  NoDup (map PgPhases.device reqs) -> forallb (racer e s0) reqs = true ->
  no_faults sch = true ->
  sched_run exec sch s0 (map (ServerPg.draw e) reqs) = Some (s', ths') ->
  all_replied ths' = true ->
  pool_outcome s0 reqs s' ths'.
Proof.
  intros Hs Hd Hr Hf H Hall.
  assert (Hkept : wf s' = true /\ claims_kept s0 s').
  { exact (sched_run_keeps _ _ _ exec (fun x => wf x = true) claims_kept
             claims_kept_refl claims_kept_trans keeps_wf_done keeps_wf_raised
             sch s0 s' _ ths' (settled_wf s0 Hs) H). }
  assert (E : map (ServerPg.draw e) reqs = map pg_thread (map (pg_ticket e) reqs)).
  { rewrite map_map. apply map_ext. intros req. apply pg_start. }
  rewrite E in H.
  rewrite (machine_run_threads PgPhases.next pg_thread) in H.
  2:{ intros c a x s. apply pg_step. }
  destruct (machine_run PgPhases.next sch s0 (map (pg_ticket e) reqs))
    as [[s1 xs']|] eqn:Hm; [|discriminate].
  inversion H; subst s1 ths'; clear H.
  pose proof (machine_run_devices _ _ _ _ _ _ Hm) as Hdev.
  rewrite map_map in Hdev. simpl in Hdev.
  pose proof (pg_race_start e s0 reqs Hs Hd Hr) as I0.
  apply (machine_run_inv_no_faults PgPhases.next (pg_race_inv (avail s0))
           (fun i a x s xs ph' s2 Ha => pg_race_step (avail s0) i a x s xs ph' s2 Ha)
           sch s0 s' _ xs' Hf I0) in Hm.
  destruct Hm as (_ & _ & G & _ & _ & _ & A & L & _ & S).
  destruct (pool_drained (fun ph => holding ph || secured ph) xs' (avail s') (avail s0))
    as [Hone Hz]; try assumption.
  - intros x Hx. destruct (replied_all pg_thread pg_replied xs' Hall x Hx)
      as (a & b & Hat & _). eauto.
  - reflexivity.
  - apply (pool_result pg_thread pg_replied); try assumption. apply Hkept.
Qed.

Lemma my_pool_race (e : env) (s0 : db) (reqs : list request)
    (sch : list (nat * action)) (s' : db) (ths' : list (thread stmt result)) :
  settled s0 = true ->
  NoDup (map PgPhases.device reqs) -> forallb (racer e s0) reqs = true ->
  no_faults sch = true ->
  sched_run exec sch s0 (map (ServerMysql.draw e) reqs) = Some (s', ths') ->
  all_replied ths' = true ->
  pool_outcome s0 reqs s' ths'.
Proof.
  intros Hs Hd Hr Hf H Hall.
  assert (Hkept : wf s' = true /\ claims_kept s0 s').
  { exact (sched_run_keeps _ _ _ exec (fun x => wf x = true) claims_kept
             claims_kept_refl claims_kept_trans keeps_wf_done keeps_wf_raised
             sch s0 s' _ ths' (settled_wf s0 Hs) H). }
  assert (E : map (ServerMysql.draw e) reqs = map my_thread (map (pg_ticket e) reqs)).
  { rewrite map_map. apply map_ext. intros req. apply my_start. }
  rewrite E in H.
  rewrite (machine_run_threads MyPhases.next my_thread) in H.
  2:{ intros c a x s. apply my_step. }
  destruct (machine_run MyPhases.next sch s0 (map (pg_ticket e) reqs))
    as [[s1 xs']|] eqn:Hm; [|discriminate].
  inversion H; subst s1 ths'; clear H.
  pose proof (machine_run_devices _ _ _ _ _ _ Hm) as Hdev.
  rewrite map_map in Hdev. simpl in Hdev.
  pose proof (my_race_start e s0 reqs Hs Hd Hr) as I0.
  apply (machine_run_inv_no_faults MyPhases.next (my_race_inv (avail s0))
           (fun i a x s xs ph' s2 Ha => my_race_step (avail s0) i a x s xs ph' s2 Ha)
           sch s0 s' _ xs' Hf I0) in Hm.
  destruct Hm as (_ & _ & _ & G & A & L & _ & S).
  destruct (pool_drained secured_my xs' (avail s') (avail s0))
    as [Hone Hz]; try assumption.
  - intros x Hx. destruct (replied_all my_thread my_replied xs' Hall x Hx)
      as (a & b & Hat & _). eauto.
  - reflexivity.
  - apply (pool_result my_thread my_replied); try assumption.
    + apply Hkept.
    + intros i x Hx Hsec. apply (S i x Hx). unfold secured_my. rewrite Hsec.
      now destruct (t_at x).
Qed.
End PoolRace.

(** X17.  A race for several tokens.  On src/server.js and on part_001,
    from a store at rest, when new devices, one request each with a rate of
    1 or more, so that all pass the gate, have their statements interleaved
    in any way, without failure: once all are answered,
    as many are told they won as there are free tokens or requests,
    whichever is less; the others are all told [no_prizes_left]; the free
    tokens have decreased by the number of winners; each winner's device has
    a token claimed for it; and no earlier claim was touched. *)
Theorem X17_pool_race (e : env) (s0 : Db.db) (reqs : list request)
    (sch : list (nat * action)) :
  Db.settled s0 = true ->
  NoDup (map PgPhases.device reqs) -> forallb (racer e s0) reqs = true ->
  no_faults sch = true ->
  (forall (s' : Db.db) (ths' : list (thread Db.stmt Db.result)),
     sched_run Db.exec sch s0 (map (ServerPg.draw e) reqs) = Some (s', ths') ->
     all_replied ths' = true ->
     pool_outcome s0 reqs s' ths') /\
  (forall (s' : Db.db) (ths' : list (thread Db.stmt Db.result)),
     sched_run Db.exec sch s0 (map (ServerMysql.draw e) reqs) = Some (s', ths') ->
     all_replied ths' = true ->
     pool_outcome s0 reqs s' ths').
Proof.
  intros Hs Hd Hr Hf. split; intros s' ths' H Hall.
  - eapply pg_pool_race; eassumption.
  - eapply my_pool_race; eassumption.
Qed.

Lemma X17_witness :
  match sched_run Db.exec pool_schedule (Db.seeded 2)
                  (map (ServerPg.draw env0) pool_requests) with
  | Some (s', ths') =>
      all_replied ths' = true /\ pool_outcome (Db.seeded 2) pool_requests s' ths'
  | None => False
  end.
Proof.
  assert (Hd : NoDup (map PgPhases.device pool_requests)).
  { repeat constructor; simpl; intuition discriminate. }
  destruct (sched_run Db.exec pool_schedule (Db.seeded 2)
                      (map (ServerPg.draw env0) pool_requests))
    as [[s' ths']|] eqn:E.
  - assert (Hall : all_replied ths' = true)
      by (vm_compute in E; inversion E; reflexivity).
    split; [exact Hall|].
    exact (proj1 (X17_pool_race env0 (Db.seeded 2) pool_requests pool_schedule
                    eq_refl Hd eq_refl eq_refl) s' ths' E Hall).
  - vm_compute in E. discriminate.
Defined.

(** ** part_002: failures *)

Section CountErrors.
Import ServerCount.
Local Arguments Z.sub : simpl never.
Local Arguments Z.leb : simpl never.
Local Arguments Z.of_nat : simpl never.

Lemma count_replies (req : request) (c : nat) (r : Q) (faults : list bool)
    (s : db) :
  let '(rp, (s', tr)) := run_thread exec c (draw req) r faults s in
  exists a, rp = Some a /\ status a = 200 /\
    (ok a = true -> truthy_id req <> None /\ no_failure tr = true) /\
    (ok a = false ->
     (truthy_id req = None /\ a = json_error 200 "Falta deviceId" /\
      tr = [] /\ s' = s) \/
     (truthy_id req <> None /\ a = json_error 200 "Error en servidor" /\
      no_failure tr = false)).
Proof.
  unfold draw. destruct (truthy_id req) as [d|] eqn:Hm.
  - unfold run_thread.
    repeat count_path; cbn.
    all: eexists; split; [reflexivity|]; split; [reflexivity|]; cbn.
    all: split; intros Hok; try discriminate.
    all: try (split; [discriminate|reflexivity]).
    all: right; repeat split; try reflexivity; discriminate.
  - cbn.
    eexists; split; [reflexivity|]; split; [reflexivity|]; cbn.
    split; intros Hok; try discriminate.
    left; repeat split; reflexivity.
Qed.

Lemma count_unreported (req : request) (d : string) (c : nat) (r : Q) (s : db) :
  truthy_id req = Some d -> stored d s = None ->
  (MAX_PRIZES <=? Z.of_nat (count_won s))%Z = false ->
  exists s',
    run_thread exec c (draw req) r [false; false; false; true] s =
      (Some (json_error 200 "Error en servidor"),
       (s', [EvQuery (SELECT_won d) true; EvQuery SELECT_count_won true;
             EvRandom r;
             EvQuery (INSERT_winner d (js_lt r (Finite (3 # 10)))) true;
             EvQuery SELECT_count_won false])) /\
    stored d s' = Some (js_lt r (Finite (3 # 10))).
Proof.
  intros Hd Hs Hmax.
  pose proof (unseen_filter d s Hs) as Hf.
  unfold draw. rewrite Hd. unfold run_thread. cbn.
  rewrite Hf. cbn. unfold count_won in Hmax. rewrite Hmax. cbn.
  rewrite (existsb_filter_nil _ _ Hf). cbn.
  eexists. split; [reflexivity|].
  unfold stored. cbn. rewrite find_filter, filter_app, Hf. cbn.
  unfold has_device. cbn. now rewrite String.eqb_refl.
Qed.

Lemma count_replayed (req : request) (d : string) (c : nat) (r : Q) (s : db)
    (b : bool) :
  truthy_id req = Some d -> stored d s = Some b ->
  fst (run_thread exec c (draw req) r [] s) =
    Some {| status := 200; ok := true; won := Some b;
            reason := Some "already_winner";
            remaining := Some (MAX_PRIZES - Z.of_nat (count_won s))%Z;
            error := None |}.
Proof.
  intros Hd Hs.
  destruct (stored_filter d s b Hs) as (w & l & Hf & Hw).
  unfold draw. rewrite Hd. unfold run_thread. cbn.
  rewrite Hf. cbn. now rewrite Hw.
Qed.
End CountErrors.

(** X18.  part_002 sends a reply to every request that has a body, always
    with status 200: a failure is only visible in the reply's body.  The
    reply has [ok: false] exactly when the [deviceId] is falsy (error
    "Falta deviceId", nothing executed) or when a statement failed (error
    "Error en servidor").  A request without body makes the handler throw
    before its [try]: it executes nothing and sends nothing.  And when the
    statement that fails is the last count, after the outcome of a new
    device was inserted, the device is answered "Error en servidor"
    although its outcome is stored: its next request gets that outcome back
    as [already_winner]. *)
Theorem X18_count_failures :
  (forall (body : option request) (c : nat) (r : Q) (faults : list bool)
          (s : ServerCount.db),
     let '(rp, (s', tr)) :=
       run_thread ServerCount.exec c (ServerCount.post_draw body) r faults s in
     match body with
     | None => rp = None /\ tr = [] /\ s' = s
     | Some req =>
         exists a, rp = Some a /\ status a = 200 /\
           (ok a = true ->
            ServerCount.truthy_id req <> None /\ no_failure tr = true) /\
           (ok a = false ->
            (ServerCount.truthy_id req = None /\
             a = json_error 200 "Falta deviceId" /\ tr = [] /\ s' = s) \/
            (ServerCount.truthy_id req <> None /\
             a = json_error 200 "Error en servidor" /\ no_failure tr = false))
     end) /\
  (forall (req : request) (d : string) (c : nat) (r : Q) (s : ServerCount.db),
     ServerCount.truthy_id req = Some d -> ServerCount.stored d s = None ->
     (Z.of_nat (ServerCount.count_won s) < ServerCount.MAX_PRIZES)%Z ->
     exists s' tr,
       run_thread ServerCount.exec c (ServerCount.post_draw (Some req)) r
                  [false; false; false; true] s =
         (Some (json_error 200 "Error en servidor"), (s', tr)) /\
       ServerCount.stored d s' = Some (js_lt r (Finite (3 # 10)%Q)) /\
       forall (req' : request) (c' : nat) (r' : Q),
         ServerCount.truthy_id req' = Some d ->
         fst (run_thread ServerCount.exec c' (ServerCount.post_draw (Some req'))
                         r' [] s') =
           Some {| status := 200; ok := true;
                   won := Some (js_lt r (Finite (3 # 10)%Q));
                   reason := Some "already_winner";
                   remaining :=
                     Some (ServerCount.MAX_PRIZES
                           - Z.of_nat (ServerCount.count_won s'))%Z;
                   error := None |}).
Proof.
  split.
  - intros [req|] c r faults s.
    + apply count_replies.
    + cbn. repeat split.
  - intros req d c r s Hd Hs Hlt.
    destruct (count_unreported req d c r s Hd Hs) as (s' & Hrun & Hst).
    { apply Z.leb_gt. exact Hlt. }
    exists s'. eexists. split; [exact Hrun|]. split; [exact Hst|].
    intros req' c' r' Hd'. exact (count_replayed req' d c' r' s' _ Hd' Hst).
Qed.

Lemma X18_witness :
  exists s' tr,
    run_thread ServerCount.exec 0 (ServerCount.post_draw (Some (ask "d1")))
               (1 # 10)%Q [false; false; false; true] ServerCount.empty =
      (Some (json_error 200 "Error en servidor"), (s', tr)) /\
    ServerCount.stored "d1" s' = Some true /\
    fst (run_thread ServerCount.exec 1
           (ServerCount.post_draw
              (Some {| deviceId_value := StringId "d1"; winRate := None |}))
           (1 # 2)%Q [] s') =
      Some {| status := 200; ok := true; won := Some true;
              reason := Some "already_winner"; remaining := Some 9%Z;
              error := None |}.
Proof.
  destruct (proj2 X18_count_failures (ask "d1") "d1" 0 (1 # 10)%Q
              ServerCount.empty eq_refl eq_refl eq_refl)
    as (s' & tr & Hrun & Hst & Hnext).
  exists s', tr. split; [exact Hrun|]. split; [exact Hst|].
  rewrite (Hnext {| deviceId_value := StringId "d1"; winRate := None |}
                 1 (1 # 2)%Q eq_refl).
  vm_compute in Hrun. inversion Hrun; subst. reflexivity.
Defined.

(** * The claims of the specification *)

(** C3 (amended).  For an identity that already has a WinnerRecord, a draw
    request on src/server.js and on part_001 returns
    [{won:false, reason:"already_winner", remaining: remainingCount()}]; on
    part_002 it returns the stored outcome as [won] (so [won:true] for a
    stored win), with reason ["already_winner"] and
    [remaining: MAX_PRIZES - countWinners()].  In all three servers the
    request issues only the registry lookup and the count: no random draw, no
    token claim, no registry write. *)
Theorem C3_prior_win_short_circuits (req : request) (d : string) (c : nat) (r : Q) :
  valid req d ->
  (forall (e : env) (s : Db.db),
     Db.is_winner d s = true -> Db.idle c s = true ->
     exists s',
       run_thread Db.exec c (ServerPg.draw e req) r [] s =
         (Some (json_draw false (Some "already_winner")
                          (Z.of_nat (Db.remainingCount s))),
          (s', [EvQuery (Db.SELECT_winner d) true;
                EvQuery Db.SELECT_remaining true]))
       /\ Db.same_tables s s') /\
  (forall (e : env) (s : Db.db),
     Db.is_winner d s = true -> Db.idle c s = true ->
     exists s',
       run_thread Db.exec c (ServerMysql.draw e req) r [] s =
         (Some (json_draw false (Some "already_winner")
                          (Z.of_nat (Db.remainingCount s))),
          (s', [EvQuery (Db.SELECT_winner d) true;
                EvQuery Db.SELECT_remaining true]))
       /\ Db.same_tables s s') /\
  (forall (s : ServerCount.db) (b : bool),
     ServerCount.stored d s = Some b ->
     exists s',
       run_thread ServerCount.exec c (ServerCount.draw req) r [] s =
         (Some {| status := 200; ok := true; won := Some b;
                  reason := Some "already_winner";
                  remaining :=
                    Some (ServerCount.MAX_PRIZES
                          - Z.of_nat (ServerCount.count_won s))%Z;
                  error := None |},
          (s', [EvQuery (ServerCount.SELECT_won d) true;
                EvQuery ServerCount.SELECT_count_won true]))
       /\ ServerCount.winners s' = ServerCount.winners s).
Proof.
  intros Hv. repeat split.
  - intros e s Hw Hi. now apply pg_already.
  - intros e s Hw Hi. now apply my_already.
  - intros s b Hs. apply count_already; [now apply valid_truthy|assumption].
Qed.

Lemma C3_witness :
  (exists s',
     run_thread Db.exec 7 (ServerPg.draw env0 (ask "d1")) (1 # 2)%Q [] pool1_d1_won =
       (Some (json_draw false (Some "already_winner") 0%Z),
        (s', [EvQuery (Db.SELECT_winner "d1") true;
              EvQuery Db.SELECT_remaining true]))
     /\ Db.same_tables pool1_d1_won s') /\
  (exists s',
     run_thread ServerCount.exec 7 (ServerCount.draw (ask "d1")) (1 # 2)%Q []
                (count_d1 false) =
       (Some {| status := 200; ok := true; won := Some false;
                reason := Some "already_winner"; remaining := Some 10%Z;
                error := None |},
        (s', [EvQuery (ServerCount.SELECT_won "d1") true;
              EvQuery ServerCount.SELECT_count_won true]))
     /\ ServerCount.winners s' = ServerCount.winners (count_d1 false)).
Proof.
  assert (Hv : valid (ask "d1") "d1") by (split; reflexivity).
  split.
  - apply (proj1 (C3_prior_win_short_circuits (ask "d1") "d1" 7 (1 # 2)%Q Hv) env0 pool1_d1_won);
      reflexivity.
  - apply (proj2 (proj2 (C3_prior_win_short_circuits (ask "d1") "d1" 7 (1 # 2)%Q Hv))
             (count_d1 false) false).
    reflexivity.
Defined.

(** On part_002 an identity with a stored win is answered [won:true]. *)
Lemma C3_counterexample :
  ServerCount.stored "d1" (count_d1 true) = Some true /\
  exists a s' tr,
    run_thread ServerCount.exec 0 (ServerCount.draw (ask "d1")) (1 # 2)%Q []
               (count_d1 true) = (Some a, (s', tr)) /\
    won a = Some true /\ reason a = Some "already_winner".
Proof.
  split; [reflexivity|]. do 3 eexists. split; [reflexivity|]. split; reflexivity.
Qed.

(** C4 (amended).  A draw request that loses the random gate
    ([Math.random() < rate] is false, in particular [r >= rate]) gets
    [{won:false, remaining: remainingCount()}] without a reason.  On
    src/server.js and part_001 it changes no table: no token's [claimedBy]
    changes and no WinnerRecord is inserted.  On part_002, whose gate is a
    fixed 0.3, it inserts a winners row [(deviceId, won = false)]; the
    remaining count is not decremented there either. *)
Theorem C4_gate_loss (req : request) (d : string) (c : nat) (r : Q) :
  valid req d ->
  (forall (e : env) (s : Db.db),
     Db.idle c s = true -> Db.is_winner d s = false ->
     js_lt r (rate_of e req) = false ->
     exists s',
       run_thread Db.exec c (ServerPg.draw e req) r [] s =
         (Some (json_draw false None (Z.of_nat (Db.remainingCount s))),
          (s', [EvQuery (Db.SELECT_winner d) true; EvRandom r;
                EvQuery Db.SELECT_remaining true]))
       /\ Db.same_tables s s') /\
  (forall (e : env) (s : Db.db),
     Db.idle c s = true -> Db.is_winner d s = false ->
     js_lt r (rate_of e req) = false ->
     exists s',
       run_thread Db.exec c (ServerMysql.draw e req) r [] s =
         (Some (json_draw false None (Z.of_nat (Db.remainingCount s))),
          (s', [EvQuery (Db.SELECT_winner d) true; EvRandom r;
                EvQuery Db.SELECT_remaining true]))
       /\ Db.same_tables s s') /\
  (forall (s : ServerCount.db),
     ServerCount.stored d s = None ->
     (ServerCount.MAX_PRIZES <=? Z.of_nat (ServerCount.count_won s))%Z = false ->
     js_lt r (Finite (3 # 10)%Q) = false ->
     exists s',
       run_thread ServerCount.exec c (ServerCount.draw req) r [] s =
         (Some (json_draw false None
                  (ServerCount.MAX_PRIZES - Z.of_nat (ServerCount.count_won s))%Z),
          (s', [EvQuery (ServerCount.SELECT_won d) true;
                EvQuery ServerCount.SELECT_count_won true;
                EvRandom r;
                EvQuery (ServerCount.INSERT_winner d false) true;
                EvQuery ServerCount.SELECT_count_won true]))
       /\ ServerCount.winners s' =
            ServerCount.winners s ++
            [{| ServerCount.id := ServerCount.next_id s;
                ServerCount.device_id := d;
                ServerCount.won_col := false;
                ServerCount.created_at := S (S (ServerCount.clock s)) |}]
       /\ ServerCount.count_won s' = ServerCount.count_won s).
Proof.
  intros Hv. repeat split.
  - intros e s Hi Hw Hl. now apply pg_lost.
  - intros e s Hi Hw Hl. now apply my_lost.
  - intros s Hs Hmax Hl.
    destruct (count_gate req d c r s (valid_truthy _ _ Hv) false Hs Hmax Hl) as (s' & Hrun & Hw).
    assert (Hc : ServerCount.count_won s' = ServerCount.count_won s).
    { unfold ServerCount.count_won. rewrite Hw, filter_app. simpl.
      rewrite app_nil_r. reflexivity. }
    exists s'. rewrite Hrun, Hc. auto.
Qed.

Lemma C4_witness :
  (exists s',
     run_thread Db.exec 0 (ServerPg.draw env0 (ask "d2")) (1 # 2)%Q [] (Db.seeded 3) =
       (Some (json_draw false None 3%Z),
        (s', [EvQuery (Db.SELECT_winner "d2") true; EvRandom (1 # 2)%Q;
              EvQuery Db.SELECT_remaining true]))
     /\ Db.same_tables (Db.seeded 3) s') /\
  (exists s',
     run_thread Db.exec 0 (ServerMysql.draw env0 (ask "d2")) (1 # 2)%Q [] (Db.seeded 3) =
       (Some (json_draw false None 3%Z),
        (s', [EvQuery (Db.SELECT_winner "d2") true; EvRandom (1 # 2)%Q;
              EvQuery Db.SELECT_remaining true]))
     /\ Db.same_tables (Db.seeded 3) s').
Proof.
  assert (Hv : valid (ask "d2") "d2") by (split; reflexivity).
  split.
  - apply (proj1 (C4_gate_loss (ask "d2") "d2" 0 (1 # 2)%Q Hv) env0 (Db.seeded 3)); reflexivity.
  - apply (proj1 (proj2 (C4_gate_loss (ask "d2") "d2" 0 (1 # 2)%Q Hv)) env0 (Db.seeded 3));
      reflexivity.
Defined.

(** On part_002 a request that loses the gate inserts a winners row. *)
Lemma C4_counterexample :
  js_lt (1 # 2)%Q (Finite (3 # 10)%Q) = false /\
  exists a s' tr,
    run_thread ServerCount.exec 0 (ServerCount.draw (ask "d1")) (1 # 2)%Q []
               ServerCount.empty = (Some a, (s', tr)) /\
    won a = Some false /\ reason a = None /\
    ServerCount.winners s' <> ServerCount.winners ServerCount.empty /\
    ServerCount.stored "d1" s' = Some false.
Proof.
  split; [reflexivity|]. do 3 eexists. split; [reflexivity|].
  repeat split; try reflexivity. discriminate.
Qed.

(** ** The claim statement *)

Section ClaimOutcome.
Import Db.

Lemma settled_free (s : db) :
  settled s = true ->
  existsb free_row (prize_tokens s) = (0 <? remainingCount s).
Proof.
  unfold settled, remainingCount, committed_tokens. intros H.
  apply andb_true_iff in H as [H _]. apply andb_true_iff in H as [_ H].
  induction (prize_tokens s) as [|x l IH]; [reflexivity|].
  simpl in H. apply andb_true_iff in H as [Hx Hl]. specialize (IH Hl).
  simpl. unfold free_row at 1. destruct (upd x); [discriminate|].
  rewrite andb_true_r. destruct (is_null (claimed_by (cur x))); simpl.
  - reflexivity.
  - exact IH.
Qed.

Lemma claim_row_settled (c : nat) (d : string) (now : nat) (l1 l2 : list token_row)
    (t : token_row) (s s' : db) :
  settled s = true -> prize_tokens s = l1 ++ t :: l2 ->
  prize_tokens s' =
    l1 ++ {| cur := claimed_token_of d now t; upd := None |} :: l2 ->
  winners s' = winners s -> in_tx s' = in_tx s -> settled s' = true.
Proof.
  unfold settled. intros H E E' Ew Ex. rewrite E', Ew, Ex. rewrite E in H.
  apply andb_true_iff in H as [H Hw]. apply andb_true_iff in H as [Hx Ht].
  rewrite Hx, Hw. rewrite forallb_app in *. simpl in *.
  apply andb_true_iff in Ht as [H1 H2]. apply andb_true_iff in H2 as [_ H2].
  now rewrite H1, H2.
Qed.

(** [tryClaimPrize] of src/server.js, with the row it writes. *)
Lemma pg_claims_one (c : nat) (d : string) (r : Q) (s : db) :
  no_writes c s = true ->
  exists s',
    run exec c (ServerPg.tryClaimPrize d) r [] s =
      (Returned (existsb free_row (prize_tokens s)),
       ([], s', [EvQuery (UPDATE_claim_skip_locked d) true])) /\
    if existsb free_row (prize_tokens s) then
      exists l1 t l2,
        prize_tokens s = l1 ++ t :: l2 /\
        existsb free_row l1 = false /\ free_row t = true /\
        prize_tokens s' =
          l1 ++ (if in_transaction c s
                 then {| cur := cur t;
                         upd := Some (c, claimed_token_of d (clock s) t) |}
                 else {| cur := claimed_token_of d (clock s) t; upd := None |})
             :: l2 /\
        winners s' = winners s /\ in_tx s' = in_tx s
    else same_tables s s'.
Proof.
  intros Hnw.
  destruct (claim_statement c d s Hnw) as [[Hf Hc]|(l1 & t & l2 & E & H1 & Ht & Hc)].
  - rewrite Hf. cbn. rewrite Hc. cbn. eexists. split; [reflexivity|]. repeat split.
  - assert (Hf : existsb free_row (prize_tokens s) = true).
    { rewrite E, existsb_app. simpl. rewrite Ht. now rewrite orb_true_r. }
    rewrite Hf. cbn. rewrite Hc. cbn. eexists. split; [reflexivity|].
    exists l1, t, l2. cbn. unfold claim_row, claimed_token_of.
    repeat split; try assumption.
Qed.

(** [tryClaimPrize] of part_001, with the row it writes. *)
Lemma my_claims_one (c : nat) (d : string) (r : Q) (s : db) :
  settled s = true ->
  exists s',
    run exec c (ServerMysql.tryClaimPrize d) r [] s =
      (Returned (0 <? remainingCount s),
       ([], s', [EvQuery (UPDATE_claim_limit_1 d) true])) /\
    settled s' = true /\
    if 0 <? remainingCount s then
      exists l1 t l2,
        prize_tokens s = l1 ++ t :: l2 /\
        existsb free_row l1 = false /\ free_row t = true /\
        prize_tokens s' =
          l1 ++ {| cur := claimed_token_of d (clock s) t; upd := None |} :: l2 /\
        winners s' = winners s /\ in_tx s' = in_tx s /\
        remainingCount s' + 1 = remainingCount s
    else same_tables s s'.
Proof.
  intros Hs. pose proof (settled_idle c s Hs) as Hi.
  destruct (idle_no_writes _ _ Hi) as [Htx Hnw].
  rewrite <- (settled_free s Hs).
  destruct (claim_statement c d s Hnw) as [[Hf Hc]|(l1 & t & l2 & E & H1 & Ht & Hc)].
  - rewrite Hf. cbn. rewrite (settled_unlocked c s Hs), Hc. cbn.
    eexists. split; [reflexivity|]. split; [|repeat split].
    unfold settled in *. exact Hs.
  - assert (Hf : existsb free_row (prize_tokens s) = true).
    { rewrite E, existsb_app. simpl. rewrite Ht. now rewrite orb_true_r. }
    rewrite Hf. cbn. rewrite (settled_unlocked c s Hs), Hc. cbn.
    rewrite Htx. unfold claim_row. fold (claimed_token_of d (clock s) t).
    eexists. split; [reflexivity|].
    split.
    + eapply (claim_row_settled c d (clock s) l1 l2 t s); try eassumption;
        reflexivity.
    + exists l1, t, l2.
      split; [exact E|]. split; [exact H1|]. split; [exact Ht|].
      split; [reflexivity|]. split; [reflexivity|]. split; [reflexivity|].
      apply (remaining_claim d (clock s) l1 l2 t s _ E Ht). reflexivity.
Qed.
End ClaimOutcome.

(** C7 (amended).  [tryClaimPrize(identity)] returns true iff it turned
    exactly one token into a token claimed by the identity — the first one
    that is not claimed and that no open transaction is claiming — and false
    iff there was no such token when the statement ran.  The row it writes
    is given in full: on part_001, and on src/server.js outside a
    transaction, the committed row with [claimed_by] the identity; on
    src/server.js inside the transaction of the draw, the same row as an
    uncommitted update of the connection, the committed row being as
    before.  On part_001, and whenever no transaction is open, such a token
    exists iff [remainingCount()] is positive.  When [tryClaimPrize] returns
    false the draw answers exactly
    [{won:false, reason:"no_prizes_left", remaining:0}] and changes no
    table. *)
Theorem C7_claim_outcome (c : nat) (d : string) (r : Q) :
  (forall s : Db.db,
     Db.no_writes c s = true ->
     exists s',
       run Db.exec c (ServerPg.tryClaimPrize d) r [] s =
         (Returned (existsb Db.free_row (Db.prize_tokens s)),
          ([], s', [EvQuery (Db.UPDATE_claim_skip_locked d) true])) /\
       if existsb Db.free_row (Db.prize_tokens s) then
         exists l1 t l2,
           Db.prize_tokens s = l1 ++ t :: l2 /\
           existsb Db.free_row l1 = false /\ Db.free_row t = true /\
           Db.prize_tokens s' =
             l1 ++ (if Db.in_transaction c s
                    then {| Db.cur := Db.cur t;
                            Db.upd := Some (c, claimed_token_of d (Db.clock s) t) |}
                    else {| Db.cur := claimed_token_of d (Db.clock s) t;
                            Db.upd := None |})
                :: l2 /\
           Db.winners s' = Db.winners s /\ Db.in_tx s' = Db.in_tx s
       else Db.same_tables s s') /\
  (forall s : Db.db,
     Db.settled s = true ->
     existsb Db.free_row (Db.prize_tokens s) = (0 <? Db.remainingCount s)) /\
  (forall s : Db.db,
     Db.settled s = true ->
     exists s',
       run Db.exec c (ServerMysql.tryClaimPrize d) r [] s =
         (Returned (0 <? Db.remainingCount s),
          ([], s', [EvQuery (Db.UPDATE_claim_limit_1 d) true])) /\
       Db.settled s' = true /\
       if 0 <? Db.remainingCount s then
         exists l1 t l2,
           Db.prize_tokens s = l1 ++ t :: l2 /\
           existsb Db.free_row l1 = false /\ Db.free_row t = true /\
           Db.prize_tokens s' =
             l1 ++ {| Db.cur := claimed_token_of d (Db.clock s) t;
                      Db.upd := None |} :: l2 /\
           Db.winners s' = Db.winners s /\ Db.in_tx s' = Db.in_tx s /\
           Db.remainingCount s' + 1 = Db.remainingCount s
       else Db.same_tables s s') /\
  (forall (e : env) (req : request) (s : Db.db),
     valid req d -> Db.idle c s = true -> Db.is_winner d s = false ->
     js_lt r (rate_of e req) = true ->
     existsb Db.free_row (Db.prize_tokens s) = false ->
     exists s',
       run_thread Db.exec c (ServerPg.draw e req) r [] s =
         (Some (json_draw false (Some "no_prizes_left") 0%Z),
          (s', [EvQuery (Db.SELECT_winner d) true; EvRandom r;
                EvQuery Db.BEGIN true;
                EvQuery (Db.UPDATE_claim_skip_locked d) true;
                EvQuery Db.ROLLBACK true]))
       /\ Db.same_tables s s') /\
  (forall (e : env) (req : request) (s : Db.db),
     valid req d -> Db.settled s = true -> Db.is_winner d s = false ->
     js_lt r (rate_of e req) = true ->
     Db.remainingCount s = 0 ->
     exists s',
       run_thread Db.exec c (ServerMysql.draw e req) r [] s =
         (Some (json_draw false (Some "no_prizes_left") 0%Z),
          (s', [EvQuery (Db.SELECT_winner d) true; EvRandom r;
                EvQuery (Db.UPDATE_claim_limit_1 d) true]))
       /\ Db.same_tables s s').
Proof.
  split; [|split; [|split; [|split]]].
  - intros s Hnw. now apply pg_claims_one.
  - intros s Hs. now apply settled_free.
  - intros s Hs. now apply my_claims_one.
  - intros e req s Hv Hi Hw Hl Hf. now apply pg_no_prizes.
  - intros e req s Hv Hs Hw Hl Hf.
    apply my_no_prizes; try assumption; [now apply settled_idle|].
    rewrite (settled_free s Hs), Hf. reflexivity.
Qed.

Lemma C7_witness :
  (exists s',
     run Db.exec 0 (ServerMysql.tryClaimPrize "d1") (1 # 2)%Q [] (Db.seeded 2) =
       (Returned true, ([], s', [EvQuery (Db.UPDATE_claim_limit_1 "d1") true])) /\
     map Db.claimed_by (Db.committed_tokens s') = [Some "d1"; None] /\
     Db.remainingCount s' = 1) /\
  (exists s',
     run Db.exec 0 (ServerPg.tryClaimPrize "d2") (1 # 2)%Q [] pool1_d1_won =
       (Returned false, ([], s', [EvQuery (Db.UPDATE_claim_skip_locked "d2") true]))
     /\ Db.same_tables pool1_d1_won s') /\
  (exists s',
     run_thread Db.exec 0 (ServerPg.draw env0 (ask_rate "d2" 1)) (1 # 2)%Q []
                pool1_d1_won =
       (Some (json_draw false (Some "no_prizes_left") 0%Z),
        (s', [EvQuery (Db.SELECT_winner "d2") true; EvRandom (1 # 2)%Q;
              EvQuery Db.BEGIN true;
              EvQuery (Db.UPDATE_claim_skip_locked "d2") true;
              EvQuery Db.ROLLBACK true]))
     /\ Db.same_tables pool1_d1_won s').
Proof.
  split; [|split].
  - destruct (proj1 (proj2 (proj2 (C7_claim_outcome 0 "d1" (1 # 2)%Q)))
                (Db.seeded 2) eq_refl) as (s' & Hrun & _ & H).
    exists s'. split; [exact Hrun|].
    vm_compute in Hrun. inversion Hrun; subst. split; reflexivity.
  - apply (proj1 (C7_claim_outcome 0 "d2" (1 # 2)%Q) pool1_d1_won). reflexivity.
  - apply (proj1 (proj2 (proj2 (proj2 (C7_claim_outcome 0 "d2" (1 # 2)%Q))))
             env0 (ask_rate "d2" 1) pool1_d1_won);
      [split; reflexivity | reflexivity | reflexivity | reflexivity | reflexivity].
Defined.

(** On src/server.js, while the transaction of ["d1"] holds its claim of the
    only token, the token is still unclaimed in the committed table, where
    [remainingCount()] counts it; [tryClaimPrize("d2")] skips the locked row,
    returns false, and the draw of ["d2"] answers [no_prizes_left]. *)
Lemma C7_counterexample :
  option_map fst
    (sched_run Db.exec claiming_schedule (Db.seeded 1)
       [ServerPg.draw env0 (ask_rate "d2" 1); ServerPg.draw env0 (ask_rate "d1" 1)])
    = Some pool1_d1_claiming /\
  Db.remainingCount pool1_d1_claiming = 1 /\
  Db.count_free 0 (Db.prize_tokens pool1_d1_claiming) = 1 /\
  fst (run Db.exec 0 (ServerPg.tryClaimPrize "d2") (1 # 2)%Q [] pool1_d1_claiming) =
    Returned false /\
  fst (run_thread Db.exec 0 (ServerPg.draw env0 (ask_rate "d2" 1)) (1 # 2)%Q []
                  pool1_d1_claiming) =
    Some (json_draw false (Some "no_prizes_left") 0%Z).
Proof. repeat split. Qed.

(** ** A failure inside the transaction *)

Section CatchBlock.
Import Db.
Variables (e : env) (req : request) (d : string) (c : nat) (r : Q) (s : db).
Hypothesis Hvalid : valid req d.
Hypothesis Hidle : idle c s = true.

Lemma pg_fault_caught (faults : list bool) :
  let '(resp, (s', tr)) := run_thread exec c (ServerPg.draw e req) r faults s in
  existsb failed_tx_stmt tr = true ->
  committed_tokens s' = committed_tokens s /\
  committed_winners s' = committed_winners s /\
  exists tr0 q b,
    tr = tr0 ++ [EvQuery q false; EvQuery ROLLBACK b] /\
    tx_stmt q = true /\ no_failure tr0 = true /\
    (b = true ->
     resp = Some (json_error 500 "internal_error") /\ same_tables s s') /\
    (b = false -> resp = None).
Proof.
  destruct Hvalid as [Hd Hne]. destruct (idle_no_writes _ _ Hidle) as [Htx Hnw].
  unfold ServerPg.draw. rewrite Hd, Hne.
  unfold in_transaction in Htx.
  pose proof Hnw as Hnw'. unfold no_writes in Hnw'.
  apply andb_true_iff in Hnw' as [Ht Hw].
  unfold run_thread.
  repeat path_step; cbn; intros Hfail; try discriminate.
  all: unfold committed_tokens, committed_winners, same_tables; cbn.
  all: rewrite ?Htx; cbn; rewrite ?Nat.eqb_refl; cbn.
  all: try match goal with
           | H : claim_first _ _ _ _ _ = Some _ |- _ =>
               rewrite ?(rollback_claim_first _ _ _ _ _ _ Ht H),
                       ?(cur_claim_first _ _ _ _ _ _ H)
           end.
  all: rewrite ?(filter_own_insert_pending _ _ _ Hw), ?committed_pending,
         ?(filter_own_insert_idle _ _ Hw), ?(rollback_not_held _ _ Ht),
         ?(remove_conn_head _ _ Htx), ?(remove_conn_absent _ _ Htx).
  all: split; [reflexivity|]; split; [reflexivity|].
  all: first
         [ refine (ex_intro _ [] _); do 2 eexists; split; [reflexivity|]
         | refine (ex_intro _ [_] _); do 2 eexists; split; [reflexivity|]
         | refine (ex_intro _ [_; _] _); do 2 eexists; split; [reflexivity|]
         | refine (ex_intro _ [_; _; _] _); do 2 eexists; split; [reflexivity|]
         | refine (ex_intro _ [_; _; _; _] _); do 2 eexists; split; [reflexivity|]
         | refine (ex_intro _ [_; _; _; _; _] _); do 2 eexists; split; [reflexivity|]
         | refine (ex_intro _ [_; _; _; _; _; _] _); do 2 eexists;
           split; [reflexivity|] ].
  all: repeat split; try reflexivity; intros; discriminate.
Qed.
End CatchBlock.

(** C8 (amended).  On src/server.js, if a statement of the claim-and-register
    transaction (BEGIN, the claim, the winners insert, COMMIT) fails, the
    catch block issues [ROLLBACK] as the very next statement and nothing of
    the transaction is committed; when that ROLLBACK completes, the caller
    receives status 500 [internal_error] and the store is exactly as before
    the request; when the ROLLBACK fails too, the handler sends nothing.  On
    part_001 there is no transaction: when the winners insert fails after a
    successful claim the caller also receives 500 [internal_error], but the
    token stays claimed and no WinnerRecord exists. *)
Theorem C8_store_failure (req : request) (d : string) (c : nat) (r : Q) :
  valid req d ->
  (forall (e : env) (s : Db.db) (faults : list bool),
     Db.idle c s = true ->
     let '(resp, (s', tr)) := run_thread Db.exec c (ServerPg.draw e req) r faults s in
     existsb failed_tx_stmt tr = true ->
     Db.committed_tokens s' = Db.committed_tokens s /\
     Db.committed_winners s' = Db.committed_winners s /\
     exists tr0 q b,
       tr = tr0 ++ [EvQuery q false; EvQuery Db.ROLLBACK b] /\
       tx_stmt q = true /\ no_failure tr0 = true /\
       (b = true ->
        resp = Some (json_error 500 "internal_error") /\ Db.same_tables s s') /\
       (b = false -> resp = None)) /\
  (forall (e : env) (s : Db.db) (l1 l2 : list Db.token_row) (t : Db.token_row),
     Db.settled s = true -> Db.is_winner d s = false ->
     js_lt r (rate_of e req) = true ->
     Db.prize_tokens s = l1 ++ t :: l2 ->
     existsb Db.free_row l1 = false -> Db.free_row t = true ->
     exists s',
       run_thread Db.exec c (ServerMysql.draw e req) r [false; false; true] s =
         (Some (json_error 500 "internal_error"),
          (s', [EvQuery (Db.SELECT_winner d) true; EvRandom r;
                EvQuery (Db.UPDATE_claim_limit_1 d) true;
                EvQuery (Db.INSERT_winner d) false]))
       /\ Db.prize_tokens s' =
            l1 ++ {| Db.cur := {| Db.id := Db.id (Db.cur t);
                                  Db.claimed_by := Some d;
                                  Db.claimed_at := Some (S (Db.clock s)) |};
                     Db.upd := None |} :: l2
       /\ Db.winners s' = Db.winners s).
Proof.
  intros Hv. split.
  - intros e s faults Hi. exact (pg_fault_caught e req d c r s Hv Hi faults).
  - intros e s l1 l2 t Hs Hw Hl Hts Hl1 Ht. now apply my_insert_fault.
Qed.

Lemma C8_witness :
  let '(resp, (s', tr)) :=
    run_thread Db.exec 0 (ServerPg.draw env0 (ask_rate "d1" 1)) (1 # 2)%Q
               [false; false; false; true] (Db.seeded 1) in
  tr = [EvQuery (Db.SELECT_winner "d1") true; EvRandom (1 # 2)%Q;
        EvQuery Db.BEGIN true; EvQuery (Db.UPDATE_claim_skip_locked "d1") true;
        EvQuery (Db.INSERT_winner "d1") false; EvQuery Db.ROLLBACK true] /\
  resp = Some (json_error 500 "internal_error") /\
  Db.same_tables (Db.seeded 1) s'.
Proof.
  assert (Hv : valid (ask_rate "d1" 1) "d1") by (split; reflexivity).
  pose proof (proj1 (C8_store_failure (ask_rate "d1" 1) "d1" 0 (1 # 2)%Q Hv) env0 (Db.seeded 1)
                    [false; false; false; true] eq_refl) as H.
  cbv beta iota zeta in H |- *.
  destruct (run_thread Db.exec 0 (ServerPg.draw env0 (ask_rate "d1" 1)) (1 # 2)%Q
                       [false; false; false; true] (Db.seeded 1))
    as [resp [s' tr]] eqn:E.
  vm_compute in E. inversion E; subst; clear E.
  split; [reflexivity|].
  destruct (H eq_refl) as (_ & _ & tr0 & q & b & _ & _ & _ & Hb & Hb').
  destruct b; [exact (Hb eq_refl)|].
  specialize (Hb' eq_refl). discriminate.
Defined.

(** On part_001 a claimed token without WinnerRecord escapes a failure. *)
Lemma C8_counterexample :
  exists s',
    run_thread Db.exec 0 (ServerMysql.draw env0 (ask_rate "d1" 1)) (1 # 2)%Q
               [false; false; true] (Db.seeded 1) =
      (Some (json_error 500 "internal_error"),
       (s', [EvQuery (Db.SELECT_winner "d1") true; EvRandom (1 # 2)%Q;
             EvQuery (Db.UPDATE_claim_limit_1 "d1") true;
             EvQuery (Db.INSERT_winner "d1") false])) /\
    map Db.claimed_by (Db.committed_tokens s') = [Some "d1"] /\
    Db.committed_winners s' = [] /\
    Db.committed_tokens s' <> Db.committed_tokens (Db.seeded 1).
Proof.
  eexists. split; [reflexivity|]. repeat split. discriminate.
Qed.




(** ** part_002 under any interleaving *)

Section ThreadInvariant.
Variables Stmt Res Store : Type.
Variable exec : nat -> Stmt -> Store -> exec_result Res Store.
Variable I : Store -> Prop.
Variable R : Store -> Store -> Prop.
Hypothesis R_refl : forall s, R s s.
Hypothesis R_trans : forall s1 s2 s3, R s1 s2 -> R s2 s3 -> R s1 s3.
Hypothesis exec_done :
  forall c q s res s', I s -> exec c q s = Done res s' -> I s' /\ R s s'.
Hypothesis exec_raised :
  forall c q s s', I s -> exec c q s = Raised s' -> I s' /\ R s s'.
Variable J : nat -> thread Stmt Res -> Store -> Prop.
Hypothesis J_own :
  forall i a t s t' s',
    I s -> J i t s -> thread_step exec i a t s = Some (t', s') -> J i t' s'.
Hypothesis J_frame : forall i t s s', J i t s -> R s s' -> J i t s'.

Lemma sched_run_threads (sch : list (nat * action)) (s s' : Store)
    (ths ths' : list (thread Stmt Res)) :
  I s -> (forall i t, nth_error ths i = Some t -> J i t s) ->
  sched_run exec sch s ths = Some (s', ths') ->
  forall i t, nth_error ths' i = Some t -> J i t s'.
Proof.
  revert s ths. induction sch as [|[i a] sch IH]; intros s ths HI HJ; simpl.
  - intros [= <- <-]. exact HJ.
  - destruct (nth_error ths i) as [t|] eqn:Ht; [|discriminate].
    destruct (thread_step exec i a t s) as [[t' s1]|] eqn:Hs; [|discriminate].
    destruct (thread_step_keeps _ _ _ exec I R R_refl exec_done exec_raised
                i a t t' s s1 HI Hs) as [HI1 HR].
    apply IH; [assumption|].
    intros j tj Hj. destruct (Nat.eq_dec i j) as [<-|Hne].
    + rewrite (nth_error_set_nth_eq _ _ _ _ Ht) in Hj. inversion Hj; subst.
      exact (J_own i a t s tj s1 HI (HJ i t Ht) Hs).
    + rewrite (nth_error_set_nth_neq _ _ _ _ Hne) in Hj.
      exact (J_frame j tj s s1 (HJ j tj Hj) HR).
Qed.
End ThreadInvariant.

Section CountInFlight.
Import ServerCount CountPhases.
Local Arguments Z.sub : simpl never.
Local Arguments Z.leb : simpl never.
Local Arguments Z.of_nat : simpl never.

Lemma agrees_appended (d : string) (ph : phase) (s s' : db) :
  agrees d ph s -> appended s s' -> agrees d ph s'.
Proof.
  intros H Ha. destruct ph; simpl in *; trivial.
  - destruct H as (b0 & -> & H). exists b0. split; [reflexivity|].
    now apply (stored_appended d s s').
  - now apply (stored_appended d s s').
  - intros Hok. destruct (H Hok) as (b0 & Hw & Hs). exists b0. split; [assumption|].
    now apply (stored_appended d s s').
Qed.

Lemma stored_inserted (d : string) (l : list winner) (w : winner) :
  existsb (has_device d) l = false -> device_id w = d ->
  option_map won_col (find (has_device d) (l ++ [w])) = Some (won_col w).
Proof.
  intros H E. induction l as [|x l IH]; simpl in *.
  - unfold has_device. rewrite E, String.eqb_refl. reflexivity.
  - apply orb_false_iff in H as [Hx Hl]. rewrite Hx. now apply IH.
Qed.

Lemma count_own (d : string) (c : nat) (a : action) (ph : phase) (s : db)
    (t' : thread stmt result) (s' : db) :
  agrees d ph s ->
  thread_step exec c a (at_phase d ph) s = Some (t', s') ->
  exists ph', t' = at_phase d ph' /\ agrees d ph' s'.
Proof.
  intros Hk H. destruct ph, a; cbn in H; try discriminate.
  all: try (injection H as <- <-).
  all: try (exists CCaught; split; [reflexivity|exact I]).
  - destruct (filter (has_device d) (winners s)) as [|w l] eqn:Hf; cbn.
    + exists CCount. split; [reflexivity|exact I].
    + exists (CReplay (Some (won_col w))). split; [reflexivity|].
      exists (won_col w). split; [reflexivity|].
      unfold stored. cbn. now rewrite find_filter, Hf.
  - exists (CSent {| status := 200; ok := true; won := b;
                     reason := Some "already_winner";
                     remaining := Some (MAX_PRIZES - Z.of_nat (count_won s))%Z;
                     error := None |}).
    split; [reflexivity|]. intros _. exact Hk.
  - destruct (MAX_PRIZES <=? Z.of_nat (length (filter won_col (winners s))))%Z.
    + exists CCapped. split; [reflexivity|exact I].
    + exists CGate. split; [reflexivity|exact I].
  - destruct (existsb (has_device d) (winners s)) eqn:He; injection H as <- <-.
    + exists CCaught. split; [reflexivity|exact I].
    + exists (CSent (json_draw false (Some "no_prizes_left") 0%Z)).
      split; [reflexivity|]. intros _. exists false. split; [reflexivity|].
      unfold stored. cbn. now apply stored_inserted.
  - destruct (in_unit_interval r); [|discriminate]. injection H as <- <-.
    exists (CInsert (js_lt r (Finite (3 # 10)))). split; [reflexivity|exact I].
  - destruct (existsb (has_device d) (winners s)) eqn:He; injection H as <- <-.
    + exists CCaught. split; [reflexivity|exact I].
    + exists (CLast w). split; [reflexivity|].
      unfold agrees, stored. cbn. now apply stored_inserted.
  - exists (CSent (json_draw w None (MAX_PRIZES - Z.of_nat (count_won s))%Z)).
    split; [reflexivity|]. intros _. exists w. split; [reflexivity|exact Hk].
Qed.

Lemma in_flight_start (req : request) (s : db) : in_flight req (draw req) s.
Proof.
  unfold in_flight, draw. destruct (truthy_id req) as [d|]; [|reflexivity].
  exists CSelect. split; [reflexivity|exact I].
Qed.

Lemma in_flight_own (req : request) (c : nat) (a : action)
    (t t' : thread stmt result) (s s' : db) :
  in_flight req t s -> thread_step exec c a t s = Some (t', s') ->
  in_flight req t' s'.
Proof.
  unfold in_flight. destruct (truthy_id req) as [d|].
  - intros (ph & -> & Hk) H. now apply (count_own d c a ph s).
  - intros -> H. discriminate.
Qed.

Lemma in_flight_frame (req : request) (t : thread stmt result) (s s' : db) :
  in_flight req t s -> appended s s' -> in_flight req t s'.
Proof.
  unfold in_flight. destruct (truthy_id req) as [d|]; [|trivial].
  intros (ph & -> & Hk) Ha. exists ph. split; [reflexivity|].
  now apply (agrees_appended d ph s).
Qed.

Lemma count_as_stored (reqs : list request) (sch : list (nat * action))
    (s s' : db) (ths' : list (thread stmt result)) :
  one_row_per_device s ->
  sched_run exec sch s (map draw reqs) = Some (s', ths') ->
  replies_as_stored reqs s' ths'.
Proof.
  intros Hu H i req a Hi Hrp Hok.
  unfold replies in Hrp. rewrite nth_error_map in Hrp.
  destruct (nth_error ths' i) as [t|] eqn:Ht; [|discriminate].
  simpl in Hrp. injection Hrp as Hrp.
  pose proof (sched_run_threads _ _ _ exec one_row_per_device appended
                appended_refl count_exec_done count_exec_raised
                (fun j t s => forall rq, nth_error reqs j = Some rq -> in_flight rq t s))
    as Hinv.
  specialize (Hinv
    (fun j a0 t0 s0 t1 s1 _ HJ Hs rq Hrq => in_flight_own rq j a0 t0 t1 s0 s1 (HJ rq Hrq) Hs)
    (fun j t0 s0 s1 HJ HR rq Hrq => in_flight_frame rq t0 s0 s1 (HJ rq Hrq) HR)
    sch s s' (map draw reqs) ths' Hu).
  assert (H0 : forall j t0, nth_error (map draw reqs) j = Some t0 ->
               forall rq, nth_error reqs j = Some rq -> in_flight rq t0 s).
  { intros j t0 Hj rq Hrq. rewrite nth_error_map, Hrq in Hj. simpl in Hj.
    injection Hj as <-. apply in_flight_start. }
  specialize (Hinv H0 H i t Ht req Hi).
  unfold in_flight in Hinv. destruct (truthy_id req) as [d|].
  - destruct Hinv as (ph & -> & Hk). exists d.
    destruct ph; simpl in Hrp; try discriminate; injection Hrp as Hrp; subst a.
    + destruct (Hk Hok) as (b & Hw & Hs). exists b. auto.
    + discriminate.
  - subst t. simpl in Hrp. injection Hrp as <-. discriminate.
Qed.
End CountInFlight.

(** C10 (amended).  On part_002: a completed request of a device without
    winners row inserts a row with its outcome, won or lost; any later
    request of that device — whoever was served in between, whatever the
    store's availability — returns the stored outcome with reason
    ["already_winner"] and draws nothing.  The draw comes before the insert,
    so a device whose insert fails draws again on its next request; what
    holds is that, over any sequence of requests served one after the other,
    at most one request of a device that has drawn is answered with a draw
    result, and a device that was told it lost is never told it won
    afterwards; and, under any interleaving of any requests, whatever fails,
    that every draw result sent to a device carries the one outcome stored
    for it, which never changes. *)
Theorem C10_one_draw_per_device (d : string) :
  (forall (req : request) (c : nat) (r : Q) (s : ServerCount.db),
     ServerCount.truthy_id req = Some d -> ServerCount.stored d s = None ->
     exists a s' tr w,
       run_thread ServerCount.exec c (ServerCount.draw req) r [] s =
         (Some a, (s', tr)) /\
       ok a = true /\
       ServerCount.winners s' = ServerCount.winners s ++ [w] /\
       ServerCount.device_id w = d /\
       won a = Some (ServerCount.won_col w) /\
       ServerCount.stored d s' = Some (ServerCount.won_col w)) /\
  (forall (req : request) (c : nat) (r : Q) (faults : list bool)
          (s : ServerCount.db) (b : bool),
     ServerCount.stored d s = Some b ->
     ServerCount.stored d
       (fst (snd (run_thread ServerCount.exec c (ServerCount.draw req) r faults s)))
       = Some b) /\
  (forall (req : request) (c : nat) (r : Q) (s : ServerCount.db) (b : bool),
     ServerCount.truthy_id req = Some d -> ServerCount.stored d s = Some b ->
     exists s',
       run_thread ServerCount.exec c (ServerCount.draw req) r [] s =
         (Some {| status := 200; ok := true; won := Some b;
                  reason := Some "already_winner";
                  remaining :=
                    Some (ServerCount.MAX_PRIZES
                          - Z.of_nat (ServerCount.count_won s))%Z;
                  error := None |},
          (s', [EvQuery (ServerCount.SELECT_won d) true;
                EvQuery ServerCount.SELECT_count_won true]))
       /\ ServerCount.winners s' = ServerCount.winners s) /\
  (forall (arr : list arrival) (c : nat) (s : ServerCount.db),
     length (filter (fun x => ServerCount.asks d (s_req x)
                              && existsb is_random (s_trace x)
                              && is_ok (s_reply x))
                    (fst (serve ServerCount.exec ServerCount.draw c arr s))) <= 1) /\
  (forall (arr : list arrival) (c : nat) (s : ServerCount.db) (i j : nat)
          (x y : served ServerCount.stmt),
     i < j ->
     nth_error (fst (serve ServerCount.exec ServerCount.draw c arr s)) i = Some x ->
     nth_error (fst (serve ServerCount.exec ServerCount.draw c arr s)) j = Some y ->
     ServerCount.asks d (s_req x) = true -> ServerCount.asks d (s_req y) = true ->
     draw_result false (s_reply x) = true ->
     says_won (s_reply y) = false) /\
  (forall (reqs : list request) (sch : list (nat * action))
          (s s' : ServerCount.db)
          (ths' : list (thread ServerCount.stmt ServerCount.result)),
     one_row_per_device s ->
     sched_run ServerCount.exec sch s (map ServerCount.draw reqs) = Some (s', ths') ->
     replies_as_stored reqs s' ths' /\
     forall b, ServerCount.stored d s = Some b -> ServerCount.stored d s' = Some b).
Proof.
  split; [|split; [|split; [|split; [|split]]]].
  - intros req c r s Hv Hs.
    destruct (ServerCount.MAX_PRIZES <=? Z.of_nat (ServerCount.count_won s))%Z eqn:Hmax.
    + destruct (count_no_prizes req d c r s Hv Hs Hmax) as (s' & H & Hw).
      do 4 eexists. split; [exact H|]. split; [reflexivity|].
      split; [exact Hw|]. split; [reflexivity|]. split; [reflexivity|].
      unfold ServerCount.stored in *. rewrite Hw.
      destruct (find (ServerCount.has_device d) (ServerCount.winners s)) eqn:Hf;
        [discriminate|].
      rewrite (stored_new d _ _ Hf); [reflexivity|].
      unfold ServerCount.has_device. simpl. apply String.eqb_refl.
    + destruct (count_gate req d c r s Hv (js_lt r (Finite (3 # 10))) Hs Hmax eq_refl)
        as (s' & H & Hw).
      do 4 eexists. split; [exact H|]. split; [reflexivity|].
      split; [exact Hw|]. split; [reflexivity|]. split; [reflexivity|].
      unfold ServerCount.stored in *. rewrite Hw.
      destruct (find (ServerCount.has_device d) (ServerCount.winners s)) eqn:Hf;
        [discriminate|].
      rewrite (stored_new d _ _ Hf); [reflexivity|].
      unfold ServerCount.has_device. simpl. apply String.eqb_refl.
  - intros req c r faults s b Hs.
    pose proof (count_stored_stable req d c r faults s b Hs) as H.
    destruct (run_thread ServerCount.exec c (ServerCount.draw req) r faults s)
      as [rp [s' tr]]. exact H.
  - intros req c r s b Hv Hs. now apply count_already.
  - intros arr c s. apply count_one_draw.
  - intros arr c s i j x y. apply count_loss_is_final.
  - intros reqs sch s s' ths' Hu H. split.
    + now apply (count_as_stored reqs sch s).
    + intros b.
      destruct (sched_run_keeps _ _ _ ServerCount.exec one_row_per_device appended
                  appended_refl appended_trans count_exec_done count_exec_raised
                  sch s s' _ ths' Hu H) as [_ Ha].
      now apply stored_appended.
Qed.

Lemma C10_witness :
  (exists a s' tr w,
     run_thread ServerCount.exec 0 (ServerCount.draw (ask "d1")) (1 # 2)%Q []
                ServerCount.empty = (Some a, (s', tr)) /\
     ok a = true /\
     ServerCount.winners s' = ServerCount.winners ServerCount.empty ++ [w] /\
     ServerCount.device_id w = "d1" /\
     won a = Some (ServerCount.won_col w) /\
     ServerCount.stored "d1" s' = Some (ServerCount.won_col w)) /\
  match sched_run ServerCount.exec twin_schedule ServerCount.empty
                  (map ServerCount.draw twin_requests) with
  | Some (s', ths') =>
      replies ths' = [Some (json_draw true None 9%Z);
                      Some (json_error 200 "Error en servidor")] /\
      replies_as_stored twin_requests s' ths'
  | None => False
  end.
Proof.
  split.
  - apply (proj1 (C10_one_draw_per_device "d1") (ask "d1") 0 (1 # 2)%Q
                 ServerCount.empty); reflexivity.
  - destruct (sched_run ServerCount.exec twin_schedule ServerCount.empty
                        (map ServerCount.draw twin_requests))
      as [[s' ths']|] eqn:E.
    + split; [vm_compute in E; inversion E; reflexivity|].
      exact (proj1 (proj2 (proj2 (proj2 (proj2 (proj2
               (C10_one_draw_per_device "d1"))))) twin_requests twin_schedule
               ServerCount.empty s' ths' (NoDup_nil _) E)).
    + vm_compute in E. discriminate.
Defined.

(** On part_002 a device can draw twice, and win after having drawn a loss:
    the first request of ["d1"] draws 0.5, a loss, and its insert fails; the
    second draws again, 0.1, and is told it won. *)
Lemma C10_counterexample :
  let out := fst (serve ServerCount.exec ServerCount.draw 0 redraw ServerCount.empty) in
  map s_trace out =
    [[EvQuery (ServerCount.SELECT_won "d1") true;
      EvQuery ServerCount.SELECT_count_won true; EvRandom (1 # 2)%Q;
      EvQuery (ServerCount.INSERT_winner "d1" false) false];
     [EvQuery (ServerCount.SELECT_won "d1") true;
      EvQuery ServerCount.SELECT_count_won true; EvRandom (1 # 10)%Q;
      EvQuery (ServerCount.INSERT_winner "d1" true) true;
      EvQuery ServerCount.SELECT_count_won true]] /\
  map s_reply out =
    [Some (json_error 200 "Error en servidor");
     Some (json_draw true None 9%Z)].
Proof. split; reflexivity. Qed.

(** C5 (amended).  On src/server.js and part_001 the winners insert is
    conflict-safe: no statement is ever rejected by the store; after a
    completed [recordWin(d)] there is exactly one winners row for [d]; a
    second [recordWin(d)] right after it, on the same or on another
    connection, changes no table (on another connection it may first have to
    wait for the inserting transaction); and under any interleaving of any
    requests no two winners rows ever share a [device_id].  On part_002 the
    insert has no conflict clause: a second insert for the same [device_id]
    is rejected by the UNIQUE constraint (the handler then answers
    ["Error en servidor"]); it does not add a row either. *)
Theorem C5_idempotent_registry (d : string) :
  (forall (c : nat) (q : Db.stmt) (s s' : Db.db), Db.exec c q s <> Raised s') /\
  (forall (c : nat) (s s' : Db.db) (res : Db.result),
     unique_devices s -> Db.exec c (Db.INSERT_winner d) s = Done res s' ->
     length (records_of d s') = 1 /\ unique_devices s') /\
  (forall (c1 c2 : nat) (s s1 : Db.db) (res1 : Db.result),
     Db.exec c1 (Db.INSERT_winner d) s = Done res1 s1 ->
     Db.exec c2 (Db.INSERT_winner d) s1 = Blocked \/
     exists s2, Db.exec c2 (Db.INSERT_winner d) s1 = Done Db.no_rows s2 /\
                Db.same_tables s1 s2) /\
  (forall (c : nat) (s s1 : Db.db) (res1 : Db.result),
     Db.exec c (Db.INSERT_winner d) s = Done res1 s1 ->
     exists s2, Db.exec c (Db.INSERT_winner d) s1 = Done Db.no_rows s2 /\
                Db.same_tables s1 s2) /\
  (forall (sch : list (nat * action)) (s s' : Db.db)
          (ths ths' : list (thread Db.stmt Db.result)),
     unique_devices s -> sched_run Db.exec sch s ths = Some (s', ths') ->
     unique_devices s') /\
  (forall (c1 c2 : nat) (w1 w2 : bool) (s s1 : ServerCount.db)
          (res : ServerCount.result),
     ServerCount.exec c1 (ServerCount.INSERT_winner d w1) s = Done res s1 ->
     exists s2,
       ServerCount.exec c2 (ServerCount.INSERT_winner d w2) s1 = Raised s2 /\
       ServerCount.winners s2 = ServerCount.winners s1).
Proof.
  split; [|split; [|split; [|split; [|split]]]].
  - intros c q s s'. apply exec_never_raises.
  - intros c s s' res Hu H. split.
    + eapply insert_leaves_one; eassumption.
    + eapply exec_keeps_unique; eassumption.
  - intros c1 c2 s s1 res1 H. eapply insert_twice; eassumption.
  - intros c s s1 res1 H. eapply insert_twice_same; eassumption.
  - intros sch s s' ths ths' Hu H.
    refine (proj1 (sched_run_keeps _ _ _ Db.exec unique_devices (fun _ _ => True)
                     (fun _ => I) (fun _ _ _ _ _ => I) _ _ sch s s' ths ths' Hu H)).
    + intros c q s0 res s0' Hu0 H0. split; [|exact I].
      eapply exec_keeps_unique; eassumption.
    + intros c q s0 s0' _ H0. exfalso. eapply exec_never_raises; eassumption.
  - intros c1 c2 w1 w2 s s1 res H. simpl in H.
    destruct (existsb (ServerCount.has_device d) (ServerCount.winners s)); [discriminate|].
    inversion H; subst; clear H. simpl.
    rewrite existsb_app. simpl. unfold ServerCount.has_device at 2. simpl.
    rewrite String.eqb_refl, orb_true_r. eexists. split; reflexivity.
Qed.

Lemma C5_witness :
  exists res1 s1 s2,
    Db.exec 3 (Db.INSERT_winner "d1") (Db.seeded 1) = Done res1 s1 /\
    length (records_of "d1" s1) = 1 /\
    Db.exec 3 (Db.INSERT_winner "d1") s1 = Done Db.no_rows s2 /\
    Db.same_tables s1 s2.
Proof.
  pose proof (C5_idempotent_registry "d1") as (_ & H1 & _ & H3 & _).
  assert (Hu : unique_devices (Db.seeded 1)) by constructor.
  destruct (H3 3 (Db.seeded 1) _ _ eq_refl) as (s2 & E & T).
  do 3 eexists. split; [reflexivity|].
  split; [exact (proj1 (H1 3 (Db.seeded 1) _ _ Hu eq_refl))|].
  split; [exact E|exact T].
Defined.

(** On part_002 the second insert for a device raises, and of two requests of
    one new device that overlap, one is answered with the server error. *)
Lemma C5_counterexample :
  (exists s2,
     ServerCount.exec 1 (ServerCount.INSERT_winner "d1" true) (count_d1 true) =
       Raised s2) /\
  (exists s' ths',
     sched_run ServerCount.exec
       [(0, Complete); (1, Complete); (0, Complete); (1, Complete);
        (0, Draw (1 # 5)); (1, Draw (1 # 5)); (0, Complete); (1, Complete);
        (0, Complete)]
       ServerCount.empty
       [ServerCount.draw (ask "d1"); ServerCount.draw (ask "d1")] = Some (s', ths') /\
     replies ths' =
       [Some (json_draw true None 9%Z);
        Some (json_error 200 "Error en servidor")]).
Proof.
  split.
  - eexists. reflexivity.
  - do 2 eexists. split; reflexivity.
Qed.

(** C6.  Once a token's [claimedBy] is set it is never cleared or
    reassigned: from a well-formed store (such as the seeded one), every
    statement, every interleaving of any requests, and every draw request of
    src/server.js and of part_001 under any availability of the store,
    leaves the table with the same tokens, row by row, and leaves every
    committed claim exactly as it was.  A token therefore goes from free to
    claimed at most once. *)
Theorem C6_claims_are_permanent (s : Db.db) :
  wf s = true ->
  (forall (c : nat) (q : Db.stmt) (res : Db.result) (s' : Db.db),
     Db.exec c q s = Done res s' -> wf s' = true /\ claims_kept s s') /\
  (forall (sch : list (nat * action)) (ths ths' : list (thread Db.stmt Db.result))
          (s' : Db.db),
     sched_run Db.exec sch s ths = Some (s', ths') ->
     wf s' = true /\ claims_kept s s') /\
  (forall (e : env) (req : request) (c : nat) (r : Q) (faults : list bool),
     claims_kept s
       (fst (snd (run_thread Db.exec c (ServerPg.draw e req) r faults s))) /\
     claims_kept s
       (fst (snd (run_thread Db.exec c (ServerMysql.draw e req) r faults s)))).
Proof.
  intros Hwf. split; [|split].
  - intros c q res s' H. eapply keeps_wf_done; eassumption.
  - intros sch ths ths' s' H.
    exact (sched_run_keeps _ _ _ Db.exec (fun x => wf x = true) claims_kept
             claims_kept_refl claims_kept_trans keeps_wf_done keeps_wf_raised
             sch s s' ths ths' Hwf H).
  - intros e req c r faults. split.
    + pose proof (run_thread_keeps _ _ _ Db.exec (fun x => wf x = true) claims_kept
                    claims_kept_refl claims_kept_trans keeps_wf_done keeps_wf_raised
                    c (ServerPg.draw e req) r faults s Hwf) as H.
      destruct (run_thread Db.exec c (ServerPg.draw e req) r faults s) as [rp [s' tr]].
      exact (proj2 H).
    + pose proof (run_thread_keeps _ _ _ Db.exec (fun x => wf x = true) claims_kept
                    claims_kept_refl claims_kept_trans keeps_wf_done keeps_wf_raised
                    c (ServerMysql.draw e req) r faults s Hwf) as H.
      destruct (run_thread Db.exec c (ServerMysql.draw e req) r faults s) as [rp [s' tr]].
      exact (proj2 H).
Qed.

Lemma C6_witness :
  claims_kept pool1_d1_won
    (fst (snd (run_thread Db.exec 1 (ServerPg.draw env0 (ask_rate "d2" 1))
                          (1 # 2)%Q [] pool1_d1_won))).
Proof.
  exact (proj1 (proj2 (proj2 (C6_claims_are_permanent pool1_d1_won eq_refl))
                 env0 (ask_rate "d2" 1) 1 (1 # 2)%Q [])).
Defined.

(** ** The winners of part_002, one request after the other *)

Section CountWinners.
Import ServerCount.

Lemma serve_stored (arr : list arrival) (c : nat) (s : db) (d : string) (b : bool) :
  stored d s = Some b -> stored d (snd (serve exec draw c arr s)) = Some b.
Proof.
  revert c s. induction arr as [|a arr IH]; intros c s Hs; [exact Hs|].
  simpl.
  pose proof (count_stored_stable (a_req a) d c (a_random a) (a_faults a) s b Hs) as H.
  destruct (run_thread exec c (draw (a_req a)) (a_random a) (a_faults a) s)
    as [rp [s' tr]].
  specialize (IH (S c) s' H).
  destruct (serve exec draw (S c) arr s') as [out s'']. exact IH.
Qed.

Lemma told_stored (arr : list arrival) (c : nat) (s : db) (d : string) :
  In d (told_winners (fst (serve exec draw c arr s))) ->
  stored d (snd (serve exec draw c arr s)) = Some true.
Proof.
  revert c s. induction arr as [|a arr IH]; intros c s; [intros []|].
  simpl.
  pose proof (count_draw_cases (a_req a)) as Hc.
  pose proof (serve_stored arr (S c)) as Hst.
  specialize (IH (S c)).
  destruct (run_thread exec c (draw (a_req a)) (a_random a) (a_faults a) s)
    as [rp [s' tr]] eqn:E.
  specialize (IH s'). specialize (Hst s').
  destruct (serve exec draw (S c) arr s') as [out s'']. simpl in *.
  rewrite in_app_iff. intros [Hin|Hin]; [|now apply IH].
  destruct (says_won rp) eqn:Hw; [|destruct Hin].
  destruct (truthy_id (a_req a)) as [d'|] eqn:Ht; [|destruct Hin].
  destruct Hin as [->|[]].
  specialize (Hc d c (a_random a) (a_faults a) s eq_refl). rewrite E in Hc.
  apply Hst.
  destruct (stored d s) as [b|] eqn:Hs.
  - destruct Hc as (Hwin & _ & Hb & _). rewrite (Hb Hw) in Hs.
    unfold stored in *. now rewrite Hwin.
  - destruct Hc as [(_ & _ & Hn)|(w & Hwin & Hdev & _ & Hb & _)]; [congruence|].
    unfold stored in *. rewrite Hwin.
    destruct (find (has_device d) (winners s)) eqn:Hf; [discriminate|].
    rewrite (stored_new d _ _ Hf Hdev). simpl. now rewrite (Hb Hw).
Qed.

Lemma stored_winner (d : string) (s : db) :
  stored d s = Some true -> In d (map device_id (filter won_col (winners s))).
Proof.
  unfold stored. destruct (find (has_device d) (winners s)) as [w|] eqn:Hf;
    [|discriminate].
  simpl. intros [= Hw]. apply find_some in Hf as [Hin Hd].
  apply in_map_iff. exists w. split.
  - unfold has_device in Hd. now apply String.eqb_eq in Hd.
  - apply filter_In. auto.
Qed.

Lemma told_cap (arr : list arrival) (c : nat) (s : db) :
  (Z.of_nat (count_won s) <= MAX_PRIZES)%Z ->
  (Z.of_nat (length (nodup string_dec
                       (told_winners (fst (serve exec draw c arr s)))))
   <= MAX_PRIZES)%Z.
Proof.
  intros Hle. destruct (count_cap arr c s Hle) as [Hcap _].
  assert (L : length (nodup string_dec (told_winners (fst (serve exec draw c arr s))))
              <= count_won (snd (serve exec draw c arr s))).
  { unfold count_won.
    rewrite <- (length_map device_id
                  (filter won_col (winners (snd (serve exec draw c arr s))))).
    apply NoDup_incl_length; [apply NoDup_nodup|].
    intros d Hd. apply nodup_In in Hd. apply stored_winner.
    now apply told_stored. }
  lia.
Qed.
End CountWinners.

(** C1 (amended).  On src/server.js and on part_001, the two servers that
    have prize tokens: from the seeded store of [n] tokens, across any
    sequence of draw requests — interleaved statement by statement in any
    way, or served one after the other — and whatever the availability of
    the store, the number of requests that receive [won:true] never exceeds
    [n].  part_002 has no tokens: it counts the winners it has stored
    against [MAX_PRIZES] (10) and tells a stored winner [won:true] again on
    each of its requests; what holds there, for requests served one after
    the other, is that at most [MAX_PRIZES] devices are ever told
    [won:true]. *)
Theorem C1_pool_cap (n : nat) (e : env) :
  (forall (reqs : list request) (sch : list (nat * action)) (s' : Db.db)
          (ths' : list (thread Db.stmt Db.result)),
     sched_run Db.exec sch (Db.seeded n) (map (ServerPg.draw e) reqs) = Some (s', ths') ->
     count_won (replies ths') <= n) /\
  (forall (reqs : list request) (sch : list (nat * action)) (s' : Db.db)
          (ths' : list (thread Db.stmt Db.result)),
     sched_run Db.exec sch (Db.seeded n) (map (ServerMysql.draw e) reqs) = Some (s', ths') ->
     count_won (replies ths') <= n) /\
  (forall arr : list arrival,
     Forall (fun a => in_unit_interval (a_random a) = true) arr ->
     count says_won
       (map s_reply (fst (serve Db.exec (ServerPg.draw e) 0 arr (Db.seeded n)))) <= n /\
     count says_won
       (map s_reply (fst (serve Db.exec (ServerMysql.draw e) 0 arr (Db.seeded n)))) <= n) /\
  (forall (arr : list arrival) (c : nat) (s : ServerCount.db),
     (Z.of_nat (ServerCount.count_won s) <= ServerCount.MAX_PRIZES)%Z ->
     (Z.of_nat (length (nodup string_dec
                          (told_winners
                             (fst (serve ServerCount.exec ServerCount.draw c arr s)))))
      <= ServerCount.MAX_PRIZES)%Z).
Proof.
  split; [|split; [|split]].
  - intros reqs sch s' ths'. apply pg_cap.
  - intros reqs sch s' ths'. apply my_cap.
  - intros arr Hr. split.
    + destruct (serve_as_schedule _ _ _ Db.exec (ServerPg.draw e) (pg_plain e)
                  arr (Db.seeded n) [] Hr) as (sch & ended & Hs & Ho).
      simpl in Hs, Ho.
      rewrite <- (count_won_replies _ _ Ho).
      eapply pg_cap. exact Hs.
    + destruct (serve_as_schedule _ _ _ Db.exec (ServerMysql.draw e) (my_plain e)
                  arr (Db.seeded n) [] Hr) as (sch & ended & Hs & Ho).
      simpl in Hs, Ho.
      rewrite <- (count_won_replies _ _ Ho).
      eapply my_cap. exact Hs.
  - intros arr c s. apply told_cap.
Qed.

Lemma C1_witness :
  match sched_run Db.exec race_schedule (Db.seeded 1)
                  (map (ServerPg.draw env0) race_requests) with
  | Some (s', ths') =>
      replies ths' =
        [Some (json_draw false (Some "no_prizes_left") 0%Z);
         Some (json_draw true None 0%Z)] /\
      count_won (replies ths') <= 1
  | None => False
  end /\
  (Z.of_nat (length (nodup string_dec
                       (told_winners
                          (fst (serve ServerCount.exec ServerCount.draw 0
                                      eleven_times ServerCount.empty)))))
   <= ServerCount.MAX_PRIZES)%Z.
Proof.
  split.
  - destruct (sched_run Db.exec race_schedule (Db.seeded 1)
                        (map (ServerPg.draw env0) race_requests))
      as [[s' ths']|] eqn:E.
    + split.
      * vm_compute in E. inversion E. reflexivity.
      * exact (proj1 (C1_pool_cap 1 env0) race_requests race_schedule s' ths' E).
    + vm_compute in E. discriminate.
  - apply (proj2 (proj2 (proj2 (C1_pool_cap 0 env0)))). discriminate.
Defined.

(** On part_002 one device that has won and asks again is told [won: true]
    every time: eleven requests receive [won: true], one more than
    [MAX_PRIZES], with a single winner stored. *)
Lemma C1_counterexample :
  let out := serve ServerCount.exec ServerCount.draw 0 eleven_times ServerCount.empty in
  count says_won (map s_reply (fst out)) = 11 /\
  (ServerCount.MAX_PRIZES < 11)%Z /\
  ServerCount.count_won (snd out) = 1.
Proof. repeat split. Qed.

(** C2.  A race for the last free token: the store is at rest with exactly
    one free token, and more than one draw request, each from a new device
    and each with a rate that passes the gate, reaches [tryClaimPrize]; their
    statements interleave in any way and none fails.  Once all are
    answered, exactly one was told it won — the one whose claim returned
    true, since the handler answers [won:true] exactly then — and every other
    one was told [no_prizes_left]; the token is claimed for the winner's
    device, no token is free, and no claim committed before the race was
    lost.  Shown for src/server.js (SKIP LOCKED inside a transaction) and for
    part_001 (autocommitted UPDATE ... LIMIT 1). *)
Theorem C2_no_double_claim_under_race (e : env) (s0 : Db.db)
    (reqs : list request) (sch : list (nat * action)) :
  Db.settled s0 = true -> avail s0 = 1 -> 1 < length reqs ->
  NoDup (map PgPhases.device reqs) -> forallb (racer e s0) reqs = true ->
  no_faults sch = true ->
  (forall (s' : Db.db) (ths' : list (thread Db.stmt Db.result)),
     sched_run Db.exec sch s0 (map (ServerPg.draw e) reqs) = Some (s', ths') ->
     all_replied ths' = true ->
     race_outcome s0 reqs s' ths') /\
  (forall (s' : Db.db) (ths' : list (thread Db.stmt Db.result)),
     sched_run Db.exec sch s0 (map (ServerMysql.draw e) reqs) = Some (s', ths') ->
     all_replied ths' = true ->
     race_outcome s0 reqs s' ths').
Proof.
  intros Hs Hav Hk Hd Hr Hf. split; intros s' ths' H Hall.
  - eapply pg_race; eassumption.
  - eapply my_race; eassumption.
Qed.

Lemma C2_witness :
  match sched_run Db.exec race_schedule (Db.seeded 1)
                  (map (ServerPg.draw env0) race_requests) with
  | Some (s', ths') =>
      all_replied ths' = true /\ race_outcome (Db.seeded 1) race_requests s' ths'
  | None => False
  end /\
  match sched_run Db.exec race_schedule_my (Db.seeded 1)
                  (map (ServerMysql.draw env0) race_requests) with
  | Some (s', ths') =>
      all_replied ths' = true /\ race_outcome (Db.seeded 1) race_requests s' ths'
  | None => False
  end.
Proof.
  assert (Hd : NoDup (map PgPhases.device race_requests)).
  { repeat constructor; simpl; intuition discriminate. }
  split.
  - destruct (sched_run Db.exec race_schedule (Db.seeded 1)
                        (map (ServerPg.draw env0) race_requests))
      as [[s' ths']|] eqn:E.
    + assert (Hall : all_replied ths' = true)
        by (vm_compute in E; inversion E; reflexivity).
      split; [exact Hall|].
      exact (proj1 (C2_no_double_claim_under_race env0 (Db.seeded 1) race_requests
                      race_schedule eq_refl eq_refl (Nat.lt_succ_diag_r 1) Hd
                      eq_refl eq_refl) s' ths' E Hall).
    + vm_compute in E. discriminate.
  - destruct (sched_run Db.exec race_schedule_my (Db.seeded 1)
                        (map (ServerMysql.draw env0) race_requests))
      as [[s' ths']|] eqn:E.
    + assert (Hall : all_replied ths' = true)
        by (vm_compute in E; inversion E; reflexivity).
      split; [exact Hall|].
      exact (proj2 (C2_no_double_claim_under_race env0 (Db.seeded 1) race_requests
                      race_schedule_my eq_refl eq_refl (Nat.lt_succ_diag_r 1) Hd
                      eq_refl eq_refl) s' ths' E Hall).
    + vm_compute in E. discriminate.
Defined.
